(* ===== verification/_CoqProject ===== *)
-Q . S2P
Prelude.v
GoStd.v
NetIP.v
External.v
Instances.v
Adapter.v
Persist.v
DerpProto.v
FrameConn.v
DerpCapture.v
DerpRelay.v
DerpRelaySpec.v
DerpConfig.v
DerpTunnel.v
DerpTunnelSpec.v
DerpSessionSpec.v
DerpDrainSpec.v
DerpReplay.v
DerpInject.v
DerpSendSpec.v
TsProto.v
MapStream.v
UpstreamPool.v
UpstreamPoolSpec.v
TunnelConc.v
TunnelConcSpec.v
H2Serve.v
Trace.v
NoiseConfig.v
ExternalControl.v
ControlInstances.v
Bindings.v
NoiseCapture.v
KeySub.v
NoiseTunnel.v
NoiseInstances.v
NoiseTunnelSpec.v
NoiseReplay.v
NoiseInject.v
NoiseSendSpec.v
Config.v
Registration.v
Dispatch.v
Reconnect.v
Main.v
