(* ===== verification/Prelude.v ===== *)
(** * Sidescale: a verification development

    Sidescale is a sidecar process that registers with a host (sectool) and sits
    in the middle of Tailscale traffic. It has two surfaces. The control surface
    terminates the Noise handshake of a client's [/ts2021] stream, opens (or
    shares) an upstream Noise connection of its own, and captures every HTTP/2
    request inside; it can replay and inject such requests. The DERP surface
    either relays a DERP connection frame by frame (relay mode) or answers it from
    a synthetic relay without an upstream (terminate mode); it can replay and
    inject frames. A dispatcher routes the streams, sends, tool calls and the
    shutdown of a connection to the surfaces, and a loop reconnects to the host.

    ** Parts: files of this library and files under src/sidescale

    - [Prelude] (this file): bytes, Go errors and results, notations (scope
      [go_scope]), tactics, hint databases, list lemmas.
    - [GoStd], [NetIP]: the standard library functions the source calls, computed
      (encoding/binary, strings, strconv, hex, base64, net/netip).
    - [External], [ExternalControl]: one type class per third-party package, its
      laws in a separate class, and the effect monad. [Instances],
      [ControlInstances], [NoiseInstances]: small executable instances, which the
      witnesses evaluate and no theorem depends on.
    - [Trace]: reasoning about the events a computation emits.
    - [Adapter] (adapter/upstream.go, keys.go, constants.go), [Persist]
      (adapter/keys.go, instance.go): upstream addresses, per-client identities,
      key files and the instance id over a file system with faults.
    - DERP: [DerpProto] (derp/derpproto/codec.go), [FrameConn] (frameConn of
      derp/tunnel.go), [DerpCapture] (capture.go), [DerpRelay] (relay.go),
      [DerpConfig] (config.go, keys.go), [DerpTunnel] (tunnel.go, handler.go,
      shutdown.go and the sessions of relay.go), [DerpReplay] (replay.go),
      [DerpInject] (injection.go); the properties that take many lemmas are in
      [DerpRelaySpec], [DerpTunnelSpec], [DerpSessionSpec], [DerpDrainSpec] and
      [DerpSendSpec].
    - Control: [TsProto] (tsproto/mapresponse.go, earlynoise.go, noise.go),
      [MapStream] (noise/mapstream.go, flushingCopy of tsproto/http2tunnel.go),
      [UpstreamPool] and [UpstreamPoolSpec] (upstreampool.go), [TunnelConc] and
      [TunnelConcSpec] (getOrCreateUpstream, forwardTunnel, healUpstream and
      closeTunnel as goroutines with program counters), [H2Serve] (ServeH2Conn of
      http2tunnel.go and its listener), [NoiseConfig] (config.go, keys.go),
      [Bindings] (bindings/bindings.go, bindingkeys.go), [NoiseCapture]
      (capture.go), [KeySub] (keysub.go), [NoiseTunnel] and [NoiseTunnelSpec]
      (tunnel.go, handler.go, shutdown.go, the bridge of http2tunnel.go, the
      handshake wrappers of tsproto/noise.go), [NoiseReplay] (replay.go),
      [NoiseInject] (injection.go), [NoiseSendSpec].
    - Process: [Config] (config.go, run of main.go), [Registration]
      (registration.go, routeOpen of dispatch.go), [Dispatch] (dispatch.go and the
      wiring of serveSession), [Reconnect] (serveForever and serveSession), [Main]
      (the command line, main and the exit status).

    Definitions keep the names of the source; a function that the source writes as
    one body with early returns is sometimes a chain of definitions, one per stage.

    ** State and effects

    The DERP handler's registry and the synthetic relay are threaded explicitly:
    records with the fields of the Go structs, where a pointer shared by several
    maps is an identifier into a store ([relayClient], [sharedUpstream]). Every
    critical section of a mutex is one definition. Everything visible outside is an
    event ([External.event]): flows pushed and completed, log lines, bytes written,
    connections dialed and closed, upstream references acquired and released. A
    computation of type [eff A] extends the trace of events, and what the host, the
    rules of the operator, the peers and the clock answer is an arbitrary function
    of the trace so far (classes [Env], [Network], [Rand], [Core], [HTTP]): a
    theorem over every instance holds for every behaviour of the outside. Reading
    a connection consumes a script of chunks and errors. File system calls
    ([Persist.fsM]) may each fail, and a failed write may leave a prefix behind. A
    Go panic is the outer [None] of an option.

    ** Concurrency

    Where goroutines of one component share state the model interleaves. The
    upstream pool is a step relation ([UpstreamPool.pool_step]) over its critical
    sections, with tunnels that bind, heal and close, and its theorems hold in
    every reachable state. [TunnelConc] refines it: any number of goroutines, each
    with a program counter between two critical sections, run the source's
    functions over the pool and the tunnels, and the tokens that the pool's
    relation hands out are the references that the program counters hold. The
    server side of a tunnel is a step relation over its three goroutines
    ([H2Serve.step]). The critical sections of the relay, those of a drain
    included, interleave in [DerpRelaySpec.relay_step], under any tunnel ids; the
    one interleaving it leaves out is a frame that a client dropped by a drain had
    read, once two clients have joined under its key behind the drain
    ([dropped_sender_receives] shows what it does). The range over the map of key
    substituters may visit it in any order; the two pumps of a relayed tunnel take turns by an arbitrary
    scheduler ([net_sched]), and so do the two drains of a shutdown. What a control
    tunnel sees of the other goroutines (the pool's answers, the drain flag, the
    table of tunnels) is an oracle of the history ([NoiseTunnel.NoiseEnv]), under
    which one stream's requests, and the streams of a session, are served one
    after the other; a goroutine that outlives a send is a value the send returns
    ([NoiseReplay.background]).

    ** What the theorems show

    - Framing: [SplitFrame_spec], [ReadFrame_correct] and [stream_reassembly]
      (frames are recovered in order however the stream is cut, within a bounded
      buffer), [frame_codec_roundtrip] (decoding a frame for display and encoding
      it again), [map_stream_relay] and [map_stream_parent_completed] (the map
      stream reader refines a loop over the frames, and always finishes).
    - DERP relaying: [captureFrame_spec], [pump_transparent], [bridge_terminates],
      [openUpstream_login], [runTunnel_lifecycle]. The three life cycles of the
      DERP surface ([runTunnel_lifecycle], [runTerminate_lifecycle],
      [send_lifecycle]) read every dial, login and envelope with what the outside
      answered ([life]), so that a completion is due exactly when sectool captured
      the envelope, and under the id it gave.
    - The synthetic relay: [relay_invariant], [route_spec], [fighters_disabled],
      [departure], [gone_announced], [runTerminate_lifecycle], [drain_spec].
    - DERP sends: [replay_unedited], [inject_spec], [send_lifecycle].
    - Control tunnels: [control_stream_lifecycle] (references, envelopes and
      connections of a stream on every path), [control_requests_answered],
      [control_dial], [inner_exchange], [keysub_setup], [serve_h2_conn] (one
      connection is served, the call returns, and never while the connection is
      open and the context alive).
    - The pool and the requests in flight over it: [pool_refcounts] and
      [pool_drained]; [goroutines_refine_pool] (every interleaving of requests,
      heals, dials, closes and sends is a run of the pool), [concurrent_heals] (a
      tunnel never goes back to an upstream it left, and one failing heal is logged
      between two swaps), [goroutines_progress] (no reachable state is stuck with a
      pending goroutine).
    - Control sends: [control_send_lifecycle], [replay_verbatim],
      [register_replay_rebound], [resigned_requests_verify].
    - The process: [LoadConfig_spec] and [startup_outcome] (a loaded configuration
      is well formed, and startup fails only for what files hold, with one
      exception), [registration_routes] (which streams are routed, set against the
      claims registered),
      [claimed_stream_served] (from a claim through the setup to the answer),
      [shutdown_drains], [reconnect_gives_up], [process_exit] (what ends the
      process, and with which status), [sticky_provider_spec],
      [writeFileAtomic_spec].

    Interfaces carry laws only where a theorem needs them, as named class
    arguments: key and JSON round trips, that a box opens for its recipient, that a
    signature verifies under its own key, that the reassembler is a byte queue,
    that listing a map is a permutation of its values.

    ** Fuel

    Loops that are not structural take fuel, and running out is a value of its own.
    [DerpTunnel.bridge_fuel] and [MapStream.fill_fuel] are one more than what the
    scripts can make a loop do, and [bridge_terminates] and
    [map_stream_parent_completed] show that they are never used up; the terminate
    loop takes what its script holds. The control computations are shown to end for
    some fuel and to give the same result with any more ([Trace.ends]). A
    certificate file needs no more rounds than it has bytes ([parseCertChain]). The
    reconnect loop may run for ever on a healthy host; fifteen attempts suffice on a
    dead one. Decimal rendering takes twenty digits, which hold 64 bits.

    ** Not modelled

    The HTTP/2 framing of net/http and the bodies of its loops (what comes out of
    them is the list of requests of [HTTP], and that a served connection ends when
    it is closed); the Noise cryptography, X.509, JSON grammars, zstd and the URL
    grammar (interfaces); panics in the goroutines that serve a session, beyond
    those the definitions name with an outer [None]; deadlines beyond being set and cleared; the texts of the
    two JSON schemas; the details of log lines. The keep-alive ticker of a
    terminate client is one tick. Cancellation is modelled where the source looks
    at it. Of requests that one client has in flight together the interleavings
    are those of the pool, the bindings of tunnels to upstreams and the heals
    ([TunnelConc]); what each request captures and answers is modelled request by
    request ([NoiseTunnel]). *)

From Stdlib Require Import Init.Byte Strings.Byte Lia ZArith.
From stdpp Require Import base option list gmap sets strings countable.

(** ** Data shared by every component *)

(** A Go [[]byte]; where the code tells [nil] from an empty slice the model
    uses [option bytes]. *)
Abbreviation bytes := (list Byte.byte).

#[export] Instance byte_eq_dec : EqDecision Byte.byte := Byte.byte_eq_dec.
#[export] Instance byte_countable : Countable Byte.byte.
Proof.
  apply (inj_countable' Byte.to_N (λ n, default x00 (Byte.of_N n))).
  intros b. by rewrite Byte.of_to_N.
Defined.
#[export] Instance byte_inhabited : Inhabited Byte.byte := populate x00.

(** Go [error] values: [errors.New], [fmt.Errorf] without and with [%w]. The
    format string is the source's, the arguments are already rendered. *)
Inductive error :=
  | ErrNew (msg : string)
  | ErrFmt (fmt : string) (args : list string)
  | ErrWrap (fmt : string) (args : list string) (cause : error).

(** A Go [(T, error)] pair whose value is only meaningful without an error. *)
Inductive result (A : Type) :=
  | Ok (a : A)
  | Err (e : error).
Arguments Ok {A} a.
Arguments Err {A} e.

#[export] Instance result_ret : MRet result := λ A a, Ok a.
#[export] Instance result_bind : MBind result := λ A B k m,
  match m with Ok a => k a | Err e => Err e end.
#[export] Instance result_fmap : FMap result := λ A B f m,
  match m with Ok a => Ok (f a) | Err e => Err e end.

(** [errors.Is(err, target)] on the wrapping structure above; sentinels are
    compared structurally. *)
#[export] Instance error_eq_dec : EqDecision error.
Proof.
  refine (fix go (x y : error) : Decision (x = y) :=
    match x, y with
    | ErrNew m, ErrNew m' => cast_if (decide (m = m'))
    | ErrFmt f a, ErrFmt f' a' => cast_if_and (decide (f = f')) (decide (a = a'))
    | ErrWrap f a c, ErrWrap f' a' c' =>
        cast_if_and3 (decide (f = f')) (decide (a = a')) (go c c')
    | _, _ => right _
    end); clear go; abstract congruence.
Defined.

Fixpoint errors_Is (e target : error) : bool :=
  bool_decide (e = target) ||
  match e with ErrWrap _ _ c => errors_Is c target | _ => false end.

(** ** Notations of the development *)

Declare Scope go_scope.
Delimit Scope go_scope with go.
(** Go's [len]. *)
Notation "'len' b" := (Z.of_nat (length b)) (at level 10, b at level 9) : go_scope.
(** Go's [b[lo:hi]], used by the code only where its guards keep it in range. *)
Notation "b '.[' lo ':' hi ']'" :=
  (take (Z.to_nat hi - Z.to_nat lo) (drop (Z.to_nat lo) b))
  (at level 1, lo at level 50, hi at level 50, left associativity) : go_scope.

(** ** Tactics *)

(** Case analysis on the conditionals of the code, with arithmetic clean-up. *)
Ltac go_case :=
  match goal with
  | |- context [if decide ?P then _ else _] => destruct (decide P)
  | |- context [if Z.ltb ?a ?b then _ else _] => destruct (Z.ltb_spec a b)
  | |- context [if Z.leb ?a ?b then _ else _] => destruct (Z.leb_spec a b)
  | |- context [if Z.eqb ?a ?b then _ else _] => destruct (Z.eqb_spec a b)
  end.
Ltac go_cases := repeat (go_case; try lia); simplify_eq/=; try done.

(** Pass a guard that returns early with something else. *)
Ltac guard_case E :=
  match goal with |- (if ?b then _ else _) = _ → _ => destruct b eqn:E; [done|] end.

(** Unfold a [result] equation to its successful branch. *)
Ltac res_inv H :=
  repeat match type of H with
  | context [match ?x with Ok _ => _ | Err _ => _ end] => destruct x eqn:?
  | context [if ?x then _ else _] => destruct x eqn:?
  end; simplify_eq/=.

(** ** Generic lemmas *)

Section lists.
Context {A : Type}.
Implicit Types l f R buf rest : list A.

Lemma take_app_exact l1 l2 n : length l1 = n → take n (l1 ++ l2) = l1.
Proof. intros <-. by rewrite take_app_length. Qed.

Lemma drop_app_exact l1 l2 n : length l1 = n → drop n (l1 ++ l2) = l2.
Proof. intros <-. by rewrite drop_app_length. Qed.

Lemma length_take_le' l n : n ≤ length l → length (take n l) = n.
Proof. intros. rewrite length_take. lia. Qed.

(** A stream that starts with [f]: [f] is buffered already, or the buffer is a
    strict prefix of it. *)
Lemma stream_cases f R buf rest :
  buf ++ rest = f ++ R →
  (∃ r0, buf = f ++ r0 ∧ r0 ++ rest = R) ∨ (∃ k, f = buf ++ k ∧ k ≠ [] ∧ rest = k ++ R).
Proof.
  intros E. destruct (app_eq_app _ _ _ _ E) as [k [[Hk HR]|[Hk HR]]]; [by left; eauto|].
  destruct k as [|x k]; [|right; by eauto].
  left. exists []. rewrite app_nil_r in *. by subst.
Qed.
End lists.

Create HintDb go.
Create Rewrite HintDb go.
#[export] Hint Rewrite @length_app @length_drop @length_cons @length_nil : go.
#[export] Hint Resolve take_app_exact drop_app_exact length_take_le' : go.
