(* ===== verification/GoStd.v ===== *)
(** * The Go standard library used by sidescale

    [encoding/binary], [strings], [strconv], [encoding/base64] and
    [encoding/hex] as executable functions, with the laws the components use.
    Strings are Go strings, byte sequences. *)

From Stdlib Require Import Init.Byte Strings.Byte Lia ZArith Ascii String.
From stdpp Require Import base option list gmap sets strings.
From S2P Require Import Prelude.
Open Scope Z_scope.

(** A property of a range of integers, checked by evaluation. *)
Lemma seqZ_check (f : Z → bool) lo n :
  forallb f (seqZ lo n) = true → ∀ d, lo ≤ d < lo + n → f d = true.
Proof.
  intros H d Hd. rewrite List.forallb_forall in H.
  apply H, list_elem_of_In, elem_of_seqZ. lia.
Qed.

(** ** Bytes as integers *)

Definition Z_of_byte (b : Byte.byte) : Z := Z.of_N (Byte.to_N b).

(** Go's [byte(z)] conversion: truncation to eight bits. *)
Definition byte_of_Z (z : Z) : Byte.byte :=
  default x00 (Byte.of_N (Z.to_N (z `mod` 256))).

Lemma Z_of_byte_bound b : 0 ≤ Z_of_byte b < 256.
Proof. unfold Z_of_byte. pose proof (Byte.to_N_bounded b). lia. Qed.

Lemma Z_of_byte_of_Z z : Z_of_byte (byte_of_Z z) = z `mod` 256.
Proof.
  unfold Z_of_byte, byte_of_Z.
  pose proof (Z.mod_pos_bound z 256 ltac:(lia)) as Hb.
  destruct (Byte.of_N (Z.to_N (z `mod` 256))) as [b|] eqn:E; simpl.
  - apply Byte.to_of_N in E. rewrite E. lia.
  - apply Byte.of_N_None_iff in E. lia.
Qed.

Lemma byte_of_Z_of_byte b : byte_of_Z (Z_of_byte b) = b.
Proof.
  unfold byte_of_Z, Z_of_byte. pose proof (Byte.to_N_bounded b).
  rewrite Z.mod_small by lia. rewrite N2Z.id, Byte.of_to_N. done.
Qed.

Lemma byte_of_Z_inj b1 b2 : Z_of_byte b1 = Z_of_byte b2 → b1 = b2.
Proof. intros E. rewrite <-(byte_of_Z_of_byte b1), E. apply byte_of_Z_of_byte. Qed.

(** ** encoding/binary *)

Fixpoint le_put (n : nat) (z : Z) : bytes :=
  match n with O => [] | S n => byte_of_Z z :: le_put n (z / 256) end.

Fixpoint le_get (b : bytes) : Z :=
  match b with [] => 0 | c :: b => Z_of_byte c + 256 * le_get b end.

Definition be_put (n : nat) (z : Z) : bytes := reverse (le_put n z).
Definition be_get (b : bytes) : Z := le_get (reverse b).

(** [binary.BigEndian.PutUint32], [.Uint32], [.PutUint16], [.Uint16] and the
    little-endian pair; the argument is truncated to the width as in Go. *)
Definition be_PutUint32 := be_put 4.
Definition be_PutUint16 := be_put 2.
Definition le_PutUint32 := le_put 4.

Lemma length_le_put n z : length (le_put n z) = n.
Proof. revert z. induction n; simpl; auto. Qed.

Lemma length_be_put n z : length (be_put n z) = n.
Proof. unfold be_put. by rewrite length_reverse, length_le_put. Qed.

Lemma le_get_bound b : 0 ≤ le_get b < 256 ^ Z.of_nat (length b).
Proof.
  induction b as [|c b IH]; [simpl; lia|].
  cbn [le_get length]. rewrite Nat2Z.inj_succ, Z.pow_succ_r by lia.
  pose proof (Z_of_byte_bound c). lia.
Qed.

Lemma be_get_bound b : 0 ≤ be_get b < 256 ^ Z.of_nat (length b).
Proof. unfold be_get. rewrite <-(length_reverse b). apply le_get_bound. Qed.

Lemma le_get_put n z : le_get (le_put n z) = z `mod` 256 ^ Z.of_nat n.
Proof.
  revert z. induction n as [|n IH]; intros z; [by rewrite Z.mod_1_r|].
  cbn [le_get le_put]. rewrite IH, Z_of_byte_of_Z.
  rewrite Nat2Z.inj_succ, Z.pow_succ_r by lia.
  pose proof (Z.pow_pos_nonneg 256 (Z.of_nat n)).
  rewrite Z.rem_mul_r by lia. lia.
Qed.

Lemma le_put_get b : le_put (length b) (le_get b) = b.
Proof.
  induction b as [|c b IH]; [done|]. cbn [le_put le_get length].
  pose proof (Z_of_byte_bound c).
  f_equal.
  - apply byte_of_Z_inj. rewrite Z_of_byte_of_Z.
    rewrite (Z.mul_comm 256), Z_mod_plus_full, Z.mod_small by lia. done.
  - rewrite (Z.mul_comm 256), Z_div_plus_full, Z.div_small by lia. exact IH.
Qed.

Lemma be_get_put n z : be_get (be_put n z) = z `mod` 256 ^ Z.of_nat n.
Proof. unfold be_get, be_put. rewrite reverse_involutive. apply le_get_put. Qed.

Lemma be_put_get n b : length b = n → be_put n (be_get b) = b.
Proof.
  intros <-. unfold be_get, be_put. rewrite <-(length_reverse b).
  rewrite le_put_get. apply reverse_involutive.
Qed.

Lemma le_put_get_n n b : length b = n → le_put n (le_get b) = b.
Proof. intros <-. apply le_put_get. Qed.

Lemma be_get_put_small n z :
  0 ≤ z < 256 ^ Z.of_nat n → be_get (be_put n z) = z.
Proof. intros. rewrite be_get_put. by apply Z.mod_small. Qed.

Lemma le_get_put_small n z :
  0 ≤ z < 256 ^ Z.of_nat n → le_get (le_put n z) = z.
Proof. intros. rewrite le_get_put. by apply Z.mod_small. Qed.

#[export] Hint Rewrite length_le_put length_be_put : go.

(** ** strings

    [EqualFold] and [ToLower] are exact when one side is ASCII, which every
    call in the code guarantees (the constant header names and keys); the two
    non-ASCII runes that fold or lower onto ASCII letters are included. *)

Definition byte_char (n : Z) : ascii := ascii_of_N (Z.to_N n).
Definition char_Z (a : ascii) : Z := Z.of_N (N_of_ascii a).

Definition lower_char (a : ascii) : ascii :=
  if (65 <=? char_Z a) && (char_Z a <=? 90) then byte_char (char_Z a + 32) else a.

Definition is3 (a b c : ascii) (x y z : Z) : bool :=
  (char_Z a =? x) && (char_Z b =? y) && (char_Z c =? z).

(** U+212A lowers to [k], U+0130 to [i]. *)
Fixpoint ToLower (s : string) : string :=
  match s with
  | EmptyString => EmptyString
  | String a s1 =>
      match s1 with
      | String b s2 =>
          if (char_Z a =? 196) && (char_Z b =? 176) then String "i" (ToLower s2)
          else match s2 with
               | String c s3 =>
                   if is3 a b c 226 132 170 then String "k" (ToLower s3)
                   else String (lower_char a) (ToLower s1)
               | EmptyString => String (lower_char a) (ToLower s1)
               end
      | EmptyString => String (lower_char a) EmptyString
      end
  end.

(** Case folding: U+212A folds with [k], U+017F with [s]. *)
Fixpoint fold_case (s : string) : string :=
  match s with
  | EmptyString => EmptyString
  | String a s1 =>
      match s1 with
      | String b s2 =>
          if (char_Z a =? 197) && (char_Z b =? 191) then String "s" (fold_case s2)
          else match s2 with
               | String c s3 =>
                   if is3 a b c 226 132 170 then String "k" (fold_case s3)
                   else String (lower_char a) (fold_case s1)
               | EmptyString => String (lower_char a) (fold_case s1)
               end
      | EmptyString => String (lower_char a) EmptyString
      end
  end.

Definition EqualFold (s t : string) : bool := String.eqb (fold_case s) (fold_case t).

Lemma EqualFold_refl s : EqualFold s s = true.
Proof. apply String.eqb_refl. Qed.

Fixpoint strip_prefix (p s : string) : option string :=
  match p, s with
  | EmptyString, _ => Some s
  | String a p, String b s => if Ascii.eqb a b then strip_prefix p s else None
  | String _ _, EmptyString => None
  end.

Definition HasPrefix (s p : string) : bool :=
  match strip_prefix p s with Some _ => true | None => false end.
Definition TrimPrefix (s p : string) : string := default s (strip_prefix p s).

Lemma strip_prefix_app p s : strip_prefix p (p ++ s)%string = Some s.
Proof. induction p as [|a p IH]; [done|]. simpl. by rewrite Ascii.eqb_refl. Qed.

Lemma strip_prefix_Some p s r : strip_prefix p s = Some r → s = (p ++ r)%string.
Proof.
  revert s. induction p as [|a p IH]; intros s; simpl; [by intros [= ->]|].
  destruct s as [|b s]; [done|]. destruct (Ascii.eqb_spec a b); [|done].
  intros ?%IH. by subst.
Qed.

Lemma HasPrefix_app p s : HasPrefix (p ++ s) p = true.
Proof. unfold HasPrefix. by rewrite strip_prefix_app. Qed.

Lemma TrimPrefix_app p s : TrimPrefix (p ++ s) p = s.
Proof. unfold TrimPrefix. by rewrite strip_prefix_app. Qed.

(** [strings.Contains]. *)
Fixpoint Contains (s sub : string) : bool :=
  HasPrefix s sub || match s with EmptyString => false | String _ s => Contains s sub end.

Definition CRLF : string := String (byte_char 13) (String (byte_char 10) EmptyString).

(** [strings.Cut] with a one-character separator. *)
Fixpoint Cut (s : string) (sep : ascii) : string * string * bool :=
  match s with
  | EmptyString => (EmptyString, EmptyString, false)
  | String a s' =>
      if Ascii.eqb a sep then (EmptyString, s', true)
      else let '(x, y, ok) := Cut s' sep in (String a x, y, ok)
  end.

(** The bytes of a string and back. *)
Abbreviation to_bytes := String.list_byte_of_string.
Abbreviation of_bytes := String.string_of_list_byte.

Lemma of_to_bytes s : of_bytes (to_bytes s) = s.
Proof. apply String.string_of_list_byte_of_string. Qed.
Lemma to_of_bytes b : to_bytes (of_bytes b) = b.
Proof. apply String.list_byte_of_string_of_list_byte. Qed.

(** [bytes.TrimSpace]: the UTF-8 encodings of Unicode White_Space, by their
    length; on the right the encoding is read backwards. *)
Definition space3 (a b c : Byte.byte) : bool :=
  match a, b, c with
  | xe1, x9a, x80 | xe2, x80, xa8 | xe2, x80, xa9 | xe2, x80, xaf | xe2, x81, x9f | xe3, x80, x80 => true
  | xe2, x80, c => (128 <=? Z_of_byte c) && (Z_of_byte c <=? 138)
  | _, _, _ => false
  end.

Definition space1 (a : Byte.byte) : bool :=
  match a with x09 | x0a | x0b | x0c | x0d | x20 => true | _ => false end.

Definition space2 (a b : Byte.byte) : bool :=
  match a, b with xc2, x85 | xc2, xa0 => true | _, _ => false end.

Fixpoint trim_with (swap : bool) (fuel : nat) (l : bytes) : bytes :=
  match fuel with
  | O => l
  | S fuel =>
      match l with
      | a :: r1 =>
          if space1 a then trim_with swap fuel r1
          else match r1 with
               | b :: r2 =>
                   if (if swap then space2 b a else space2 a b) then trim_with swap fuel r2
                   else match r2 with
                        | c :: r3 => if (if swap then space3 c b a else space3 a b c)
                                     then trim_with swap fuel r3 else l
                        | [] => l
                        end
               | [] => l
               end
      | [] => l
      end
  end.

Definition TrimSpace (b : bytes) : bytes :=
  let l := trim_with false (length b) b in
  rev (trim_with true (length l) (rev l)).

Example TrimSpace_sample :
  TrimSpace (to_bytes "  key  " ++ [xe2; x80; x89; x0a]) = to_bytes "key".
Proof. reflexivity. Qed.

(** [net.JoinHostPort]. *)
Definition JoinHostPort (host port : string) : string :=
  if Contains host ":" then ("[" ++ host ++ "]:" ++ port)%string else (host ++ ":" ++ port)%string.

(** [strings.Join]. *)
Fixpoint Join (l : list string) (sep : string) : string :=
  match l with
  | [] => EmptyString
  | [x] => x
  | x :: l => (x ++ sep ++ Join l sep)%string
  end.

(** ** strconv *)

Definition digit_char (d : Z) : ascii := byte_char (48 + d).

(** Decimal digits of [n], most significant first, in front of [acc]. *)
Fixpoint dec_digits (fuel : nat) (n : Z) (acc : string) : string :=
  match fuel with
  | O => acc
  | S fuel =>
      let acc := String (digit_char (n `mod` 10)) acc in
      if n <? 10 then acc else dec_digits fuel (n / 10) acc
  end.

(** [strconv.FormatUint(n, 10)]; twenty digits hold every [uint64]. *)
Definition FormatUint (n : Z) : string := dec_digits 20 n EmptyString.

(** [strconv.Itoa] on a 64-bit [int]. *)
Definition Itoa (n : Z) : string :=
  if n <? 0 then String "-" (FormatUint (- n)) else FormatUint n.

Definition FormatBool (b : bool) : string := if b then "true" else "false".

(** A numeric conversion returns a value even when it reports an error; code
    that drops the error uses that value. *)
Inductive num_err := NumOk | NumSyntax | NumRange.

Definition lower_bit (a : ascii) : Z := Z.lor (char_Z a) 32.

Definition digit_val (a : ascii) : option Z :=
  let c := char_Z a in
  if (48 <=? c) && (c <=? 57) then Some (c - 48)
  else if (97 <=? lower_bit a) && (lower_bit a <=? 122) then Some (lower_bit a - 97 + 10)
  else None.

(** The accumulation loop of [strconv.ParseUint]. *)
Fixpoint parse_uint_loop (base maxVal : Z) (base0 : bool) (s : string) (n : Z) (us : bool)
  : Z * num_err * bool :=
  match s with
  | EmptyString => (n, NumOk, us)
  | String a s =>
      if base0 && Ascii.eqb a "_" then parse_uint_loop base maxVal base0 s n true
      else match digit_val a with
           | None => (0, NumSyntax, us)
           | Some d =>
               if base <=? d then (0, NumSyntax, us)
               else if maxVal <? n * base + d then (maxVal, NumRange, us)
               else parse_uint_loop base maxVal base0 s (n * base + d) us
           end
  end.

(** Underscores separate digits only, [strconv]'s [underscoreOK]; the state is
    the class of the previous character. *)
Inductive us_prev := PrevStart | PrevDigit | PrevUs | PrevOther.

Fixpoint underscore_loop (hex : bool) (i : us_prev) (s : string) : bool :=
  match s with
  | EmptyString => match i with PrevUs => false | _ => true end
  | String a s =>
      let c := char_Z a in
      if ((48 <=? c) && (c <=? 57)) || (hex && (97 <=? lower_bit a) && (lower_bit a <=? 102))
      then underscore_loop hex PrevDigit s
      else if Ascii.eqb a "_" then
        match i with PrevDigit => underscore_loop hex PrevUs s | _ => false end
      else match i with PrevUs => false | _ => underscore_loop hex PrevOther s end
  end.

(** The base prefix: [(base, rest)] as [ParseUint] reads it for base 0. *)
Definition base_prefix (s : string) : Z * string :=
  match s with
  | String z (String p (String c r)) =>
      if Ascii.eqb z "0" then
        if lower_bit p =? 98 then (2, String c r)
        else if lower_bit p =? 111 then (8, String c r)
        else if lower_bit p =? 120 then (16, String c r)
        else (8, String p (String c r))
      else (10, s)
  | String z r => if Ascii.eqb z "0" then (8, r) else (10, s)
  | EmptyString => (10, s)
  end.

Definition underscoreOK (s : string) : bool :=
  let s := match s with
           | String a r => if Ascii.eqb a "-" || Ascii.eqb a "+" then r else s
           | EmptyString => s
           end in
  match s with
  | String z (String p r) =>
      if Ascii.eqb z "0" && ((lower_bit p =? 98) || (lower_bit p =? 111) || (lower_bit p =? 120))
      then underscore_loop (lower_bit p =? 120) PrevDigit r
      else underscore_loop false PrevStart s
  | _ => underscore_loop false PrevStart s
  end.

(** [strconv.ParseUint(s, base, bitSize)] for base 0 or 10 and bit sizes of
    at most 32 (where the 64-bit cut-off cannot be reached first). *)
Definition ParseUint (s : string) (base bitSize : Z) : Z * num_err :=
  let maxVal := 2 ^ bitSize - 1 in
  match s with
  | EmptyString => (0, NumSyntax)
  | _ =>
      let '(b, r) := if base =? 0 then base_prefix s else (base, s) in
      let '(n, e, us) := parse_uint_loop b maxVal (base =? 0) r 0 false in
      match e with
      | NumOk => if us && negb (underscoreOK s) then (0, NumSyntax) else (n, NumOk)
      | _ => (n, e)
      end
  end.

Definition max_int : Z := 2 ^ 63 - 1.
Definition min_int : Z := - 2 ^ 63.

(** [strconv.Atoi] on a 64-bit platform: a range error clamps. *)
Definition Atoi (s : string) : Z * num_err :=
  let go (neg : bool) (r : string) :=
    match r with
    | EmptyString => (0, NumSyntax)
    | _ =>
        match parse_uint_loop 10 (2 ^ 64 - 1) false r 0 false with
        | (n, NumOk, _) =>
            if negb neg && (max_int <? n) then (max_int, NumRange)
            else if neg && (2 ^ 63 <? n) then (min_int, NumRange)
            else (if neg then - n else n, NumOk)
        | (_, NumRange, _) => (if neg then min_int else max_int, NumRange)
        | (_, NumSyntax, _) => (0, NumSyntax)
        end
    end in
  match s with
  | String a r =>
      if Ascii.eqb a "-" then go true r else if Ascii.eqb a "+" then go false r else go false s
  | EmptyString => (0, NumSyntax)
  end.

Lemma digit_val_char d : 0 ≤ d < 10 → digit_val (digit_char d) = Some d.
Proof.
  intros Hd.
  assert (bool_decide (digit_val (digit_char d) = Some d) = true) as H; [|by case_bool_decide].
  revert d Hd. apply (seqZ_check _ 0 10). vm_compute. done.
Qed.

(** Reading back what [dec_digits] wrote, in front of any suffix. *)
Lemma parse_dec_digits fuel maxVal n acc us :
  0 ≤ n ≤ maxVal → n < 10 ^ Z.of_nat fuel → (0 < fuel)%nat →
  parse_uint_loop 10 maxVal false (dec_digits fuel n acc) 0 us =
  parse_uint_loop 10 maxVal false acc n us.
Proof.
  revert n acc. induction fuel as [|fuel IH]; intros n acc Hn Hf Hp; [lia|].
  assert (0 ≤ n `mod` 10 < 10) as Hm by (apply Z.mod_pos_bound; lia).
  pose proof (Z.div_mod n 10 ltac:(lia)) as Hdm.
  cbn [dec_digits]. destruct (Z.ltb_spec n 10) as [Hlt|Hge].
  - rewrite Z.mod_small by lia. cbn [parse_uint_loop].
    rewrite digit_val_char by lia. simpl andb. cbv iota.
    destruct (Z.leb_spec 10 n); [lia|].
    destruct (Z.ltb_spec maxVal (0 * 10 + n)); [lia|]. done.
  - rewrite Nat2Z.inj_succ, Z.pow_succ_r in Hf by lia.
    assert (0 ≤ n / 10) by (apply Z.div_pos; lia).
    destruct fuel as [|fuel]; [simpl in Hf; lia|].
    rewrite IH by lia.
    cbn [parse_uint_loop]. rewrite digit_val_char by lia. simpl andb. cbv iota.
    destruct (Z.leb_spec 10 (n `mod` 10)); [lia|].
    replace (n / 10 * 10 + n `mod` 10) with n by lia.
    destruct (Z.ltb_spec maxVal n); [lia|]. done.
Qed.

(** What [dec_digits] writes starts with a digit. *)
Lemma dec_digits_head fuel n acc : (0 < fuel)%nat → 0 ≤ n →
  ∃ d s, dec_digits fuel n acc = String (digit_char d) s ∧ 0 ≤ d < 10.
Proof.
  revert n acc. induction fuel as [|fuel IH]; intros n acc Hf Hn; [lia|].
  assert (0 ≤ n `mod` 10 < 10) as Hm by (apply Z.mod_pos_bound; lia).
  cbn [dec_digits]. destruct (n <? 10); [by eauto|].
  destruct fuel as [|fuel]; [by eauto|].
  apply IH; [lia|]. apply Z.div_pos; lia.
Qed.

Lemma digit_char_sign d : 0 ≤ d < 10 →
  Ascii.eqb (digit_char d) "-" = false ∧ Ascii.eqb (digit_char d) "+" = false.
Proof.
  intros Hd. rewrite <-!negb_true_iff. apply andb_prop.
  revert d Hd. apply (seqZ_check _ 0 10). vm_compute. done.
Qed.

Lemma ParseUint_FormatUint n bits :
  0 < bits ≤ 32 → 0 ≤ n < 2 ^ bits → ParseUint (FormatUint n) 10 bits = (n, NumOk).
Proof.
  intros Hb Hn. unfold ParseUint, FormatUint.
  assert (2 ^ bits ≤ 2 ^ 32) by (apply Z.pow_le_mono_r; lia).
  destruct (dec_digits_head 20 n EmptyString ltac:(lia) ltac:(lia)) as (d & s & E & Hd).
  rewrite E. change (10 =? 0) with false. cbv iota zeta beta.
  rewrite <-E, parse_dec_digits by (change (10 ^ Z.of_nat 20) with 100000000000000000000; lia).
  done.
Qed.

Lemma Atoi_Itoa_neg n : min_int ≤ n < 0 → Atoi (Itoa n) = (n, NumOk).
Proof.
  unfold min_int. intros Hn. unfold Itoa.
  destruct (Z.ltb_spec n 0); [|lia]. unfold FormatUint, Atoi.
  change (Ascii.eqb "-" "-") with true. cbv zeta beta iota.
  destruct (dec_digits_head 20 (- n) EmptyString ltac:(lia) ltac:(lia)) as (d & s & E & Hd).
  rewrite E. cbv zeta beta iota.
  rewrite <-E, parse_dec_digits by (change (10 ^ Z.of_nat 20) with 100000000000000000000; lia).
  cbn [parse_uint_loop negb andb].
  destruct (Z.ltb_spec (2 ^ 63) (- n)); [lia|]. f_equal. lia.
Qed.

Lemma Atoi_Itoa n : min_int ≤ n ≤ max_int → Atoi (Itoa n) = (n, NumOk).
Proof.
  unfold max_int. intros Hn. destruct (Z.ltb_spec n 0) as [?|Hp]; [apply Atoi_Itoa_neg; lia|].
  unfold Itoa. destruct (Z.ltb_spec n 0); [lia|]. unfold FormatUint.
  destruct (dec_digits_head 20 n EmptyString ltac:(lia) ltac:(lia)) as (d & s & E & Hd).
  unfold Atoi. rewrite E. destruct (digit_char_sign d Hd) as [-> ->]. cbv zeta beta iota.
  rewrite <-E, parse_dec_digits by (change (10 ^ Z.of_nat 20) with 100000000000000000000; lia).
  cbn [parse_uint_loop negb andb]. unfold max_int.
  destruct (Z.ltb_spec (2 ^ 63 - 1) n); [lia|]. done.
Qed.

(** ** encoding/hex *)

Definition hex_char (d : Z) : ascii := if d <? 10 then byte_char (48 + d) else byte_char (87 + d).

Fixpoint hex_EncodeToString (b : bytes) : string :=
  match b with
  | [] => EmptyString
  | c :: b => String (hex_char (Z_of_byte c / 16))
                (String (hex_char (Z_of_byte c `mod` 16)) (hex_EncodeToString b))
  end.

(** [fmt]'s [%02x] of a byte. *)
Definition hex2 (b : Byte.byte) : string := hex_EncodeToString [b].

(** ** encoding/base64 (StdEncoding) *)

Definition b64_alphabet : string :=
  "ABCDEFGHIJKLMNOPQRSTUVWXYZabcdefghijklmnopqrstuvwxyz0123456789+/".

Definition b64_char (v : Z) : ascii := default "="%char (String.get (Z.to_nat v) b64_alphabet).

Definition b64_val (a : ascii) : option Z :=
  let c := char_Z a in
  if (65 <=? c) && (c <=? 90) then Some (c - 65)
  else if (97 <=? c) && (c <=? 122) then Some (c - 71)
  else if (48 <=? c) && (c <=? 57) then Some (c + 4)
  else if c =? 43 then Some 62 else if c =? 47 then Some 63 else None.

Fixpoint b64_encode (b : bytes) : string :=
  match b with
  | [] => EmptyString
  | [x] => let v := Z_of_byte x * 65536 in
      String (b64_char (v / 262144)) (String (b64_char ((v / 4096) `mod` 64)) "==")
  | [x; y] => let v := Z_of_byte x * 65536 + Z_of_byte y * 256 in
      String (b64_char (v / 262144)) (String (b64_char ((v / 4096) `mod` 64))
        (String (b64_char ((v / 64) `mod` 64)) "="))
  | x :: y :: z :: b =>
      let v := Z_of_byte x * 65536 + Z_of_byte y * 256 + Z_of_byte z in
      String (b64_char (v / 262144)) (String (b64_char ((v / 4096) `mod` 64))
        (String (b64_char ((v / 64) `mod` 64)) (String (b64_char (v `mod` 64)) (b64_encode b))))
  end.

(** Line breaks are skipped wherever they occur. *)
Fixpoint b64_strip (s : string) : string :=
  match s with
  | EmptyString => EmptyString
  | String a s => if (char_Z a =? 10) || (char_Z a =? 13) then b64_strip s
                  else String a (b64_strip s)
  end.

Definition is_pad (a : ascii) : bool := Ascii.eqb a "=".

(** Quantum by quantum; the bytes decoded before a corrupt quantum are still
    returned, and a padded quantum followed by garbage yields its own bytes
    together with the error. *)
Fixpoint b64_quanta (s : string) : bytes * bool :=
  match s with
  | EmptyString => ([], true)
  | String a (String b (String c (String d r))) =>
      match b64_val a, b64_val b with
      | Some va, Some vb =>
          let b0 := byte_of_Z (va * 4 + vb / 16) in
          match b64_val c with
          | Some vc =>
              let b1 := byte_of_Z (vb * 16 + vc / 4) in
              match b64_val d with
              | Some vd => let '(t, ok) := b64_quanta r in
                           (b0 :: b1 :: byte_of_Z (vc * 64 + vd) :: t, ok)
              | None => if is_pad d then ([b0; b1], match r with EmptyString => true | _ => false end)
                        else ([], false)
              end
          | None => if is_pad c && is_pad d
                    then ([b0], match r with EmptyString => true | _ => false end)
                    else ([], false)
          end
      | _, _ => ([], false)
      end
  | _ => ([], false)
  end.

(** [base64.StdEncoding.DecodeString]: the decoded bytes and whether the error
    was nil. *)
Definition b64_decode (s : string) : bytes * bool := b64_quanta (b64_strip s).

Lemma b64_val_char v : 0 ≤ v < 64 →
  b64_val (b64_char v) = Some v ∧
  (char_Z (b64_char v) =? 10) || (char_Z (b64_char v) =? 13) = false.
Proof.
  intros Hv. rewrite <-negb_true_iff.
  rewrite <-(bool_decide_eq_true (b64_val (b64_char v) = Some v)). apply andb_prop.
  revert v Hv. apply (seqZ_check _ 0 64). vm_compute. done.
Qed.

Lemma b64_strip_char v s : 0 ≤ v < 64 →
  b64_strip (String (b64_char v) s) = String (b64_char v) (b64_strip s).
Proof. intros Hv. cbn [b64_strip]. by destruct (b64_val_char v Hv) as [_ ->]. Qed.

(** The sextets of a 24-bit group. *)
Lemma sextets v : 0 ≤ v < 16777216 →
  0 ≤ v / 262144 < 64 ∧ 0 ≤ (v / 4096) `mod` 64 < 64 ∧ 0 ≤ (v / 64) `mod` 64 < 64 ∧ 0 ≤ v `mod` 64 < 64.
Proof. intros. repeat split; try (apply Z.mod_pos_bound; lia); Z.to_euclidean_division_equations; lia. Qed.

Lemma b64_roundtrip b : b64_decode (b64_encode b) = (b, true).
Proof.
  unfold b64_decode.
  induction b as [b IH] using (induction_ltof1 _ (@length _)); unfold ltof in IH.
  destruct b as [|x [|y [|z b]]]; [done|..];
    pose proof (Z_of_byte_bound x); try pose proof (Z_of_byte_bound y);
    try pose proof (Z_of_byte_bound z); cbn [b64_encode]; cbv zeta;
    match goal with |- context [String (b64_char (?v / 262144))] =>
      pose proof (sextets v ltac:(lia)) as (? & ? & ? & ?) end;
    rewrite !b64_strip_char by lia; cbn [b64_quanta];
    rewrite ?(λ v H, proj1 (b64_val_char v H)) by lia.
  - cbn. repeat f_equal. apply byte_of_Z_inj. rewrite Z_of_byte_of_Z.
    Z.to_euclidean_division_equations; lia.
  - cbn. repeat f_equal; apply byte_of_Z_inj; rewrite Z_of_byte_of_Z;
    Z.to_euclidean_division_equations; lia.
  - rewrite IH by (simpl; lia). repeat f_equal; apply byte_of_Z_inj; rewrite Z_of_byte_of_Z;
    Z.to_euclidean_division_equations; lia.
Qed.

Example b64_rfc4648 :
  b64_encode (to_bytes "foobar") = "Zm9vYmFy"%string ∧ b64_encode (to_bytes "foob") = "Zm9vYg=="%string
  ∧ b64_decode "Zm9v!" = (to_bytes "foo", false) ∧ b64_decode "Zg==x" = (to_bytes "f", false).
Proof. vm_compute. done. Qed.
Example strconv_samples :
  Itoa (-7) = "-7"%string ∧ Itoa 0 = "0"%string ∧ Itoa 65535 = "65535"%string
  ∧ ParseUint "0x99" 0 8 = (153, NumOk) ∧ ParseUint "0x100" 0 8 = (255, NumRange)
  ∧ ParseUint "_1" 0 8 = (0, NumSyntax) ∧ ParseUint "1_0" 0 8 = (10, NumOk)
  ∧ ParseUint "017" 0 8 = (15, NumOk) ∧ ParseUint "+1" 10 32 = (0, NumSyntax).
Proof. vm_compute. done. Qed.
Example strings_samples :
  EqualFold "X-Derp-Src-Key" "x-derp-src-KEY" = true ∧ ToLower "PEER_GONE" = "peer_gone"%string
  ∧ HasPrefix "pool:/x" "pool:" = true ∧ TrimPrefix "FRAME_0x99" "FRAME_" = "0x99"%string
  ∧ Cut "/a?b=c" "?" = ("/a", "b=c", true)%string ∧ hex2 x0a = "0a"%string.
Proof. vm_compute. done. Qed.
