(* ===== verification/NetIP.v ===== *)
(** * [net/netip]: the addresses the code formats and parses

    The standard library's [netip.Addr] and [netip.AddrPort], as far as the
    PEER_PRESENT code uses them: [AddrFrom16], [Unmap], [As16],
    [AddrPort.String] and [ParseAddrPort]. The text of the parser's errors is
    not modelled: a failed parse is [None]. *)

From Stdlib Require Import Init.Byte Strings.Byte Lia ZArith Ascii String.
From stdpp Require Import base option list strings.
From S2P Require Import Prelude GoStd.
Open Scope Z_scope.
Open Scope go_scope.

(** The zero [Addr], IPv4, and IPv6 with its zone. *)
Inductive IPAddr :=
  | AddrZero
  | Addr4 (b : bytes)
  | Addr6 (b : bytes) (zone : string).

#[export] Instance IPAddr_eq_dec : EqDecision IPAddr.
Proof. solve_decision. Defined.

Record AddrPort := mkAddrPort { ap_Addr : IPAddr; ap_Port : Z }.

Definition AddrPort_zero : AddrPort := mkAddrPort AddrZero 0.

Definition v4_prefix : bytes := repeat x00 10 ++ [xff; xff].

Definition AddrFrom16 (b : bytes) : IPAddr := Addr6 b EmptyString.

(** [Addr.Unmap]: an IPv4-mapped IPv6 address becomes the IPv4 address. *)
Definition Unmap (a : IPAddr) : IPAddr :=
  match a with
  | Addr6 b _ => if bool_decide (take 12 b = v4_prefix) then Addr4 (drop 12 b) else a
  | _ => a
  end.

Definition As16 (a : IPAddr) : bytes :=
  match a with
  | AddrZero => repeat x00 16
  | Addr4 b => v4_prefix ++ b
  | Addr6 b _ => b
  end.

(** ** Formatting *)

Definition dotted (b : bytes) : string := Join (map (λ c, Itoa (Z_of_byte c)) b) ".".

(** The eight 16-bit groups. *)
Fixpoint groups (b : bytes) : list Z :=
  match b with
  | h :: l :: b => be_get [h; l] :: groups b
  | _ => []
  end.

(** [appendHex]: no leading zeros, at least one digit. *)
Definition group_hex (v : Z) : string :=
  let d n := String (hex_char ((v / 16 ^ n) `mod` 16)) EmptyString in
  ((if (4096 <=? v)%Z then d 3 else "") ++ (if (256 <=? v)%Z then d 2 else "") ++
   (if (16 <=? v)%Z then d 1 else "") ++ d 0)%string.

Fixpoint zero_run (g : list Z) : nat :=
  match g with 0 :: g => S (zero_run g) | _ => O end.

(** The first longest run of at least two zero groups: its start and end. *)
Fixpoint best_run (i : nat) (g : list Z) (best : nat * nat) : nat * nat :=
  match g with
  | [] => best
  | _ :: g' =>
      let l := zero_run g in
      best_run (S i) g' (if (2 <=? l)%nat && (snd best - fst best <? l)%nat
                         then (i, (i + l)%nat) else best)
  end.

Definition string6 (b : bytes) (zone : string) : string :=
  let g := groups b in
  let '(s, e) := best_run 0 g (0%nat, 0%nat) in
  let colons l := Join (map group_hex l) ":" in
  let body := if (s =? e)%nat then colons g
              else (colons (take s g) ++ "::" ++ colons (drop e g))%string in
  (body ++ if bool_decide (zone = EmptyString) then "" else "%" ++ zone)%string.

Definition string4In6 (b : bytes) (zone : string) : string :=
  ("::ffff:" ++ dotted (drop 12 b) ++
   if bool_decide (zone = EmptyString) then "" else "%" ++ zone)%string.

Definition AddrPort_String (ap : AddrPort) : string :=
  match ap_Addr ap with
  | AddrZero => "invalid AddrPort"%string
  | Addr4 b => (dotted b ++ ":" ++ Itoa (ap_Port ap))%string
  | Addr6 b z =>
      let s := if bool_decide (take 12 b = v4_prefix) then string4In6 b z else string6 b z in
      ("[" ++ s ++ "]:" ++ Itoa (ap_Port ap))%string
  end.

(** ** Parsing *)

(** [parseIPv4Fields]; [i0] is the start of the string, [dot] a preceding dot. *)
Fixpoint parse_v4 (s : string) (start dot : bool) (val digLen : Z) (fields : list Z)
    : option (list Z) :=
  match s with
  | EmptyString => if (length fields <? 3)%nat then None else Some (fields ++ [val])
  | String a s' =>
      let c := char_Z a in
      if (48 <=? c) && (c <=? 57) then
        if (digLen =? 1) && (val =? 0) then None
        else let val := val * 10 + (c - 48) in
             if 255 <? val then None
             else parse_v4 s' false false val (digLen + 1) fields
      else if c =? 46 then
        if start || bool_decide (s' = EmptyString) || dot then None
        else if (length fields =? 3)%nat then None
        else parse_v4 s' false true 0 0 (fields ++ [val])
      else None
  end.

Definition parseIPv4 (s : string) : option bytes :=
  map byte_of_Z <$> parse_v4 s true false 0 0 [].

(** The hexadecimal prefix of a group: value, digits read, rest. *)
Fixpoint hex_group (s : string) (off acc : Z) : option (Z * Z * string) :=
  match s with
  | EmptyString => Some (acc, off, s)
  | String a s' =>
      let c := char_Z a in
      let d := if (48 <=? c) && (c <=? 57) then Some (c - 48)
               else if (97 <=? c) && (c <=? 102) then Some (c - 87)
               else if (65 <=? c) && (c <=? 70) then Some (c - 55) else None in
      match d with
      | None => Some (acc, off, s)
      | Some d => if 3 <? off then None else hex_group s' (off + 1) (acc * 16 + d)
      end
  end.

(** The group loop of [parseIPv6]: the bytes read and where the [::] stood. One
    round per two bytes, so eight rounds of fuel are enough. *)
Fixpoint parse_v6 (fuel : nat) (s : string) (ip : bytes) (ellipsis : option nat)
    : option (bytes * option nat * string) :=
  match fuel with
  | O => Some (ip, ellipsis, s)
  | S fuel =>
      match hex_group s 0 0 with
      | None => None
      | Some (acc, off, rest) =>
          if off =? 0 then None
          else if HasPrefix rest "." then
            if negb (bool_decide (is_Some ellipsis)) && negb (length ip =? 12)%nat then None
            else if (12 <? length ip)%nat then None
            else match parseIPv4 s with
                 | None => None
                 | Some v4 => Some (ip ++ v4, ellipsis, EmptyString)
                 end
          else
            let ip := ip ++ be_PutUint16 acc in
            match rest with
            | EmptyString => Some (ip, ellipsis, EmptyString)
            | String c EmptyString => None
            | String c (String c2 rest2) =>
                if negb (Ascii.eqb c ":") then None
                else if Ascii.eqb c2 ":" then
                  if bool_decide (is_Some ellipsis) then None
                  else if bool_decide (rest2 = EmptyString) then Some (ip, Some (length ip), EmptyString)
                  else parse_v6 fuel rest2 ip (Some (length ip))
                else parse_v6 fuel (String c2 rest2) ip ellipsis
            end
      end
  end.

Definition finish_v6 (r : option (bytes * option nat * string)) : option bytes :=
  '(ip, ellipsis, s) ← r;
  if negb (bool_decide (s = EmptyString)) then None
  else match ellipsis with
       | None => if (length ip <? 16)%nat then None else Some ip
       | Some e => if (length ip <? 16)%nat
                   then Some (take e ip ++ repeat x00 (16 - length ip) ++ drop e ip) else None
       end.

Definition parseIPv6 (s : string) : option IPAddr :=
  let '(s, zone, found) := Cut s "%" in
  if found && bool_decide (zone = EmptyString) then None
  else
    b ← (match strip_prefix "::" s with
         | Some EmptyString => Some (repeat x00 16)
         | Some s => finish_v6 (parse_v6 8 s [] (Some 0%nat))
         | None => finish_v6 (parse_v6 8 s [] None)
         end);
    Some (Addr6 b zone).

Fixpoint first_sep (s : string) : option ascii :=
  match s with
  | EmptyString => None
  | String a s => if Ascii.eqb a "." || Ascii.eqb a ":" || Ascii.eqb a "%" then Some a else first_sep s
  end.

Definition ParseAddr (s : string) : option IPAddr :=
  match first_sep s with
  | Some "."%char => Addr4 <$> parseIPv4 s
  | Some ":"%char => parseIPv6 s
  | _ => None
  end.

(** Split at the last colon. *)
Fixpoint last_colon (s : string) : option (string * string) :=
  match s with
  | EmptyString => None
  | String a s' =>
      match last_colon s' with
      | Some (h, t) => Some (String a h, t)
      | None => if Ascii.eqb a ":" then Some (EmptyString, s') else None
      end
  end.

Fixpoint strip_last (s : string) (c : ascii) : option string :=
  match s with
  | EmptyString => None
  | String a EmptyString => if Ascii.eqb a c then Some EmptyString else None
  | String a s => String a <$> strip_last s c
  end.

Definition ParseAddrPort (s : string) : option AddrPort :=
  '(ip, port) ← last_colon s;
  if bool_decide (ip = EmptyString) || bool_decide (port = EmptyString) then None
  else
    '(ip, v6) ← (match strip_prefix "[" ip with
                 | Some ip => ip ← strip_last ip "]"; Some (ip, true)
                 | None => Some (ip, false)
                 end);
    let '(p, err) := ParseUint port 10 16 in
    match err with
    | NumOk =>
        a ← ParseAddr ip;
        match a, v6 with
        | Addr4 _, false | Addr6 _ _, true => Some (mkAddrPort a p)
        | _, _ => None
        end
    | _ => None
    end.

Example netip_samples :
  ParseAddrPort "127.0.0.1:3478" = Some (mkAddrPort (Addr4 [x7f; x00; x00; x01]) 3478) ∧
  ParseAddrPort "127.0.0.01:1" = None ∧ ParseAddrPort "1.2.3:1" = None ∧
  ParseAddrPort "::1:80" = None ∧ ParseAddrPort "[1.2.3.4]:80" = None ∧
  AddrPort_String <$> ParseAddrPort "[2001:DB8:0:0:1::1]:65535" = Some "[2001:db8::1:0:0:1]:65535"%string ∧
  AddrPort_String <$> ParseAddrPort "[fe80::0:1%eth0]:7" = Some "[fe80::1%eth0]:7"%string ∧
  AddrPort_String <$> ParseAddrPort "[::ffff:1.2.3.4]:7" = Some "[::ffff:1.2.3.4]:7"%string ∧
  AddrPort_String <$> ParseAddrPort "[::]:7" = Some "[::]:7"%string ∧
  ParseAddrPort "[1:2:3:4:5:6:7:8:9]:7" = None ∧ ParseAddrPort "[1::2::3]:7" = None.
Proof. vm_compute. repeat split; reflexivity. Qed.
