(* ===== verification/External.v ===== *)
(** * Interfaces to the code that is not in the repository

    Each class states what sidescale uses of one third-party package; its laws
    are a separate class, so that a theorem names the laws it relies on. The
    modules [*Inst] at the end give concrete instances, used by the witnesses
    to evaluate the model on inputs. The records of [wire] have the fields the
    source reads and writes. *)

From Stdlib Require Import Init.Byte Strings.Byte Lia ZArith Ascii String.
From stdpp Require Import base option list gmap sets strings countable.
From S2P Require Import Prelude GoStd.
Open Scope Z_scope.
Open Scope go_scope.

(** ** [tailscale.com/types/key]: node keys *)

Class NodeKeys := {
  NodePublic : Type;
  NodePrivate : Type;
  NodePublic_eq_dec :: EqDecision NodePublic;
  NodePublic_countable :: Countable NodePublic;
  (** the Go zero values [key.NodePublic{}] and [key.NodePrivate{}] *)
  NodePublic_zero : NodePublic;
  NodePrivate_zero : NodePrivate;
  NodePrivate_IsZero : NodePrivate → bool;
  (** [k.AppendTo(nil)]: the raw key *)
  NodePublic_raw : NodePublic → bytes;
  NodePublicFromRaw32 : bytes → NodePublic;
  NodePublic_String : NodePublic → string;
  (** the key left in a zero receiver, and whether the error was nil *)
  NodePublic_UnmarshalText : string → NodePublic * bool;
  Public : NodePrivate → NodePublic;
  (** NaCl boxes; the first argument is the nonce drawn by [SealTo] *)
  SealTo : bytes → NodePrivate → NodePublic → bytes → bytes;
  OpenFrom : NodePrivate → NodePublic → bytes → option bytes
}.

Definition NodePublic_IsZero `{NodeKeys} (k : NodePublic) : bool :=
  bool_decide (k = NodePublic_zero).

(** [key.NodePublicRawLen] *)
Definition NodePublicRawLen : Z := 32.

Class NodeKeysLaws `{NodeKeys} : Prop := {
  NodePublic_raw_length k : length (NodePublic_raw k) = 32%nat;
  NodePublic_from_raw k : NodePublicFromRaw32 (NodePublic_raw k) = k;
  NodePublic_raw_from b : length b = 32%nat → NodePublic_raw (NodePublicFromRaw32 b) = b;
  NodePublic_text k : NodePublic_UnmarshalText (NodePublic_String k) = (k, true);
  NodePublic_String_nonempty k : NodePublic_String k ≠ EmptyString;
  NodePrivate_zero_IsZero : NodePrivate_IsZero NodePrivate_zero = true;
  (** opening with the recipient's key a box sealed by the sender's *)
  OpenFrom_SealTo nonce p q m :
    OpenFrom q (Public p) (SealTo nonce p (Public q) m) = Some m
}.

(** ** [tailscale.com/types/key]: machine keys *)

Class MachineKeys := {
  MachinePublic : Type;
  MachinePrivate : Type;
  MachinePublic_eq_dec :: EqDecision MachinePublic;
  MachinePublic_countable :: Countable MachinePublic;
  (** the Go zero value [key.MachinePublic{}] *)
  MachinePublic_zero : MachinePublic;
  MachinePublic_String : MachinePublic → string;
  MachinePublic_of : MachinePrivate → MachinePublic
}.

(** ** [tailscale.com/disco] *)

Class Disco := { LooksLikeDiscoWrapper : bytes → bool }.

(** ** [tailscale.com/derp] login messages, with [encoding/json] on them *)

Record ClientInfo := mkClientInfo {
  ci_Version : Z;
  ci_MeshKey : bytes;
  ci_CanAckPings : bool;
  ci_IsProber : bool
}.

Record ServerInfo := mkServerInfo {
  si_Version : Z;
  si_TokenBucketBytesPerSecond : Z;
  si_TokenBucketBytesBurst : Z
}.

Class DerpJSON := {
  marshal_ci : ClientInfo → result bytes;
  unmarshal_ci : bytes → result ClientInfo;
  marshal_si : ServerInfo → result bytes;
  unmarshal_si : bytes → result ServerInfo;
  (** [MeshKey.IsZero()] *)
  MeshKey_IsZero : bytes → bool
}.

Class DerpJSONLaws `{DerpJSON} : Prop := {
  ci_json_roundtrip ci js : marshal_ci ci = Ok js → unmarshal_ci js = Ok ci;
  si_json_roundtrip si js : marshal_si si = Ok js → unmarshal_si js = Ok si
}.

(** ** [go-analyze/bulk]: [MapInvert] and [MapValuesSlice] *)

Class Bulk := {
  MapInvert : ∀ {K V} `{Countable K} `{Countable V}, gmap K V → gmap V K;
  MapValuesSlice : ∀ {K V} `{Countable K}, gmap K V → list V
}.

(** [MapInvert] swaps keys and values, keeping one of the keys of a value that
    occurs more than once; [MapValuesSlice] lists the values in some order. *)
Class BulkLaws `{Bulk} : Prop := {
  MapInvert_sound {K V} `{Countable K} `{Countable V} (m : gmap K V) v k :
    MapInvert m !! v = Some k → m !! k = Some v;
  MapInvert_complete {K V} `{Countable K} `{Countable V} (m : gmap K V) k v :
    m !! k = Some v → is_Some (MapInvert m !! v);
  MapValuesSlice_perm {K V} `{Countable K} (m : gmap K V) :
    MapValuesSlice m ≡ₚ (map_to_list m).*2
}.

(** ** [go-appsec/toolbox/sidecar]: the stream reassembler

    [Next] hands the buffered bytes to the caller's split function, which may
    have side effects on its own state [S]. *)

Class Reassembler := {
  reasm : Type;
  reasm_zero : reasm;
  Append : reasm → bytes → reasm;
  Next : ∀ {S : Type}, (bytes → S → Z * bool * S) → reasm → S → option bytes * reasm * S;
  buffered : reasm → bytes
}.

Class ReassemblerLaws `{Reassembler} : Prop := {
  buffered_zero : buffered reasm_zero = [];
  buffered_Append r b : buffered (Append r b) = buffered r ++ b;
  Next_split {S} (f : bytes → S → Z * bool * S) r (s : S) n s' :
    f (buffered r) s = (n, true, s') →
    ∃ r', Next f r s = (Some (take (Z.to_nat n) (buffered r)), r', s') ∧
          buffered r' = drop (Z.to_nat n) (buffered r);
  Next_none {S} (f : bytes → S → Z * bool * S) r (s : S) n s' :
    f (buffered r) s = (n, false, s') →
    ∃ r', Next f r s = (None, r', s') ∧ buffered r' = buffered r
}.

(** ** [go-appsec/toolbox/pkg/addr]: [addr.Parse(hostport, scheme)] *)

Class Addr := { addr_Parse : string → string → string * Z }.

(** ** [net/url]: [url.Parse], the scheme and the host of a URL

    The URL grammar is taken as an interface. *)

Class URLParse := { url_Parse : string → option (string * string) }.

(** ** [go-appsec/toolbox/sidecar/wire] *)

Module wire.
Record Header := mkHeader { Name : string; Value : string }.

Record BodyCodec := mkBodyCodec { Transforms : list string; ContentType : string }.

Record FlowMessage := mkFlowMessage {
  Method : string;
  Path : string;
  Query : string;
  StatusCode : Z;
  Headers : list Header;
  Body : bytes;
  BodyRaw : option bytes;
  Codec : option BodyCodec
}.

(** The values sidescale stores in an annotation map. *)
Inductive any :=
  | AnyBool (b : bool)
  | AnyString (s : string)
  | AnyStrings (l : list string)
  | AnyRecords (l : list (list (string * any))).

Record Flow := mkFlow {
  ProtocolTag : string;
  Direction : string;
  ParentFlowID : string;
  Request : option FlowMessage;
  Response : option FlowMessage;
  Annotations : list (string * any);
  StartedAt : Z;
  CompletedAt : option Z
}.

Record Mutation := mkMutation { Op : string; MName : string; MValue : string }.

Inductive RuleType :=
  | RuleTypeRequestBody | RuleTypeResponseBody
  | RuleTypeRequestHeader | RuleTypeResponseHeader.

(** The fields sidescale reads of a [sidecar_send]; [sp_Flow] is [Flow]. *)
Record SidecarSendParams := mkSendParams {
  sp_Flow : option Flow;
  sp_FlowID : string;
  sp_Mutations : list Mutation;
  sp_Payload : bytes;
  sp_Target : bytes;
  sp_StreamStrategy : string
}.

Record SidecarSendResult := mkSendResult {
  NewFlowIDs : list string;
  sr_Response : option FlowMessage
}.

Definition msg_zero : FlowMessage := mkFlowMessage "" "" "" 0 [] [] None None.
End wire.

(** [sidecar.ApplyMutations(m, muts)] on a clone of the message. *)
Class Mutations := {
  ApplyMutations : wire.FlowMessage → list wire.Mutation → result wire.FlowMessage
}.

Class MutationsLaws `{Mutations} : Prop := {
  ApplyMutations_nil m : ApplyMutations m [] = Ok m
}.

(** ** The sectool connection and the network: effects

    A handler's effects are recorded in a trace; what the peer answers is an
    arbitrary function of the history, so a theorem over every [Env] holds for
    every behaviour of sectool, of the operator's rules and of the network. *)

Abbreviation connid := nat.

Inductive event :=
  | EvLog (level msg : string)
  | EvPush (f : wire.Flow)
  | EvComplete (flowID : string)
  | EvWrite (c : connid) (b : bytes)
  | EvClose (c : connid)
  | EvDeadline (c : connid) (armed : bool)
  | EvDial (host : string) (port : Z) (tls : bool)
  (** a tunnel enters and leaves the registry *)
  | EvRegistered (flowID : string)
  | EvTornDown (flowID : string)
  (** the head of an HTTP/2 response *)
  | EvRespond (w : connid) (status : Z) (hdr : list (string * list string))
  (** an HTTP/2 request forwarded over a bridge *)
  | EvForward (c : connid) (method url : string) (hdr : list (string * list string)) (body : bytes)
  (** core tools and adapters of sectool *)
  | EvCoreInvoke (tool : string) (args : list (string * string))
  | EvInvokeAdapter (url : string)
  (** references to a pooled upstream connection *)
  | EvAcquire (u : nat)
  | EvRelease (u : nat)
  | EvEvict (u : nat)
  (** a wait of the reconnect loop, and the end of a served connection *)
  | EvSleep (d : Z)
  | EvConnClose.

Class Env := {
  (** [conn.PushFlow]: the flow id and whether the flow was captured *)
  env_PushFlow : list event → wire.Flow → result (string * bool);
  (** [conn.Rules().ApplyBody]: the body and the rules that fired *)
  env_ApplyBody : list event → bytes → wire.RuleType → bytes * list string;
  env_ApplyHeaders : list event → list wire.Header → wire.RuleType →
    list wire.Header * list string;
  (** [net.Conn.Write] *)
  env_Write : list event → connid → bytes → option error;
  (** [time.Now()] *)
  env_Now : list event → Z
}.

(** An uncaptured flow has no id: what the code's comments say of [PushFlow]. *)
Class EnvLaws `{Env} : Prop := {
  env_PushFlow_captured tr f id ok :
    env_PushFlow tr f = Ok (id, ok) → ok = bool_decide (id ≠ EmptyString)
}.

(** The effect monad: a computation extends the trace. *)
Definition eff (A : Type) : Type := list event → A * list event.
#[export] Instance eff_ret : MRet eff := λ A a tr, (a, tr).
#[export] Instance eff_bind : MBind eff := λ A B k m tr, let '(a, tr) := m tr in k a tr.

Definition emit (e : event) : eff unit := λ tr, (tt, tr ++ [e]).

Section effects.
Context `{Env}.
Definition Log (level msg : string) : eff unit := emit (EvLog level msg).
Definition PushFlow (f : wire.Flow) : eff (result (string * bool)) :=
  λ tr, (env_PushFlow tr f, tr ++ [EvPush f]).
Definition CompleteFlow (id : string) : eff unit := emit (EvComplete id).
Definition ApplyBody (b : bytes) (rt : wire.RuleType) : eff (bytes * list string) :=
  λ tr, (env_ApplyBody tr b rt, tr).
Definition ApplyHeaders (h : list wire.Header) (rt : wire.RuleType) :
    eff (list wire.Header * list string) :=
  λ tr, (env_ApplyHeaders tr h rt, tr).
Definition ConnWrite (c : connid) (b : bytes) : eff (option error) :=
  λ tr, (env_Write tr c b, tr ++ [EvWrite c b]).
Definition ConnClose (c : connid) : eff unit := emit (EvClose c).
Definition SetReadDeadline (c : connid) (armed : bool) : eff unit := emit (EvDeadline c armed).
Definition Now : eff Z := λ tr, (env_Now tr, tr).
End effects.

(** [defer cleanup] around [m]. *)
Definition deferred {A} (cleanup : eff unit) (m : eff A) : eff A :=
  λ tr, let '(a, tr) := m tr in let '(_, tr) := cleanup tr in (a, tr).

(** Reading the trace of a computation. *)
Definition run_eff {A} (m : eff A) : A * list event := m [].

(** An early return: the rest runs on success only. *)
Definition ebind {A B} (m : eff (result A)) (k : A → eff (result B)) : eff (result B) :=
  r ← m; match r with Ok a => k a | Err e => mret (Err e) end.
Notation "x '←?' m ; k" := (ebind m (λ x, k))
  (at level 20, m at level 100, k at level 200, right associativity) : go_scope.
Notation "' x '←?' m ; k" := (ebind m (λ x : _, k))
  (at level 20, x pattern, m at level 100, k at level 200, right associativity) : go_scope.

(** A computation with fuel: [None] has not returned yet. *)
Definition obind {A B} (m : eff (option A)) (k : A → eff (option B)) : eff (option B) :=
  o ← m; match o with Some a => k a | None => mret None end.

(** [defer cleanup] around a computation with fuel. *)
Definition deferring {A} (cleanup : eff unit) (m : eff (option A)) : eff (option A) :=
  obind m (λ a, _ ← cleanup; mret (Some a)).

(** [fmt.Errorf(f, ..., err)] around a failure. *)
Definition wrap {A} (f : string) (r : result A) : result A :=
  match r with Ok a => Ok a | Err e => Err (ErrWrap f [] e) end.

(** A call that only returns an error. *)
Definition check (f : string) (m : eff (option error)) : eff (result unit) :=
  r ← m; mret (match r with None => Ok tt | Some e => Err (ErrWrap f [] e) end).

(** ** Dialing and HTTP heads: [sidecar.StreamRouter], [net/http] on a stream

    A connection comes with the script of what the peer will deliver. Reading an
    HTTP head off a buffered reader consumes part of the script and leaves the
    bytes buffered behind the head. *)

Abbreviation script := (list (bytes * option error)).

Definition io_EOF : error := ErrNew "EOF".

(** The bytes of a script, and a script without read errors. *)
Definition script_bytes (input : script) : bytes := concat (map fst input).
Definition script_clean (input : script) : Prop := Forall (λ e, snd e = None) input.

Class Network := {
  (** the stream's id, its connection, and what the peer will send *)
  net_Dial : list event → string → Z → bool → result (string * connid * script);
  (** status code, status line, buffered bytes, rest *)
  http_ReadResponse : script → result (Z * string * bytes * script);
  (** URL path, buffered bytes, rest *)
  http_ReadRequest : script → result (string * bytes * script);
  (** which of two ready goroutines goes next *)
  net_sched : list event → bool
}.

(** [crypto/rand] behind [SealTo] and [key.NewNode]. *)
Class Rand `{NodeKeys} := {
  rand_nonce : list event → bytes;
  rand_node : list event → NodePrivate
}.

Definition Nonce `{Rand} : eff bytes := λ tr, (rand_nonce tr, tr).
Definition NewNode `{Rand} : eff NodePrivate := λ tr, (rand_node tr, tr).

(** ** [tailscale.com/util/zstdframe] and the [tailcfg] messages *)

Class Zstd := {
  zstd_encode : bytes → bytes;
  zstd_decode : bytes → result bytes
}.

(** The magic number of RFC 8878 in front of every frame. *)
Definition zstd_magic : bytes := [x28; xb5; x2f; xfd].

Class ZstdLaws `{Zstd} : Prop := {
  zstd_roundtrip b : zstd_decode (zstd_encode b) = Ok b;
  zstd_encode_magic b : ∃ rest, zstd_encode b = zstd_magic ++ rest
}.

(** [tailcfg.EarlyNoise] with its JSON form, and [ts2021.EarlyPayloadMagic]. *)
Class EarlyNoiseMsg := {
  EarlyNoise : Type;
  marshal_en : EarlyNoise → result bytes;
  unmarshal_en : bytes → result EarlyNoise;
  EarlyPayloadMagic : bytes;
  (** a message with the public half of a fresh challenge *)
  NewChallenge : list event → EarlyNoise
}.

Class EarlyNoiseLaws `{EarlyNoiseMsg} : Prop := {
  en_json_roundtrip n js : marshal_en n = Ok js → unmarshal_en js = Ok n;
  EarlyPayloadMagic_length : length EarlyPayloadMagic = 5%nat
}.
