(* ===== verification/Instances.v ===== *)
(** * Concrete instances of the external interfaces

    Small executable instances of the classes of [External], with their laws.
    The witnesses use them to evaluate the model on inputs; no theorem over the
    interfaces depends on them. *)

From Stdlib Require Import Init.Byte Strings.Byte Lia ZArith Ascii String.
From stdpp Require Import base option list fin_maps gmap sets strings countable.
From S2P Require Import Prelude GoStd External.
Open Scope Z_scope.

(** ** Hexadecimal text *)

Definition hex_val (a : ascii) : option Z :=
  let c := char_Z a in
  if (48 <=? c) && (c <=? 57) then Some (c - 48)
  else if (97 <=? c) && (c <=? 102) then Some (c - 87) else None.

Fixpoint hex_decode (s : string) : option bytes :=
  match s with
  | EmptyString => Some []
  | String a (String b s) =>
      match hex_val a, hex_val b, hex_decode s with
      | Some x, Some y, Some r => Some (byte_of_Z (16 * x + y) :: r)
      | _, _, _ => None
      end
  | _ => None
  end.

Lemma hex_val_char d : 0 ≤ d < 16 → hex_val (hex_char d) = Some d.
Proof.
  intros Hd.
  assert (bool_decide (hex_val (hex_char d) = Some d) = true) as H; [|by case_bool_decide].
  revert d Hd. apply (seqZ_check _ 0 16). vm_compute. done.
Qed.

Lemma hex_roundtrip b : hex_decode (hex_EncodeToString b) = Some b.
Proof.
  induction b as [|c b IH]; [done|]. cbn [hex_EncodeToString hex_decode].
  pose proof (Z_of_byte_bound c). pose proof (Z.mod_pos_bound (Z_of_byte c) 16).
  rewrite !hex_val_char by (try lia; Z.to_euclidean_division_equations; lia).
  rewrite IH. repeat f_equal. apply byte_of_Z_inj. rewrite Z_of_byte_of_Z.
  Z.to_euclidean_division_equations; lia.
Qed.

(** ** Keys: 32 raw bytes, text [nodekey:<hex>]; a box carries both public keys
    in front of the message. *)

Definition key32 : Type := dsig (λ b : bytes, length b = 32%nat).

Lemma key32_length (k : key32) : length (proj1_sig k) = 32%nat.
Proof. apply (proj2_dsig (P := λ b : bytes, length b = 32%nat)). Qed.

Definition key32_of (b : bytes) : key32 :=
  match decide (length b = 32%nat) with
  | left H => dexist b H
  | right _ => dexist (repeat x00 32) eq_refl
  end.

Lemma key32_of_proj (k : key32) : key32_of (`k) = k.
Proof.
  unfold key32_of. destruct (decide _) as [H|H].
  - apply dsig_eq. done.
  - destruct H. apply key32_length.
Qed.

Lemma proj_key32_of b : length b = 32%nat → proj1_sig (key32_of b) = b.
Proof. intros H. unfold key32_of. by destruct (decide _). Qed.

Definition toy_Open (q p : key32) (box : bytes) : option bytes :=
  if bool_decide (take 64 box = `p ++ `q) then Some (drop 64 box) else None.

#[export] Instance toy_keys : NodeKeys := {|
  NodePublic := key32;
  NodePrivate := key32;
  NodePublic_zero := key32_of [];
  NodePrivate_zero := key32_of [];
  NodePrivate_IsZero k := bool_decide (k = key32_of []);
  NodePublic_raw k := `k;
  NodePublicFromRaw32 := key32_of;
  NodePublic_String k := ("nodekey:" ++ hex_EncodeToString (`k))%string;
  NodePublic_UnmarshalText s :=
    match strip_prefix "nodekey:" s with
    | Some h => match hex_decode h with
                | Some b => if decide (length b = 32%nat) then (key32_of b, true) else (key32_of [], false)
                | None => (key32_of [], false)
                end
    | None => (key32_of [], false)
    end;
  Public k := k;
  SealTo _ p q m := `p ++ `q ++ m;
  OpenFrom := toy_Open
|}.

#[export] Instance toy_keys_laws : NodeKeysLaws.
Proof.
  split; cbn -[strip_prefix String.append].
  - apply key32_length.
  - apply key32_of_proj.
  - apply proj_key32_of.
  - intros k. rewrite strip_prefix_app, hex_roundtrip.
    destruct (decide _) as [|H]; [by rewrite key32_of_proj|].
    destruct H. apply key32_length.
  - done.
  - by rewrite bool_decide_true.
  - intros _ p q m. unfold toy_Open.
    assert (length (`p ++ `q) = 64%nat).
    { by rewrite length_app, !key32_length. }
    rewrite app_assoc, take_app_exact, drop_app_exact by done.
    by rewrite bool_decide_true.
Qed.

(** A key whose 32 bytes are all [b]. *)
Definition toy_key (b : Byte.byte) : key32 := key32_of (repeat b 32).

(** ** Login messages *)

Definition flag_byte (b : bool) : Byte.byte := if b then x01 else x00.
Definition byte_flag (b : Byte.byte) : bool := bool_decide (b = x01).

Definition fits (bits n : Z) : bool := (0 <=? n) && (n <? 2 ^ bits).

#[export] Instance toy_json : DerpJSON := {|
  marshal_ci ci :=
    if fits 8 (ci_Version ci)
    then Ok (byte_of_Z (ci_Version ci) :: flag_byte (ci_CanAckPings ci)
               :: flag_byte (ci_IsProber ci) :: ci_MeshKey ci)
    else Err (ErrNew "json");
  unmarshal_ci js := match js with
    | v :: a :: p :: m => Ok (mkClientInfo (Z_of_byte v) m (byte_flag a) (byte_flag p))
    | _ => Err (ErrNew "json")
    end;
  marshal_si si :=
    if fits 8 (si_Version si) && fits 8 (si_TokenBucketBytesPerSecond si)
       && fits 8 (si_TokenBucketBytesBurst si)
    then Ok [byte_of_Z (si_Version si); byte_of_Z (si_TokenBucketBytesPerSecond si);
             byte_of_Z (si_TokenBucketBytesBurst si)]
    else Err (ErrNew "json");
  unmarshal_si js := match js with
    | [v; r; b] => Ok (mkServerInfo (Z_of_byte v) (Z_of_byte r) (Z_of_byte b))
    | _ => Err (ErrNew "json")
    end;
  MeshKey_IsZero m := bool_decide (m = [])
|}.

Lemma fits_byte n : fits 8 n = true → Z_of_byte (byte_of_Z n) = n.
Proof.
  unfold fits. rewrite andb_true_iff, Z.leb_le, Z.ltb_lt. intros.
  rewrite Z_of_byte_of_Z. apply Z.mod_small. lia.
Qed.

Lemma byte_flag_byte b : byte_flag (flag_byte b) = b.
Proof. by destruct b. Qed.

#[export] Instance toy_json_laws : DerpJSONLaws.
Proof.
  split.
  - intros [v m a p] js. cbn. destruct (fits 8 v) eqn:E; [|done].
    intros [= <-]. by rewrite fits_byte, !byte_flag_byte.
  - intros [v r b] js. cbn. destruct (fits 8 v && fits 8 r && fits 8 b) eqn:E; [|done].
    rewrite !andb_true_iff in E. destruct E as [[E1 E2] E3].
    intros [= <-]. by rewrite !fits_byte.
Qed.

(** ** The small packages *)

#[export] Instance toy_bulk : Bulk := {|
  MapInvert := λ K V _ _ _ _ m, map_fold (λ k v acc, <[v := k]> acc) ∅ m;
  MapValuesSlice := λ K V _ _ m, (map_to_list m).*2
|}.

#[export] Instance toy_bulk_laws : BulkLaws.
Proof.
  split; [intros K V ? ? ? ? m; cbn..|done].
  - apply (map_fold_weak_ind (λ r m, ∀ v k, r !! v = Some k → m !! k = Some v)).
    + intros v k. by rewrite lookup_empty.
    + intros i x m' r Hi IH v k. rewrite lookup_insert.
      case_decide; intros; simplify_eq; [by rewrite lookup_insert_eq|].
      rewrite lookup_insert_ne; [by apply IH|]. intros ->.
      by match goal with H : r !! _ = Some _ |- _ => apply IH in H; rewrite Hi in H end.
  - apply (map_fold_weak_ind (λ r m, ∀ k v, m !! k = Some v → is_Some (r !! v))).
    + intros k v. by rewrite lookup_empty.
    + intros i x m' r Hi IH k v. rewrite lookup_insert.
      case_decide; intros; simplify_eq; [by rewrite lookup_insert_eq|].
      rewrite lookup_insert. case_decide; [done|]. by eapply IH.
Qed.

#[export] Instance toy_disco : Disco := {|
  LooksLikeDiscoWrapper b := bool_decide (take 2 b = [x54; x53])
|}.

#[export] Instance toy_reassembler : Reassembler := {|
  reasm := bytes;
  reasm_zero := [];
  Append r b := r ++ b;
  Next S f r s :=
    let '(n, ok, s') := f r s in
    if ok : bool then (Some (take (Z.to_nat n) r), drop (Z.to_nat n) r, s') else (None, r, s');
  buffered r := r
|}.

#[export] Instance toy_reassembler_laws : ReassemblerLaws.
Proof. split; cbn; intros; try done; destruct (f r s) as [[]]; simplify_eq; eauto. Qed.

#[export] Instance toy_mutations : Mutations := {|
  ApplyMutations m muts :=
    match muts with
    | [] => Ok m
    | mu :: _ => Ok (wire.mkFlowMessage (wire.Method m) (wire.Path m) (wire.Query m)
        (wire.StatusCode m) (wire.Headers m) (to_bytes (wire.MValue mu)) (wire.BodyRaw m) (wire.Codec m))
    end
|}.

#[export] Instance toy_mutations_laws : MutationsLaws.
Proof. by split. Qed.

(** ** Environments: a capturing sectool, one whose filter drops every flow, one
    whose rules replace every body, and one where every push fails. *)

Definition env_of (push : list event → wire.Flow → result (string * bool))
    (rule : bytes → bytes * list string) : Env := {|
  env_PushFlow := push;
  env_ApplyBody _ b _ := rule b;
  env_ApplyHeaders _ h _ := (h, []);
  env_Write _ _ _ := None;
  env_Now tr := Z.of_nat (length tr)
|}.

Definition env_capture : Env :=
  env_of (λ tr _, Ok (("flow-" ++ Itoa (Z.of_nat (length tr)))%string, true)) (λ b, (b, [])).
Definition env_filtered : Env := env_of (λ _ _, Ok (EmptyString, false)) (λ b, (b, [])).
Definition env_rewrite : Env :=
  env_of (λ tr _, Ok (("flow-" ++ Itoa (Z.of_nat (length tr)))%string, true))
    (λ b, (to_bytes "mutated", ["rule-1"%string])).
Definition env_failing : Env := env_of (λ _ _, Err (ErrNew "push")) (λ b, (b, [])).

(** ** Networks: every dial reaches [upstream] (the peer's script) on connection
    100, an HTTP head is one chunk, and the upstream pump goes first. *)

Definition toy_head (s : script) : result (string * script) :=
  match s with
  | (head, None) :: rest => Ok (of_bytes head, rest)
  | (_, Some e) :: _ => Err e
  | [] => Err (ErrNew "EOF")
  end.

Definition net_of (dial : result (string * connid * script)) : Network := {|
  net_Dial _ _ _ _ := dial;
  http_ReadResponse s :=
    match toy_head s with
    | Ok (head, rest) =>
        if HasPrefix head "HTTP/1.1 101" then Ok (101, "101 Switching Protocols"%string, [], rest)
        else Ok (502, "502 Bad Gateway"%string, [], rest)
    | Err e => Err e
    end;
  http_ReadRequest s :=
    match toy_head s with
    | Ok (head, rest) => Ok (head, [], rest)
    | Err e => Err e
    end;
  net_sched _ := true
|}.

#[export] Instance toy_rand : Rand := {|
  rand_nonce _ := repeat x07 24;
  rand_node _ := toy_key x0f
|}.

#[export] Instance toy_addr : Addr := {| addr_Parse s scheme := (s, 443) |}.
#[export] Instance toy_url : URLParse := {| url_Parse s := Some ("https"%string, s) |}.

#[export] Instance toy_machines : MachineKeys := {|
  MachinePublic := key32;
  MachinePrivate := key32;
  MachinePublic_zero := key32_of [];
  MachinePublic_String k := ("mkey:" ++ hex_EncodeToString (`k))%string;
  MachinePublic_of k := k
|}.

(** A compressor that only adds the magic, and an early message of one byte. *)
#[export] Instance toy_zstd : Zstd := {|
  zstd_encode b := zstd_magic ++ b;
  zstd_decode b := if bool_decide (take 4 b = zstd_magic) then Ok (drop 4 b) else Err (ErrNew "zstd")
|}.

#[export] Instance toy_zstd_laws : ZstdLaws.
Proof. split; [done|]. intros b. by exists b. Qed.

#[export] Instance toy_early : EarlyNoiseMsg := {|
  EarlyNoise := Byte.byte;
  marshal_en b := Ok [b];
  unmarshal_en js := match js with [b] => Ok b | _ => Err (ErrNew "json") end;
  EarlyPayloadMagic := [xff; xff; xff; x54; x53];
  NewChallenge _ := x0c
|}.

#[export] Instance toy_early_laws : EarlyNoiseLaws.
Proof. split; [|done]. by intros n js [= <-]. Qed.
