(* ===== verification/Adapter.v ===== *)
(** * Shared adapter code: [sidescale/adapter]

    The direction tags and annotation names of [constants.go], the upstream
    resolution of [upstream.go], and the per-client key providers of [keys.go]
    (the key files are in [Persist]). *)

From Stdlib Require Import Init.Byte Strings.Byte Lia ZArith Ascii String.
From stdpp Require Import base option list gmap sets strings.
From S2P Require Import Prelude GoStd External Instances.
Open Scope Z_scope.

Definition DirBidirectional : string := "bidirectional".
Definition DirClientToServer : string := "client_to_server".
Definition DirServerToClient : string := "server_to_client".
Definition AnnInjected : string := "injected".
Definition AnnDisturbsLiveNode : string := "disturbs_live_node".

Definition ErrShuttingDown : error := ErrNew "shutting down".

(** ** [ResolveUpstream] *)

Record UpstreamTarget := mkTarget { Host : string; Port : Z; Scheme : string }.

Section resolve.
Context `{Addr} `{URLParse}.

(** The loop over the configured hosts: the port of the first match. *)
Fixpoint host_port (hosts : list string) (defaultScheme host : string) (port : Z) : Z :=
  match hosts with
  | [] => port
  | h :: hosts =>
      let '(hh, p) := addr_Parse h defaultScheme in
      if EqualFold hh host then p else host_port hosts defaultScheme host port
  end.

Definition ResolveUpstream (host override : string) (hosts : list string) (defaultScheme : string)
    : UpstreamTarget :=
  if bool_decide (override = EmptyString) then
    let '(host, port) := addr_Parse host defaultScheme in
    mkTarget host (host_port hosts defaultScheme host port) defaultScheme
  else
    let bare := let '(h, p) := addr_Parse override defaultScheme in mkTarget h p defaultScheme in
    if Contains override "://" then
      match url_Parse override with
      | Some (scheme, uhost) =>
          if negb (bool_decide (uhost = EmptyString)) then
            let '(h, p) := addr_Parse uhost scheme in mkTarget h p scheme
          else bare
      | None => bare
      end
    else bare.
End resolve.

(** ** Identities *)

Definition IdentityShared : string := "shared".
Definition IdentityPerClient : string := "per_client".
Definition identityPathPrefix : string := "path:".
Definition identityPoolPrefix : string := "pool:".

Definition ValidIdentity (id : string) : bool :=
  if bool_decide (id = IdentityShared) || bool_decide (id = IdentityPerClient) then true
  else HasPrefix id identityPathPrefix || HasPrefix id identityPoolPrefix.

Definition KeyPrefix (s : string) : string :=
  if (String.length s <=? 16)%nat then s else String.substring 0 16 s.

(** ** Providers: the state captured by the closures of [NewProvider] *)

Section provider.
Context {K : Type}.

(** [newKey] draws from a source: the [n]-th minted key. *)
Variable newKey : nat → K.

Record sticky := mkSticky {
  seed : list K;
  idx : nat;
  byClient : gmap string K;
  minted : nat
}.

Definition newStickyProvider (seed : list K) : sticky := mkSticky seed 0 ∅ 0.

(** One call of the sticky closure. *)
Definition stickyKey (client : string) (s : sticky) : K * sticky :=
  match byClient s !! client with
  | Some k => (k, s)
  | None =>
      let '(k, idx, minted) :=
        match seed s !! idx s with
        | Some k => (k, S (idx s), minted s)
        | None => (newKey (minted s), idx s, S (minted s))
        end in
      (k, mkSticky (seed s) idx (<[client := k]> (byClient s)) minted)
  end.

Inductive provider :=
  | Fixed (k : K)
  | Sticky (s : sticky).

Definition provide (client : string) (p : provider) : K * provider :=
  match p with
  | Fixed k => (k, p)
  | Sticky s => let '(k, s) := stickyKey client s in (k, Sticky s)
  end.

(** A run of requests. *)
Fixpoint provideAll (clients : list string) (s : sticky) : list K * sticky :=
  match clients with
  | [] => ([], s)
  | c :: cs =>
      let '(k, s) := stickyKey c s in
      let '(ks, s) := provideAll cs s in
      (k :: ks, s)
  end.

(** *** Lemmas: the [n]-th new client gets the [n]-th key *)

Definition nth_key (seed : list K) (n : nat) : K :=
  match seed !! n with Some k => k | None => newKey (n - length seed) end.

(** The clients seen, in order of first appearance. *)
Definition note_client (seen : list string) (c : string) : list string :=
  if bool_decide (c ∈ seen) then seen else seen ++ [c].

Definition rank (seen : list string) (c : string) : option nat := fst <$> list_find (λ x, x = c) seen.

Record sticky_inv (sd : list K) (seen : list string) (s : sticky) : Prop := {
  st_seed : seed s = sd;
  st_idx : idx s = Nat.min (length seen) (length sd);
  st_minted : minted s = (length seen - length sd)%nat;
  st_keys c : byClient s !! c = nth_key sd <$> rank seen c
}.

Lemma rank_app_old seen c x n : rank seen c = Some n → rank (seen ++ [x]) c = Some n.
Proof.
  unfold rank. intros ([i y] & Hf & E)%fmap_Some. cbn in E. subst i.
  by rewrite (list_find_app_l _ _ _ _ _ Hf).
Qed.

Lemma rank_None seen c : rank seen c = None ↔ c ∉ seen.
Proof.
  unfold rank. rewrite fmap_None, list_find_None, Forall_forall. split; [|by intros ? ? ? ->].
  intros Hf Hin. by apply (Hf c).
Qed.

Lemma rank_new seen c : c ∉ seen → rank (seen ++ [c]) c = Some (length seen).
Proof.
  intros Hni%rank_None. unfold rank in *. apply fmap_None in Hni.
  rewrite list_find_app_r by done. cbn. by rewrite decide_True.
Qed.

Lemma stickyKey_inv sd seen s c :
  sticky_inv sd seen s →
  let '(k, s') := stickyKey c s in
  sticky_inv sd (note_client seen c) s' ∧ nth_key sd <$> rank (note_client seen c) c = Some k.
Proof.
  intros [Hs Hi Hm Hk]. unfold stickyKey, note_client. rewrite (Hk c).
  destruct (rank seen c) as [n|] eqn:Er; cbn.
  - rewrite bool_decide_true by (apply dec_stable; by intros ?%rank_None; congruence).
    split; [by split|]. by rewrite Er.
  - pose proof Er as Hni. apply rank_None in Hni. rewrite bool_decide_false by done.
    rewrite rank_new by done. cbn. rewrite Hs, Hi.
    assert (∀ k, nth_key sd (length seen) = k → ∀ x, <[c:=k]> (byClient s) !! x
      = nth_key sd <$> rank (seen ++ [c]) x) as Hnew.
    { intros k <- x. destruct (decide (x = c)) as [->|Hne].
      - by rewrite lookup_insert_eq, rank_new by done.
      - rewrite lookup_insert_ne, Hk by done. destruct (rank seen x) as [n|] eqn:Ex.
        + by rewrite (rank_app_old _ _ _ _ Ex).
        + cbn. symmetry. apply fmap_None, rank_None. apply rank_None in Ex.
          rewrite elem_of_app, list_elem_of_singleton. tauto. }
    unfold nth_key in *.
    destruct (sd !! Nat.min (length seen) (length sd)) as [k|] eqn:Esd.
    + assert (length seen < length sd)%nat as Hlt.
      { apply lookup_lt_Some in Esd. lia. }
      rewrite Nat.min_l in Esd by lia. rewrite Esd in *.
      split; [|done]. split; cbn; rewrite ?length_app; cbn; [done|lia|lia|by apply Hnew].
    + apply lookup_ge_None in Esd.
      rewrite (lookup_ge_None_2 sd (length seen)) in * by lia.
      rewrite Hm. split; [|done]. split; cbn; rewrite ?length_app; cbn; [done|lia|lia|by apply Hnew].
Qed.

Lemma sticky_inv_new sd : sticky_inv sd [] (newStickyProvider sd).
Proof. split; cbn; [done|lia|lia|]. intros c. by rewrite lookup_empty. Qed.

Lemma rank_mono seen cs c n :
  rank seen c = Some n → rank (foldl note_client seen cs) c = Some n.
Proof.
  revert seen. induction cs as [|x cs IH]; intros seen Hr; [done|]. cbn. apply IH.
  unfold note_client. case_bool_decide; [done|by apply rank_app_old].
Qed.

Lemma provideAll_spec sd seen s cs :
  sticky_inv sd seen s →
  Forall2 (λ c k, nth_key sd <$> rank (foldl note_client seen cs) c = Some k) cs
    (fst (provideAll cs s)).
Proof.
  revert seen s. induction cs as [|c cs IH]; intros seen s Hinv; [by constructor|].
  cbn [provideAll foldl]. pose proof (stickyKey_inv sd seen s c Hinv) as Hk.
  destruct (stickyKey c s) as [k s1]. destruct Hk as [Hinv1 Hk].
  specialize (IH _ _ Hinv1). destruct (provideAll cs s1) as [ks s2]. cbn [fst] in *.
  constructor; [|done]. apply fmap_Some in Hk as (n & Hn & ->). by erewrite rank_mono.
Qed.
End provider.

(** ** Properties *)

(** C35: sticky identities. For every sequence of requests the provider hands
    the [n]-th distinct client (in order of first request) the [n]-th key of the
    pool, or a freshly minted one once the pool is used up, and every later
    request of the same client gets that same key. *)
Theorem sticky_provider_spec {K} (newKey : nat → K) (pool : list K) (requests : list string) :
  Forall2 (λ c k, nth_key newKey pool <$> rank (foldl note_client [] requests) c = Some k)
    requests (fst (provideAll newKey requests (newStickyProvider pool))) ∧
  NoDup (foldl note_client [] requests).
Proof.
  split; [apply provideAll_spec, sticky_inv_new|].
  assert (∀ seen, NoDup seen → NoDup (foldl note_client seen requests)) as Hnd; [|apply Hnd, NoDup_nil_2].
  induction requests as [|c cs IH]; intros seen Hs; [done|]. cbn. apply IH.
  unfold note_client. case_bool_decide as Hc; [done|]. apply NoDup_app. split_and!; [done| |apply NoDup_singleton].
  by intros x Hx ->%list_elem_of_singleton.
Qed.

Example sticky_sample :
  fst (provideAll (λ n, 100 + n)%nat ["a"; "b"; "a"; "c"; "d"; "b"]%string (newStickyProvider [7; 8]%nat))
  = [7; 8; 7; 100; 101; 8]%nat.
Proof. reflexivity. Qed.
