(* ===== verification/Persist.v ===== *)
(** * Files: key files and the instance id

    [sidescale/adapter/keys.go] ([Load], [LoadOrCreate], [loadPoolKeys],
    [NewProvider]), the key provisioning of [derp/keys.go] and [noise/keys.go],
    and [sidescale/instance.go]. The file system is a map from paths to contents;
    every system call may fail at any time, a failed write may leave a prefix of
    the data behind. Paths are clean, so [Join(Dir(p), Base(p)+x)] is [p+x]. *)

From Stdlib Require Import Init.Byte Strings.Byte Lia ZArith Ascii String.
From stdpp Require Import base option list fin_maps gmap sets strings.
From S2P Require Import Prelude GoStd External Instances Adapter.
Open Scope Z_scope.

(** ** The file system *)

(** What the operating system does to the [n]-th call: the error it returns, the
    bytes a failed write had already written, the random suffix of a temporary
    file. *)
Class OS := {
  os_fault : nat → option error;
  os_partial : nat → option nat;
  os_suffix : nat → string
}.

Definition ErrNotExist : error := ErrNew "file does not exist".
Definition ErrExist : error := ErrNew "file already exists".

(** A fault is not the report that a file is missing. *)
Class OSLaws `{OS} : Prop := {
  os_fault_other n e : os_fault n = Some e → errors_Is e ErrNotExist = false
}.

Record FS := mkFS { files : gmap string bytes; calls : nat }.

Definition fsM (A : Type) : Type := FS → A * FS.
#[export] Instance fs_ret : MRet fsM := λ A a fs, (a, fs).
#[export] Instance fs_bind : MBind fsM := λ A B k m fs, let '(a, fs) := m fs in k a fs.

Section os.
Context `{OS}.

Definition tick (fs : FS) (files : gmap string bytes) : FS := mkFS files (S (calls fs)).

(** A call that changes nothing when it fails. *)
Definition syscall {A} (run : gmap string bytes → result A * gmap string bytes) : fsM (result A) :=
  λ fs, match os_fault (calls fs) with
        | Some e => (Err e, tick fs (files fs))
        | None => let '(r, fl) := run (files fs) in (r, tick fs fl)
        end.

Definition ReadFile (path : string) : fsM (result bytes) :=
  syscall (λ fl, (match fl !! path with Some b => Ok b | None => Err ErrNotExist end, fl)).

Definition Stat (path : string) : fsM (result unit) :=
  syscall (λ fl, (match fl !! path with Some _ => Ok tt | None => Err ErrNotExist end, fl)).

(** [os.WriteFile] truncates, then writes. *)
Definition WriteFile (path : string) (data : bytes) : fsM (option error) :=
  λ fs, match os_fault (calls fs) with
        | None => (None, tick fs (<[path := data]> (files fs)))
        | Some e => (Some e, tick fs (match os_partial (calls fs) with
                                      | None => files fs
                                      | Some n => <[path := take n data]> (files fs)
                                      end))
        end.

(** [os.CreateTemp(Dir(path), Base(path)+".tmp-*")]: a new file, exclusively. *)
Definition CreateTemp (path : string) : fsM (result string) :=
  λ fs, let tmp := (path ++ ".tmp-" ++ os_suffix (calls fs))%string in
        syscall (λ fl, match fl !! tmp with
                       | Some _ => (Err ErrExist, fl)
                       | None => (Ok tmp, <[tmp := []]> fl)
                       end) fs.

Definition FileWrite (name : string) (data : bytes) : fsM (option error) := WriteFile name data.

(** [Sync], [Close], [MkdirAll]: only their error matters. *)
Definition try_call : fsM (option error) :=
  λ fs, (os_fault (calls fs), tick fs (files fs)).

Definition Rename (src dst : string) : fsM (option error) :=
  λ fs, match os_fault (calls fs), files fs !! src with
        | Some e, _ => (Some e, tick fs (files fs))
        | None, None => (Some ErrNotExist, tick fs (files fs))
        | None, Some b => (None, tick fs (<[dst := b]> (delete src (files fs))))
        end.

Definition Remove (path : string) : fsM unit :=
  λ fs, (tt, tick fs (match os_fault (calls fs) with
                      | None => delete path (files fs)
                      | Some _ => files fs
                      end)).

(** ** [instance.go] *)

Definition writeFileAtomic (path : string) (data : bytes) : fsM (option error) :=
  r ← CreateTemp path;
  match r with
  | Err e => mret (Some e)
  | Ok tmp =>
      res ← (w ← FileWrite tmp data;
             match w with
             | Some e => _ ← try_call; mret (Some e)
             | None =>
                 s ← try_call;
                 match s with
                 | Some e => _ ← try_call; mret (Some e)
                 | None =>
                     c ← try_call;
                     match c with
                     | Some e => mret (Some e)
                     | None => Rename tmp path
                     end
                 end
             end);
      _ ← Remove tmp;
      mret res
  end.

(** [uuid.NewRandom] is a parameter: the drawn id, or its error. *)
Definition loadOrCreateInstanceID (uuid : result string) (path : string) : fsM (result string) :=
  r ← ReadFile path;
  match r with
  | Ok data => mret (Ok (of_bytes data))
  | Err e =>
      if negb (errors_Is e ErrNotExist) then
        mret (Err (ErrWrap "sidescale: read instance id file %s: %w" [path] e))
      else match uuid with
           | Err e => mret (Err (ErrWrap "sidescale: mint instance id: %w" [] e))
           | Ok id =>
               d ← try_call;
               match d with
               | Some e => mret (Err (ErrWrap "sidescale: create dir for instance id file %s: %w" [path] e))
               | None =>
                   w ← writeFileAtomic path (to_bytes id);
                   match w with
                   | Some e => mret (Err (ErrWrap "sidescale: persist instance id file %s: %w" [path] e))
                   | None => mret (Ok id)
                   end
               end
           end
  end.

Definition stableInstanceID (home : result string) (uuid : result string) (name : string)
    : fsM (result string) :=
  match home with
  | Err e => mret (Err (ErrWrap "sidescale: resolve instance id home dir: %w" [] e))
  | Ok dir =>
      loadOrCreateInstanceID uuid (dir ++ "/.sectool/sidescale-" ++ name ++ ".instance")%string
  end.

(** ** Key files *)

(** [PrivKey]: the text form of a private key; [UnmarshalText] also says whether
    its error was nil. *)
Class PrivKey (K : Type) := {
  MarshalText : K → result bytes;
  UnmarshalText : bytes → result K
}.

Section keyfiles.
Context {K : Type} `{PrivKey K}.

Definition Load (path keyLabel : string) : fsM (result K) :=
  r ← ReadFile path;
  mret (match r with
        | Err e => Err (ErrWrap "sidescale: read %s %s: %w" [keyLabel; path] e)
        | Ok data =>
            match UnmarshalText (TrimSpace data) with
            | Err e => Err (ErrWrap "sidescale: parse %s %s: %w" [keyLabel; path] e)
            | Ok k => Ok k
            end
        end).

(** [newKey] is the key the generator would draw. *)
Definition LoadOrCreate (path keyLabel : string) (newKey : K) : fsM (result K) :=
  st ← Stat path;
  match st with
  | Ok _ => Load path keyLabel
  | Err e =>
      if negb (bool_decide (e = ErrNotExist)) then
        mret (Err (ErrWrap "sidescale: stat %s %s: %w" [keyLabel; path] e))
      else match MarshalText newKey with
           | Err e => mret (Err e)
           | Ok text =>
               w ← WriteFile path text;
               mret (match w with
                     | Some e => Err (ErrWrap "sidescale: write %s %s: %w" [keyLabel; path] e)
                     | None => Ok newKey
                     end)
           end
  end.

(** The loop of [loadPoolKeys] over the directory's entries: name and [IsDir]. *)
Fixpoint loadEntries (dir keyLabel : string) (entries : list (string * bool)) : fsM (result (list K)) :=
  match entries with
  | [] => mret (Ok [])
  | (name, true) :: es => loadEntries dir keyLabel es
  | (name, false) :: es =>
      r ← Load (dir ++ "/" ++ name)%string keyLabel;
      match r with
      | Err e => mret (Err e)
      | Ok k => rs ← loadEntries dir keyLabel es;
                mret (match rs with Ok ks => Ok (k :: ks) | Err e => Err e end)
      end
  end.

(** [entries] is what [os.ReadDir] returned. *)
Definition loadPoolKeys (entries : result (list (string * bool))) (dir idLabel keyLabel : string)
    : fsM (result (list K)) :=
  match entries with
  | Err e => mret (Err (ErrWrap "sidescale: read %s pool %s: %w" [idLabel; dir] e))
  | Ok es =>
      r ← loadEntries dir keyLabel es;
      mret (match r with
            | Err e => Err e
            | Ok [] => Err (ErrFmt "sidescale: %s pool %s has no keys" [idLabel; dir])
            | Ok ks => Ok ks
            end)
  end.

Definition NewProvider (readDir : string → result (list (string * bool)))
    (identity idLabel keyLabel : string) (newKey : nat → K) : fsM (result (provider (K := K))) :=
  if bool_decide (identity = EmptyString) || bool_decide (identity = IdentityShared)
  then mret (Ok (Fixed (newKey 0%nat)))
  else if bool_decide (identity = IdentityPerClient)
  then mret (Ok (Sticky (newStickyProvider [])))
  else if HasPrefix identity identityPoolPrefix then
    let dir := TrimPrefix identity identityPoolPrefix in
    r ← loadPoolKeys (readDir dir) dir idLabel keyLabel;
    mret (match r with Err e => Err e | Ok seed => Ok (Sticky (newStickyProvider seed)) end)
  else if HasPrefix identity identityPathPrefix then
    r ← Load (TrimPrefix identity identityPathPrefix) keyLabel;
    mret (match r with Err e => Err e | Ok k => Ok (Fixed k) end)
  else mret (Err (ErrFmt "sidescale: invalid %s %q" [idLabel; identity])).

(** [ProvisionServerNodeKey] and [ProvisionResponderKey] are one function of the
    strategy and the path; the label and the error name the setting. *)
Definition provisionKey (strategy path keyLabel setting : string) (newKey : K) : fsM (result K) :=
  if bool_decide (strategy = "substitute"%string) then
    if bool_decide (path = EmptyString) then mret (Ok newKey)
    else LoadOrCreate path keyLabel newKey
  else if bool_decide (strategy = "borrow"%string) then Load path keyLabel
  else mret (Err (ErrFmt ("sidescale: invalid " ++ setting ++ " %q") [strategy])).
End keyfiles.
End os.

Definition ProvisionServerNodeKey {K} `{PrivKey K} `{OS} (ServerKey ServerKeypairPath : string) (newKey : K)
    : fsM (result K) := provisionKey ServerKey ServerKeypairPath "derp node key" "derp server_key" newKey.

Definition ProvisionResponderKey {K} `{PrivKey K} `{OS} (KeyStrategy NoiseKeypairPath : string) (newKey : K)
    : fsM (result K) := provisionKey KeyStrategy NoiseKeypairPath "noise key" "key_strategy" newKey.

(** A key's text round-trips and has no surrounding white space. *)
Class PrivKeyLaws (K : Type) `{PrivKey K} : Prop := {
  PrivKey_text k t : MarshalText k = Ok t → TrimSpace t = t ∧ UnmarshalText t = Ok k
}.

(** ** Lemmas *)

Section lemmas.
Context `{OS}.

Lemma tmp_ne_path (path s : string) : (path ++ ".tmp-" ++ s)%string ≠ path.
Proof.
  induction path as [|a p IH]; [done|]. cbn. by intros [= E].
Qed.

(** The calls after [CreateTemp] leave every file but the temporary one alone,
    except a successful [Rename], which installs the data. *)
Lemma WriteFile_other path data fs p :
  p ≠ path → files (snd (WriteFile path data fs)) !! p = files fs !! p.
Proof.
  intros Hp. unfold WriteFile. destruct (os_fault _); [destruct (os_partial _)|]; cbn;
    by rewrite ?lookup_insert_ne by done.
Qed.

Lemma WriteFile_ok path data fs :
  fst (WriteFile path data fs) = None → files (snd (WriteFile path data fs)) !! path = Some data.
Proof. unfold WriteFile. destruct (os_fault _); [done|]. cbn. by rewrite lookup_insert_eq. Qed.

Lemma try_call_files fs : files (snd (try_call fs)) = files fs.
Proof. done. Qed.

Lemma Remove_other path fs p : p ≠ path → files (snd (Remove path fs)) !! p = files fs !! p.
Proof. intros. unfold Remove. destruct (os_fault _); cbn; by rewrite ?lookup_delete_ne by done. Qed.

Lemma Rename_spec src dst fs :
  match fst (Rename src dst fs) with
  | Some _ => files (snd (Rename src dst fs)) = files fs
  | None => ∃ b, files fs !! src = Some b ∧
      files (snd (Rename src dst fs)) = <[dst := b]> (delete src (files fs))
  end.
Proof.
  unfold Rename. destruct (os_fault _); [done|].
  destruct (files fs !! src) as [b|]; [|done]. by exists b.
Qed.

(** The write of the temporary file, up to the rename. *)
Definition install (tmp path : string) (data : bytes) : fsM (option error) :=
  w ← FileWrite tmp data;
  match w with
  | Some e => _ ← try_call; mret (Some e)
  | None =>
      s ← try_call;
      match s with
      | Some e => _ ← try_call; mret (Some e)
      | None =>
          c ← try_call;
          match c with
          | Some e => mret (Some e)
          | None => Rename tmp path
          end
      end
  end.

Lemma install_spec tmp path data fs :
  tmp ≠ path →
  let '(res, fs') := install tmp path data fs in
  files fs' !! path = (match res with None => Some data | Some _ => files fs !! path end) ∧
  ∀ p, p ≠ path → p ≠ tmp → files fs' !! p = files fs !! p.
Proof.
  intros Hne. unfold install, mbind, fs_bind, mret, fs_ret, FileWrite.
  pose proof (WriteFile_other tmp data fs) as Ho. pose proof (WriteFile_ok tmp data fs) as Hok.
  destruct (WriteFile tmp data fs) as [w fs1]. cbn [fst snd] in *.
  assert (∀ p, p ≠ path → p ≠ tmp → files fs1 !! p = files fs !! p) as Hout by (intros; by apply Ho).
  assert (files fs1 !! path = files fs !! path) as Hp by by apply Ho.
  destruct w as [e|]; [done|]. specialize (Hok eq_refl).
  unfold try_call. destruct (os_fault (calls fs1)); [done|].
  cbn [tick calls files]. destruct (os_fault (S (calls fs1))); [done|].
  set (fs2 := tick _ _). pose proof (Rename_spec tmp path fs2) as Hr.
  destruct (Rename tmp path fs2) as [res fs3]. cbn [fst snd] in Hr.
  destruct res; [by rewrite Hr|]. destruct Hr as (b & Hb & ->).
  cbn in Hb. assert (b = data) as -> by congruence. split.
  - by rewrite lookup_insert_eq.
  - intros p Hpp Hpt. rewrite lookup_insert_ne, lookup_delete_ne by done. by apply Ho.
Qed.

Lemma writeFileAtomic_run path data fs :
  let tmp := (path ++ ".tmp-" ++ os_suffix (calls fs))%string in
  let '(res, fs') := writeFileAtomic path data fs in
  files fs' !! path = (match res with None => Some data | Some _ => files fs !! path end) ∧
  ∀ p, p ≠ path → p ≠ tmp → files fs' !! p = files fs !! p.
Proof.
  intros tmp. pose proof (tmp_ne_path path (os_suffix (calls fs))) as Hne. fold tmp in Hne.
  unfold writeFileAtomic, mbind at 1, fs_bind at 1. unfold CreateTemp, syscall. fold tmp.
  destruct (os_fault (calls fs)); [by split|]. destruct (files fs !! tmp); [by split|].
  set (fs1 := tick _ _). pose proof (install_spec tmp path data fs1 Hne) as Hi.
  change (let '(res, fs') := (res ← install tmp path data; _ ← Remove tmp; mret res) fs1 in
    files fs' !! path = (match res with None => Some data | Some _ => files fs !! path end) ∧
    ∀ p, p ≠ path → p ≠ tmp → files fs' !! p = files fs !! p).
  unfold mbind, fs_bind. destruct (install tmp path data fs1) as [res fs2].
  destruct Hi as [Hpath Hout].
  pose proof (Remove_other tmp fs2) as Hrm. destruct (Remove tmp fs2) as [u fs3]. cbn [snd] in Hrm.
  unfold mret, fs_ret. split.
  - rewrite Hrm, Hpath by done. destruct res; [|done]. cbn. by rewrite lookup_insert_ne by done.
  - intros p Hp Ht. rewrite Hrm, Hout by done. cbn. by rewrite lookup_insert_ne by done.
Qed.

(** A call of [loadOrCreateInstanceID] that succeeds. *)
Lemma instance_id_run `{!OSLaws} uuid path id fs :
  fst (loadOrCreateInstanceID uuid path fs) = Ok id →
  files (snd (loadOrCreateInstanceID uuid path fs)) !! path = Some (to_bytes id) ∧
  ∀ b, files fs !! path = Some b →
    b = to_bytes id ∧ files (snd (loadOrCreateInstanceID uuid path fs)) = files fs.
Proof.
  unfold loadOrCreateInstanceID, mbind, fs_bind, ReadFile, syscall, mret, fs_ret.
  destruct (os_fault (calls fs)) eqn:Ef; cbn -[errors_Is]; [by rewrite (os_fault_other _ _ Ef)|].
  destruct (files fs !! path) as [b|] eqn:Eb; cbn -[errors_Is];
    [|change (errors_Is ErrNotExist ErrNotExist) with true]; cbn.
  - intros [= <-]. rewrite Eb, to_of_bytes. split; [done|]. by intros ? [= ->].
  - destruct uuid as [u|]; [|done]. unfold try_call. cbn. destruct (os_fault (S (calls fs))); cbn; [done|].
    set (fs1 := tick (tick _ _) _). pose proof (writeFileAtomic_run path (to_bytes u) fs1) as Hw. cbv zeta in Hw.
    destruct (writeFileAtomic path (to_bytes u) fs1) as [[e'|] fs2]; cbn; [done|].
    intros [= ->]. destruct Hw as [Hw _]. done.
Qed.

(** A call of [LoadOrCreate] that succeeds: the file now parses to the key. *)
Lemma LoadOrCreate_run {K} `{PrivKeyLaws K} `{!OSLaws} path label (newKey k : K) fs :
  fst (LoadOrCreate path label newKey fs) = Ok k →
  ∃ b, files (snd (LoadOrCreate path label newKey fs)) !! path = Some b ∧
    UnmarshalText (TrimSpace b) = Ok k ∧
    ∀ b0, files fs !! path = Some b0 → files (snd (LoadOrCreate path label newKey fs)) = files fs.
Proof.
  unfold LoadOrCreate, Load, ReadFile, Stat, syscall, mbind, fs_bind, mret, fs_ret.
  destruct (os_fault (calls fs)) eqn:Ef; cbn.
  { destruct (bool_decide (e = ErrNotExist)) eqn:Eb; [|done].
    apply bool_decide_eq_true in Eb as ->. pose proof (os_fault_other _ _ Ef) as Hx. discriminate. }
  destruct (files fs !! path) as [b|] eqn:Eb; cbn -[bool_decide];
    [|rewrite !bool_decide_true by done; cbn].
  - destruct (os_fault (S (calls fs))); [done|]. rewrite Eb. cbn. rewrite Eb.
    destruct (UnmarshalText (TrimSpace b)) as [k'|] eqn:Ek; [|done]. intros [= ->].
    exists b. done.
  - destruct (MarshalText newKey) as [t|] eqn:Et; [|done]. unfold WriteFile. cbn.
    destruct (os_fault (S (calls fs))); [done|]. cbn. intros [= ->].
    exists t. rewrite lookup_insert_eq. destruct (PrivKey_text k t Et) as [-> ->]. done.
Qed.
End lemmas.

(** ** Properties *)

(** C36: the instance id is written atomically. Whatever system calls fail, and
    however far a failed write got (a crash is the case where every later call
    fails), the file holds either all of the new data, exactly when success is
    reported, or what it held before; no other file but the temporary one is
    touched. *)
Theorem writeFileAtomic_spec `{OS} (path : string) (data : bytes) (fs : FS) :
  let '(res, fs') := writeFileAtomic path data fs in
  (res = None → files fs' !! path = Some data) ∧
  (∀ e, res = Some e → files fs' !! path = files fs !! path) ∧
  (∀ p, p ≠ path → p ≠ (path ++ ".tmp-" ++ os_suffix (calls fs))%string →
     files fs' !! p = files fs !! p).
Proof.
  pose proof (writeFileAtomic_run path data fs) as Hr. cbv zeta in Hr.
  destruct (writeFileAtomic path data fs) as [res fs']. destruct Hr as [Hp Ho].
  split_and!; [by intros ->|by intros e ->|done].
Qed.

(** The instance id is stable. An id that was returned is on disk
    verbatim, an existing file is returned verbatim and never rewritten, and
    every later start that can read the file returns the same id, whatever id it
    would have drawn. *)
Theorem instance_id_stable `{OSLaws} (uuid : result string) (path id : string) (fs : FS) :
  fst (loadOrCreateInstanceID uuid path fs) = Ok id →
  let fs' := snd (loadOrCreateInstanceID uuid path fs) in
  files fs' !! path = Some (to_bytes id) ∧
  (∀ b, files fs !! path = Some b → b = to_bytes id ∧ files fs' = files fs) ∧
  (∀ uuid2 fs2, files fs2 !! path = files fs' !! path → os_fault (calls fs2) = None →
     fst (loadOrCreateInstanceID uuid2 path fs2) = Ok id).
Proof.
  intros Hok. cbv zeta.
  destruct (instance_id_run uuid path id fs Hok) as [Hfile Hold].
  split_and!; [done|done|]. intros uuid2 fs2 Heq Hf.
  unfold loadOrCreateInstanceID, mbind, fs_bind, ReadFile, syscall. rewrite Hf, Heq, Hfile.
  cbn. by rewrite of_to_bytes.
Qed.

(** Minted keys are stable. After [LoadOrCreate] has returned a key, the
    key file holds its text, and every later call that can read the file returns
    the same key, whatever key it would have minted; an existing file is never
    overwritten. *)
Theorem LoadOrCreate_stable {K} `{PrivKeyLaws K} `{OSLaws} (path label : string) (newKey k : K) (fs : FS) :
  fst (LoadOrCreate path label newKey fs) = Ok k →
  let fs' := snd (LoadOrCreate path label newKey fs) in
  (∀ b, files fs !! path = Some b → files fs' = files fs) ∧
  (∀ newKey2 fs2, files fs2 !! path = files fs' !! path →
     os_fault (calls fs2) = None → os_fault (S (calls fs2)) = None →
     fst (LoadOrCreate path label newKey2 fs2) = Ok k).
Proof.
  intros Hok. cbv zeta.
  destruct (LoadOrCreate_run path label newKey k fs Hok) as (b & Hb & Hk & Hold).
  split; [done|]. intros newKey2 fs2 Heq Hf1 Hf2.
  unfold LoadOrCreate, Load, ReadFile, Stat, syscall, mbind, fs_bind, mret, fs_ret.
  rewrite Hf1, Heq, Hb. cbn. by rewrite Hf2, Heq, Hb, Hk.
Qed.

(** *** Witnesses: an operating system whose [n]-th call fails *)

Definition os_failing_at (n : nat) : OS := {|
  os_fault k := if (k =? n)%nat then Some (ErrNew "disk full") else None;
  os_partial _ := Some 2%nat;
  os_suffix _ := "123"%string
|}.

Lemma os_failing_at_laws n : @OSLaws (os_failing_at n).
Proof. split. intros k e. cbn. destruct (k =? n)%nat; [by intros [= <-]|done]. Qed.

Definition fs_empty : FS := mkFS ∅ 0.

Lemma instance_id_stable_witness :
  fst (@loadOrCreateInstanceID (os_failing_at 99) (Ok "id-2"%string) "/i"
    (mkFS (files (snd (@loadOrCreateInstanceID (os_failing_at 99) (Ok "id-1"%string) "/i" fs_empty))) 0))
  = Ok "id-1"%string.
Proof.
  refine (proj2 (proj2 (@instance_id_stable (os_failing_at 99) (os_failing_at_laws 99)
    (Ok "id-1"%string) "/i" "id-1" fs_empty _)) _ _ _ _); reflexivity.
Defined.

(** A key type for the witness: its text is the bytes themselves. *)
Definition toy_privkey : PrivKey bytes := {|
  MarshalText b := if bool_decide (TrimSpace b = b) then Ok b else Err (ErrNew "text");
  UnmarshalText b := Ok b
|}.

Lemma toy_privkey_laws : @PrivKeyLaws bytes toy_privkey.
Proof. split. intros k t. cbn. case_bool_decide; [by intros [= <-]|done]. Qed.

Lemma LoadOrCreate_stable_witness :
  fst (@LoadOrCreate (os_failing_at 99) bytes toy_privkey "/k" "key" [x42]
    (mkFS (files (snd (@LoadOrCreate (os_failing_at 99) bytes toy_privkey "/k" "key" [x41] fs_empty))) 0))
  = Ok [x41].
Proof.
  refine (proj2 (@LoadOrCreate_stable bytes toy_privkey toy_privkey_laws (os_failing_at 99)
    (os_failing_at_laws 99) "/k" "key" [x41] [x41] fs_empty _) _ _ _ _ _); reflexivity.
Defined.
