(* ===== verification/DerpProto.v ===== *)
(** * DERP wire codec: [sidescale/derp/derpproto/codec.go]

    Frames, the login payloads and the PEER_PRESENT tail. The numeric values of
    the constants aliased from [tailscale.com/derp] are those of the tables in
    [docs/protocols/derp.md]. *)

From Stdlib Require Import Init.Byte Strings.Byte Lia ZArith Ascii String.
From stdpp Require Import base option list gmap sets strings.
From S2P Require Import Prelude GoStd NetIP External Instances.
Open Scope Z_scope.
Open Scope go_scope.

(** ** Constants *)

Definition Magic : bytes := [x44; x45; x52; x50; xf0; x9f; x94; x91].
Definition ProtocolVersion : Z := 2.
Definition KeyLen : Z := 32.
Definition NonceLen : Z := 24.
Definition FrameHeaderLen : Z := 5.
Definition MaxPacketSize : Z := 65536.
Definition MaxFrameBytes : Z := 1048576.

Abbreviation FrameType := Byte.byte (only parsing).

Abbreviation FrameServerKey := x01 (only parsing).
Abbreviation FrameClientInfo := x02 (only parsing).
Abbreviation FrameServerInfo := x03 (only parsing).
Abbreviation FrameSendPacket := x04 (only parsing).
Abbreviation FrameRecvPacket := x05 (only parsing).
Abbreviation FrameKeepAlive := x06 (only parsing).
Abbreviation FrameNotePreferred := x07 (only parsing).
Abbreviation FramePeerGone := x08 (only parsing).
Abbreviation FramePeerPresent := x09 (only parsing).
Abbreviation FrameForwardPacket := x0a (only parsing).
Abbreviation FrameWatchConns := x10 (only parsing).
Abbreviation FrameClosePeer := x11 (only parsing).
Abbreviation FramePing := x12 (only parsing).
Abbreviation FramePong := x13 (only parsing).
Abbreviation FrameHealth := x14 (only parsing).
Abbreviation FrameRestarting := x15 (only parsing).

(** ** Frame names *)

Definition frameNames : gmap FrameType string := list_to_map
  [ (FrameServerKey, "SERVER_KEY"%string);
    (FrameClientInfo, "CLIENT_INFO"%string);
    (FrameServerInfo, "SERVER_INFO"%string);
    (FrameSendPacket, "SEND_PACKET"%string);
    (FrameRecvPacket, "RECV_PACKET"%string);
    (FrameKeepAlive, "KEEP_ALIVE"%string);
    (FrameNotePreferred, "NOTE_PREFERRED"%string);
    (FramePeerGone, "PEER_GONE"%string);
    (FramePeerPresent, "PEER_PRESENT"%string);
    (FrameForwardPacket, "FORWARD_PACKET"%string);
    (FrameWatchConns, "WATCH_CONNS"%string);
    (FrameClosePeer, "CLOSE_PEER"%string);
    (FramePing, "PING"%string);
    (FramePong, "PONG"%string);
    (FrameHealth, "HEALTH"%string);
    (FrameRestarting, "RESTARTING"%string) ].

Definition frameTypes `{Bulk} : gmap string FrameType := MapInvert frameNames.

Definition FrameName (t : FrameType) : string :=
  match frameNames !! t with
  | Some n => n
  | None => ("FRAME_0x" ++ hex2 t)%string
  end.

Definition FrameTypeByName `{Bulk} (name : string) : FrameType * bool :=
  match frameTypes !! name with Some t => (t, true) | None => (x00, false) end.

(** ** Framing *)

(** [(n, ok, err)] of the source: a complete frame of [n] bytes, more bytes
    needed, or a declared length over the cap. *)
Definition SplitFrame (buf : bytes) : result (Z * bool) :=
  if len buf <? FrameHeaderLen then Ok (0, false)
  else
    let frameLen := be_get (buf.[1 : FrameHeaderLen]) in
    if MaxFrameBytes <? frameLen then
      Err (ErrFmt "derpproto: frame length %d exceeds max %d" [Itoa frameLen; Itoa MaxFrameBytes])
    else
      let total := FrameHeaderLen + frameLen in
      if len buf <? total then Ok (0, false) else Ok (total, true).

Definition FrameHeader (buf : bytes) : FrameType * Z * bool :=
  if len buf <? FrameHeaderLen then (x00, 0, false)
  else (hd x00 buf, be_get (buf.[1 : FrameHeaderLen]), true).

Definition EncodeFrame (t : FrameType) (payload : bytes) : bytes :=
  t :: be_PutUint32 (len payload) ++ payload.

Arguments EncodeFrame : simpl never.
Arguments SplitFrame : simpl never.

(** [None] is Go's nil slice. *)
Definition FramePayload (frame : bytes) : option bytes :=
  if len frame <? FrameHeaderLen then None else Some (drop (Z.to_nat FrameHeaderLen) frame).

(** ** Login payloads *)

Section login.
Context `{NodeKeys} `{DerpJSON}.

Definition ServerKeyPayload (serverPub : NodePublic) : bytes := Magic ++ NodePublic_raw serverPub.

Definition ParseServerKey (payload : bytes) : result NodePublic :=
  if len payload <? len Magic + KeyLen then
    Err (ErrNew "derpproto: short FrameServerKey payload")
  else if negb (bool_decide (take (length Magic) payload = Magic)) then
    Err (ErrNew "derpproto: bad FrameServerKey magic")
  else Ok (NodePublicFromRaw32 (payload.[len Magic : len Magic + KeyLen])).

Definition ClientInfoPayload (nonce : bytes) (clientPriv : NodePrivate) (serverPub : NodePublic)
    (info : ClientInfo) : result bytes :=
  js ← marshal_ci info;
  let box := SealTo nonce clientPriv serverPub js in
  Ok (NodePublic_raw (Public clientPriv) ++ box).

Definition OpenClientInfo (serverPriv : NodePrivate) (payload : bytes)
    : result (NodePublic * ClientInfo) :=
  if len payload <? KeyLen then
    Err (ErrNew "derpproto: short FrameClientInfo payload")
  else
    let clientPub := NodePublicFromRaw32 (take (Z.to_nat KeyLen) payload) in
    if NodePublic_IsZero clientPub then Err (ErrNew "derpproto: zero client key")
    else match OpenFrom serverPriv clientPub (drop (Z.to_nat KeyLen) payload) with
         | None => Err (ErrNew "derpproto: FrameClientInfo box open failed")
         | Some js => info ← unmarshal_ci js; Ok (clientPub, info)
         end.

Definition ServerInfoPayload (nonce : bytes) (serverPriv : NodePrivate) (clientPub : NodePublic)
    (info : ServerInfo) : result bytes :=
  js ← marshal_si info; Ok (SealTo nonce serverPriv clientPub js).

Definition OpenServerInfo (clientPriv : NodePrivate) (serverPub : NodePublic) (payload : bytes)
    : result ServerInfo :=
  match OpenFrom clientPriv serverPub payload with
  | None => Err (ErrNew "derpproto: FrameServerInfo box open failed")
  | Some js => unmarshal_si js
  end.
End login.

(** ** The PEER_PRESENT tail *)

Definition peerPresentTailBaseLen : Z := 20.
Definition peerPresentAppNameMax : Z := 255.

Record PeerPresentInfo := mkPeerPresentInfo {
  IPPort : AddrPort;
  HasIPPort : bool;
  Flags : Byte.byte;
  HasFlags : bool;
  AppName : bytes;
  HasAppName : bool
}.

Definition ParsePeerPresentTail (tail : bytes) : PeerPresentInfo :=
  if len tail <? 18 then mkPeerPresentInfo AddrPort_zero false x00 false [] false
  else
    let ipPort := mkAddrPort (Unmap (AddrFrom16 (take 16 tail))) (be_get (tail.[16 : 18])) in
    if len tail <? 19 then mkPeerPresentInfo ipPort true x00 false [] false
    else
      let flags := nth 18 tail x00 in
      if len tail <? 20 then mkPeerPresentInfo ipPort true flags true [] false
      else
        let nameLen := Z_of_byte (nth 19 tail x00) in
        if len tail - 20 <? nameLen then mkPeerPresentInfo ipPort true flags true [] false
        else mkPeerPresentInfo ipPort true flags true (tail.[20 : 20 + nameLen]) true.

Definition BuildPeerPresentTail (ipPort : AddrPort) (flags : Byte.byte) (appName : bytes)
    : result bytes :=
  if peerPresentAppNameMax <? len appName then
    Err (ErrFmt "PEER_PRESENT app name %d bytes exceeds the %d-byte wire limit"
           [Itoa (len appName); Itoa peerPresentAppNameMax])
  else Ok (As16 (ap_Addr ipPort) ++ be_PutUint16 (ap_Port ipPort) ++
           [flags; byte_of_Z (len appName)] ++ appName).

Definition IsDisco `{Disco} (payload : bytes) : bool := LooksLikeDiscoWrapper payload.

(** ** Lemmas: framing *)

Lemma EncodeFrame_length t p : length (EncodeFrame t p) = (5 + length p)%nat.
Proof. unfold EncodeFrame, be_PutUint32. cbn [length]. autorewrite with go. lia. Qed.

Lemma header_bytes t p rest : (EncodeFrame t p ++ rest).[1 : FrameHeaderLen] = be_PutUint32 (len p).
Proof.
  unfold EncodeFrame. cbn [app]. change (Z.to_nat 1) with 1%nat.
  change (Z.to_nat FrameHeaderLen - 1)%nat with 4%nat. cbn [drop].
  rewrite <-app_assoc. apply take_app_exact. apply length_be_put.
Qed.

Lemma declared_length t p rest :
  len p < 2 ^ 32 → be_get ((EncodeFrame t p ++ rest).[1 : FrameHeaderLen]) = len p.
Proof. intros. rewrite header_bytes. apply be_get_put_small. change (256 ^ Z.of_nat 4) with (2 ^ 32). lia. Qed.

Lemma SplitFrame_encode t p rest :
  len p ≤ MaxFrameBytes → SplitFrame (EncodeFrame t p ++ rest) = Ok (5 + len p, true).
Proof.
  unfold MaxFrameBytes. intros Hp. unfold SplitFrame, FrameHeaderLen, MaxFrameBytes.
  rewrite declared_length by lia.
  rewrite length_app, EncodeFrame_length. cbv zeta.
  go_cases.
Qed.

Lemma SplitFrame_oversized t p rest :
  MaxFrameBytes < len p < 2 ^ 32 → ∃ e, SplitFrame (EncodeFrame t p ++ rest) = Err e.
Proof.
  intros Hp. unfold SplitFrame, FrameHeaderLen.
  rewrite declared_length, length_app, EncodeFrame_length by lia. cbv zeta.
  go_cases. eauto.
Qed.

(** A strict prefix of an encoded frame asks for more bytes. *)
Lemma SplitFrame_prefix t p b rest :
  len p ≤ MaxFrameBytes → EncodeFrame t p = b ++ rest → rest ≠ [] →
  SplitFrame b = Ok (0, false).
Proof.
  unfold MaxFrameBytes. intros Hp E Hne.
  assert (len b + len rest = 5 + len p) as Hlen.
  { pose proof (EncodeFrame_length t p) as Hl. rewrite E, length_app in Hl. lia. }
  assert (len rest ≠ 0) by (destruct rest; simpl; [done|lia]).
  unfold SplitFrame, FrameHeaderLen, MaxFrameBytes.
  destruct (Z.ltb_spec (len b) 5) as [|Hb]; [done|].
  assert (be_get (b.[1 : 5]) = len p) as ->.
  { rewrite <-(declared_length t p []) by lia. rewrite app_nil_r, E.
    change (Z.to_nat FrameHeaderLen - Z.to_nat 1)%nat with 4%nat.
    change (Z.to_nat 5 - Z.to_nat 1)%nat with 4%nat. change (Z.to_nat 1) with 1%nat.
    rewrite drop_app_le, take_app_le by (rewrite ?length_drop; lia). done. }
  cbv zeta. go_cases.
Qed.

(** What [SplitFrame] answers, exactly. *)
Lemma SplitFrame_Ok_inv buf n ok :
  SplitFrame buf = Ok (n, ok) → if ok then 5 ≤ n ≤ len buf ∧ n ≤ 5 + MaxFrameBytes ∧
    n = 5 + be_get (buf.[1 : FrameHeaderLen]) else n = 0.
Proof.
  unfold SplitFrame, FrameHeaderLen. intros H.
  pose proof (proj1 (be_get_bound (buf.[1 : 5]))) as Hb. cbv zeta in H.
  set (L := be_get (buf.[1 : 5])) in *. clearbody L.
  destruct (Z.ltb_spec (len buf) 5); [by simplify_eq|].
  destruct (Z.ltb_spec MaxFrameBytes L); [done|].
  destruct (Z.ltb_spec (len buf) (5 + L)); simplify_eq; [done|]. lia.
Qed.

Lemma SplitFrame_wait_bound buf n :
  SplitFrame buf = Ok (n, false) → len buf < FrameHeaderLen + MaxFrameBytes.
Proof.
  unfold SplitFrame, FrameHeaderLen, MaxFrameBytes. cbv zeta.
  set (L := be_get (buf.[1 : 5])).
  destruct (Z.ltb_spec (len buf) 5); [lia|].
  destruct (Z.ltb_spec 1048576 L); [done|].
  destruct (Z.ltb_spec (len buf) (5 + L)); [lia|done].
Qed.

(** A prefix of a buffer that waits, waits. *)
Lemma SplitFrame_shorter b more rest :
  SplitFrame rest = Ok (0, false) → b ++ more = rest → SplitFrame b = Ok (0, false).
Proof.
  unfold SplitFrame, FrameHeaderLen, MaxFrameBytes. intros Hr <-. cbv zeta in *.
  rewrite length_app in Hr.
  destruct (Z.ltb_spec (len b) 5) as [|Hb]; [done|].
  destruct (Z.ltb_spec (Z.of_nat (length b + length more)) 5); [lia|].
  assert ((b ++ more).[1 : 5] = b.[1 : 5]) as Hhd.
  { change (Z.to_nat 5 - Z.to_nat 1)%nat with 4%nat. change (Z.to_nat 1) with 1%nat.
    rewrite drop_app_le, take_app_le by (rewrite ?length_drop; lia). done. }
  rewrite Hhd in Hr. set (L := be_get (b.[1 : 5])) in *.
  destruct (Z.ltb_spec 1048576 L); [done|].
  destruct (Z.ltb_spec (Z.of_nat (length b + length more)) (5 + L)).
  - destruct (Z.ltb_spec (len b) (5 + L)); [done|lia].
  - injection Hr. lia.
Qed.

(** A frame that was split off is complete on its own. *)
Lemma SplitFrame_take buf n :
  SplitFrame buf = Ok (n, true) →
  SplitFrame (take (Z.to_nat n) buf) = Ok (len (take (Z.to_nat n) buf), true).
Proof.
  intros Hs. destruct (SplitFrame_Ok_inv _ _ _ Hs) as ((Hn & Hle) & Hmax & HL).
  unfold SplitFrame, FrameHeaderLen in *. cbv zeta in *.
  assert (length (take (Z.to_nat n) buf) = Z.to_nat n) as Hlen by (rewrite length_take; lia).
  rewrite Hlen. rewrite Z2Nat.id by lia.
  assert ((take (Z.to_nat n) buf).[1 : 5] = buf.[1 : 5]) as ->.
  { rewrite skipn_firstn_comm, take_take. f_equal. lia. }
  destruct (Z.ltb_spec n 5); [lia|].
  destruct (Z.ltb_spec MaxFrameBytes (be_get (buf.[1 : 5]))); [unfold MaxFrameBytes in *; lia|].
  destruct (Z.ltb_spec n (5 + be_get (buf.[1 : 5]))); [lia|]. by rewrite <-HL.
Qed.

Lemma FrameHeader_encode t p rest :
  len p < 2 ^ 32 → FrameHeader (EncodeFrame t p ++ rest) = (t, len p, true).
Proof.
  intros Hp. unfold FrameHeader. rewrite declared_length by done.
  rewrite length_app, EncodeFrame_length. unfold FrameHeaderLen.
  by destruct (Z.ltb_spec (Z.of_nat (5 + length p + length rest)) 5); [lia|].
Qed.

(** The type is readable whatever the payload's length. *)
Lemma FrameHeader_typed t p : ∃ n, FrameHeader (EncodeFrame t p) = (t, n, true).
Proof.
  unfold FrameHeader, FrameHeaderLen. rewrite EncodeFrame_length.
  destruct (Z.ltb_spec (Z.of_nat (5 + length p)) 5); [lia|]. by eexists.
Qed.

Lemma FramePayload_encode t p : FramePayload (EncodeFrame t p) = Some p.
Proof.
  unfold FramePayload, FrameHeaderLen. rewrite EncodeFrame_length.
  destruct (Z.ltb_spec (Z.of_nat (5 + length p)) 5); [lia|].
  done.
Qed.

(** Every complete frame under the cap is the encoding of its header fields. *)
Lemma EncodeFrame_decode frame t n :
  FrameHeader frame = (t, n, true) → len frame = 5 + n →
  EncodeFrame t (default [] (FramePayload frame)) = frame.
Proof.
  unfold FrameHeader, FramePayload, FrameHeaderLen.
  destruct (Z.ltb_spec (len frame) 5); [done|]. intros [= <- Hn] Hlen. simpl.
  destruct frame as [|a f]; [done|]. unfold EncodeFrame. cbn [hd].
  change (Z.to_nat 5) with 5%nat in *. change (5 - Z.to_nat 1)%nat with 4%nat in *.
  change (Z.to_nat 1) with 1%nat in *. cbn [drop] in *. cbn [length] in *.
  rewrite drop_0 in Hn.
  f_equal. rewrite length_drop.
  replace (Z.of_nat (length f - 4)) with n by lia.
  rewrite <-Hn. unfold be_PutUint32. rewrite be_put_get by (rewrite length_take; lia).
  apply take_drop.
Qed.

#[export] Hint Rewrite EncodeFrame_length : go.

(** ** Lemmas: login *)

Lemma OpenClientInfo_seal `{NodeKeysLaws} `{DerpJSONLaws} nonce client server ci pc :
  Public client ≠ NodePublic_zero → ClientInfoPayload nonce client (Public server) ci = Ok pc →
  OpenClientInfo server pc = Ok (Public client, ci).
Proof.
  intros Hz Hc. unfold ClientInfoPayload in *. destruct (marshal_ci ci) as [jc|] eqn:Ec; simplify_eq/=.
  pose proof (NodePublic_raw_length (Public client)) as Hl.
  unfold OpenClientInfo, KeyLen. rewrite length_app, Hl.
  destruct (Z.ltb_spec (Z.of_nat (32 + length (SealTo nonce client (Public server) jc))) 32); [lia|].
  change (Z.to_nat 32) with 32%nat.
  rewrite take_app_exact, drop_app_exact, NodePublic_from_raw by done.
  unfold NodePublic_IsZero. rewrite bool_decide_false by done.
  rewrite OpenFrom_SealTo. by rewrite (ci_json_roundtrip _ _ Ec).
Qed.

Lemma OpenServerInfo_seal `{NodeKeysLaws} `{DerpJSONLaws} nonce client server si ps :
  ServerInfoPayload nonce server (Public client) si = Ok ps →
  OpenServerInfo client (Public server) ps = Ok si.
Proof.
  intros Hs. unfold ServerInfoPayload in *. destruct (marshal_si si) as [js|] eqn:Es; simplify_eq/=.
  unfold OpenServerInfo. rewrite OpenFrom_SealTo. by apply si_json_roundtrip.
Qed.

(** ** Lemmas: names *)

Lemma frameNames_inj t1 t2 n :
  frameNames !! t1 = Some n → frameNames !! t2 = Some n → t1 = t2.
Proof.
  assert (map_Forall (λ t1 n1, map_Forall (λ t2 n2, n1 = n2 → t1 = t2) frameNames) frameNames)
    as HF by (apply (bool_decide_unpack _); vm_compute; done).
  intros H1 H2. by apply (map_Forall_lookup_1 _ _ _ _ (map_Forall_lookup_1 _ _ _ _ HF H1) H2).
Qed.

Lemma FrameTypeByName_known `{BulkLaws} t n :
  frameNames !! t = Some n → FrameTypeByName n = (t, true).
Proof.
  intros Ht. unfold FrameTypeByName, frameTypes.
  destruct (MapInvert_complete _ _ _ Ht) as [t' Ht'].
  rewrite Ht'. apply MapInvert_sound in Ht'. f_equal. by eapply frameNames_inj.
Qed.

Lemma FrameTypeByName_unknown `{BulkLaws} n :
  (∀ t, frameNames !! t ≠ Some n) → FrameTypeByName n = (x00, false).
Proof.
  intros Hn. unfold FrameTypeByName, frameTypes.
  destruct (MapInvert frameNames !! n) as [t|] eqn:E; [|done].
  by apply MapInvert_sound, Hn in E.
Qed.

(** ** Properties *)

(** Framing round trip. A frame whose payload is within the cap, followed
    by any bytes, is split off at exactly its length, its header reads back the
    type and payload length, and its payload is recovered. *)
Theorem frame_roundtrip (t : FrameType) (p rest : bytes) :
  len p ≤ MaxFrameBytes →
  SplitFrame (EncodeFrame t p ++ rest) = Ok (len (EncodeFrame t p), true) ∧
  take (length (EncodeFrame t p)) (EncodeFrame t p ++ rest) = EncodeFrame t p ∧
  FrameHeader (EncodeFrame t p) = (t, len p, true) ∧
  FramePayload (EncodeFrame t p) = Some p.
Proof.
  intros Hp. repeat split.
  - rewrite SplitFrame_encode, EncodeFrame_length by done. do 2 f_equal. lia.
  - by apply take_app_exact.
  - rewrite <-(app_nil_r (EncodeFrame t p)) at 1. apply FrameHeader_encode.
    unfold MaxFrameBytes in Hp. lia.
  - apply FramePayload_encode.
Qed.

Lemma frame_roundtrip_witness :
  SplitFrame (EncodeFrame FramePing (to_bytes "12345678") ++ [x01]) = Ok (13, true).
Proof.
  destruct (frame_roundtrip FramePing (to_bytes "12345678") [x01]) as (H & _).
  - vm_compute. discriminate.
  - rewrite H. reflexivity.
Defined.

(** C31: the buffering bound. [SplitFrame] fails exactly when a complete header
    declares more than [MaxFrameBytes]; otherwise it reports a frame exactly
    when the buffer holds it, so a buffer that is still waiting holds less than
    one header plus the cap. *)
Theorem SplitFrame_spec (buf : bytes) :
  let L := be_get (buf.[1 : FrameHeaderLen]) in
  match SplitFrame buf with
  | Err _ => FrameHeaderLen ≤ len buf ∧ MaxFrameBytes < L
  | Ok (n, true) => n = FrameHeaderLen + L ∧ L ≤ MaxFrameBytes ∧ n ≤ len buf
  | Ok (n, false) => n = 0 ∧ len buf < FrameHeaderLen + MaxFrameBytes ∧
      (FrameHeaderLen ≤ len buf → len buf < FrameHeaderLen + L ≤ FrameHeaderLen + MaxFrameBytes)
  end.
Proof.
  unfold SplitFrame, FrameHeaderLen, MaxFrameBytes. cbv zeta.
  set (L := be_get (buf.[1 : 5])).
  destruct (Z.ltb_spec (len buf) 5); [repeat split; lia|].
  destruct (Z.ltb_spec 1048576 L); [split; lia|].
  destruct (Z.ltb_spec (len buf) (5 + L)); repeat split; lia.
Qed.

(** The login boxes. What [ClientInfoPayload] and [ServerInfoPayload] seal,
    the other side opens: the key recovered is the sender's and the message is
    the one sealed, for every nonce. *)
Theorem login_roundtrip `{NodeKeysLaws} `{DerpJSONLaws}
    nonce (client server : NodePrivate) (ci : ClientInfo) (si : ServerInfo) pc ps :
  Public client ≠ NodePublic_zero →
  ClientInfoPayload nonce client (Public server) ci = Ok pc →
  ServerInfoPayload nonce server (Public client) si = Ok ps →
  OpenClientInfo server pc = Ok (Public client, ci) ∧
  OpenServerInfo client (Public server) ps = Ok si.
Proof.
  intros Hz Hc Hs. split; [by eapply OpenClientInfo_seal|by eapply OpenServerInfo_seal].
Qed.

Lemma login_roundtrip_witness :
  ∃ pc, OpenClientInfo (toy_key x02) pc
        = Ok (toy_key x01, mkClientInfo 2 [x07] true false).
Proof.
  eexists. refine (proj1 (login_roundtrip [] (toy_key x01) (toy_key x02)
    (mkClientInfo 2 [x07] true false) (mkServerInfo 2 0 0) _ _ _ _ _)).
  - vm_compute. discriminate.
  - reflexivity.
  - reflexivity.
Defined.

(** The PEER_PRESENT tail. Parsing what [BuildPeerPresentTail] wrote yields
    the address (unmapped), port, flags and application name; the names it
    refuses are exactly those over 255 bytes. *)
Theorem peer_present_roundtrip (a : IPAddr) (port : Z) (flags : Byte.byte) (name : bytes) :
  length (As16 a) = 16%nat → 0 ≤ port < 65536 →
  match BuildPeerPresentTail (mkAddrPort a port) flags name with
  | Ok tail => len name ≤ peerPresentAppNameMax ∧
      ParsePeerPresentTail tail =
      mkPeerPresentInfo (mkAddrPort (Unmap (AddrFrom16 (As16 a))) port) true flags true name true
  | Err _ => peerPresentAppNameMax < len name
  end.
Proof.
  intros Ha Hport. unfold BuildPeerPresentTail, peerPresentAppNameMax. cbn [ap_Addr ap_Port].
  destruct (Z.ltb_spec 255 (len name)) as [|Happ]; [done|]. split; [done|].
  set (tail := As16 a ++ be_PutUint16 port ++ [flags; byte_of_Z (len name)] ++ name).
  assert (length tail = (20 + length name)%nat) as Hlen.
  { unfold tail, be_PutUint16. autorewrite with go. cbn [length]. lia. }
  assert (take 16 tail = As16 a) as H16 by (unfold tail; by apply take_app_exact).
  assert (drop 16 tail = be_PutUint16 port ++ [flags; byte_of_Z (len name)] ++ name) as Hd16
    by (unfold tail; by apply drop_app_exact).
  assert (drop 18 tail = [flags; byte_of_Z (len name)] ++ name) as Hd18.
  { change 18%nat with (16 + 2)%nat. rewrite <-drop_drop, Hd16.
    by apply drop_app_exact, length_be_put. }
  assert (∀ n d, nth (18 + n) tail d = nth n (drop 18 tail) d) as Hnth.
  { intros. symmetry. apply List.nth_skipn. }
  assert (nth 18 tail x00 = flags) as Hf.
  { change 18%nat with (18 + 0)%nat. by rewrite Hnth, Hd18. }
  assert (Z_of_byte (nth 19 tail x00) = len name) as Hn.
  { change 19%nat with (18 + 1)%nat. rewrite Hnth, Hd18. cbn [app nth]. rewrite Z_of_byte_of_Z.
    apply Z.mod_small. lia. }
  unfold ParsePeerPresentTail. rewrite Hlen, Hn, Hf, H16.
  destruct (Z.ltb_spec (Z.of_nat (20 + length name)) 18); [lia|].
  destruct (Z.ltb_spec (Z.of_nat (20 + length name)) 19); [lia|].
  destruct (Z.ltb_spec (Z.of_nat (20 + length name)) 20); [lia|].
  destruct (Z.ltb_spec (Z.of_nat (20 + length name) - 20) (len name)); [lia|].
  change (Z.to_nat 16) with 16%nat. rewrite Hd16.
  change (Z.to_nat 18 - 16)%nat with 2%nat.
  rewrite take_app_exact by apply length_be_put.
  unfold be_PutUint16 at 1. rewrite be_get_put_small by (change (256 ^ Z.of_nat 2) with 65536; lia).
  f_equal. change (Z.to_nat 20) with (18 + 2)%nat. rewrite <-drop_drop, Hd18. cbn [app drop].
  rewrite drop_0. apply take_ge. lia.
Qed.

Lemma peer_present_roundtrip_witness :
  ParsePeerPresentTail (default [] (match BuildPeerPresentTail
    (mkAddrPort (Addr4 [x7f; x00; x00; x01]) 3478) x01 (to_bytes "app") with Ok t => Some t | _ => None end))
  = mkPeerPresentInfo (mkAddrPort (Addr4 [x7f; x00; x00; x01]) 3478) true x01 true (to_bytes "app") true.
Proof.
  pose proof (peer_present_roundtrip (Addr4 [x7f; x00; x00; x01]) 3478 x01 (to_bytes "app")
    eq_refl ltac:(lia)) as H.
  exact (proj2 H).
Defined.

(** The server greeting. A FrameServerKey payload is read back, trailing
    bytes included (later versions may append some), and the parser accepts
    nothing but the magic followed by a raw key. *)
Theorem server_key_roundtrip `{NodeKeysLaws} (k : NodePublic) (trailing : bytes) :
  ParseServerKey (ServerKeyPayload k ++ trailing) = Ok k ∧
  (∀ p k', ParseServerKey p = Ok k' → len Magic + KeyLen ≤ len p ∧
     ∃ rest, p = Magic ++ NodePublic_raw k' ++ rest).
Proof.
  pose proof NodePublic_raw_length as Hraw.
  unfold ParseServerKey, ServerKeyPayload, KeyLen. change (len Magic) with 8.
  change (length Magic) with 8%nat.
  change (Z.to_nat (8 + 32) - Z.to_nat 8)%nat with 32%nat. change (Z.to_nat 8) with 8%nat.
  split.
  - rewrite <-app_assoc. rewrite !length_app, Hraw. change (length Magic) with 8%nat.
    destruct (Z.ltb_spec (Z.of_nat (8 + (32 + length trailing))) (8 + 32)); [lia|].
    rewrite (take_app_exact Magic), (drop_app_exact Magic), take_app_exact by done.
    rewrite bool_decide_true by done. simpl. by rewrite NodePublic_from_raw.
  - intros p k'. destruct (Z.ltb_spec (len p) (8 + 32)); [done|].
    case_bool_decide as HM; [|done]. intros [= <-]. split; [lia|].
    exists (drop 40 p).
    rewrite NodePublic_raw_from by (rewrite length_take, length_drop; lia).
    rewrite <-HM at 1. rewrite <-(take_drop 8 p) at 1. f_equal.
    rewrite <-(take_drop 32 (drop 8 p)) at 1. by rewrite drop_drop.
Qed.

Lemma server_key_roundtrip_witness :
  ParseServerKey (ServerKeyPayload (toy_key x05) ++ [x00]) = Ok (toy_key x05).
Proof. exact (proj1 (server_key_roundtrip (toy_key x05) [x00])). Defined.
