(* ===== verification/FrameConn.v ===== *)
(** * Frame streams: [frameConn] of [sidescale/derp/tunnel.go]

    A connection's byte stream cut into DERP frames. What the peer will deliver
    is the script [fc_input], one entry per [Read]: the bytes read and the error
    returned with them; an exhausted script reads as [io.EOF]. *)

From Stdlib Require Import Init.Byte Strings.Byte Lia ZArith Ascii String.
From stdpp Require Import base option list gmap sets strings.
From S2P Require Import Prelude GoStd NetIP External Instances DerpProto.
Open Scope Z_scope.
Open Scope go_scope.


(** The size of the read buffer; every script entry holds at most this much. *)
Definition readBufLen : Z := 32 * 1024.

Section frameConn.
Context `{Reassembler}.

Record frameConn := mkFrameConn {
  fc_conn : connid;
  fc_re : reasm;
  fc_frameErr : option error;
  fc_input : script
}.

Definition newFrameConn (c : connid) (input : script) : frameConn :=
  mkFrameConn c reasm_zero None input.

Definition prefix (fc : frameConn) (b : bytes) : frameConn :=
  if 0 <? len b
  then mkFrameConn (fc_conn fc) (Append (fc_re fc) b) (fc_frameErr fc) (fc_input fc)
  else fc.

(** [fc.split]: the side effect is the recorded frame error. *)
Definition split (buf : bytes) (frameErr : option error) : Z * bool * option error :=
  match SplitFrame buf with
  | Err e => (0, false, Some e)
  | Ok (n, ok) => (n, ok, frameErr)
  end.

(** The loop of [ReadFrame], one [Read] per round. *)
Fixpoint read_loop (c : connid) (re : reasm) (frameErr : option error) (input : script)
    : result bytes * frameConn :=
  let '(o, re, frameErr) := Next split re frameErr in
  match o with
  | Some frame => (Ok frame, mkFrameConn c re frameErr input)
  | None =>
      match frameErr with
      | Some e => (Err e, mkFrameConn c re frameErr input)
      | None =>
          match input with
          | [] => (Err io_EOF, mkFrameConn c re frameErr [])
          | (b, err) :: input =>
              let re := if 0 <? len b then Append re b else re in
              match err with
              | Some e => (Err e, mkFrameConn c re frameErr input)
              | None => read_loop c re frameErr input
              end
          end
      end
  end.

Definition ReadFrame (fc : frameConn) : result bytes * frameConn :=
  read_loop (fc_conn fc) (fc_re fc) (fc_frameErr fc) (fc_input fc).

Definition ReadTypedFrame (fc : frameConn) : result (FrameType * bytes) * frameConn :=
  let '(r, fc) := ReadFrame fc in
  match r with
  | Err e => (Err e, fc)
  | Ok frame =>
      let '(t, _, ok) := FrameHeader frame in
      if ok then (Ok (t, default [] (FramePayload frame)), fc)
      else (Err (ErrNew "derp: short frame"), fc)
  end.

Definition WriteFrame `{Env} (fc : frameConn) (t : FrameType) (payload : bytes)
    : eff (option error) := ConnWrite (fc_conn fc) (EncodeFrame t payload).

Definition Write `{Env} (fc : frameConn) (frame : bytes) : eff (option error) :=
  ConnWrite (fc_conn fc) frame.

(** [n] consecutive reads, up to the first failure. *)
Fixpoint ReadFrames (n : nat) (fc : frameConn) : result (list bytes) * frameConn :=
  match n with
  | O => (Ok [], fc)
  | S n =>
      let '(r, fc) := ReadFrame fc in
      match r with
      | Err e => (Err e, fc)
      | Ok f => let '(rs, fc) := ReadFrames n fc in
                (match rs with Ok fs => Ok (f :: fs) | Err e => Err e end, fc)
      end
  end.
End frameConn.
Arguments frameConn {_}.

(** No chunk of a script is larger than the read buffer. *)
Definition script_fits (input : script) : Prop := Forall (λ e, len (fst e) ≤ readBufLen) input.

(** Everything a connection still holds: buffered bytes, then the script. *)
Definition pending `{Reassembler} (fc : frameConn) : bytes :=
  buffered (fc_re fc) ++ script_bytes (fc_input fc).

Definition encode_all (fs : list (FrameType * bytes)) : bytes :=
  concat (map (λ f, EncodeFrame (fst f) (snd f)) fs).

Definition frame_ok (f : FrameType * bytes) : Prop := len (snd f) ≤ MaxFrameBytes.

Section lemmas.
Context `{ReassemblerLaws}.

Lemma Append_if (re : reasm) (b : bytes) :
  buffered (if 0 <? len b then Append re b else re) = buffered re ++ b.
Proof.
  destruct (Z.ltb_spec 0 (len b)); [apply buffered_Append|].
  destruct b; simpl in *; [by rewrite app_nil_r|lia].
Qed.

(** One step of the loop, by what [SplitFrame] says of the buffer. *)
Lemma read_loop_frame c re n input :
  SplitFrame (buffered re) = Ok (n, true) →
  ∃ re', read_loop c re None input
         = (Ok (take (Z.to_nat n) (buffered re)), mkFrameConn c re' None input) ∧
         buffered re' = drop (Z.to_nat n) (buffered re).
Proof.
  intros Hs.
  destruct (Next_split split re None n None) as (re' & E & Hb).
  { unfold split. by rewrite Hs. }
  exists re'. split; [|done]. destruct input; simpl; by rewrite E.
Qed.

Lemma read_loop_wait c re n input :
  SplitFrame (buffered re) = Ok (n, false) →
  ∃ re', buffered re' = buffered re ∧
    read_loop c re None input =
    match input with
    | [] => (Err io_EOF, mkFrameConn c re' None [])
    | (b, err) :: input =>
        let re' := if 0 <? len b then Append re' b else re' in
        match err with
        | Some e => (Err e, mkFrameConn c re' None input)
        | None => read_loop c re' None input
        end
    end.
Proof.
  intros Hs.
  destruct (Next_none split re None n None) as (re' & E & Hb).
  { unfold split. by rewrite Hs. }
  exists re'. split; [done|]. destruct input as [|[b err] input]; simpl; by rewrite E.
Qed.

Lemma read_loop_error c re e ferr input :
  SplitFrame (buffered re) = Err e →
  ∃ re', buffered re' = buffered re ∧
    read_loop c re ferr input = (Err e, mkFrameConn c re' (Some e) input).
Proof.
  intros Hs.
  destruct (Next_none split re ferr 0 (Some e)) as (re' & E & Hb).
  { unfold split. by rewrite Hs. }
  exists re'. split; [done|]. destruct input as [|[b err] input]; simpl; by rewrite E.
Qed.

(** [f] is split off the front of every buffer that starts with it, and every
    strict prefix of it waits for more. *)
Definition is_frame (f : bytes) : Prop :=
  (∀ rest, SplitFrame (f ++ rest) = Ok (len f, true)) ∧
  (∀ b rest, f = b ++ rest → rest ≠ [] → SplitFrame b = Ok (0, false)).

Lemma is_frame_encode t p : frame_ok (t, p) → is_frame (EncodeFrame t p).
Proof.
  intros Hp. split.
  - intros rest. rewrite SplitFrame_encode, EncodeFrame_length by done. do 2 f_equal. lia.
  - intros b rest. by apply SplitFrame_prefix.
Qed.

(** Reading the next frame off a clean stream that starts with it. *)
Lemma read_loop_next c re input f R :
  is_frame f → script_clean input →
  buffered re ++ script_bytes input = f ++ R →
  ∃ re' input', read_loop c re None input = (Ok f, mkFrameConn c re' None input') ∧
    script_clean input' ∧ buffered re' ++ script_bytes input' = R ∧ input' `suffix_of` input.
Proof.
  intros [Hsplit Hwait]. revert re. induction input as [|[b err] input IH]; intros re Hc E.
  all: destruct (stream_cases _ _ _ _ E) as [(r0 & Hr0 & HR)|(k & Hk & Hne & HR)].
  all: try match goal with |- context [read_loop _ _ _ ?i] =>
    destruct (read_loop_frame c re (len f) i ltac:(by rewrite Hr0)) as (re' & Hr & Hb);
    exists re', i; rewrite Hr, Hb, Hr0, take_app_exact, drop_app_exact by lia;
    split_and!; done end.
  - by destruct k.
  - apply Forall_cons in Hc as [Herr Hc]. simpl in Herr. subst err.
    destruct (read_loop_wait c re 0 ((b, None) :: input)) as (re' & Hb & Hr); [by eauto|].
    destruct (IH (if 0 <? len b then Append re' b else re') Hc) as (re2 & in2 & E2 & Hc2 & HR2 & Hsuf).
    { rewrite Append_if, Hb, <-app_assoc. exact E. }
    exists re2, in2. rewrite Hr. cbv zeta. repeat split; try done. by apply suffix_cons_r.
Qed.

(** *** The invariant of a connection: a recorded frame error is the one of the
    buffered bytes, and the buffer is bounded. *)
Definition bufBound : Z := FrameHeaderLen + MaxFrameBytes + readBufLen.

Definition frameErr_ok (frameErr : option error) (re : reasm) : Prop :=
  ∀ e, frameErr = Some e → SplitFrame (buffered re) = Err e.

Definition conn_inv (fc : frameConn) : Prop :=
  frameErr_ok (fc_frameErr fc) (fc_re fc) ∧
  len (buffered (fc_re fc)) < bufBound ∧ script_fits (fc_input fc).

(** The part that does not need the bound. *)
Definition conn_ok (fc : frameConn) : Prop := frameErr_ok (fc_frameErr fc) (fc_re fc).

Definition frame_of (r : result bytes) : bytes := match r with Ok f => f | Err _ => [] end.

(** What one read does, on every outcome. *)
Definition read_post (re : reasm) (input : script) (o : result bytes * frameConn) : Prop :=
  let '(r, fc) := o in
  buffered re ++ script_bytes input = frame_of r ++ pending fc ∧
  (∀ f, r = Ok f → SplitFrame f = Ok (len f, true)) ∧
  frameErr_ok (fc_frameErr fc) (fc_re fc) ∧
  (len (buffered re) < bufBound → script_fits input →
   len (buffered (fc_re fc)) < bufBound ∧ script_fits (fc_input fc)).

Lemma read_post_append re re' b err input o :
  buffered re' = buffered re → len (buffered re) < FrameHeaderLen + MaxFrameBytes →
  read_post (if 0 <? len b then Append re' b else re') input o →
  read_post re ((b, err) :: input) o.
Proof.
  destruct o as [r fc]. intros Hb Hw (Hp & Hok & He & Hbd). rewrite Append_if, Hb in Hp, Hbd.
  split_and!; [|done..|].
  - rewrite <-Hp, <-app_assoc. done.
  - intros Hlen [Hfb Hfit]%Forall_cons. cbn [fst] in Hfb. apply Hbd; [|done].
    rewrite length_app. unfold bufBound in *. lia.
Qed.

Lemma read_post_refl re c ferr input (r : result bytes) re' :
  buffered re' = buffered re → frame_of r = [] → (∀ f, r ≠ Ok f) → frameErr_ok ferr re →
  read_post re input (r, mkFrameConn c re' ferr input).
Proof.
  intros Hb Hr Hne He. cbn. unfold pending, frameErr_ok. cbn. rewrite Hr, Hb.
  split_and!; [done| |done|done]. intros f ->. by destruct (Hne f).
Qed.

Lemma read_loop_post c re ferr input :
  frameErr_ok ferr re → read_post re input (read_loop c re ferr input).
Proof.
  revert re ferr. induction input as [|[b err] input IH]; intros re ferr Hf.
  all: destruct (SplitFrame (buffered re)) as [[n ok]|e] eqn:Hs.
  all: try match goal with |- read_post _ ?i _ =>
    destruct (read_loop_error c re e ferr i Hs) as (re' & Hb & ->);
    apply read_post_refl; try done; by intros ? [= <-] end.
  all: assert (ferr = None) as -> by (destruct ferr as [e|]; [by rewrite (Hf e eq_refl) in Hs|done]).
  all: destruct ok.
  all: try match goal with |- read_post _ ?i _ =>
    destruct (read_loop_frame c re n i Hs) as (re' & -> & Hb); unfold read_post, pending;
    cbn [fc_re fc_input fc_frameErr frame_of]; rewrite Hb, app_assoc, take_drop, length_drop;
    split_and!; [done|intros f [= <-]; by apply SplitFrame_take|done|intros; split; [lia|done]] end.
  - destruct (read_loop_wait c re n [] Hs) as (re' & Hb & ->). by apply read_post_refl.
  - destruct (read_loop_wait c re n ((b, err) :: input) Hs) as (re' & Hb & ->). cbv zeta.
    apply SplitFrame_wait_bound in Hs.
    apply (read_post_append re re'); [done|done|].
    destruct err as [e|]; [|by apply IH]. by apply read_post_refl.
Qed.

Lemma conn_inv_new c input : script_fits input → conn_inv (newFrameConn c input).
Proof.
  intros. split_and!; cbn; [done| |done]. rewrite buffered_zero. by vm_compute.
Qed.

Lemma ReadFrame_inv fc : conn_inv fc → conn_inv (snd (ReadFrame fc)).
Proof.
  intros (Hf & Hb & Hs). unfold ReadFrame.
  pose proof (read_loop_post (fc_conn fc) (fc_re fc) _ (fc_input fc) Hf) as Hp.
  destruct (read_loop _ _ _ _) as [r fc']. destruct Hp as (_ & _ & Hf' & Hbd).
  split; [done|]. by apply Hbd.
Qed.

Lemma ReadFrame_post fc : conn_ok fc →
  let '(r, fc') := ReadFrame fc in
  pending fc = frame_of r ++ pending fc' ∧ conn_ok fc' ∧
  (∀ f, r = Ok f → SplitFrame f = Ok (len f, true)).
Proof.
  intros Hf. unfold ReadFrame.
  pose proof (read_loop_post (fc_conn fc) (fc_re fc) _ (fc_input fc) Hf) as Hp.
  destruct (read_loop _ _ _ _) as [r fc'] eqn:E. by destruct Hp as (Hp & Hok & Hf' & _).
Qed.

Lemma read_loop_conn c re ferr input : fc_conn (snd (read_loop c re ferr input)) = c.
Proof.
  revert re ferr. induction input as [|[b err] input IH]; intros re ferr; cbn;
    destruct (Next split re ferr) as [[[f|] re'] [e|]]; try done.
  destruct err; [done|]. apply IH.
Qed.

(** A complete frame is the encoding of its type and payload. *)
Lemma typed_of_frame f :
  SplitFrame f = Ok (len f, true) →
  ∃ n, FrameHeader f = (hd x00 f, n, true) ∧
    EncodeFrame (hd x00 f) (default [] (FramePayload f)) = f ∧
    frame_ok (hd x00 f, default [] (FramePayload f)).
Proof.
  intros Hok. apply SplitFrame_Ok_inv in Hok as ((Hlen & _) & Hmax & Hl).
  assert (FrameHeader f = (hd x00 f, be_get (f.[1 : FrameHeaderLen]), true)) as Hh.
  { unfold FrameHeader, FrameHeaderLen. destruct (Z.ltb_spec (len f) 5); [lia|done]. }
  eexists. split; [exact Hh|]. split; [exact (EncodeFrame_decode f _ _ Hh Hl)|].
  unfold frame_ok, FramePayload, FrameHeaderLen. destruct (Z.ltb_spec (len f) 5); [lia|].
  cbn [snd default]. unfold id. rewrite length_drop. lia.
Qed.

(** A typed read returns one frame of the stream, and makes progress. *)
Lemma ReadTypedFrame_post fc : conn_ok fc →
  let '(r, fc') := ReadTypedFrame fc in
  conn_ok fc' ∧ fc_conn fc' = fc_conn fc ∧
  (∀ t p, r = Ok (t, p) → pending fc = EncodeFrame t p ++ pending fc' ∧ frame_ok (t, p)).
Proof.
  intros Hinv. pose proof (ReadFrame_post fc Hinv) as Hp. unfold ReadTypedFrame.
  pose proof (read_loop_conn (fc_conn fc) (fc_re fc) (fc_frameErr fc) (fc_input fc)) as Hc.
  fold (ReadFrame fc) in Hc.
  destruct (ReadFrame fc) as [[f|e] fc'] eqn:E; cbn [snd] in Hc; destruct Hp as (Hp & Hi & Hok); [|done].
  destruct (typed_of_frame f (Hok f eq_refl)) as (n & Hh & He & Hfo). rewrite Hh.
  split_and!; [done..|]. intros t p [= <- <-]. split; [|done]. by rewrite He.
Qed.

(** Seeding a new connection. *)
Lemma conn_ok_prefix c input b : conn_ok (prefix (newFrameConn c input) b).
Proof. intros e. unfold prefix. by destruct (_ <? _). Qed.

Lemma conn_ok_new c input : conn_ok (newFrameConn c input).
Proof. by intros e. Qed.

(** Frames queue up on a clean stream. *)
Lemma ReadFrames_clean fc fs tail :
  Forall frame_ok fs → fc_frameErr fc = None → script_clean (fc_input fc) →
  pending fc = encode_all fs ++ tail →
  ∃ fc', ReadFrames (length fs) fc = (Ok (map (λ f, EncodeFrame (fst f) (snd f)) fs), fc') ∧
    pending fc' = tail ∧ fc_frameErr fc' = None ∧ script_clean (fc_input fc').
Proof.
  revert fc. induction fs as [|[t p] fs IH]; intros fc Hok Hf Hc Hp; [by exists fc|].
  apply Forall_cons in Hok as [Hp0 Hok].
  assert (buffered (fc_re fc) ++ script_bytes (fc_input fc)
    = EncodeFrame t p ++ encode_all fs ++ tail) as E.
  { unfold pending in Hp. rewrite Hp. unfold encode_all. cbn [map concat fst snd].
    by rewrite <-app_assoc. }
  destruct (read_loop_next (fc_conn fc) _ _ _ _ (is_frame_encode _ _ Hp0) Hc E)
    as (re' & input' & Hr & Hc' & HR & _).
  destruct (IH (mkFrameConn (fc_conn fc) re' None input') Hok eq_refl Hc' HR)
    as (fc' & Hrs & Hrest).
  exists fc'. split; [|done]. cbn [ReadFrames length]. unfold ReadFrame. rewrite Hf, Hr.
  by rewrite Hrs.
Qed.

Lemma prefix_pending c input b :
  pending (prefix (newFrameConn c input) b) = b ++ script_bytes input ∧
  fc_frameErr (prefix (newFrameConn c input) b) = None ∧
  fc_input (prefix (newFrameConn c input) b) = input.
Proof.
  unfold prefix, pending. cbn. destruct (Z.ltb_spec 0 (len b)) as [|Hb]; cbn.
  - by rewrite buffered_Append, buffered_zero.
  - destruct b; [|simpl in Hb; lia]. by rewrite buffered_zero.
Qed.

(** A clean stream that never completes a frame ends with an error. *)
Lemma read_loop_waits c re input rest :
  script_clean input → SplitFrame rest = Ok (0, false) →
  buffered re ++ script_bytes input = rest → ∃ e fc, read_loop c re None input = (Err e, fc).
Proof.
  intros Hc Hs. revert re. induction input as [|[b err] input IH]; intros re Hp.
  all: assert (SplitFrame (buffered re) = Ok (0, false)) as Hw by
    (eapply SplitFrame_shorter; [exact Hs|]; by rewrite <-Hp).
  - destruct (read_loop_wait c re 0 [] Hw) as (re' & _ & ->). by eauto.
  - destruct (read_loop_wait c re 0 ((b, err) :: input) Hw) as (re' & Hb & ->). cbv zeta.
    apply Forall_cons in Hc as [Herr Hc]. simpl in Herr. subst err.
    apply IH; [done|]. rewrite Append_if, Hb, <-Hp, <-app_assoc. done.
Qed.

Lemma ReadFrame_dry fc :
  fc_frameErr fc = None → script_clean (fc_input fc) → pending fc = [] →
  fst (ReadFrame fc) = Err io_EOF.
Proof.
  unfold ReadFrame, pending. intros -> Hc [Hb Hs]%app_eq_nil.
  assert (∀ re, buffered re = [] → fst (read_loop (fc_conn fc) re None (fc_input fc)) = Err io_EOF)
    as H'; [|by apply H'].
  revert Hc Hs. clear Hb. generalize (fc_input fc) as input.
  induction input as [|[b err] input IH]; intros Hc Hs re Hre.
  all: assert (SplitFrame (buffered re) = Ok (0, false)) as Hsp by (by rewrite Hre).
  - by destruct (read_loop_wait (fc_conn fc) re 0 [] Hsp) as (re' & _ & ->).
  - destruct (read_loop_wait (fc_conn fc) re 0 ((b, err) :: input) Hsp) as (re' & Hb' & ->).
    apply Forall_cons in Hc as [Herr Hc]. simpl in Herr. subst err.
    apply app_eq_nil in Hs as [Hbn Hs]. cbn [fst] in Hbn. subst b. cbv zeta.
    apply IH; [done|done|]. rewrite Append_if. rewrite app_nil_r. congruence.
Qed.
End lemmas.

(** ** Properties *)

(** C1: frames survive any segmentation. Whatever chunks the peer's bytes arrive
    in, and whatever part of them the upgrade handshake had already buffered,
    reading [n] frames off a stream of [n] encoded frames yields exactly those
    frames in order and leaves exactly the bytes behind them; a drained stream
    then reads as end of file. *)
Theorem stream_reassembly `{ReassemblerLaws} (c : connid) (buffered_b : bytes) (input : script)
    (fs : list (FrameType * bytes)) (tail : bytes) :
  Forall frame_ok fs → script_clean input →
  buffered_b ++ script_bytes input = encode_all fs ++ tail →
  ∃ fc', ReadFrames (length fs) (prefix (newFrameConn c input) buffered_b)
           = (Ok (map (λ f, EncodeFrame (fst f) (snd f)) fs), fc') ∧
    pending fc' = tail ∧
    (tail = [] → fst (ReadFrame fc') = Err io_EOF).
Proof.
  intros Hok Hc Hb.
  destruct (prefix_pending c input buffered_b) as (Hp & Hf & Hi).
  destruct (ReadFrames_clean (prefix (newFrameConn c input) buffered_b) fs tail)
    as (fc' & Hr & Hp' & Hf' & Hc'); [done|done|by rewrite Hi|by rewrite Hp|].
  exists fc'. split_and!; [done|done|]. intros ->. by apply ReadFrame_dry.
Qed.

Lemma stream_reassembly_witness :
  fst (ReadFrames 2 (prefix (newFrameConn 7%nat
    [([x00; x01; x41; x06], None); ([x00; x00], None); ([x00; x00; xff], None)]) [x14; x00; x00]))
  = Ok [EncodeFrame FrameHealth [x41]; EncodeFrame FrameKeepAlive []].
Proof.
  destruct (stream_reassembly 7%nat [x14; x00; x00]
    [([x00; x01; x41; x06], None); ([x00; x00], None); ([x00; x00; xff], None)]
    [(FrameHealth, [x41]); (FrameKeepAlive, [])] [xff]) as (fc' & E & _).
  - repeat constructor; vm_compute; discriminate.
  - repeat constructor.
  - reflexivity.
  - exact (f_equal fst E).
Defined.

(** C30: one read, on every outcome and every script of read errors. It removes
    exactly the returned frame from the bytes the connection still holds, a
    failed read removes none, what it returns is one complete frame, and the
    connection keeps buffering less than one maximal frame plus one read; the
    second conjunct makes an over-long frame sticky: after it every read fails
    with the same error and leaves the pending bytes alone. *)
Theorem ReadFrame_correct `{ReassemblerLaws} (fc : frameConn) :
  conn_inv fc →
  let '(r, fc') := ReadFrame fc in
  pending fc = frame_of r ++ pending fc' ∧ conn_inv fc' ∧
  (∀ f, r = Ok f → SplitFrame f = Ok (len f, true)) ∧
  (∀ e, fc_frameErr fc = Some e → r = Err e ∧ fc_frameErr fc' = Some e).
Proof.
  intros Hinv. pose proof (ReadFrame_inv fc Hinv) as Hinv'. destruct Hinv as (Hf & _).
  pose proof (ReadFrame_post fc Hf) as Hp. destruct (ReadFrame fc) as [r fc'] eqn:E.
  destruct Hp as (Hp & _ & Hok). split_and!; [done|done|done|]. intros e He.
  destruct (read_loop_error (fc_conn fc) (fc_re fc) e (fc_frameErr fc) (fc_input fc) (Hf e He))
    as (re' & _ & E'). unfold ReadFrame in E. rewrite E' in E. by simplify_eq.
Qed.

Lemma ReadFrame_correct_witness :
  let fc := newFrameConn 1%nat [([x04; x00; x10; x00; x01], None)] in
  is_Some (fc_frameErr (snd (ReadFrame fc))) ∧
  conn_inv (snd (ReadFrame fc)) ∧
  fst (ReadFrame (snd (ReadFrame fc))) = fst (ReadFrame fc).
Proof.
  intros fc.
  assert (conn_inv fc) as Hi.
  { apply conn_inv_new. repeat constructor. vm_compute. discriminate. }
  pose proof (ReadFrame_correct fc Hi) as H1. destruct (ReadFrame fc) as [r fc'] eqn:E.
  destruct H1 as (_ & Hi' & _). cbn [fst snd].
  pose proof (ReadFrame_correct fc' Hi') as H2.
  destruct (ReadFrame fc') as [r2 fc2] eqn:E2. destruct H2 as (_ & _ & _ & H2).
  vm_compute in E. injection E as <- <-.
  split; [by eexists|split; [exact Hi'|]]. cbn [fst]. by destruct (H2 _ eq_refl).
Defined.

(** A read error wins over the bytes delivered with it. When a [Read]
    completes the frame and also reports an error (as [io.Reader] permits at the
    end of a stream), [ReadFrame] returns the error and the completed frame stays
    in the buffer; only a caller that reads again would see it. *)
Theorem ReadFrame_final_chunk `{ReassemblerLaws} (c : connid) (e : error) (t : FrameType) (p : bytes) :
  frame_ok (t, p) →
  let '(r, fc') := ReadFrame (newFrameConn c [(EncodeFrame t p, Some e)]) in
  r = Err e ∧ fst (ReadFrame fc') = Ok (EncodeFrame t p).
Proof.
  intros Hp. unfold ReadFrame, newFrameConn. cbn [fc_conn fc_re fc_frameErr fc_input].
  assert (SplitFrame (buffered reasm_zero) = Ok (0, false)) as Hs by by rewrite buffered_zero.
  destruct (read_loop_wait c reasm_zero 0 [(EncodeFrame t p, Some e)] Hs) as (re' & Hb & ->).
  cbv zeta. cbn [fc_conn fc_re fc_frameErr fc_input]. split; [done|].
  set (re2 := if 0 <? _ then _ else _).
  assert (buffered re2 = EncodeFrame t p ++ []) as Hb2.
  { unfold re2. by rewrite Append_if, Hb, buffered_zero, app_nil_r. }
  destruct (is_frame_encode t p Hp) as [Hsp _].
  destruct (read_loop_frame c re2 (len (EncodeFrame t p)) []) as (re3 & -> & _);
    [by rewrite Hb2|]. cbn [fst]. rewrite Hb2, take_app_exact by lia. done.
Qed.

Lemma ReadFrame_final_chunk_witness :
  fst (ReadFrame (newFrameConn 0%nat [(EncodeFrame FramePing [x01], Some io_EOF)])) = Err io_EOF.
Proof.
  pose proof (ReadFrame_final_chunk 0%nat io_EOF FramePing [x01]) as H.
  destruct (ReadFrame _) as [r fc']. apply H. vm_compute. discriminate.
Defined.
