(* ===== verification/DerpCapture.v ===== *)
(** * Frame capture: [sidescale/derp/capture.go]

    A frame decoded into typed headers and a body ([decodeFrame]), the flow
    message built from it, the payload rebuilt from a (possibly edited) message
    ([encodePayload]), and the capture of one frame on the hot path. *)

From Stdlib Require Import Init.Byte Strings.Byte Lia ZArith Ascii String.
From stdpp Require Import base option list gmap sets strings.
From S2P Require Import Prelude GoStd NetIP External Instances Adapter DerpProto.
Open Scope Z_scope.
Open Scope go_scope.

Definition tunnelProtocolTag : string := "tailscale.derp.tunnel".
Definition frameProtocolTag : string := "tailscale.derp.frame".

Definition packetCodec : wire.BodyCodec :=
  wire.mkBodyCodec ["passthrough"%string] "application/octet-stream".

Abbreviation hdr := wire.mkHeader (only parsing).

(** [bodyRaw] and [tail] are nil-sensitive in the code. *)
Record frameFields := mkFrameFields {
  typ : FrameType;
  headers : list wire.Header;
  body : bytes;
  bodyRaw : option bytes;
  tail : option bytes
}.

Definition fields0 (t : FrameType) : frameFields := mkFrameFields t [] [] None None.

Definition setMessage (flow : wire.Flow) (dir : string) (msg : wire.FlowMessage) : wire.Flow :=
  if bool_decide (dir = DirServerToClient)
  then wire.mkFlow (wire.ProtocolTag flow) (wire.Direction flow) (wire.ParentFlowID flow)
         (wire.Request flow) (Some msg) (wire.Annotations flow) (wire.StartedAt flow) (wire.CompletedAt flow)
  else wire.mkFlow (wire.ProtocolTag flow) (wire.Direction flow) (wire.ParentFlowID flow)
         (Some msg) (wire.Response flow) (wire.Annotations flow) (wire.StartedAt flow) (wire.CompletedAt flow).

Definition framePath (t : FrameType) : string := ("/derp/" ++ ToLower (FrameName t))%string.

Definition frameMessage (t : FrameType) (f : frameFields) : wire.FlowMessage :=
  match bodyRaw f with
  | Some raw => wire.mkFlowMessage (FrameName t) (framePath t) "" 0 (headers f) [] (Some raw) (Some packetCodec)
  | None => wire.mkFlowMessage (FrameName t) (framePath t) "" 0 (headers f) (body f) None None
  end.

(** ** Header lookup *)

Fixpoint headerLookup (hs : list wire.Header) (name : string) : string * bool :=
  match hs with
  | [] => (EmptyString, false)
  | h :: hs => if EqualFold (wire.Name h) name then (wire.Value h, true) else headerLookup hs name
  end.

Definition headerValue (hs : list wire.Header) (name : string) : string := fst (headerLookup hs name).

(** ** Decoding *)

Definition packetMetaHeaders `{Disco} (payload : bytes) : list wire.Header :=
  [hdr "X-Derp-Packet-Len" (Itoa (len payload)); hdr "X-Derp-Disco" (FormatBool (IsDisco payload))].

Definition rawPayloadHeader (payload : bytes) : wire.Header :=
  hdr "X-Derp-Raw-Payload" (b64_encode payload).

Section codec.
Context `{NodeKeys} `{Disco}.

Definition keyAt (payload : bytes) (off : Z) : NodePublic :=
  NodePublicFromRaw32 (payload.[off : off + NodePublicRawLen]).

(** [payload[n:]] *)
Definition from (payload : bytes) (n : Z) : bytes := drop (Z.to_nat n) payload.

Definition peerPresentHeaders (peer : NodePublic) (tl : bytes) : list wire.Header :=
  let pp := ParsePeerPresentTail tl in
  [hdr "X-Derp-Peer-Key" (NodePublic_String peer);
   hdr "X-Derp-Peer-Present-Tail" (b64_encode tl)] ++
  (if HasIPPort pp then [hdr "X-Derp-Peer-Present-Addr" (AddrPort_String (IPPort pp))] else []) ++
  (if HasFlags pp then [hdr "X-Derp-Peer-Present-Flags" (Itoa (Z_of_byte (Flags pp)))] else []) ++
  (if bool_decide (AppName pp = []) then []
   else [hdr "X-Derp-Peer-Present-AppName" (of_bytes (AppName pp))]).

Definition packetKeyHdr (t : FrameType) : string :=
  if bool_decide (t = FrameSendPacket) then "X-Derp-Dst-Key" else "X-Derp-Src-Key".

Definition decodeFrame (t : FrameType) (payload0 : option bytes) : frameFields :=
  let payload := default [] payload0 in
  match t with
  | FrameSendPacket | FrameRecvPacket =>
      if NodePublicRawLen <=? len payload then
        let raw := from payload NodePublicRawLen in
        mkFrameFields t (hdr (packetKeyHdr t) (NodePublic_String (keyAt payload 0))
                           :: packetMetaHeaders raw) [] (Some raw) None
      else mkFrameFields t [] [] payload0 None
  | FrameForwardPacket =>
      if 2 * NodePublicRawLen <=? len payload then
        let raw := from payload (2 * NodePublicRawLen) in
        mkFrameFields t
          ([hdr "X-Derp-Src-Key" (NodePublic_String (keyAt payload 0));
            hdr "X-Derp-Dst-Key" (NodePublic_String (keyAt payload NodePublicRawLen))] ++
           packetMetaHeaders raw) [] (Some raw) None
      else mkFrameFields t [] [] payload0 None
  | FramePeerGone =>
      if NodePublicRawLen + 1 <=? len payload then
        mkFrameFields t
          [hdr "X-Derp-Peer-Key" (NodePublic_String (keyAt payload 0));
           hdr "X-Derp-Peer-Gone-Reason"
             (Itoa (Z_of_byte (nth (Z.to_nat NodePublicRawLen) payload x00)))] [] None None
      else mkFrameFields t [rawPayloadHeader payload] [] None None
  | FramePeerPresent =>
      if NodePublicRawLen <=? len payload then
        let tl := from payload NodePublicRawLen in
        mkFrameFields t (peerPresentHeaders (keyAt payload 0) tl) [] None (Some tl)
      else mkFrameFields t [rawPayloadHeader payload] [] None None
  | FrameNotePreferred =>
      let home := FormatBool ((1 <=? len payload) && negb (Z_of_byte (hd x00 payload) =? 0)) in
      mkFrameFields t [hdr "X-Derp-Home" home] [] None None
  | FrameClosePeer =>
      if NodePublicRawLen <=? len payload then
        mkFrameFields t [hdr "X-Derp-Peer-Key" (NodePublic_String (keyAt payload 0))] [] None None
      else mkFrameFields t [rawPayloadHeader payload] [] None None
  | FramePing | FramePong =>
      mkFrameFields t [hdr "X-Derp-Ping-Token" (b64_encode payload)] [] None None
  | FrameRestarting =>
      if 8 <=? len payload then
        mkFrameFields t
          [hdr "X-Derp-Reconnect-Ms" (FormatUint (be_get (payload.[0 : 4])));
           hdr "X-Derp-Try-For-Ms" (FormatUint (be_get (payload.[4 : 8])))] [] None None
      else mkFrameFields t [rawPayloadHeader payload] [] None None
  | FrameHealth => mkFrameFields t [] payload None None
  | FrameKeepAlive | FrameWatchConns => fields0 t
  | _ => mkFrameFields t [] [] payload0 None
  end.

(** ** Encoding *)

Definition rawKey (hs : list wire.Header) (name : string) : bytes :=
  let v := headerValue hs name in
  NodePublic_raw (if bool_decide (v = EmptyString) then NodePublic_zero
                  else fst (NodePublic_UnmarshalText v)).

Definition rawPayload (hs : list wire.Header) : option bytes :=
  let '(v, ok) := headerLookup hs "X-Derp-Raw-Payload" in
  if ok then let '(b, good) := b64_decode v in if good then Some b else None else None.

Definition preservedPayload (hs : list wire.Header) (typed : list string) : option bytes :=
  if existsb (λ n, snd (headerLookup hs n)) typed then None else rawPayload hs.

(** The 32-bit value parsed from a decimal header, [0] when malformed. *)
Definition parseMs (hs : list wire.Header) (name : string) : Z :=
  fst (ParseUint (headerValue hs name) 10 32).

Definition encodePayload (f : frameFields) : bytes :=
  let hs := headers f in
  match typ f with
  | FrameSendPacket | FrameRecvPacket =>
      let keyHdr := packetKeyHdr (typ f) in
      if negb (snd (headerLookup hs keyHdr)) then default [] (bodyRaw f)
      else rawKey hs keyHdr ++ default [] (bodyRaw f)
  | FrameForwardPacket =>
      if negb (snd (headerLookup hs "X-Derp-Src-Key")) && negb (snd (headerLookup hs "X-Derp-Dst-Key"))
      then default [] (bodyRaw f)
      else rawKey hs "X-Derp-Src-Key" ++ rawKey hs "X-Derp-Dst-Key" ++ default [] (bodyRaw f)
  | FramePeerGone =>
      match preservedPayload hs ["X-Derp-Peer-Key"%string] with
      | Some raw => raw
      | None => rawKey hs "X-Derp-Peer-Key" ++
                [byte_of_Z (fst (Atoi (headerValue hs "X-Derp-Peer-Gone-Reason")))]
      end
  | FramePeerPresent =>
      match preservedPayload hs ["X-Derp-Peer-Key"%string] with
      | Some raw => raw
      | None =>
          let tl := match tail f with
                    | Some tl => tl
                    | None => fst (b64_decode (headerValue hs "X-Derp-Peer-Present-Tail"))
                    end in
          rawKey hs "X-Derp-Peer-Key" ++ tl
      end
  | FrameNotePreferred =>
      if bool_decide (headerValue hs "X-Derp-Home" = "true"%string) then [x01] else [x00]
  | FrameClosePeer =>
      match preservedPayload hs ["X-Derp-Peer-Key"%string] with
      | Some raw => raw
      | None => rawKey hs "X-Derp-Peer-Key"
      end
  | FramePing | FramePong => fst (b64_decode (headerValue hs "X-Derp-Ping-Token"))
  | FrameRestarting =>
      match preservedPayload hs ["X-Derp-Reconnect-Ms"%string; "X-Derp-Try-For-Ms"%string] with
      | Some raw => raw
      | None => be_PutUint32 (parseMs hs "X-Derp-Reconnect-Ms") ++
                be_PutUint32 (parseMs hs "X-Derp-Try-For-Ms")
      end
  | FrameHealth => body f
  | FrameKeepAlive | FrameWatchConns => []
  | _ => default [] (bodyRaw f)
  end.

(** [frameFromMessage] of [replay.go]. *)
Definition frameFromMessage (m : wire.FlowMessage) (t : FrameType) : frameFields :=
  mkFrameFields t (wire.Headers m) (wire.Body m) (wire.BodyRaw m) None.
End codec.

(** ** Capture *)

(** The child flow of one frame: completed as it starts. *)
Definition frameFlow (tunnelID dir : string) (now : Z) : wire.Flow :=
  wire.mkFlow frameProtocolTag dir tunnelID None None [] now (Some now).

Section capture.
Context `{NodeKeys} `{Disco} `{Env}.

Definition bodyRuleType (dir : string) : wire.RuleType :=
  if bool_decide (dir = DirServerToClient) then wire.RuleTypeResponseBody else wire.RuleTypeRequestBody.

(** [if _, _, err := PushFlow(..); err != nil { return nil, err }; return out, nil] *)
Definition push_then (flow : wire.Flow) (out : bytes) : eff (result bytes) :=
  r ← PushFlow flow;
  mret (match r with Err e => Err e | Ok _ => Ok out end).

Definition with_body (f : frameFields) (b : bytes) : frameFields :=
  mkFrameFields (typ f) (headers f) b (bodyRaw f) (tail f).

Definition captureFrame (tunnelID : string) (frame : bytes) (dir : string) : eff (result bytes) :=
  let '(t, _, ok) := FrameHeader frame in
  if negb ok then mret (Err (ErrNew "derp: short frame"))
  else
    let f := decodeFrame t (FramePayload frame) in
    now ← Now;
    let captured := setMessage (frameFlow tunnelID dir now) dir (frameMessage t f) in
    if bool_decide (is_Some (bodyRaw f)) || (len (body f) =? 0) then push_then captured frame
    else
      '(mutBody, fired) ← ApplyBody (body f) (bodyRuleType dir);
      if (length fired =? 0)%nat then push_then captured frame
      else
        let mf := with_body f mutBody in
        push_then (setMessage captured dir (frameMessage t mf)) (EncodeFrame t (encodePayload mf)).

(** [infoJSON] is the marshalled login message. *)
Definition captureHandshakeFrame (tunnelID : string) (t : FrameType) (nodePub : NodePublic)
    (box infoJSON : bytes) (dir : string) : eff (option error) :=
  let hs := [hdr "X-Derp-Node-Key" (NodePublic_String nodePub); hdr "X-Derp-Box" (b64_encode box)] in
  now ← Now;
  let flow := setMessage (frameFlow tunnelID dir now) dir
    (wire.mkFlowMessage (FrameName t) (framePath t) "" 0 hs infoJSON None None) in
  r ← PushFlow flow;
  mret (match r with Err e => Some e | Ok _ => None end).
End capture.

(** ** Lemmas: decoding *)

(** The payload the typed view of a captured one determines: what lies behind
    the typed fields of some frames is dropped. *)
Definition resent (t : FrameType) (p : bytes) : bytes :=
  match t with
  | FramePeerGone => take (Z.to_nat (NodePublicRawLen + 1)) p
  | FrameClosePeer => take (Z.to_nat NodePublicRawLen) p
  | FrameRestarting => take 8 p
  | FrameNotePreferred => match p with [] | x00 :: _ => [x00] | _ => [x01] end
  | FrameKeepAlive | FrameWatchConns => []
  | _ => p
  end.

(** Which payloads a frame type's typed view determines. *)
Definition canonical (t : FrameType) (p : bytes) : Prop :=
  match t with
  | FramePeerGone => len p ≤ NodePublicRawLen + 1
  | FrameClosePeer => len p ≤ NodePublicRawLen
  | FrameRestarting => len p ≤ 8
  | FrameNotePreferred => p = [x00] ∨ p = [x01]
  | FrameKeepAlive | FrameWatchConns => p = []
  | _ => True
  end.

(** The types the code switches on; the others take the [default] branches. *)
Definition typed_frames : list FrameType :=
  [FrameSendPacket; FrameRecvPacket; FrameForwardPacket; FramePeerGone; FramePeerPresent;
   FrameNotePreferred; FrameClosePeer; FramePing; FramePong; FrameRestarting; FrameHealth;
   FrameKeepAlive; FrameWatchConns].

Lemma frame_type_cases (P : FrameType → Prop) :
  Forall P typed_frames → (∀ t, t ∉ typed_frames → P t) → ∀ t, P t.
Proof.
  intros HF Hd t. destruct (decide (t ∈ typed_frames)); [|by apply Hd].
  by eapply Forall_forall.
Qed.

Lemma opaque_type `{NodeKeys} `{Disco} (t : FrameType) :
  t ∉ typed_frames →
  (∀ p, decodeFrame t p = mkFrameFields t [] [] p None) ∧
  (∀ f, typ f = t → encodePayload f = default [] (bodyRaw f)) ∧ (∀ p, canonical t p).
Proof.
  intros Hni.
  assert (∀ x, x ∈ typed_frames → t ≠ x) as Hne by (intros x Hx ->; done).
  split_and!; [intros p|intros f Hf; unfold encodePayload; rewrite Hf|intros p].
  all: clear Hni; destruct t; first [reflexivity|exact I|exfalso; eapply Hne; [|reflexivity]].
  all: by (apply (bool_decide_unpack _); reflexivity).
Qed.

(** Evaluate comparisons of literal header names. *)
Ltac eqfold :=
  repeat match goal with
  | |- context [EqualFold ?a ?b] =>
      let v := eval vm_compute in (EqualFold a b) in
      replace (EqualFold a b) with v by (vm_compute; reflexivity)
  end.

Ltac lookups :=
  unfold preservedPayload, rawPayload, headerValue, rawPayloadHeader, packetMetaHeaders;
  cbn [existsb headerLookup wire.Name wire.Value app]; eqfold; cbn [fst snd orb andb negb].

Section codec_lemmas.
Context `{NodeKeysLaws} `{Disco}.

(** What the encoder sees of a decoded frame: the tail may be lost. *)
Definition forget_tail (f : frameFields) : frameFields :=
  mkFrameFields (typ f) (headers f) (body f) (bodyRaw f) None.

Lemma rawKey_of hs name k :
  headerValue hs name = NodePublic_String k → rawKey hs name = NodePublic_raw k.
Proof.
  unfold rawKey. intros ->. rewrite bool_decide_false by apply NodePublic_String_nonempty.
  by rewrite NodePublic_text.
Qed.

Lemma raw_keyAt p off :
  0 ≤ off → off + NodePublicRawLen ≤ len p →
  NodePublic_raw (keyAt p off) = p.[off : off + NodePublicRawLen].
Proof.
  unfold keyAt, NodePublicRawLen. intros. apply NodePublic_raw_from.
  rewrite length_take, length_drop. lia.
Qed.

Lemma raw_key0 p :
  NodePublicRawLen ≤ len p → NodePublic_raw (keyAt p 0) = take 32 p.
Proof. intros. rewrite raw_keyAt by lia. done. Qed.

Lemma frameFromMessage_frameMessage t f :
  typ f = t → (is_Some (bodyRaw f) → body f = []) →
  frameFromMessage (frameMessage t f) t = forget_tail f.
Proof.
  intros <- Hb. unfold frameFromMessage, frameMessage, forget_tail.
  destruct (bodyRaw f) eqn:E; cbn; [|done]. by rewrite Hb by eauto.
Qed.

(** The shape of a decoded frame: its type, and a logical body only for
    HEALTH, where there is no opaque one. *)
Lemma decodeFrame_shape t p :
  typ (decodeFrame t p) = t ∧
  (is_Some (bodyRaw (decodeFrame t p)) → body (decodeFrame t p) = []) ∧
  body (decodeFrame t p) = (if decide (t = FrameHealth) then default [] p else []).
Proof.
  revert t. apply frame_type_cases.
  - repeat (apply Forall_cons; split); [..|by apply Forall_nil].
    all: cbn [decodeFrame]; repeat case_match; split_and!; try done; by intros [? ?].
  - intros t Ht. rewrite (proj1 (opaque_type t Ht)). split_and!; try done.
    cbn. destruct (decide _) as [->|]; [|done]. destruct Ht. by apply (bool_decide_unpack _).
Qed.

Definition recode (t : FrameType) (p : bytes) : bytes :=
  encodePayload (forget_tail (decodeFrame t (Some p))).

(** *** Frame by frame: recoding a payload. *)

Lemma recode_packet t p :
  t = FrameSendPacket ∨ t = FrameRecvPacket → recode t p = p.
Proof.
  unfold recode, NodePublicRawLen.
  intros [-> | ->]; cbn [decodeFrame default id]; unfold NodePublicRawLen;
    (destruct (Z.leb_spec 32 (len p)) as [Hle|]; [|reflexivity]);
    unfold forget_tail, encodePayload; cbn [typ headers bodyRaw];
    try change (packetKeyHdr FrameSendPacket) with "X-Derp-Dst-Key"%string;
    try change (packetKeyHdr FrameRecvPacket) with "X-Derp-Src-Key"%string; lookups;
    (erewrite rawKey_of; [|lookups; reflexivity]);
    rewrite raw_key0 by (unfold NodePublicRawLen; lia); apply (take_drop 32).
Qed.

Lemma recode_forward p : recode FrameForwardPacket p = p.
Proof.
  unfold recode. cbn [decodeFrame default id].
  unfold NodePublicRawLen at 1. change (2 * 32) with 64.
  destruct (Z.leb_spec 64 (len p)) as [Hle|]; [|done].
  unfold forget_tail, encodePayload. cbn [typ headers bodyRaw]. lookups.
  erewrite (rawKey_of _ "X-Derp-Src-Key"); [|lookups; reflexivity].
  erewrite (rawKey_of _ "X-Derp-Dst-Key"); [|lookups; reflexivity].
  rewrite !raw_keyAt by (unfold NodePublicRawLen; lia).
  change (take 32 p ++ take 32 (drop 32 p) ++ drop (32 + 32) p = p).
  rewrite <-(drop_drop p 32 32), !take_drop. done.
Qed.

Lemma recode_short p hs typed_names :
  hs = [rawPayloadHeader p] →
  Forall (λ n, EqualFold "X-Derp-Raw-Payload" n = false) typed_names →
  preservedPayload hs typed_names = Some p.
Proof.
  intros -> Hn. unfold preservedPayload.
  assert (existsb (λ n, snd (headerLookup [rawPayloadHeader p] n)) typed_names = false) as ->.
  { induction Hn as [|n ns Hn _ IH]; [done|]. cbn [existsb]. rewrite IH.
    unfold rawPayloadHeader. cbn [headerLookup wire.Name]. by rewrite Hn. }
  lookups. by rewrite b64_roundtrip.
Qed.

Lemma take_snoc (p : bytes) n : (n < length p)%nat → take n p ++ [nth n p x00] = take (S n) p.
Proof.
  revert p. induction n as [|n IH]; intros [|x p] Hl; simpl in *; try lia; [done|].
  f_equal. apply IH. lia.
Qed.

Lemma recode_peer_gone p : recode FramePeerGone p = resent FramePeerGone p.
Proof.
  unfold recode, resent. cbn [decodeFrame default id]. unfold NodePublicRawLen.
  change (32 + 1) with 33.
  destruct (Z.leb_spec 33 (len p)) as [Hle|Hlt]; unfold forget_tail, encodePayload; cbn [typ headers].
  - unfold preservedPayload. lookups.
    erewrite rawKey_of; [|lookups; reflexivity].
    rewrite raw_key0 by (unfold NodePublicRawLen; lia).
    pose proof (Z_of_byte_bound (nth (Z.to_nat 32) p x00)).
    rewrite Atoi_Itoa by (unfold max_int, min_int; lia). cbn [fst].
    rewrite byte_of_Z_of_byte. apply take_snoc. lia.
  - rewrite (recode_short p) by (try done; repeat constructor). rewrite take_ge; [done|lia].
Qed.

Lemma recode_peer_present p : recode FramePeerPresent p = p.
Proof.
  unfold recode. cbn [decodeFrame default id]. unfold NodePublicRawLen.
  destruct (Z.leb_spec 32 (len p)) as [Hle|Hlt]; unfold forget_tail, encodePayload; cbn [typ headers tail].
  - unfold peerPresentHeaders. lookups.
    erewrite rawKey_of; [|lookups; reflexivity].
    rewrite raw_key0 by (unfold NodePublicRawLen; lia).
    rewrite b64_roundtrip. cbn [fst]. apply (take_drop 32).
  - by rewrite (recode_short p) by (try done; repeat constructor).
Qed.

Lemma recode_close_peer p : recode FrameClosePeer p = resent FrameClosePeer p.
Proof.
  unfold recode, resent. cbn [decodeFrame default id]. unfold NodePublicRawLen.
  destruct (Z.leb_spec 32 (len p)) as [Hle|Hlt]; unfold forget_tail, encodePayload; cbn [typ headers].
  - lookups. erewrite rawKey_of; [|lookups; reflexivity].
    by rewrite raw_key0 by (unfold NodePublicRawLen; lia).
  - rewrite (recode_short p) by (try done; repeat constructor). rewrite take_ge; [done|lia].
Qed.

Lemma recode_restarting p : recode FrameRestarting p = resent FrameRestarting p.
Proof.
  unfold recode, resent. cbn [decodeFrame default id].
  destruct (Z.leb_spec 8 (len p)) as [Hle|Hlt]; unfold forget_tail, encodePayload; cbn [typ headers].
  - lookups. unfold parseMs. lookups.
    assert (∀ b : bytes, length b = 4%nat →
      be_PutUint32 (fst (ParseUint (FormatUint (be_get b)) 10 32)) = b) as Hrt.
    { intros b Hb. pose proof (be_get_bound b) as Hbd. rewrite Hb in Hbd.
      change (256 ^ Z.of_nat 4) with (2 ^ 32) in Hbd.
      rewrite ParseUint_FormatUint by lia. by apply be_put_get. }
    rewrite !Hrt by (rewrite length_take, length_drop; lia).
    change (take 4 (drop 0 p) ++ take 4 (drop 4 p) = take 8 p).
    rewrite drop_0, take_take_drop. done.
  - rewrite (recode_short p) by (try done; repeat constructor). rewrite take_ge; [done|lia].
Qed.

Lemma recode_note_preferred p : recode FrameNotePreferred p = resent FrameNotePreferred p.
Proof.
  unfold recode, resent. cbn [decodeFrame default id]. unfold forget_tail, encodePayload.
  cbn [typ headers]. lookups. destruct p as [|b p]; [done|]. cbn [hd].
  assert ((1 <=? len (b :: p)) = true) as -> by (apply Z.leb_le; cbn [length]; lia).
  cbn [andb]. by destruct b.
Qed.

Lemma recode_spec t p : recode t p = resent t p.
Proof.
  revert t. apply frame_type_cases.
  - repeat (apply Forall_cons; split); [..|by apply Forall_nil].
    all: auto using recode_packet, recode_forward, recode_peer_gone, recode_peer_present,
      recode_close_peer, recode_restarting, recode_note_preferred.
    all: unfold recode, resent; cbn [decodeFrame default id]; unfold forget_tail, encodePayload;
      cbn [typ headers body fields0]; lookups; by rewrite ?b64_roundtrip.
  - intros t Ht. destruct (opaque_type t Ht) as (Hd & He & _).
    unfold recode. rewrite Hd, He by done. cbn. symmetry.
    assert (∀ x, x ∈ typed_frames → t ≠ x) as Hne by (intros x Hx ->; done). clear Ht Hd He.
    destruct t; first [reflexivity|exfalso; eapply Hne; [|reflexivity]];
      by (apply (bool_decide_unpack _); reflexivity).
Qed.

Lemma resent_canonical t p : resent t p = p ↔ canonical t p.
Proof.
  assert (∀ n, take n p = p ↔ (length p ≤ n)%nat) as Htake.
  { intros n. split; [|apply take_ge]. intros <-. rewrite length_take. lia. }
  assert (t ∉ [FramePeerGone; FrameClosePeer; FrameRestarting; FrameNotePreferred; FrameKeepAlive;
    FrameWatchConns] → resent t p = p ∧ canonical t p) as Hrest.
  { intros Hni. split; destruct t; try reflexivity; try exact I; exfalso; apply Hni;
      by (apply (bool_decide_unpack _); reflexivity). }
  destruct (decide (t ∈ [FramePeerGone; FrameClosePeer; FrameRestarting; FrameNotePreferred;
    FrameKeepAlive; FrameWatchConns])) as [Hin|Hni]; [|destruct (Hrest Hni); tauto].
  rewrite !elem_of_cons, elem_of_nil in Hin.
  destruct Hin as [-> |[-> |[-> |[-> |[-> |[-> |[]]]]]]]; cbn [resent canonical];
    rewrite ?Htake; unfold NodePublicRawLen; try (split; [lia|lia]); try (by split; intros <-).
  split; [|by intros [-> | ->]].
  destruct p as [|b p]; [done|]. destruct b; intros [= <-]; auto.
Qed.
End codec_lemmas.

(** ** Lemmas: the capture of one frame *)

(** A complete frame is the encoding of its payload. *)
Lemma frame_header_ok frame t n :
  FrameHeader frame = (t, n, true) → is_Some (FramePayload frame).
Proof.
  unfold FrameHeader, FramePayload. by destruct (len frame <? FrameHeaderLen); [|eauto].
Qed.

Lemma encodePayload_health `{NodeKeys} `{Disco} p b :
  encodePayload (with_body (decodeFrame FrameHealth p) b) = b.
Proof. reflexivity. Qed.

(** The message a captured flow carries, and the side it is on. *)
Definition flow_message (dir : string) (flow : wire.Flow) : option wire.FlowMessage :=
  if bool_decide (dir = DirServerToClient) then wire.Response flow else wire.Request flow.

Definition other_message (dir : string) (flow : wire.Flow) : option wire.FlowMessage :=
  if bool_decide (dir = DirServerToClient) then wire.Request flow else wire.Response flow.

(** A completed child frame flow of [tunnelID] carrying exactly [msg]. *)
Definition is_frame_flow (tunnelID dir : string) (msg : wire.FlowMessage) (flow : wire.Flow) : Prop :=
  wire.ProtocolTag flow = frameProtocolTag ∧ wire.Direction flow = dir ∧
  wire.ParentFlowID flow = tunnelID ∧ wire.CompletedAt flow = Some (wire.StartedAt flow) ∧
  flow_message dir flow = Some msg ∧ other_message dir flow = None.

Lemma is_frame_flow_set tunnelID dir now msg :
  is_frame_flow tunnelID dir msg (setMessage (frameFlow tunnelID dir now) dir msg).
Proof.
  unfold is_frame_flow, flow_message, other_message, setMessage, frameFlow.
  by destruct (bool_decide (dir = DirServerToClient)).
Qed.

Lemma setMessage_twice flow dir m1 m2 :
  setMessage (setMessage flow dir m1) dir m2 = setMessage flow dir m2.
Proof. unfold setMessage. by destruct (bool_decide (dir = DirServerToClient)). Qed.

(** Whether the hot path rewrites a frame. *)
Definition rewrites (t : FrameType) (p : bytes) (fired : list string) : bool :=
  bool_decide (t = FrameHealth) && negb (len p =? 0) && negb (length fired =? 0)%nat.

Lemma captureFrame_run `{NodeKeysLaws} `{Disco} `{Env} tunnelID frame dir tr t n :
  FrameHeader frame = (t, n, true) →
  let p := default [] (FramePayload frame) in
  let '(newBody, fired) := env_ApplyBody tr p (bodyRuleType dir) in
  let f := decodeFrame t (FramePayload frame) in
  let msg := frameMessage t (if rewrites t p fired then with_body f newBody else f) in
  let flow := setMessage (frameFlow tunnelID dir (env_Now tr)) dir msg in
  captureFrame tunnelID frame dir tr =
    (match env_PushFlow tr flow with
     | Ok _ => Ok (if rewrites t p fired then EncodeFrame FrameHealth newBody else frame)
     | Err e => Err e
     end, tr ++ [EvPush flow]).
Proof.
  intros Hh. destruct (frame_header_ok _ _ _ Hh) as [pl Hpl]. cbv zeta. rewrite Hpl.
  cbn [default]. unfold id. unfold captureFrame. rewrite Hh, Hpl. cbn [negb].
  destruct (decodeFrame_shape t (Some pl)) as (_ & Hraw & Hbody). cbn [default] in Hbody. unfold id in Hbody.
  destruct (env_ApplyBody tr pl (bodyRuleType dir)) as [nb fired] eqn:E.
  unfold rewrites, Now, push_then, PushFlow, mbind, eff_bind, mret, eff_ret.
  destruct (decide (t = FrameHealth)) as [->|Ht].
  - cbn [decodeFrame default id bodyRaw body]. cbn [bool_decide decide decide_rel].
    rewrite bool_decide_false by (by intros [? ?]). rewrite bool_decide_true by done. cbn [orb andb].
    destruct (Z.eqb_spec (len pl) 0); [done|]. cbn [negb andb]. unfold ApplyBody. rewrite E.
    destruct (length fired =? 0)%nat; [done|]. cbn [negb]. by rewrite setMessage_twice.
  - rewrite bool_decide_false with (P := t = FrameHealth) by done. cbn [andb].
    rewrite Hbody. cbn [length]. rewrite orb_true_r. done.
Qed.

(** ** Properties *)

(** C27: capture never disturbs the bytes, except where a rule fired on a
    HEALTH text. For every complete frame and every behaviour of sectool and its
    rules, [captureFrame] pushes exactly one completed child flow, with the
    frame's message on the side of its direction and nothing on the other, and
    returns the frame unchanged, unless the frame is a non-empty HEALTH on which
    a rule fired, when it returns a HEALTH frame of exactly the rewritten body,
    the body the flow records. The error, if any, is the push's; a frame without
    a full header is refused and captures nothing. *)
Theorem captureFrame_spec `{NodeKeysLaws} `{Disco} `{Env} (tunnelID : string) (frame : bytes)
    (dir : string) (tr : list event) :
  let '(t, _, ok) := FrameHeader frame in
  let p := default [] (FramePayload frame) in
  let '(newBody, fired) := env_ApplyBody tr p (bodyRuleType dir) in
  if ok then
    ∃ flow msg,
      is_frame_flow tunnelID dir msg flow ∧
      wire.Method msg = FrameName t ∧
      (if rewrites t p fired then wire.Body msg = newBody
       else msg = frameMessage t (decodeFrame t (FramePayload frame))) ∧
      captureFrame tunnelID frame dir tr =
        (match env_PushFlow tr flow with
         | Ok _ => Ok (if rewrites t p fired then EncodeFrame FrameHealth newBody else frame)
         | Err e => Err e
         end, tr ++ [EvPush flow])
  else captureFrame tunnelID frame dir tr = (Err (ErrNew "derp: short frame"), tr).
Proof.
  destruct (FrameHeader frame) as [[t n] ok] eqn:Hh. cbv zeta.
  destruct (env_ApplyBody tr _ _) as [nb fired] eqn:E.
  destruct ok; [|unfold captureFrame; by rewrite Hh].
  pose proof (captureFrame_run tunnelID frame dir tr t n Hh) as Hrun. cbv zeta in Hrun.
  rewrite E in Hrun. eexists _, _. split; [apply is_frame_flow_set|].
  split; [|split; [|exact Hrun]].
  - unfold frameMessage. by destruct (bodyRaw _).
  - destruct (rewrites _ _ _) eqn:Er; [|done]. unfold rewrites in Er.
    rewrite !andb_true_iff, bool_decide_eq_true in Er. destruct Er as [[-> _] _]. reflexivity.
Qed.

Lemma captureFrame_spec_witness :
  fst (@captureFrame toy_keys toy_disco env_rewrite "t1" (EncodeFrame FrameHealth (to_bytes "ok"))
    DirServerToClient []) = Ok (EncodeFrame FrameHealth (to_bytes "mutated")).
Proof.
  pose proof (@captureFrame_spec toy_keys toy_keys_laws toy_disco env_rewrite "t1"
    (EncodeFrame FrameHealth (to_bytes "ok")) DirServerToClient []) as H.
  vm_compute in H. destruct H as (flow & msg & _ & _ & _ & E). exact (f_equal fst E).
Defined.

(** C28: the frame codec. Rebuilding the payload of a captured frame from its
    flow message (what a replay does), or from the decoded fields (what the hot
    path does), gives back the captured payload up to [resent]: the bytes are
    identical exactly for the canonical payloads. Every packet, PEER_PRESENT,
    PING, PONG, HEALTH and unknown frame is canonical; PEER_GONE, CLOSE_PEER and
    RESTARTING lose what follows their typed fields, KEEP_ALIVE and WATCH_CONNS
    lose any payload, and NOTE_PREFERRED is normalised to one byte. *)
Theorem frame_codec_roundtrip `{NodeKeysLaws} `{Disco} (t : FrameType) (p : bytes) :
  let f := decodeFrame t (Some p) in
  encodePayload (frameFromMessage (frameMessage t f) t) = resent t p ∧
  encodePayload f = resent t p ∧
  (resent t p = p ↔ canonical t p).
Proof.
  cbv zeta. destruct (decodeFrame_shape t (Some p)) as (Ht & Hraw & _).
  pose proof (recode_spec t p) as Hrec. unfold recode in Hrec.
  split_and!; [by rewrite frameFromMessage_frameMessage| |apply resent_canonical].
  rewrite <-Hrec. destruct (decide (t = FramePeerPresent)) as [->|Hne].
  - cbn [decodeFrame default id]. destruct (Z.leb_spec NodePublicRawLen (len p)); [|reflexivity].
    unfold encodePayload, forget_tail. cbn [typ headers tail]. unfold peerPresentHeaders. lookups.
    by rewrite b64_roundtrip.
  - unfold encodePayload, forget_tail. cbn [typ headers bodyRaw body tail]. rewrite Ht.
    clear Hrec Ht Hraw. by destruct t.
Qed.

Lemma frame_codec_roundtrip_witness :
  let p := repeat x07 33 ++ [x01] in
  encodePayload (frameFromMessage (frameMessage FramePeerGone (decodeFrame FramePeerGone (Some p)))
    FramePeerGone) = repeat x07 33 ∧ ¬ canonical FramePeerGone p.
Proof.
  intros p. destruct (frame_codec_roundtrip FramePeerGone p) as (H1 & _ & H2).
  split; [by rewrite H1|]. intros Hc. apply H2 in Hc. discriminate Hc.
Defined.

(** The login frames are captured for reading back. One completed child
    flow is pushed, on the side of the direction and not on the other; its body
    is the decrypted JSON, and its headers decode to the sealed box and to the
    node key that were on the wire. *)
Theorem captureHandshakeFrame_spec `{NodeKeysLaws} `{Env} (tunnelID : string) (t : FrameType)
    (nodePub : NodePublic) (box infoJSON : bytes) (dir : string) (tr : list event) :
  ∃ flow msg,
    captureHandshakeFrame tunnelID t nodePub box infoJSON dir tr
      = (match env_PushFlow tr flow with Ok _ => None | Err e => Some e end, tr ++ [EvPush flow]) ∧
    is_frame_flow tunnelID dir msg flow ∧
    wire.Body msg = infoJSON ∧
    b64_decode (headerValue (wire.Headers msg) "X-Derp-Box") = (box, true) ∧
    NodePublic_UnmarshalText (headerValue (wire.Headers msg) "X-Derp-Node-Key") = (nodePub, true).
Proof.
  unfold captureHandshakeFrame, Now, PushFlow, mbind, eff_bind, mret, eff_ret.
  eexists _, _. split; [reflexivity|]. split; [apply is_frame_flow_set|].
  split; [done|]. cbn [wire.Headers]. lookups. split; [apply b64_roundtrip|].
  apply NodePublic_text.
Qed.

Lemma captureHandshakeFrame_spec_witness :
  ∃ flow msg, env_capture.(env_PushFlow) [] flow = Ok ("flow-0"%string, true) ∧
    is_frame_flow "t1" DirClientToServer msg flow ∧ wire.Body msg = to_bytes "{}".
Proof.
  destruct (@captureHandshakeFrame_spec toy_keys toy_keys_laws env_capture "t1" FrameClientInfo
    (toy_key x01) [x09] (to_bytes "{}") DirClientToServer []) as (flow & msg & _ & H1 & H2 & _).
  exists flow, msg. split; [reflexivity|]. split; [exact H1|exact H2].
Defined.
