(* ===== verification/DerpRelay.v ===== *)
(** * The synthetic relay: [sidescale/derp/relay.go]

    The terminate-mode registry. Clients are shared pointers in the code (the
    same [*relayClient] sits in a [clientSet], in [byTunnel] and on its own
    goroutine's stack), so the model keeps a store [clients] from client
    identities to their records. Every operation below is one critical section
    of [r.mu]; what it emits after unlocking is in the effect monad. *)

From Stdlib Require Import Init.Byte Strings.Byte Lia ZArith Ascii String.
From stdpp Require Import base option list gmap sets strings.
From S2P Require Import Prelude GoStd NetIP External Instances Adapter DerpProto FrameConn.
From S2P Require Import DerpCapture.
Open Scope Z_scope.
Open Scope go_scope.

Abbreviation clientid := nat (only parsing).

(** [derp.PeerGoneReasonDisconnected] and [derp.PeerGoneReasonNotHere]. *)
Definition PeerGoneReasonDisconnected : Byte.byte := x00.
Definition PeerGoneReasonNotHere : Byte.byte := x01.

Section relay.
Context `{NodeKeys}.

Record relayClient := mkRelayClient {
  fr : connid;
  tunnelFlowID : string;
  clientKey : NodePublic;
  mesh : bool;
  disabled : bool;
  received : gset NodePublic
}.

Record clientSet := mkClientSet {
  active : option clientid;
  last : option clientid;
  conns : list clientid;
  sendHistory : list clientid
}.

Record syntheticRelay := mkRelay {
  clients : gmap clientid relayClient;
  byKey : gmap NodePublic clientSet;
  byTunnel : gmap string clientid;
  nextClient : clientid
}.

Definition newSyntheticRelay : syntheticRelay := mkRelay ∅ ∅ ∅ 0%nat.

Definition emptySet : clientSet := mkClientSet None None [] [].

Definition set_disabled (b : bool) (c : relayClient) : relayClient :=
  mkRelayClient (fr c) (tunnelFlowID c) (clientKey c) (mesh c) b (received c).
Definition set_received (s : gset NodePublic) (c : relayClient) : relayClient :=
  mkRelayClient (fr c) (tunnelFlowID c) (clientKey c) (mesh c) (disabled c) s.

Definition disabled_at (cl : gmap clientid relayClient) (c : clientid) : bool :=
  match cl !! c with Some rc => disabled rc | None => false end.
Definition received_at (cl : gmap clientid relayClient) (c : clientid) : gset NodePublic :=
  match cl !! c with Some rc => received rc | None => ∅ end.

(** ** [register] *)

Definition register (k : NodePublic) (fr : connid) (tunnelFlowID : string) (mesh : bool)
    (r : syntheticRelay) : clientid * syntheticRelay :=
  let c := nextClient r in
  let cs := default emptySet (byKey r !! k) in
  let cs := mkClientSet (Some c) (Some c) (conns cs ++ [c]) (sendHistory cs) in
  (c, mkRelay (<[c := mkRelayClient fr tunnelFlowID k mesh false ∅]> (clients r))
        (<[k := cs]> (byKey r)) (<[tunnelFlowID := c]> (byTunnel r)) (S c)).

Definition byTunnelID (flowID : string) (r : syntheticRelay) : option clientid :=
  byTunnel r !! flowID.

(** ** [closeAll]: the connections to close, and the emptied registry *)

Definition closeAll_locked `{Bulk} (r : syntheticRelay) : list clientid * syntheticRelay :=
  (MapValuesSlice (byTunnel r), mkRelay (clients r) ∅ ∅ (nextClient r)).

Definition conn_of (cl : gmap clientid relayClient) (c : clientid) : connid :=
  match cl !! c with Some rc => fr rc | None => 0%nat end.

Fixpoint closeConns (cl : gmap clientid relayClient) (cs : list clientid) : eff unit :=
  match cs with
  | [] => mret tt
  | c :: cs => _ ← ConnClose (conn_of cl c); closeConns cl cs
  end.

Definition closeAll `{Bulk} (r : syntheticRelay) : eff syntheticRelay :=
  let '(cs, r') := closeAll_locked r in
  _ ← closeConns (clients r) cs; mret r'.

(** ** [promoteSurvivor] and [remove] *)

Definition first_enabled (cl : gmap clientid relayClient) (l : list clientid) : option clientid :=
  List.find (λ c, negb (disabled_at cl c)) l.

(** Both loops run from the end of their slice. *)
Definition promoteSurvivor (cl : gmap clientid relayClient) (cs : clientSet) : option clientid :=
  match first_enabled cl (rev (sendHistory cs)) with
  | Some c => Some c
  | None => first_enabled cl (rev (conns cs))
  end.

Definition without (c : clientid) (l : list clientid) : list clientid :=
  List.filter (λ x, negb (x =? c)%nat) l.

(** The set [cs] after the departure of [c], with the clients it re-enables;
    [None] when it was the last connection. *)
Definition depart (c : clientid) (cl : gmap clientid relayClient) (cs : clientSet)
    : option clientSet * gmap clientid relayClient :=
  let cns := without c (conns cs) in
  let lst := if bool_decide (last cs = Some c) then None else last cs in
  let hist := without c (sendHistory cs) in
  match cns with
  | [] => (None, cl)
  | [s] => (Some (mkClientSet (Some s) (Some s) [s] []), alter (set_disabled false) s cl)
  | _ =>
      let lst := match lst with
                 | None => promoteSurvivor cl (mkClientSet (active cs) None cns hist)
                 | Some l => Some l
                 end in
      let act := match lst with
                 | Some l => if disabled_at cl l then None else Some l
                 | None => None
                 end in
      (Some (mkClientSet act lst cns hist), cl)
  end.

(** The locked part: whether the key is gone, and the new registry. A client
    that was never registered has no pointer to call this with. *)
Definition remove_locked (c : clientid) (r : syntheticRelay) : bool * syntheticRelay :=
  match clients r !! c with
  | None => (false, r)
  | Some rc =>
      let byTunnel' := delete (tunnelFlowID rc) (byTunnel r) in
      match byKey r !! clientKey rc with
      | None => (false, mkRelay (clients r) (byKey r) byTunnel' (nextClient r))
      | Some cs =>
          match depart c (clients r) cs with
          | (None, cl) =>
              (true, mkRelay cl (delete (clientKey rc) (byKey r)) byTunnel' (nextClient r))
          | (Some cs', cl) =>
              (false, mkRelay cl (<[clientKey rc := cs']> (byKey r)) byTunnel' (nextClient r))
          end
      end
  end.

(** ** [noteActivity] *)

Definition disable_all (l : list clientid) (cl : gmap clientid relayClient)
    : gmap clientid relayClient :=
  foldr (λ x cl, alter (set_disabled true) x cl) cl l.

Definition last_is (src : clientid) (l : list clientid) : bool :=
  bool_decide (list.last l = Some src).

(** [slices.Index] *)
Definition index_of (src : clientid) (l : list clientid) : option nat :=
  fst <$> list_find (λ x, x = src) l.

(** The new set and clients, for a key with at least two connections. *)
Definition note_set (disableFighters : bool) (src : clientid) (cs : clientSet)
    (cl : gmap clientid relayClient) : clientSet * gmap clientid relayClient :=
  let cs :=
    if negb disableFighters then mkClientSet (Some src) (Some src) (conns cs) (sendHistory cs)
    else match last cs with
         | None => mkClientSet (Some src) (Some src) (conns cs) (sendHistory cs)
         | Some _ => cs
         end in
  if last_is src (sendHistory cs) then (cs, cl)
  else
    let '(cs, cl) :=
      match index_of src (sendHistory cs) with
      | None => (cs, cl)
      | Some i =>
          let hist := delete i (sendHistory cs) in
          if disableFighters
          then (mkClientSet None (last cs) (conns cs) hist, disable_all (conns cs) cl)
          else (mkClientSet (active cs) (last cs) (conns cs) hist, cl)
      end in
    (mkClientSet (active cs) (last cs) (conns cs) (sendHistory cs ++ [src]), cl).

Definition noteActivity (disableFighters : bool) (src : clientid) (k : NodePublic)
    (r : syntheticRelay) : syntheticRelay :=
  match byKey r !! k with
  | None => r
  | Some cs =>
      if (length (conns cs) <? 2)%nat || disabled_at (clients r) src then r
      else let '(cs, cl) := note_set disableFighters src cs (clients r) in
           mkRelay cl (<[k := cs]> (byKey r)) (byTunnel r) (nextClient r)
  end.

(** ** [route] *)

(** What is emitted once the lock is released. *)
Inductive routed :=
  | Dropped
  | NotHere (dst : NodePublic)
  | Deliver (peer : clientid) (recv : bytes).

Definition peerGonePayload (peer : NodePublic) (reason : Byte.byte) : bytes :=
  NodePublic_raw peer ++ [reason].

Definition mark_received (k : NodePublic) (p : relayClient) : relayClient :=
  set_received ({[k]} ∪ received p) p.

Definition route_locked `{Disco} (disableFighters : bool) (src : clientid) (payload : bytes)
    (r : syntheticRelay) : routed * syntheticRelay :=
  match clients r !! src with
  | None => (Dropped, r)
  | Some rc =>
      if len payload <? NodePublicRawLen then (Dropped, r)
      else
        let dst := keyAt payload 0 in
        let packet := from payload NodePublicRawLen in
        let r := noteActivity disableFighters src (clientKey rc) r in
        match byKey r !! dst with
        | None => (if IsDisco packet then NotHere dst else Dropped, r)
        | Some dcs =>
            match active dcs with
            | None => (Dropped, r)
            | Some peer =>
                (Deliver peer (NodePublic_raw (clientKey rc) ++ packet),
                 mkRelay (alter (mark_received (clientKey rc)) peer (clients r))
                   (byKey r) (byTunnel r) (nextClient r))
            end
        end
  end.

(** ** [announceGone] *)

(** One round of the loop over [byTunnel]. *)
Definition announce_one (gone : NodePublic) (acc : list clientid * gmap clientid relayClient)
    (c : clientid) : list clientid * gmap clientid relayClient :=
  let '(targets, cl) := acc in
  if bool_decide (gone ∈ received_at cl c)
  then (targets ++ [c], alter (λ p, set_received (received p ∖ {[gone]}) p) c cl)
  else acc.

(** Go ranges over the map in an unspecified order; the theorems speak of the
    targets as a set. *)
Definition announce_locked (gone : NodePublic) (r : syntheticRelay)
    : list clientid * syntheticRelay :=
  let '(targets, cl) := foldl (announce_one gone) ([], clients r) (map_to_list (byTunnel r)).*2 in
  (targets, mkRelay cl (byKey r) (byTunnel r) (nextClient r)).

(** ** The emitting parts *)

Section emit.
Context `{Disco} `{Env}.

Definition tunnelError (streamID stage : string) (e : error) : eff unit :=
  Log "error" ("derp tunnel failed: " ++ stage)%string.

Definition emitAndWrite (tunnelID : string) (c : connid) (t : FrameType) (payload : bytes)
    : eff unit :=
  let frame := EncodeFrame t payload in
  r ← captureFrame tunnelID frame DirServerToClient;
  out ← (match r with
         | Ok out => mret out
         | Err e => _ ← tunnelError tunnelID "capture originated frame" e; mret frame
         end);
  _ ← ConnWrite c out;
  mret tt.

Definition emit_to (cl : gmap clientid relayClient) (c : clientid) (t : FrameType)
    (payload : bytes) : eff unit :=
  match cl !! c with
  | Some rc => emitAndWrite (tunnelFlowID rc) (fr rc) t payload
  | None => mret tt
  end.

Definition emit_routed (cl : gmap clientid relayClient) (src : clientid) (o : routed) : eff unit :=
  match o with
  | Dropped => mret tt
  | NotHere dst => emit_to cl src FramePeerGone (peerGonePayload dst PeerGoneReasonNotHere)
  | Deliver peer recv => emit_to cl peer FrameRecvPacket recv
  end.

Definition route (disableFighters : bool) (src : clientid) (payload : bytes)
    (r : syntheticRelay) : eff syntheticRelay :=
  let '(o, r) := route_locked disableFighters src payload r in
  _ ← emit_routed (clients r) src o; mret r.

Fixpoint emit_gone (cl : gmap clientid relayClient) (gone : NodePublic) (targets : list clientid)
    : eff unit :=
  match targets with
  | [] => mret tt
  | c :: targets =>
      _ ← emit_to cl c FramePeerGone (peerGonePayload gone PeerGoneReasonDisconnected);
      emit_gone cl gone targets
  end.

Definition announceGone (gone : NodePublic) (r : syntheticRelay) : eff syntheticRelay :=
  let '(targets, r) := announce_locked gone r in
  _ ← emit_gone (clients r) gone targets; mret r.

Definition key_of (r : syntheticRelay) (c : clientid) : NodePublic :=
  match clients r !! c with Some rc => clientKey rc | None => NodePublic_zero end.

Definition remove (c : clientid) (r : syntheticRelay) : eff syntheticRelay :=
  let '(gone, r') := remove_locked c r in
  if gone then announceGone (key_of r c) r' else mret r'.

(** One round of [terminateLoop], on a frame already read. *)
Definition terminateFrame (disableFighters : bool) (tunnelID : string) (c : clientid)
    (cfr : connid) (t : FrameType) (payload : bytes) (r : syntheticRelay)
    : eff syntheticRelay :=
  let frame := EncodeFrame t payload in
  res ← captureFrame tunnelID frame DirClientToServer;
  out ← (match res with
         | Ok out => mret out
         | Err e => _ ← tunnelError tunnelID "capture frame" e; mret frame
         end);
  let payload := default [] (FramePayload out) in
  match t with
  | FrameSendPacket => route disableFighters c payload r
  | FramePing => _ ← emitAndWrite tunnelID cfr FramePong payload; mret r
  | _ => mret r
  end.

(** The loop, with fuel; [None] would be running out of it. *)
Fixpoint terminateLoop `{Reassembler} (fuel : nat) (disableFighters : bool) (tunnelID : string)
    (c : clientid) (fc : frameConn) (r : syntheticRelay)
    : eff (option (syntheticRelay * frameConn)) :=
  match fuel with
  | O => mret None
  | S fuel =>
      let '(res, fc) := ReadTypedFrame fc in
      match res with
      | Err _ => mret (Some (r, fc))
      | Ok (t, payload) =>
          r ← terminateFrame disableFighters tunnelID c (fc_conn fc) t payload r;
          terminateLoop fuel disableFighters tunnelID c fc r
      end
  end.

(** One tick of [terminateKeepAlive]. *)
Definition keepAliveTick (tunnelID : string) (c : connid) : eff unit :=
  emitAndWrite tunnelID c FrameKeepAlive [].
End emit.
End relay.

Definition upgradeResponse : bytes := to_bytes
  ("HTTP/1.1 101 Switching Protocols" ++ String (byte_char 13) (String (byte_char 10) "")
   ++ "Upgrade: DERP" ++ String (byte_char 13) (String (byte_char 10) "")
   ++ "Connection: Upgrade" ++ String (byte_char 13) (String (byte_char 10)
      (String (byte_char 13) (String (byte_char 10) ""))))%string.
