(* ===== verification/DerpRelaySpec.v ===== *)
(** * The synthetic relay: invariant and properties

    What [DerpRelay]'s registry promises: every operation preserves the
    invariant [registry_inv]; packets reach the last writer of the addressed key;
    interleaved writers are disabled and a lone survivor is re-enabled; a key's
    departure is announced to exactly the connections that heard from it. *)

From Stdlib Require Import Init.Byte Strings.Byte Lia ZArith Ascii String.
From stdpp Require Import base option list fin_maps gmap sets strings.
From S2P Require Import Prelude GoStd NetIP External Instances Adapter DerpProto FrameConn.
From S2P Require Import DerpCapture DerpRelay.
Open Scope Z_scope.
Open Scope go_scope.

Section inv.
Context `{NodeKeys}.
Implicit Types (cl : gmap nat relayClient) (c l : nat) (k : NodePublic) (cs : clientSet).

(** The fields of a client that never change, and the ones a set depends on. *)
Definition static (rc : relayClient) : connid * string * NodePublic * bool :=
  (fr rc, tunnelFlowID rc, clientKey rc, mesh rc).

Definition same_static cl cl' : Prop := ∀ c, static <$> cl' !! c = static <$> cl !! c.

Record set_inv cl k cs : Prop := {
  si_nonempty : conns cs ≠ [];
  si_nodup : NoDup (conns cs);
  si_key c : c ∈ conns cs → ∃ rc, cl !! c = Some rc ∧ clientKey rc = k;
  si_hist_nodup : NoDup (sendHistory cs);
  si_hist c : c ∈ sendHistory cs → c ∈ conns cs;
  si_last l : last cs = Some l → l ∈ conns cs;
  si_active : active cs = match last cs with
                          | Some l => if disabled_at cl l then None else Some l
                          | None => None
                          end;
  si_dead : active cs = None → ∀ c, c ∈ conns cs → disabled_at cl c = true
}.

(** [c] shares its tunnel id with another client, which may hide it. *)
Definition shadowed cl c : Prop := ∃ rc c' rc',
  cl !! c = Some rc ∧ c' ≠ c ∧ cl !! c' = Some rc' ∧ tunnelFlowID rc' = tunnelFlowID rc.

Record registry_inv (disableFighters : bool) (r : syntheticRelay) : Prop := {
  ri_sets k cs : byKey r !! k = Some cs → set_inv (clients r) k cs;
  ri_tunnel t c : byTunnel r !! t = Some c → ∃ rc cs,
    clients r !! c = Some rc ∧ tunnelFlowID rc = t ∧
    byKey r !! clientKey rc = Some cs ∧ c ∈ conns cs;
  ri_conn k cs c : byKey r !! k = Some cs → c ∈ conns cs → ∃ rc,
    clients r !! c = Some rc ∧ (byTunnel r !! tunnelFlowID rc = Some c ∨ shadowed (clients r) c);
  ri_fresh c : is_Some (clients r !! c) → (c < nextClient r)%nat;
  ri_policy c : disableFighters = false → disabled_at (clients r) c = false
}.

(** A registered connection: in the set of its key. *)
Definition live (r : syntheticRelay) (c : nat) : Prop :=
  ∃ rc cs, clients r !! c = Some rc ∧ byKey r !! clientKey rc = Some cs ∧ c ∈ conns cs.

(** Every registered connection is found by its tunnel: so it is as long as no
    two clients have one tunnel id. *)
Definition indexed (r : syntheticRelay) : Prop := ∀ c, live r c → ∃ t, byTunnel r !! t = Some c.

Definition relay_inv (disableFighters : bool) (r : syntheticRelay) : Prop :=
  registry_inv disableFighters r ∧ indexed r.

(** ** The store *)

Lemma same_static_alter (f : relayClient → relayClient) c cl :
  (∀ rc, static (f rc) = static rc) → same_static cl (alter f c cl).
Proof.
  intros Hf c'. destruct (decide (c = c')) as [<-|]; [|by rewrite lookup_alter_ne].
  rewrite lookup_alter_eq. destruct (cl !! c); cbn; [by rewrite Hf|done].
Qed.

Lemma same_static_refl cl : same_static cl cl. Proof. done. Qed.

Lemma same_static_trans cl1 cl2 cl3 :
  same_static cl1 cl2 → same_static cl2 cl3 → same_static cl1 cl3.
Proof. intros H1 H2 c. by rewrite H2, H1. Qed.

Lemma same_static_some cl cl' c rc :
  same_static cl cl' → cl !! c = Some rc →
  ∃ rc', cl' !! c = Some rc' ∧ static rc' = static rc.
Proof.
  intros Hs Hc. specialize (Hs c). rewrite Hc in Hs. cbn in Hs.
  destruct (cl' !! c) as [rc'|]; [|done]. apply (inj Some) in Hs. by exists rc'.
Qed.

Lemma same_static_rev cl cl' c rc' :
  same_static cl cl' → cl' !! c = Some rc' →
  ∃ rc, cl !! c = Some rc ∧ static rc' = static rc.
Proof.
  intros Hs Hc. specialize (Hs c). rewrite Hc in Hs. cbn in Hs.
  destruct (cl !! c) as [rc|]; [|done]. apply (inj Some) in Hs. by exists rc.
Qed.

Lemma static_key rc rc' : static rc = static rc' → clientKey rc = clientKey rc'.
Proof. by intros [=]. Qed.
Lemma static_tunnel rc rc' : static rc = static rc' → tunnelFlowID rc = tunnelFlowID rc'.
Proof. by intros [=]. Qed.

Lemma shadowed_static cl cl' c : same_static cl cl' → shadowed cl c → shadowed cl' c.
Proof.
  intros Hs (rc & c' & rc' & Hc & Hne & Hc' & Ht).
  destruct (same_static_some _ _ _ _ Hs Hc) as (rc1 & Hrc1 & E1).
  destruct (same_static_some _ _ _ _ Hs Hc') as (rc2 & Hrc2 & E2).
  exists rc1, c', rc2. by rewrite (static_tunnel _ _ E1), (static_tunnel _ _ E2).
Qed.

Lemma disable_all_static (ids : list nat) cl : same_static cl (disable_all ids cl).
Proof.
  induction ids as [|c ids IH]; [done|]. cbn. eapply same_static_trans; [exact IH|].
  by apply same_static_alter.
Qed.

Lemma disabled_alter (b : bool) c c' cl :
  disabled_at (alter (set_disabled b) c cl) c' =
  if bool_decide (c = c') && bool_decide (is_Some (cl !! c)) then b else disabled_at cl c'.
Proof.
  unfold disabled_at. destruct (decide (c = c')) as [<-|].
  - rewrite lookup_alter_eq, bool_decide_true by done. by destruct (cl !! c).
  - by rewrite lookup_alter_ne, bool_decide_false by done.
Qed.

Lemma disable_all_at (ids : list nat) cl c :
  disabled_at (disable_all ids cl) c
  = bool_decide (c ∈ ids ∧ is_Some (cl !! c)) || disabled_at cl c.
Proof.
  induction ids as [|x ids IH];
    [by rewrite bool_decide_false by (by intros [Hx%not_elem_of_nil _])|].
  cbn [disable_all foldr]. fold (disable_all ids cl). rewrite disabled_alter, IH.
  assert (is_Some (disable_all ids cl !! x) ↔ is_Some (cl !! x)) as Hiff.
  { pose proof (disable_all_static ids cl x) as Hst. rewrite <-!(fmap_is_Some static).
    by rewrite Hst. }
  repeat case_bool_decide; cbn; try done; subst; rewrite ?elem_of_cons in *; naive_solver.
Qed.

Lemma disabled_recv f c c' cl :
  (∀ rc, disabled (f rc) = disabled rc) → disabled_at (alter f c cl) c' = disabled_at cl c'.
Proof.
  intros Hf. unfold disabled_at. destruct (decide (c = c')) as [<-|].
  - rewrite lookup_alter_eq. destruct (cl !! c); cbn; [by rewrite Hf|done].
  - by rewrite lookup_alter_ne.
Qed.

(** A set only looks at the key and the disabled bit of its connections. *)
Lemma set_inv_ext cl cl' k cs :
  same_static cl cl' → (∀ c, c ∈ conns cs → disabled_at cl' c = disabled_at cl c) →
  set_inv cl k cs → set_inv cl' k cs.
Proof.
  intros Hs Hd [? ? Hk ? ? Hl Ha Hdead]. split; try done.
  - intros c Hc. destruct (Hk c Hc) as (rc & Hrc & <-).
    destruct (same_static_some _ _ _ _ Hs Hrc) as (rc' & Hrc' & Hst).
    exists rc'. split; [done|]. by apply static_key.
  - rewrite Ha. destruct (last cs) as [l|]; [|done]. by rewrite Hd by auto.
  - intros Hn c Hc. rewrite Hd by done. by apply Hdead.
Qed.

Lemma sets_disjoint cl k1 k2 cs1 cs2 c :
  set_inv cl k1 cs1 → set_inv cl k2 cs2 → c ∈ conns cs1 → c ∈ conns cs2 → k1 = k2.
Proof.
  intros H1 H2 Hc1 Hc2. destruct (si_key _ _ _ H1 c Hc1) as (rc1 & E1 & <-).
  destruct (si_key _ _ _ H2 c Hc2) as (rc2 & E2 & <-). by simplify_eq.
Qed.

Lemma registry_inv_new df : registry_inv df newSyntheticRelay.
Proof. split; unfold newSyntheticRelay; cbn; intros; simplify_map_eq; done. Qed.

(** ** Each operation preserves the invariant *)

Lemma same_static_insert_fresh cl c rc c' :
  cl !! c = None → c' ≠ c → static <$> <[c := rc]> cl !! c' = static <$> cl !! c'.
Proof. intros. by rewrite lookup_insert_ne. Qed.

(** A set of [k] in a store extended with a client that is not in it. *)
Lemma set_inv_insert_fresh cl k cs c rc :
  cl !! c = None → set_inv cl k cs → set_inv (<[c := rc]> cl) k cs.
Proof.
  intros Hfresh Hset.
  assert (∀ c', c' ∈ conns cs → c' ≠ c) as Hne.
  { intros c' Hc' ->. apply (si_key _ _ _ Hset) in Hc' as (? & E & _). by rewrite Hfresh in E. }
  assert (∀ c', c' ∈ conns cs → disabled_at (<[c := rc]> cl) c' = disabled_at cl c') as Hd.
  { intros c' Hc'. unfold disabled_at. rewrite lookup_insert_ne; [done|]. intros <-. by eapply Hne. }
  destruct Hset as [? ? Hk ? ? Hl Ha Hdead]. split; try done.
  - intros c' Hc'. destruct (Hk c' Hc') as (rc' & E & <-). exists rc'.
    rewrite lookup_insert_ne; [done|]. intros <-. by eapply Hne.
  - rewrite Ha. destruct (last cs); [|done]. by rewrite Hd by auto.
  - intros Hn c' Hc'. rewrite Hd by done. by apply Hdead.
Qed.

Lemma set_inv_join cl k cs c rc :
  cl !! c = None → clientKey rc = k → disabled rc = false →
  (cs = emptySet ∨ set_inv cl k cs) →
  set_inv (<[c := rc]> cl) k (mkClientSet (Some c) (Some c) (conns cs ++ [c]) (sendHistory cs)).
Proof.
  intros Hfresh Hk Hdis Hcs.
  assert (disabled_at (<[c := rc]> cl) c = false) as Hnew.
  { unfold disabled_at. by rewrite lookup_insert_eq. }
  assert (NoDup (conns cs) ∧ (∀ c', c' ∈ conns cs → c' ≠ c ∧ ∃ rc', cl !! c' = Some rc' ∧ clientKey rc' = k)
    ∧ NoDup (sendHistory cs) ∧ ∀ c', c' ∈ sendHistory cs → c' ∈ conns cs) as (Hnd & Hkeys & Hhd & Hhs).
  { destruct Hcs as [->|Hset]; [cbn; split_and!; try apply NoDup_nil_2; by intros ? ?%not_elem_of_nil|].
    split_and!; try apply Hset. intros c' Hc'. pose proof (si_key _ _ _ Hset _ Hc') as Hex.
    split; [|done]. intros ->. destruct Hex as (? & E & _). by rewrite Hfresh in E. }
  split; cbn; try done.
  - by destruct (conns cs).
  - apply NoDup_app. split_and!; [done| |apply NoDup_singleton].
    intros c' Hc' ->%list_elem_of_singleton. by destruct (Hkeys _ Hc').
  - intros c' [Hc'| ->%list_elem_of_singleton]%elem_of_app; [|by rewrite lookup_insert_eq; eauto].
    destruct (Hkeys _ Hc') as (Hne & ?). by rewrite lookup_insert_ne by done.
  - intros c' Hc'. apply elem_of_app. auto.
  - intros l [= <-]. apply elem_of_app. right. by apply list_elem_of_singleton.
  - by rewrite Hnew.
Qed.

(** Who is found by the new id, and who is hidden by it. *)
Lemma found_or_shadowed cl (bt : gmap string nat) nx t u cn k (m : bool) rc' c' :
  cl !! nx = None → cl !! c' = Some rc' → u = tunnelFlowID rc' →
  bt !! u = Some c' ∨ shadowed cl c' →
  let cl' := <[nx := mkRelayClient cn t k m false ∅]> cl in
  <[t := nx]> bt !! u = Some c' ∨ shadowed cl' c'.
Proof.
  intros Hfresh Hc' -> Hold. cbv zeta.
  assert (c' ≠ nx) as Hne by (intros ->; by rewrite Hfresh in Hc').
  destruct Hold as [Hb|(rc1 & c2 & rc2 & H1 & H2 & H3 & H4)].
  - destruct (decide (tunnelFlowID rc' = t)) as [<-|Ht]; [right|left; by rewrite lookup_insert_ne].
    exists rc', nx. eexists. rewrite lookup_insert_ne, lookup_insert_eq by done. by split_and!.
  - right. exists rc1, c2, rc2. assert (c2 ≠ nx) by (intros ->; by rewrite Hfresh in H3).
    by rewrite !lookup_insert_ne.
Qed.

Lemma register_inv df k cn t (m : bool) r :
  registry_inv df r → registry_inv df (snd (register k cn t m r)).
Proof.
  intros Hinv. destruct r as [cl bk bt nx]. destruct Hinv as [Hsets Htun Hconn Hfr Hpol].
  unfold register. cbn [snd byKey clients byTunnel nextClient] in *.
  set (rc := mkRelayClient cn t k m false ∅).
  assert (cl !! nx = None) as Hfresh.
  { destruct (cl !! nx) eqn:E; [|done].
    assert (is_Some (cl !! nx)) as Hs by eauto. apply Hfr in Hs. lia. }
  set (cs := default emptySet (bk !! k)).
  assert (cs = emptySet ∨ set_inv cl k cs) as Hcs.
  { unfold cs. destruct (bk !! k) eqn:E; [right; by apply Hsets|by left]. }
  assert (∀ c, c ∈ conns cs → ∃ cs0, bk !! k = Some cs0 ∧ c ∈ conns cs0) as Hold.
  { unfold cs. destruct (bk !! k); cbn; [by eauto|]. by intros ? ?%not_elem_of_nil. }
  split; cbn [byKey clients byTunnel nextClient].
  - intros k' cs'. destruct (decide (k' = k)) as [->|Hk].
    + rewrite lookup_insert_eq. intros [= <-]. by apply set_inv_join.
    + rewrite lookup_insert_ne by done. intros Hk'. apply set_inv_insert_fresh; auto.
  - intros t' c'. destruct (decide (t' = t)) as [->|Htne].
    + rewrite lookup_insert_eq. intros [= <-]. exists rc, (mkClientSet (Some nx) (Some nx) (conns cs ++ [nx]) (sendHistory cs)).
      rewrite !lookup_insert_eq. split_and!; [done..|]. apply elem_of_app. right.
      by apply list_elem_of_singleton.
    + rewrite lookup_insert_ne by done. intros (rc' & cs' & Hc' & Htc & Hk' & Hin)%Htun.
      exists rc'. rewrite (lookup_insert_ne cl) by (intros <-; by rewrite Hfresh in Hc').
      destruct (decide (clientKey rc' = k)) as [Ek|Hk].
      * eexists. rewrite Ek, lookup_insert_eq. split_and!; [done..|]. cbn. apply elem_of_app. left.
        unfold cs. rewrite <-Ek, Hk'. done.
      * exists cs'. by rewrite lookup_insert_ne by done.
  - assert (∀ k' cs' c', bk !! k' = Some cs' → c' ∈ conns cs' →
      ∃ rc', <[nx:=rc]> cl !! c' = Some rc' ∧
        (<[t:=nx]> bt !! tunnelFlowID rc' = Some c' ∨ shadowed (<[nx:=rc]> cl) c')) as Hback.
    { intros k' cs' c' Hk' Hin. destruct (Hconn _ _ _ Hk' Hin) as (rc' & Hc' & Hb). exists rc'.
      split; [rewrite lookup_insert_ne; [done|]; intros <-; by rewrite Hfresh in Hc'|].
      by eapply found_or_shadowed. }
    intros k' cs' c'. destruct (decide (k' = k)) as [->|Hk].
    + rewrite lookup_insert_eq. intros [= <-]. cbn.
      intros [(cs0 & Hcs0 & Hin)%Hold| ->%list_elem_of_singleton]%elem_of_app; [by eauto|].
      exists rc. rewrite !lookup_insert_eq. auto.
    + rewrite lookup_insert_ne by done. eauto.
  - intros c'. destruct (decide (c' = nx)) as [->|]; [lia|].
    rewrite lookup_insert_ne by done. intros Hc'%Hfr. lia.
  - intros c' Hdf. unfold disabled_at. destruct (decide (c' = nx)) as [->|];
      [by rewrite lookup_insert_eq|rewrite lookup_insert_ne by done; by apply Hpol].
Qed.

(** Replacing the set of one key without changing its members. *)
Lemma registry_inv_update df cl cl' bk bt nx k cs cs' :
  registry_inv df (mkRelay cl bk bt nx) → bk !! k = Some cs → same_static cl cl' →
  set_inv cl' k cs' → conns cs' = conns cs →
  (∀ c, c ∉ conns cs → disabled_at cl' c = disabled_at cl c) →
  (df = false → ∀ c, disabled_at cl' c = false) →
  registry_inv df (mkRelay cl' (<[k := cs']> bk) bt nx).
Proof.
  intros [Hsets Htun Hconn Hfr _] Hk Hs Hset Hc Hd Hp. cbn in *.
  split; cbn [byKey clients byTunnel nextClient].
  - intros k' cs''. destruct (decide (k' = k)) as [->|Hne].
    + rewrite lookup_insert_eq. by intros [= <-].
    + rewrite lookup_insert_ne by done. intros Hk'. apply (set_inv_ext cl); [done| |by apply Hsets].
      intros c Hin. apply Hd. intros Hin'. apply Hne. eapply sets_disjoint; eauto.
  - intros t c (rc & cs0 & Hrc & Htc & Hk0 & Hin)%Htun.
    destruct (same_static_some _ _ _ _ Hs Hrc) as (rc' & Hrc' & Hst). exists rc'.
    rewrite (static_key _ _ Hst), (static_tunnel _ _ Hst).
    destruct (decide (clientKey rc = k)) as [Ek|Hne].
    + exists cs'. rewrite Ek, lookup_insert_eq. split_and!; [done..|]. rewrite Hc.
      rewrite Ek in Hk0. by simplify_eq.
    + exists cs0. by rewrite lookup_insert_ne by done.
  - assert (∀ k' cs0 c, bk !! k' = Some cs0 → c ∈ conns cs0 →
      ∃ rc', cl' !! c = Some rc' ∧ (bt !! tunnelFlowID rc' = Some c ∨ shadowed cl' c)) as Hback.
    { intros k' cs0 c Hk' Hin. destruct (Hconn _ _ _ Hk' Hin) as (rc & Hrc & Hb).
      destruct (same_static_some _ _ _ _ Hs Hrc) as (rc' & Hrc' & Hst). exists rc'.
      rewrite (static_tunnel _ _ Hst). split; [done|]. destruct Hb; eauto using shadowed_static. }
    intros k' cs0 c. destruct (decide (k' = k)) as [->|Hne].
    + rewrite lookup_insert_eq. intros [= <-]. rewrite Hc. eauto.
    + rewrite lookup_insert_ne by done. eauto.
  - intros c [rc Hrc]. destruct (same_static_rev _ _ _ _ Hs Hrc) as (rc0 & Hrc0 & _). eauto.
  - eauto.
Qed.

(** A store that changed only in what clients have received. *)
Lemma registry_inv_store df cl cl' bk bt nx :
  registry_inv df (mkRelay cl bk bt nx) → same_static cl cl' →
  (∀ c, disabled_at cl' c = disabled_at cl c) → registry_inv df (mkRelay cl' bk bt nx).
Proof.
  intros [Hsets Htun Hconn Hfr Hp] Hs Hd. cbn in *. split; cbn [byKey clients byTunnel nextClient].
  - intros k cs Hk. apply (set_inv_ext cl); auto.
  - intros t c (rc & cs & Hrc & Htc & Hk & Hin)%Htun.
    destruct (same_static_some _ _ _ _ Hs Hrc) as (rc' & Hrc' & Hst). exists rc', cs.
    by rewrite (static_key _ _ Hst), (static_tunnel _ _ Hst).
  - intros k cs c Hk Hin. destruct (Hconn _ _ _ Hk Hin) as (rc & Hrc & Hb).
    destruct (same_static_some _ _ _ _ Hs Hrc) as (rc' & Hrc' & Hst). exists rc'.
    rewrite (static_tunnel _ _ Hst). split; [done|]. destruct Hb; eauto using shadowed_static.
  - intros c [rc Hrc]. destruct (same_static_rev _ _ _ _ Hs Hrc) as (rc0 & Hrc0 & _). eauto.
  - intros c Hdf. rewrite Hd. auto.
Qed.

(** *** [noteActivity] *)

Lemma index_of_Some src (h : list nat) i :
  index_of src h = Some i → h !! i = Some src ∧ delete i h ++ [src] ≡ₚ h.
Proof.
  unfold index_of. intros ([j x] & Hf & E)%fmap_Some. cbn in E. subst j.
  apply list_find_Some in Hf as (Hi & -> & _). split; [done|].
  rewrite (delete_Permutation h i src Hi) at 2. by rewrite Permutation_app_comm.
Qed.

Lemma index_of_None src (h : list nat) : index_of src h = None → src ∉ h.
Proof.
  unfold index_of. intros Hf%fmap_None%list_find_None Hin.
  by eapply Forall_forall in Hf; [|exact Hin].
Qed.

(** The first step of [note_set]: who receives. *)
Lemma set_inv_speaker cl k cs src :
  set_inv cl k cs → src ∈ conns cs → disabled_at cl src = false →
  set_inv cl k (mkClientSet (Some src) (Some src) (conns cs) (sendHistory cs)).
Proof.
  intros [] Hin Hen. split; cbn; try done; [by intros l [= <-]|by rewrite Hen].
Qed.

Lemma set_inv_hist cl k cs h :
  set_inv cl k cs → NoDup h → (∀ c, c ∈ h → c ∈ conns cs) →
  set_inv cl k (mkClientSet (active cs) (last cs) (conns cs) h).
Proof. intros [] Hnd Hsub. by split. Qed.

Lemma set_inv_disable cl k cs h :
  set_inv cl k cs → NoDup h → (∀ c, c ∈ h → c ∈ conns cs) →
  set_inv (disable_all (conns cs) cl) k (mkClientSet None (last cs) (conns cs) h).
Proof.
  intros Hset Hnd Hsub.
  assert (∀ c, c ∈ conns cs → disabled_at (disable_all (conns cs) cl) c = true) as Hall.
  { intros c Hc. destruct (si_key _ _ _ Hset c Hc) as (rc & Hrc & _).
    rewrite disable_all_at, bool_decide_true; [done|]. eauto. }
  destruct Hset as [? ? Hk ? ? Hl Ha Hdead]. split; cbn; try done.
  - intros c Hc. destruct (Hk c Hc) as (rc & Hrc & <-).
    destruct (same_static_some _ _ _ _ (disable_all_static (conns cs) cl) Hrc) as (rc' & ? & ?).
    exists rc'. split; [done|]. by apply static_key.
  - destruct (last cs) as [l|]; [|done]. by rewrite Hall by auto.
Qed.

Lemma disable_all_outside (ids : list nat) cl c :
  c ∉ ids → disabled_at (disable_all ids cl) c = disabled_at cl c.
Proof. intros. rewrite disable_all_at, bool_decide_false; [done|]. tauto. Qed.

Lemma note_set_inv df src cl k cs :
  set_inv cl k cs → src ∈ conns cs → disabled_at cl src = false →
  let '(cs', cl') := note_set df src cs cl in
  set_inv cl' k cs' ∧ same_static cl cl' ∧ conns cs' = conns cs ∧
  (∀ c, c ∉ conns cs → disabled_at cl' c = disabled_at cl c) ∧
  (df = false → cl' = cl ∧ active cs' = Some src).
Proof.
  intros Hset Hin Hen. unfold note_set.
  set (cs1 := if negb df then _ else _).
  assert (set_inv cl k cs1 ∧ conns cs1 = conns cs ∧ (df = false → active cs1 = Some src))
    as (Hset1 & Hc1 & Ha1).
  { unfold cs1. destruct df; cbn; [destruct (last cs) eqn:El|]; split_and!; try done;
      by apply set_inv_speaker. }
  clearbody cs1. clear Hset. rewrite <-Hc1 in *.
  destruct (last_is src (sendHistory cs1)); [by split_and!; auto|].
  destruct (index_of src (sendHistory cs1)) as [i|] eqn:Ei.
  - apply index_of_Some in Ei as [_ Hp].
    assert (NoDup (delete i (sendHistory cs1) ++ [src])) as Hnd.
    { rewrite Hp. apply Hset1. }
    assert (∀ c, c ∈ delete i (sendHistory cs1) ++ [src] → c ∈ conns cs1) as Hsub.
    { intros c. rewrite Hp. apply Hset1. }
    destruct df; cbn.
    + split_and!; try done; [by apply set_inv_disable|apply disable_all_static|].
      intros c Hc. by apply disable_all_outside.
    + split_and!; try done; [by apply set_inv_hist|auto].
  - apply index_of_None in Ei. cbn. split_and!; try done; [|auto].
    apply set_inv_hist; [done| |].
    + apply NoDup_app. split_and!; [apply Hset1| |apply NoDup_singleton].
      by intros c Hc ->%list_elem_of_singleton.
    + intros c [Hc| ->%list_elem_of_singleton]%elem_of_app; [by apply Hset1|done].
Qed.

Lemma noteActivity_inv df src rc r :
  registry_inv df r → clients r !! src = Some rc →
  (∀ cs, byKey r !! clientKey rc = Some cs → src ∈ conns cs) →
  let r' := noteActivity df src (clientKey rc) r in
  registry_inv df r' ∧ same_static (clients r) (clients r') ∧ byTunnel r' = byTunnel r ∧
  (∀ k, conns <$> byKey r' !! k = conns <$> byKey r !! k).
Proof.
  intros Hinv Hrc Hin. cbv zeta. unfold noteActivity.
  destruct (byKey r !! clientKey rc) as [cs|] eqn:Hk; [|by split_and!].
  destruct ((length (conns cs) <? 2)%nat || disabled_at (clients r) src) eqn:Eg; [by split_and!|].
  apply orb_false_iff in Eg as [_ Hen].
  pose proof (note_set_inv df src (clients r) (clientKey rc) cs
    (ri_sets _ _ Hinv _ _ Hk) (Hin _ eq_refl) Hen) as Hn.
  destruct (note_set df src cs (clients r)) as [cs' cl'].
  destruct Hn as (Hset & Hs & Hc & Hout & Hp). cbn.
  split_and!; [|done|done|].
  - destruct r as [cl bk bt nx]. eapply registry_inv_update; try done.
    intros Hdf c. destruct (Hp Hdf) as [-> _]. by apply (ri_policy _ _ Hinv).
  - intros k. destruct (decide (k = clientKey rc)) as [->|].
    + rewrite lookup_insert_eq, Hk. cbn. by rewrite Hc.
    + by rewrite lookup_insert_ne by done.
Qed.

(** *** [route] *)

Lemma mark_received_store df k peer r :
  registry_inv df r →
  registry_inv df (mkRelay (alter (mark_received k) peer (clients r)) (byKey r) (byTunnel r) (nextClient r)).
Proof.
  intros Hinv. destruct r as [cl bk bt nx]. eapply registry_inv_store; [exact Hinv| |].
  - by apply same_static_alter.
  - intros c. by apply disabled_recv.
Qed.

Lemma route_inv `{Disco} df src payload r :
  registry_inv df r → live r src → registry_inv df (snd (route_locked df src payload r)).
Proof.
  intros Hinv (rc & cs & Hrc & Hk & Hin). unfold route_locked. rewrite Hrc.
  destruct (len payload <? NodePublicRawLen); [done|].
  destruct (noteActivity_inv df src rc r Hinv Hrc) as (Hinv' & _).
  { intros cs' E. by rewrite Hk in E; simplify_eq. }
  repeat case_match; try done. by apply mark_received_store.
Qed.

(** *** [remove] *)

Lemma elem_of_without c x (ids : list nat) : x ∈ without c ids ↔ x ≠ c ∧ x ∈ ids.
Proof.
  unfold without. rewrite !list_elem_of_In, List.filter_In, negb_true_iff, Nat.eqb_neq. tauto.
Qed.

Lemma NoDup_without c (ids : list nat) : NoDup ids → NoDup (without c ids).
Proof. rewrite !NoDup_ListNoDup. apply List.NoDup_filter. Qed.

Lemma first_enabled_Some cl (ids : list nat) s :
  first_enabled cl ids = Some s → s ∈ ids ∧ disabled_at cl s = false.
Proof.
  intros [Hin Hb]%List.find_some. split; [by apply list_elem_of_In|by apply negb_true_iff].
Qed.

Lemma first_enabled_None cl (ids : list nat) :
  first_enabled cl ids = None → ∀ c, c ∈ ids → disabled_at cl c = true.
Proof.
  intros Hf c Hc. apply negb_false_iff.
  apply (List.find_none (λ c, negb (disabled_at cl c)) ids Hf). by apply list_elem_of_In.
Qed.

(** The survivor is an enabled member, and there is none only if all are disabled. *)
Lemma promoteSurvivor_spec cl cs :
  (∀ c, c ∈ sendHistory cs → c ∈ conns cs) →
  match promoteSurvivor cl cs with
  | Some s => s ∈ conns cs ∧ disabled_at cl s = false
  | None => ∀ c, c ∈ conns cs → disabled_at cl c = true
  end.
Proof.
  intros Hsub. unfold promoteSurvivor.
  destruct (first_enabled cl (rev (sendHistory cs))) eqn:E1.
  { apply first_enabled_Some in E1 as [Hin Hd]. split; [|done]. apply Hsub.
    apply list_elem_of_In in Hin. apply list_elem_of_In. by apply in_rev. }
  destruct (first_enabled cl (rev (conns cs))) eqn:E2.
  - apply first_enabled_Some in E2 as [Hin Hd]. split; [|done].
    apply list_elem_of_In in Hin. apply list_elem_of_In. by apply in_rev.
  - intros c Hc. eapply first_enabled_None; [exact E2|].
    apply list_elem_of_In in Hc. apply list_elem_of_In. by apply in_rev in Hc.
Qed.

Lemma set_inv_singleton cl k s rc :
  cl !! s = Some rc → clientKey rc = k → disabled rc = false →
  set_inv cl k (mkClientSet (Some s) (Some s) [s] []).
Proof.
  intros Hs Hk Hd. assert (disabled_at cl s = false) as Hds by (unfold disabled_at; by rewrite Hs).
  split; cbn; try done.
  - apply NoDup_singleton.
  - intros c ->%list_elem_of_singleton. eauto.
  - apply NoDup_nil_2.
  - by intros c ?%not_elem_of_nil.
  - intros l [= <-]. by apply list_elem_of_singleton.
  - by rewrite Hds.
Qed.

(** The rest of a set that keeps at least two connections. *)
Lemma set_inv_rest cl k cs c :
  set_inv cl k cs → without c (conns cs) ≠ [] →
  let cns := without c (conns cs) in
  let hist := without c (sendHistory cs) in
  let lst := match (if bool_decide (last cs = Some c) then None else last cs) with
             | None => promoteSurvivor cl (mkClientSet (active cs) None cns hist)
             | Some l => Some l
             end in
  set_inv cl k (mkClientSet (match lst with
    | Some l => if disabled_at cl l then None else Some l | None => None end) lst cns hist).
Proof.
  intros Hset Hne cns hist. cbv zeta.
  assert (∀ x, x ∈ hist → x ∈ cns) as Hsub.
  { intros x. unfold hist, cns. rewrite !elem_of_without. intros [? ?]. split; [done|by apply Hset]. }
  pose proof (promoteSurvivor_spec cl (mkClientSet (active cs) None cns hist) Hsub) as Hpro.
  cbn [conns] in Hpro.
  assert (∀ l, last cs = Some l → l ≠ c → l ∈ cns ∧
    (disabled_at cl l = true → ∀ x, x ∈ cns → disabled_at cl x = true)) as Hlast.
  { intros l Hl Hlc. split; [apply elem_of_without; split; [done|by apply (si_last _ _ _ Hset)]|].
    intros Hd x [_ Hx]%elem_of_without. apply (si_dead _ _ _ Hset); [|done].
    by rewrite (si_active _ _ _ Hset), Hl, Hd. }
  set (lst := match (if bool_decide _ then _ else _) with Some l => _ | None => _ end).
  assert (match lst with
    | Some l => l ∈ cns ∧ (disabled_at cl l = true → ∀ x, x ∈ cns → disabled_at cl x = true)
    | None => ∀ x, x ∈ cns → disabled_at cl x = true end) as Hlst.
  { unfold lst. case_bool_decide as Hc; [|destruct (last cs) as [l|] eqn:El].
    2: { apply Hlast; [done|]. by intros ->. }
    all: destruct (promoteSurvivor _ _) as [s|]; [|done]; destruct Hpro as [Hin Hd];
      split; [done|]; by rewrite Hd. }
  clearbody lst. split; cbn; try done.
  - apply NoDup_without, Hset.
  - intros x [_ Hx]%elem_of_without. by apply Hset.
  - apply NoDup_without, Hset.
  - intros l ->. apply Hlst.
  - intros Hn x Hx. destruct lst as [l|]; [|by apply Hlst].
    destruct (disabled_at cl l) eqn:Ed; [|done]. by apply Hlst.
Qed.

Lemma depart_inv cl k cs c :
  set_inv cl k cs →
  let '(o, cl') := depart c cl cs in
  same_static cl cl' ∧
  (∀ cs', o = Some cs' → set_inv cl' k cs') ∧
  (∀ x, x ∈ default [] (conns <$> o) ↔ x ≠ c ∧ x ∈ conns cs) ∧
  (∀ x, x ∉ conns cs → disabled_at cl' x = disabled_at cl x) ∧
  (∀ x, disabled_at cl x = false → disabled_at cl' x = false).
Proof.
  intros Hset. pose proof (set_inv_rest cl k cs c Hset) as Hrest. cbv zeta in Hrest.
  pose proof (elem_of_without c) as Hw. unfold depart.
  destruct (without c (conns cs)) as [|s [|s2 rest]] eqn:E.
  - split_and!; try done. intros x. cbn. by rewrite <-E, Hw.
  - assert (s ∈ conns cs) as Hs.
    { apply (Hw s (conns cs)). rewrite E. by apply list_elem_of_singleton. }
    destruct (si_key _ _ _ Hset s Hs) as (rc & Hrc & Hk).
    split_and!; cbn.
    + by apply same_static_alter.
    + intros cs' [= <-]. eapply (set_inv_singleton _ _ _ (set_disabled false rc)); try done.
      by rewrite lookup_alter_eq, Hrc.
    + intros x. by rewrite <-E, Hw.
    + intros x Hx. rewrite disabled_alter, bool_decide_false; [done|]. by intros ->.
    + intros x Hx. rewrite disabled_alter. by destruct (_ && _).
  - split_and!; cbn; try done.
    + intros cs' [= <-]. by apply Hrest.
    + intros x. by rewrite <-E, Hw.
Qed.

(** Removing a connection from the set of its key and from [byTunnel]. *)
Lemma registry_inv_depart df cl cl' bk bt nx c rc cs o :
  registry_inv df (mkRelay cl bk bt nx) → cl !! c = Some rc → bk !! clientKey rc = Some cs →
  same_static cl cl' →
  (∀ cs', o = Some cs' → set_inv cl' (clientKey rc) cs') →
  (∀ x, x ∈ default [] (conns <$> o) ↔ x ≠ c ∧ x ∈ conns cs) →
  (∀ x, x ∉ conns cs → disabled_at cl' x = disabled_at cl x) →
  (∀ x, disabled_at cl x = false → disabled_at cl' x = false) →
  registry_inv df (mkRelay cl' (partial_alter (λ _, o) (clientKey rc) bk)
                  (delete (tunnelFlowID rc) bt) nx).
Proof.
  intros [Hsets Htun Hconn Hfr Hpol] Hrc Hk Hs Hset Hmem Hout Hmono. cbn in *.
  split; cbn [byKey clients byTunnel nextClient].
  - intros k' cs'. destruct (decide (k' = clientKey rc)) as [->|Hne].
    + rewrite lookup_partial_alter_eq. apply Hset.
    + rewrite lookup_partial_alter_ne by done. intros Hk'.
      apply (set_inv_ext cl); [done| |by apply Hsets].
      intros x Hx. apply Hout. intros Hx'. apply Hne. eapply sets_disjoint; eauto.
  - intros t c' [Ht Hc']%lookup_delete_Some. destruct (Htun _ _ Hc') as (rc' & cs0 & Hrc' & <- & Hk' & Hin').
    destruct (same_static_some _ _ _ _ Hs Hrc') as (rc2 & Hrc2 & Hst). exists rc2.
    rewrite (static_key _ _ Hst), (static_tunnel _ _ Hst).
    destruct (decide (clientKey rc' = clientKey rc)) as [Ek|Hne].
    + rewrite Ek, lookup_partial_alter_eq. rewrite Ek, Hk in Hk'. simplify_eq.
      assert (c' ∈ default [] (conns <$> o)) as Hm.
      { apply Hmem. split; [|done]. intros ->. by simplify_eq. }
      destruct o as [cs'|]; [|by apply not_elem_of_nil in Hm]. by exists cs'.
    + exists cs0. by rewrite lookup_partial_alter_ne by done.
  - intros k' cs' x Hk' Hx.
    assert (∃ cs0, bk !! k' = Some cs0 ∧ x ∈ conns cs0 ∧ x ≠ c) as (cs0 & Hk0 & Hx0 & Hxc).
    { destruct (decide (k' = clientKey rc)) as [->|Hne].
      - rewrite lookup_partial_alter_eq in Hk'. subst o. cbn in Hmem.
        apply Hmem in Hx as [? ?]. by exists cs.
      - rewrite lookup_partial_alter_ne in Hk' by done. exists cs'. split_and!; [done..|].
        intros ->. destruct (si_key _ _ _ (Hsets _ _ Hk') _ Hx) as (? & ? & ?). congruence. }
    destruct (Hconn _ _ _ Hk0 Hx0) as (rcx & Hrcx & Hb).
    destruct (same_static_some _ _ _ _ Hs Hrcx) as (rc2 & Hrc2 & Hst). exists rc2. split; [done|].
    rewrite (static_tunnel _ _ Hst). rewrite lookup_delete_Some.
    destruct (decide (tunnelFlowID rc = tunnelFlowID rcx)) as [Et|Et];
      [right; apply (shadowed_static cl); [done|]; by exists rcx, c, rc|].
    destruct Hb; eauto using shadowed_static.
  - intros x [rcx Hx]. destruct (same_static_rev _ _ _ _ Hs Hx) as (rc0 & Hrc0 & _). eauto.
  - intros x Hdf. apply Hmono. auto.
Qed.

Lemma remove_inv df c r : registry_inv df r → registry_inv df (snd (remove_locked c r)).
Proof.
  intros Hinv. unfold remove_locked. destruct (clients r !! c) as [rc|] eqn:Hrc; [|done].
  destruct r as [cl bk bt nx]. cbn in *. destruct (bk !! clientKey rc) as [cs|] eqn:Hk.
  - pose proof (depart_inv _ _ _ c (ri_sets _ _ Hinv _ _ Hk)) as Hd. cbn in Hd.
    destruct (depart c cl cs) as [o cl']. destruct Hd as (Hs & Hset & Hmem & Hout & Hmono).
    pose proof (registry_inv_depart df cl cl' bk bt nx c rc cs o Hinv Hrc Hk Hs Hset Hmem Hout Hmono).
    by destruct o.
  - destruct Hinv as [Hsets Htun Hconn Hfr Hpol]. split; cbn in *; [done| | |done..].
    + intros t x [_ Hx]%lookup_delete_Some. by apply Htun.
    + intros k cs x Hk' Hx. destruct (Hconn _ _ _ Hk' Hx) as (rcx & Hrcx & Hb). exists rcx. split; [done|].
      rewrite lookup_delete_Some.
      destruct (decide (tunnelFlowID rc = tunnelFlowID rcx)) as [Et|Et]; [right|naive_solver].
      exists rcx, c, rc. split_and!; [done| |done..]. intros ->.
      destruct (si_key _ _ _ (Hsets _ _ Hk') _ Hx) as (? & ? & ?). congruence.
Qed.

(** *** [announceGone] *)

Lemma announce_one_store gone acc c :
  same_static (snd acc) (snd (announce_one gone acc c)) ∧
  ∀ x, disabled_at (snd (announce_one gone acc c)) x = disabled_at (snd acc) x.
Proof.
  unfold announce_one. destruct acc as [ts cl]. destruct (bool_decide _); cbn; [|done].
  split; [by apply same_static_alter|]. intros x. by apply disabled_recv.
Qed.

Lemma announce_fold_store gone (ids : list nat) acc :
  same_static (snd acc) (snd (foldl (announce_one gone) acc ids)) ∧
  ∀ x, disabled_at (snd (foldl (announce_one gone) acc ids)) x = disabled_at (snd acc) x.
Proof.
  revert acc. induction ids as [|c ids IH]; intros acc; [done|]. cbn [foldl].
  destruct (IH (announce_one gone acc c)) as [H1 H2], (announce_one_store gone acc c) as [H3 H4].
  split; [by eapply same_static_trans|]. intros x. by rewrite H2, H4.
Qed.

Lemma announce_inv df gone r : registry_inv df r → registry_inv df (snd (announce_locked gone r)).
Proof.
  intros Hinv. unfold announce_locked.
  pose proof (announce_fold_store gone (map_to_list (byTunnel r)).*2 ([], clients r)) as [H1 H2].
  destruct (foldl _ _ _) as [ts cl']. destruct r as [cl bk bt nx]. by eapply registry_inv_store.
Qed.
End inv.

(** ** What is written to the connections *)

Definition writes (tr : list event) : list (connid * bytes) :=
  omap (λ e, match e with EvWrite c b => Some (c, b) | _ => None end) tr.

Definition pushes (tr : list event) : list wire.Flow :=
  omap (λ e, match e with EvPush f => Some f | _ => None end) tr.

Section emit.
Context `{NodeKeysLaws} `{Disco} `{Env}.

Lemma emitAndWrite_run tid (c : connid) t p tr :
  t ≠ FrameHealth → ∃ evs flow,
    emitAndWrite tid c t p tr = (tt, tr ++ evs) ∧
    writes evs = [(c, EncodeFrame t p)] ∧ pushes evs = [flow] ∧
    is_frame_flow tid DirServerToClient
      (frameMessage t (decodeFrame t (Some p))) flow.
Proof.
  intros Ht. destruct (FrameHeader_typed t p) as [n Hh].
  pose proof (captureFrame_run tid (EncodeFrame t p) DirServerToClient tr t n Hh) as Hrun.
  cbv zeta in Hrun. destruct (env_ApplyBody tr _ _) as [nb fired].
  unfold rewrites in Hrun. rewrite bool_decide_false in Hrun by done. cbn [andb] in Hrun.
  rewrite FramePayload_encode in Hrun.
  set (flow := setMessage _ _ _) in Hrun. unfold emitAndWrite, mbind, eff_bind. rewrite Hrun.
  pose proof (is_frame_flow_set tid DirServerToClient (env_Now tr)
    (frameMessage t (decodeFrame t (Some p)))) as Hfl. fold flow in Hfl.
  destruct (env_PushFlow tr flow) as [x|e]; unfold mret, eff_ret, ConnWrite, tunnelError, Log, emit.
  - exists [EvPush flow; EvWrite c (EncodeFrame t p)], flow. by rewrite <-app_assoc.
  - eexists [EvPush flow; EvLog _ _; EvWrite c (EncodeFrame t p)], flow.
    split_and!; [|done..]. rewrite <-!app_assoc. reflexivity.
Qed.

Lemma writes_app tr1 tr2 : writes (tr1 ++ tr2) = writes tr1 ++ writes tr2.
Proof. apply omap_app. Qed.
Lemma pushes_app tr1 tr2 : pushes (tr1 ++ tr2) = pushes tr1 ++ pushes tr2.
Proof. apply omap_app. Qed.

Definition gone_frame (k : NodePublic) (reason : Byte.byte) : bytes :=
  EncodeFrame FramePeerGone (peerGonePayload k reason).

Lemma emit_gone_writes cl gone targets tr :
  (∀ c, c ∈ targets → is_Some (cl !! c)) →
  writes (snd (emit_gone cl gone targets tr)) = writes tr ++
    map (λ c, (conn_of cl c, gone_frame gone PeerGoneReasonDisconnected)) targets.
Proof.
  revert tr. induction targets as [|c targets IH]; intros tr Hin; [by rewrite app_nil_r|].
  cbn [emit_gone map]. unfold mbind, eff_bind, emit_to, conn_of.
  destruct (Hin c) as [rc Hrc]; [by left|]. rewrite Hrc.
  destruct (emitAndWrite_run (tunnelFlowID rc) (fr rc) FramePeerGone
    (peerGonePayload gone PeerGoneReasonDisconnected) tr) as (evs & fl & -> & Hw & _); [done|].
  rewrite IH by (intros; apply Hin; by right).
  rewrite writes_app, Hw, <-app_assoc. done.
Qed.
End emit.

(** ** Announcing a departure *)

Section announce.
Context `{NodeKeys}.

Lemma received_alter f (c c' : nat) cl :
  received_at (alter f c cl) c' =
  if bool_decide (c = c') then match cl !! c with Some rc => received (f rc) | None => ∅ end
  else received_at cl c'.
Proof.
  unfold received_at. case_bool_decide as E.
  - subst. rewrite lookup_alter_eq. by destruct (cl !! c').
  - by rewrite lookup_alter_ne.
Qed.

Lemma announce_one_received gone ts cl (c x : nat) :
  received_at (snd (announce_one gone (ts, cl) c)) x =
  if bool_decide (x = c) then received_at cl x ∖ {[gone]} else received_at cl x.
Proof.
  unfold announce_one.
  destruct (decide (gone ∈ received_at cl c)) as [Hg|Hg];
    [rewrite bool_decide_true by done|rewrite bool_decide_false by done]; cbn [snd].
  - rewrite received_alter. unfold received_at. repeat case_bool_decide; subst; try done.
    match goal with |- context [cl !! ?y] => destruct (cl !! y) end; set_solver.
  - case_bool_decide; [subst; set_solver|done].
Qed.

Lemma announce_fold gone ids ts cl :
  NoDup ids →
  let '(ts', cl') := foldl (announce_one gone) (ts, cl) ids in
  (∃ news, ts' = ts ++ news ∧ NoDup news ∧
    ∀ c, c ∈ news ↔ c ∈ ids ∧ gone ∈ received_at cl c) ∧
  (∀ c, received_at cl' c =
    if bool_decide (c ∈ ids) then received_at cl c ∖ {[gone]} else received_at cl c).
Proof.
  revert ts cl. induction ids as [|i ids IH]; intros ts cl Hnd; cbn [foldl].
  { split; [|done]. exists []. split_and!; [by rewrite app_nil_r|apply NoDup_nil_2|].
    intros c. rewrite !elem_of_nil. tauto. }
  apply NoDup_cons in Hnd as [Hi Hnd].
  destruct (announce_one gone (ts, cl) i) as [ts1 cl1] eqn:E1.
  pose proof (announce_one_received gone ts cl i) as Hr1. rewrite E1 in Hr1. cbn [snd] in Hr1.
  specialize (IH ts1 cl1 Hnd).
  destruct (foldl (announce_one gone) (ts1, cl1) ids) as [ts' cl'].
  destruct IH as ((news & -> & Hnn & Hmem) & Hrec). split.
  - assert (∀ c, c ∈ ids → received_at cl1 c = received_at cl c) as Hsame.
    { intros c Hc. rewrite Hr1, bool_decide_false; [done|]. by intros ->. }
    unfold announce_one in E1. destruct (decide (gone ∈ received_at cl i)) as [Hg|Hg];
      [rewrite bool_decide_true in E1 by done|rewrite bool_decide_false in E1 by done]; simplify_eq.
    + exists (i :: news). split_and!; [by rewrite <-app_assoc| |].
      * apply NoDup_cons. split; [|done]. by intros [? _]%Hmem.
      * intros c. rewrite !elem_of_cons, Hmem. split.
        -- intros [->|[Hc Hgc]]; [auto|]. rewrite Hsame in Hgc by done. auto.
        -- intros [[->|Hc] Hgc]; [auto|]. rewrite <-Hsame in Hgc by done. auto.
    + exists news. split_and!; [done..|]. intros c. rewrite elem_of_cons, Hmem. split.
      * intros [Hc Hgc]. auto.
      * intros [[->|Hc] Hgc]; [done|auto].
  - intros c. rewrite Hrec, Hr1.
    destruct (decide (c = i)) as [->|]; repeat case_bool_decide; set_solver.
Qed.

(** No two tunnels share a connection. *)
Lemma byTunnel_nodup df r : registry_inv df r → NoDup (map_to_list (byTunnel r)).*2.
Proof.
  intros Hinv. apply NoDup_fmap_2_strong; [|apply NoDup_map_to_list].
  intros [t1 c1] [t2 c2] H1%elem_of_map_to_list H2%elem_of_map_to_list. cbn. intros <-.
  destruct (ri_tunnel _ _ Hinv _ _ H1) as (rc1 & _ & E1 & <- & _).
  destruct (ri_tunnel _ _ Hinv _ _ H2) as (rc2 & _ & E2 & <- & _). by simplify_eq.
Qed.

Lemma elem_of_byTunnel r c :
  c ∈ (map_to_list (byTunnel r)).*2 ↔ ∃ t, byTunnel r !! t = Some c.
Proof.
  rewrite list_elem_of_fmap. split.
  - intros ([t c'] & -> & Ht%elem_of_map_to_list). by exists t.
  - intros [t Ht]. exists (t, c). split; [done|]. by apply elem_of_map_to_list.
Qed.

Lemma registered_live df r t c : registry_inv df r → byTunnel r !! t = Some c → live r c.
Proof. intros Hinv (rc & cs & Hrc & _ & Hk & Hin)%(ri_tunnel _ _ Hinv). by exists rc, cs. Qed.

(** Where every connection is found by its tunnel, the registered clients are the
    live ones. *)
Lemma live_registered df r c : relay_inv df r → (∃ t, byTunnel r !! t = Some c) ↔ live r c.
Proof. intros [Hinv Hix]. split; [intros [t Ht]; by eapply registered_live|apply Hix]. Qed.

(** Without two clients of one id nobody is hidden. *)
Lemma indexed_distinct df r :
  registry_inv df r → (∀ c, live r c → ¬ shadowed (clients r) c) → indexed r.
Proof.
  intros Hinv Hd c Hc. pose proof Hc as (rc & cs & _ & Hk & Hin).
  destruct (ri_conn _ _ Hinv _ _ _ Hk Hin) as (rc' & _ & [Hb|Hs]); [eauto|by destruct (Hd c)].
Qed.
End announce.

(** ** Reachable registries *)

(** The critical sections of the client goroutines and of a drain, in any
    interleaving and under any tunnel ids. A client may be removed at any time,
    and again after a drain has dropped it. A client that a drain has dropped may
    still route frames it had read, unless two clients have joined under its key
    behind the drain. *)
Inductive relay_step `{NodeKeys} `{Disco} `{Bulk} (df : bool) : syntheticRelay → syntheticRelay → Prop :=
  | step_register k cn t m r : relay_step df r (snd (register k cn t m r))
  | step_route src payload r :
      live r src ∨ (∀ rc cs, clients r !! src = Some rc → byKey r !! clientKey rc = Some cs →
                      (length (conns cs) < 2)%nat) →
      relay_step df r (snd (route_locked df src payload r))
  | step_remove c r : relay_step df r (snd (remove_locked c r))
  | step_announce gone r : relay_step df r (snd (announce_locked gone r))
  | step_closeAll r : relay_step df r (snd (closeAll_locked r)).

Section steps.
Context `{NodeKeys} `{Disco}.

Lemma noteActivity_lone df src k r :
  (∀ cs, byKey r !! k = Some cs → (length (conns cs) < 2)%nat) → noteActivity df src k r = r.
Proof.
  intros Hl. unfold noteActivity. destruct (byKey r !! k) as [cs|] eqn:Hk; [|done].
  destruct (Nat.ltb_spec (length (conns cs)) 2); [done|]. specialize (Hl _ eq_refl). lia.
Qed.

Lemma route_lone_inv df src payload r :
  registry_inv df r →
  (∀ rc cs, clients r !! src = Some rc → byKey r !! clientKey rc = Some cs → (length (conns cs) < 2)%nat) →
  registry_inv df (snd (route_locked df src payload r)).
Proof.
  intros Hinv Hl. unfold route_locked. destruct (clients r !! src) as [rc|] eqn:Hrc; [|done].
  destruct (_ <? _); [done|]. rewrite noteActivity_lone by (intros cs; by apply Hl).
  repeat case_match; try done. by apply mark_received_store.
Qed.

Lemma closeAll_inv `{Bulk} df r : registry_inv df r → registry_inv df (snd (closeAll_locked r)).
Proof.
  intros [_ _ _ Hfr Hpol]. split; cbn; try done; intros *; by rewrite lookup_empty.
Qed.

Lemma relay_step_inv `{Bulk} df r r' : relay_step df r r' → registry_inv df r → registry_inv df r'.
Proof.
  intros [|src payload r0 [Hl|Hl]| | |] Hinv;
    [by apply register_inv|by apply route_inv|by apply route_lone_inv|by apply remove_inv|by apply announce_inv
    |by apply closeAll_inv].
Qed.

Lemma reachable_inv `{Bulk} df r : rtc (relay_step df) newSyntheticRelay r → registry_inv df r.
Proof.
  intros Hr. assert (∀ r0, rtc (relay_step df) r0 r → registry_inv df r0 → registry_inv df r) as Hind.
  { clear Hr. induction 1 as [|r0 r1 r2 Hs _ IH]; [done|]. intros. by eapply IH, relay_step_inv. }
  by eapply Hind, registry_inv_new.
Qed.

(** The route of a live client, its guards discharged. *)
Lemma route_live df src payload r rc :
  registry_inv df r → live r src → clients r !! src = Some rc → NodePublicRawLen ≤ len payload →
  let r1 := noteActivity df src (clientKey rc) r in
  registry_inv df r1 ∧ live r1 src ∧
  route_locked df src payload r =
    match byKey r1 !! keyAt payload 0 with
    | None => (if IsDisco (from payload NodePublicRawLen) then NotHere (keyAt payload 0) else Dropped, r1)
    | Some dcs =>
        match active dcs with
        | None => (Dropped, r1)
        | Some peer =>
            (Deliver peer (NodePublic_raw (clientKey rc) ++ from payload NodePublicRawLen),
             mkRelay (alter (mark_received (clientKey rc)) peer (clients r1))
               (byKey r1) (byTunnel r1) (nextClient r1))
        end
    end.
Proof.
  intros Hinv (rc' & cs & Hrc' & Hk & Hin) Hrc Hlen. cbv zeta.
  assert (rc' = rc) as -> by congruence. clear Hrc'.
  destruct (noteActivity_inv df src rc r Hinv Hrc) as (Hinv1 & Hst & _ & Hconns).
  { intros cs' E. by rewrite Hk in E; simplify_eq. }
  split_and!; [done| |].
  - destruct (same_static_some _ _ _ _ Hst Hrc) as (rc1 & Hrc1 & Heq).
    pose proof (Hconns (clientKey rc)) as Hc. rewrite Hk in Hc. cbn in Hc.
    apply fmap_Some in Hc as (cs1 & Hk1 & Hcc). exists rc1, cs1.
    rewrite (static_key _ _ Heq). split_and!; [done..|]. by rewrite <-Hcc.
  - unfold route_locked. rewrite Hrc. destruct (Z.ltb_spec (len payload) NodePublicRawLen); [lia|done].
Qed.

(** Routing moves nobody in or out. *)
Lemma same_members_live r r' x :
  same_static (clients r) (clients r') → (∀ k, conns <$> byKey r' !! k = conns <$> byKey r !! k) →
  live r' x ↔ live r x.
Proof.
  intros Hs Hc.
  split; intros (rc & cs & Hrc & Hk & Hin).
  - destruct (same_static_rev _ _ _ _ Hs Hrc) as (rc0 & Hrc0 & Heq).
    specialize (Hc (clientKey rc)). rewrite Hk in Hc. cbn in Hc. symmetry in Hc.
    apply fmap_Some in Hc as (cs0 & Hk0 & Hcc). exists rc0, cs0.
    rewrite <-(static_key _ _ Heq). split_and!; [done..|by rewrite <-Hcc].
  - destruct (same_static_some _ _ _ _ Hs Hrc) as (rc0 & Hrc0 & Heq).
    specialize (Hc (clientKey rc)). rewrite Hk in Hc. cbn in Hc.
    apply fmap_Some in Hc as (cs0 & Hk0 & Hcc). exists rc0, cs0.
    rewrite (static_key _ _ Heq). split_and!; [done..|by rewrite <-Hcc].
Qed.

(** Nor does it change who anybody is. *)
Lemma route_same df src payload r :
  registry_inv df r → live r src →
  same_static (clients r) (clients (snd (route_locked df src payload r))) ∧
  ∀ k, conns <$> byKey (snd (route_locked df src payload r)) !! k = conns <$> byKey r !! k.
Proof.
  intros Hinv Hlive. pose proof Hlive as (rc & cs & Hrc & Hk & Hin).
  destruct (Z.ltb_spec (len payload) NodePublicRawLen) as [Hs|Hl].
  { unfold route_locked. rewrite Hrc. destruct (Z.ltb_spec (len payload) NodePublicRawLen); [done|lia]. }
  destruct (route_live df src payload r rc Hinv Hlive Hrc Hl) as (_ & _ & ->).
  destruct (noteActivity_inv df src rc r Hinv Hrc) as (_ & Hst & _ & Hc).
  { intros cs' E. by rewrite Hk in E; simplify_eq. }
  repeat case_match; cbn [snd]; split; try done.
  cbn. eapply same_static_trans; [exact Hst|]. by apply same_static_alter.
Qed.

Lemma route_members df src payload r x :
  registry_inv df r → live r src → live (snd (route_locked df src payload r)) x ↔ live r x.
Proof. intros Hinv Hlive. by apply same_members_live; apply route_same. Qed.

Lemma announce_same gone r : same_static (clients r) (clients (snd (announce_locked gone r))).
Proof.
  unfold announce_locked.
  pose proof (announce_fold_store gone (map_to_list (byTunnel r)).*2 ([], clients r)) as [Hs _].
  by destruct (foldl _ _ _) as [ts cl'].
Qed.

Lemma remove_same df c r :
  registry_inv df r → same_static (clients r) (clients (snd (remove_locked c r))).
Proof.
  intros Hinv. unfold remove_locked. destruct (clients r !! c) as [rc|]; [|done].
  destruct (byKey r !! clientKey rc) as [cs|] eqn:Hk; [|done].
  pose proof (depart_inv _ _ _ c (ri_sets _ _ Hinv _ _ Hk)) as Hd.
  destruct (depart c (clients r) cs) as [[cs'|] cl']; by destruct Hd.
Qed.

Lemma announce_members gone r x : live (snd (announce_locked gone r)) x ↔ live r x.
Proof.
  unfold announce_locked.
  pose proof (announce_fold_store gone (map_to_list (byTunnel r)).*2 ([], clients r)) as [Hs _].
  destruct (foldl _ _ _) as [ts cl']. apply same_members_live; [exact Hs|done].
Qed.

Lemma remove_members df c r x :
  registry_inv df r → live r c → live (snd (remove_locked c r)) x ↔ live r x ∧ x ≠ c.
Proof.
  intros Hinv Hlive. pose proof Hlive as (rc & cs & Hrc & Hk & Hin).
  unfold remove_locked. rewrite Hrc, Hk.
  pose proof (depart_inv _ _ _ c (ri_sets _ _ Hinv _ _ Hk)) as Hd.
  destruct (depart c (clients r) cs) as [o cl']. destruct Hd as (Hs & Hset & Hmem & _).
  assert (live (mkRelay cl' (partial_alter (λ _, o) (clientKey rc) (byKey r))
    (delete (tunnelFlowID rc) (byTunnel r)) (nextClient r)) x ↔ live r x ∧ x ≠ c) as Hx;
    [|by destruct o].
  unfold live; cbn. split.
  - intros (rx & csx & Hrx & Hkx & Hinx). destruct (same_static_rev _ _ _ _ Hs Hrx) as (r0 & Hr0 & Heq).
    rewrite (static_key _ _ Heq) in Hkx. destruct (decide (clientKey r0 = clientKey rc)) as [E|Hne].
    + rewrite E, lookup_partial_alter_eq in Hkx. subst o. apply Hmem in Hinx as [? ?].
      split; [|done]. exists r0, cs. by rewrite E.
    + rewrite lookup_partial_alter_ne in Hkx by done. split; [by exists r0, csx|]. intros ->. congruence.
  - intros [(r0 & csx & Hr0 & Hkx & Hinx) Hne]. destruct (same_static_some _ _ _ _ Hs Hr0) as (rx & Hrx & Heq).
    exists rx. rewrite (static_key _ _ Heq). destruct (decide (clientKey r0 = clientKey rc)) as [E|Hk'].
    + rewrite E, lookup_partial_alter_eq. rewrite E, Hk in Hkx. simplify_eq.
      assert (x ∈ default [] (conns <$> o)) as Hm by by apply Hmem.
      destruct o as [cs'|]; [by exists cs'|by apply not_elem_of_nil in Hm].
    + exists csx. by rewrite lookup_partial_alter_ne by done.
Qed.

Lemma register_members k cn t (m : bool) df r x :
  registry_inv df r →
  live (snd (register k cn t m r)) x ↔ live r x ∨ x = fst (register k cn t m r).
Proof.
  intros Hinv. destruct r as [cl bk bt nx]. unfold register, live. cbn.
  assert (∀ rc, cl !! nx = Some rc → False) as Hfresh.
  { intros rc Hrc. assert (is_Some (cl !! nx)) as Hs by eauto. apply (ri_fresh _ _ Hinv) in Hs. cbn in Hs. lia. }
  split.
  - intros (rc & cs & Hrc & Hk & Hin). destruct (decide (x = nx)) as [->|Hne]; [by right|left].
    rewrite lookup_insert_ne in Hrc by done. destruct (decide (clientKey rc = k)) as [E|Hk'].
    + rewrite E, lookup_insert_eq in Hk. simplify_eq. cbn in Hin. rewrite elem_of_app, list_elem_of_singleton in Hin.
      destruct Hin as [Hin|]; [|done]. destruct (bk !! clientKey rc) as [cs0|] eqn:E0; cbn in Hin;
        [|by apply not_elem_of_nil in Hin]. by exists rc, cs0.
    + rewrite lookup_insert_ne in Hk by done. by exists rc, cs.
  - intros [(rc & cs & Hrc & Hk & Hin)| ->].
    + exists rc. rewrite lookup_insert_ne by (intros <-; by eapply Hfresh).
      destruct (decide (clientKey rc = k)) as [<-|Hk'].
      * eexists. rewrite lookup_insert_eq. split_and!; [done..|]. cbn. rewrite Hk. cbn.
        apply elem_of_app. by left.
      * exists cs. by rewrite lookup_insert_ne by done.
    + eexists _, _. rewrite lookup_insert_eq. split_and!; [done|cbn; by rewrite lookup_insert_eq|].
      cbn. apply elem_of_app. right. by apply list_elem_of_singleton.
Qed.

(** A fresh id and a packet leave everybody where he was found. *)
Lemma register_indexed k cn t (m : bool) df r :
  registry_inv df r → byTunnel r !! t = None → indexed r → indexed (snd (register k cn t m r)).
Proof.
  intros Hinv Ht Hix x [Hx| ->]%(register_members k cn t m df r x Hinv).
  - destruct (Hix x Hx) as [t' Ht']. exists t'. cbn. rewrite lookup_insert_ne; [done|]. intros <-. congruence.
  - exists t. cbn. by rewrite lookup_insert_eq.
Qed.

Lemma route_byKey df src payload r rc :
  clients r !! src = Some rc → NodePublicRawLen ≤ len payload →
  byKey (snd (route_locked df src payload r)) = byKey (noteActivity df src (clientKey rc) r).
Proof.
  intros Hrc Hl. unfold route_locked. rewrite Hrc. destruct (Z.ltb_spec (len payload) NodePublicRawLen); [lia|].
  destruct (_ !! keyAt payload 0) as [dcs|]; [by destruct (active dcs)|done].
Qed.

Lemma noteActivity_byTunnel df src k r : byTunnel (noteActivity df src k r) = byTunnel r.
Proof. unfold noteActivity. repeat case_match; done. Qed.

Lemma route_indexed df src payload r :
  registry_inv df r → live r src → indexed r → indexed (snd (route_locked df src payload r)).
Proof.
  intros Hinv Hl Hix x Hx. apply (route_members df src payload r x Hinv Hl), Hix in Hx as [t Ht]. exists t.
  unfold route_locked. repeat case_match; cbn; rewrite ?noteActivity_byTunnel; done.
Qed.

(** The receiver of a set that has one, and a set without one. *)
Lemma set_inv_active cl k cs c :
  set_inv cl k cs → active cs = Some c → c ∈ conns cs ∧ disabled_at cl c = false.
Proof.
  intros Hset Ha. rewrite (si_active _ _ _ Hset) in Ha.
  destruct (last cs) as [l|] eqn:El; [|done]. destruct (disabled_at cl l) eqn:Ed; [done|].
  simplify_eq. split; [|done]. by apply (si_last _ _ _ Hset).
Qed.

Lemma last_writer_active r src rc :
  registry_inv false r → live r src → clients r !! src = Some rc →
  ∃ cs, byKey (noteActivity false src (clientKey rc) r) !! clientKey rc = Some cs ∧
    active cs = Some src.
Proof.
  intros Hinv (rc' & cs & Hrc' & Hk & Hin) Hrc.
  assert (rc' = rc) as -> by congruence. clear Hrc'. unfold noteActivity. rewrite Hk.
  pose proof (ri_sets _ _ Hinv _ _ Hk) as Hset.
  assert (disabled_at (clients r) src = false) as Hen by by apply (ri_policy _ _ Hinv).
  rewrite Hen, orb_false_r. destruct (Nat.ltb_spec (length (conns cs)) 2) as [Hlen|Hlen].
  - exists cs. split; [done|].
    assert (conns cs = [src]) as Hone.
    { destruct (conns cs) as [|x [|y rest]]; [by apply not_elem_of_nil in Hin| |cbn in Hlen; lia].
      by apply list_elem_of_singleton in Hin as ->. }
    destruct (active cs) as [a|] eqn:Ea.
    + destruct (set_inv_active _ _ _ _ Hset Ea) as [Ha _]. rewrite Hone in Ha.
      by apply list_elem_of_singleton in Ha as ->.
    + apply (si_dead _ _ _ Hset) with (c := src) in Ea; [|done]. by rewrite Hen in Ea.
  - pose proof (note_set_inv false src (clients r) (clientKey rc) cs Hset Hin Hen) as Hn.
    destruct (note_set false src cs (clients r)) as [cs' cl']. cbn. rewrite lookup_insert_eq.
    exists cs'. split; [done|]. by apply Hn.
Qed.

(** A sender that returns after another one disables its whole set. *)
Lemma note_set_fighting src cs cl k :
  set_inv cl k cs → src ∈ conns cs → src ∈ sendHistory cs → list.last (sendHistory cs) ≠ Some src →
  disabled_at cl src = false →
  let '(cs', cl') := note_set true src cs cl in
  active cs' = None ∧ conns cs' = conns cs ∧ ∀ c, c ∈ conns cs → disabled_at cl' c = true.
Proof.
  intros Hset Hin Hh Hl Hen. unfold note_set. cbn [negb].
  set (cs1 := match last cs with Some _ => cs | None => _ end).
  assert (conns cs1 = conns cs ∧ sendHistory cs1 = sendHistory cs) as [Hc1 Hh1]
    by (unfold cs1; by destruct (last cs)).
  clearbody cs1. rewrite Hh1. unfold last_is. rewrite bool_decide_false by done.
  destruct (index_of src (sendHistory cs)) as [i|] eqn:Ei; [|by apply index_of_None in Ei].
  cbn. split_and!; [done|done|]. rewrite Hc1. intros c Hc.
  destruct (si_key _ _ _ Hset c Hc) as (rc & Hrc & _).
  rewrite disable_all_at, bool_decide_true; [done|]. eauto.
Qed.
End steps.

(** ** Properties *)

(** C25: the registry's invariant, in every state the critical sections of
    clients and drains can reach, in any interleaving and whatever tunnel ids the
    clients have (a frame that a drained client had read comes before a second
    client joins under its key behind the drain). Each key's connections are
    distinct, non-empty and registered under that key; the send history lists
    members only, each at most once; the active receiver is the last writer while
    that one is enabled, there is none exactly when the whole set is disabled, and
    under the last-writer policy nobody is ever disabled. An entry of [byTunnel]
    is a registered connection of that id, and a registered connection is found by
    its id unless another client has had the same id, as two uncaptured clients
    have: with distinct ids the index holds exactly the registered connections. *)
Theorem relay_invariant `{NodeKeys} `{Disco} `{Bulk} (disableFighters : bool) (r : syntheticRelay) :
  rtc (relay_step disableFighters) newSyntheticRelay r →
  registry_inv disableFighters r ∧
  ((∀ c, live r c → ¬ shadowed (clients r) c) →
     relay_inv disableFighters r ∧ ∀ c, (∃ t, byTunnel r !! t = Some c) ↔ live r c) ∧
  ∀ k cs, byKey r !! k = Some cs →
    (active cs = None ↔ ∀ c, c ∈ conns cs → disabled_at (clients r) c = true) ∧
    (disableFighters = false → is_Some (active cs) ∧ active cs = last cs).
Proof.
  intros Hr. pose proof (reachable_inv _ _ Hr) as Hinv. split; [done|]. split.
  { intros Hd. assert (relay_inv disableFighters r) as Hri by (split; [done|by eapply indexed_distinct]).
    split; [done|]. intros c. by eapply live_registered. }
  intros k cs Hk.
  pose proof (ri_sets _ _ Hinv _ _ Hk) as Hset.
  assert (active cs = None ↔ ∀ c, c ∈ conns cs → disabled_at (clients r) c = true) as Hiff.
  { split; [apply (si_dead _ _ _ Hset)|]. intros Hall. rewrite (si_active _ _ _ Hset).
    destruct (last cs) as [l|] eqn:El; [|done]. by rewrite Hall by by apply (si_last _ _ _ Hset). }
  split; [done|]. intros ->. pose proof (λ c, ri_policy _ _ Hinv c eq_refl) as Hen.
  destruct (active cs) as [a|] eqn:Ea.
  - split; [by eexists|]. rewrite <-Ea. rewrite (si_active _ _ _ Hset).
    destruct (last cs); [by rewrite Hen|done].
  - exfalso. destruct (conns cs) as [|c0 rest] eqn:Ec; [by apply (si_nonempty _ _ _ Hset)|].
    specialize (proj1 Hiff eq_refl c0 ltac:(by left)). by rewrite Hen.
Qed.

(** C26: routing. A live client's packet is answered by exactly one outcome:
    delivered, prefixed with the sender's key, to the one enabled connection the
    addressed key has active, which remembers the sender; answered with
    NotHere, only for a key with no connection at all and only for a disco
    packet; or dropped, when the key is unknown and the packet is not disco, or
    when the whole addressed set is disabled. Under the last-writer policy a
    registered key always receives. *)
Theorem route_spec `{NodeKeys} `{Disco} (df : bool) (src : nat) (payload : bytes) (r : syntheticRelay)
    (rc : relayClient) :
  registry_inv df r → live r src → clients r !! src = Some rc → NodePublicRawLen ≤ len payload →
  let dst := keyAt payload 0 in
  let packet := from payload NodePublicRawLen in
  let '(o, r') := route_locked df src payload r in
  (match o with
   | Deliver peer recv => ∃ dcs,
       byKey r' !! dst = Some dcs ∧ active dcs = Some peer ∧ peer ∈ conns dcs ∧
       disabled_at (clients r') peer = false ∧ recv = NodePublic_raw (clientKey rc) ++ packet ∧
       clientKey rc ∈ received_at (clients r') peer
   | NotHere k => k = dst ∧ byKey r !! dst = None ∧ IsDisco packet = true
   | Dropped =>
       (byKey r !! dst = None ∧ IsDisco packet = false) ∨
       (∃ dcs, byKey r' !! dst = Some dcs ∧ ∀ c, c ∈ conns dcs → disabled_at (clients r') c = true)
   end) ∧
  (df = false → is_Some (byKey r !! dst) → ∃ peer recv, o = Deliver peer recv).
Proof.
  intros Hinv Hlive Hrc Hlen. cbv zeta.
  destruct (route_live df src payload r rc Hinv Hlive Hrc Hlen) as (Hinv1 & _ & ->).
  destruct Hlive as (rc' & cs & Hrc' & Hk & Hin).
  assert (rc' = rc) as -> by congruence. clear Hrc'.
  destruct (noteActivity_inv df src rc r Hinv Hrc) as (_ & Hst & _ & Hconns).
  { intros cs' E. by rewrite Hk in E; simplify_eq. }
  specialize (Hconns (keyAt payload 0)).
  destruct (byKey (noteActivity df src (clientKey rc) r) !! keyAt payload 0) as [dcs|] eqn:Hd; cbn in Hconns.
  2: { destruct (byKey r !! keyAt payload 0); [done|].
       split; [|by intros _ [? ?]]. destruct (IsDisco _); auto. }
  pose proof (ri_sets _ _ Hinv1 _ _ Hd) as Hset.
  destruct (active dcs) as [peer|] eqn:Ea.
  - destruct (set_inv_active _ _ _ _ Hset Ea) as [Hp Hen].
    split; [|by eauto]. exists dcs. cbn [byKey clients]. split_and!; try done.
    + by rewrite disabled_recv.
    + destruct (si_key _ _ _ Hset _ Hp) as (prc & Hprc & _). rewrite received_alter, bool_decide_true by done.
      rewrite Hprc. cbn. set_solver.
  - split; [right; exists dcs; split; [done|]; by apply (si_dead _ _ _ Hset)|].
    intros -> _. exfalso. destruct (conns dcs) as [|c0 rest] eqn:Ec; [by apply (si_nonempty _ _ _ Hset)|].
    assert (disabled_at (clients (noteActivity false src (clientKey rc) r)) c0 = true) as Hdis.
    { apply (si_dead _ _ _ Hset Ea). rewrite Ec. by left. }
    by rewrite (ri_policy _ _ Hinv1) in Hdis.
Qed.

(** The last writer receives. Under the last-writer policy, after a live
    client of key [k] has sent a packet, whatever it sent, the next packet another
    key's client addresses to [k] is delivered to that client. *)
Theorem last_writer_receives `{NodeKeys} `{Disco} (src other : nat) (p1 p2 : bytes)
    (r : syntheticRelay) (rc orc : relayClient) :
  registry_inv false r → live r src → clients r !! src = Some rc →
  clients r !! other = Some orc → live r other → clientKey orc ≠ clientKey rc →
  NodePublicRawLen ≤ len p1 → NodePublicRawLen ≤ len p2 → keyAt p2 0 = clientKey rc →
  fst (route_locked false other p2 (snd (route_locked false src p1 r)))
  = Deliver src (NodePublic_raw (clientKey orc) ++ from p2 NodePublicRawLen).
Proof.
  intros Hinv Hlive Hrc Horc (orc' & ocs & Horc' & Hok & Hoin) Hne Hl1 Hl2 Hdst.
  assert (orc' = orc) as -> by congruence. clear Horc'.
  pose proof (route_inv false src p1 r Hinv Hlive) as Hinv1.
  destruct (last_writer_active r src rc Hinv Hlive Hrc) as (cs & Hcs & Ha).
  destruct (route_live false src p1 r rc Hinv Hlive Hrc Hl1) as (_ & _ & Hr).
  destruct (noteActivity_inv false src rc r Hinv Hrc) as (_ & Hst & _ & Hconns).
  { destruct Hlive as (rc' & cs' & Hrc' & Hk & Hin).
    assert (rc' = rc) as -> by congruence. intros cs2 E.
    by rewrite Hk in E; simplify_eq. }
  set (r1 := snd (route_locked false src p1 r)) in *.
  assert (byKey r1 = byKey (noteActivity false src (clientKey rc) r) ∧
          same_static (clients r) (clients r1)) as [Hbk Hst1].
  { unfold r1. rewrite Hr. destruct (byKey _ !! keyAt p1 0) as [dcs|]; [destruct (active dcs)|]; cbn;
      (split; [done|]); [|done|done].
    eapply same_static_trans; [exact Hst|]. by apply same_static_alter. }
  clearbody r1. clear Hr Hst.
  destruct (same_static_some _ _ _ _ Hst1 Horc) as (orc1 & Horc1 & Heq).
  pose proof (static_key _ _ Heq) as Hkey.
  assert (live r1 other) as Hlive1.
  { pose proof (Hconns (clientKey orc)) as Hc. rewrite Hok in Hc. cbn in Hc.
    apply fmap_Some in Hc as (ocs1 & Hk1 & Hcc). exists orc1, ocs1. rewrite Hkey, Hbk.
    split_and!; [done..|]. by rewrite <-Hcc. }
  destruct (route_live false other p2 r1 orc1 Hinv1 Hlive1 Horc1 Hl2) as (_ & _ & ->).
  assert (byKey (noteActivity false other (clientKey orc1) r1) !! keyAt p2 0 = Some cs) as ->.
  { rewrite Hdst. unfold noteActivity. rewrite Hkey.
    repeat case_match; simplify_eq; cbn; rewrite ?lookup_insert_ne by done; by rewrite Hbk. }
  by rewrite Ha, Hkey.
Qed.

(** C29: duplicate keys under [disable_fighters]. A connection that sends again
    after another connection of its key has sent disables the whole set: none of
    its connections is enabled and nobody receives for the key. *)
Theorem fighters_disabled `{NodeKeys} `{Disco} (src : nat) (payload : bytes) (r : syntheticRelay)
    (rc : relayClient) (cs : clientSet) :
  registry_inv true r → live r src → clients r !! src = Some rc → byKey r !! clientKey rc = Some cs →
  (2 ≤ length (conns cs))%nat → disabled_at (clients r) src = false →
  src ∈ sendHistory cs → list.last (sendHistory cs) ≠ Some src → NodePublicRawLen ≤ len payload →
  let r' := snd (route_locked true src payload r) in
  ∃ cs', byKey r' !! clientKey rc = Some cs' ∧ active cs' = None ∧ conns cs' = conns cs ∧
    (∀ c, c ∈ conns cs → disabled_at (clients r') c = true) ∧
    (keyAt payload 0 = clientKey rc → fst (route_locked true src payload r) = Dropped).
Proof.
  intros Hinv Hlive Hrc Hk Hlen Hen Hh Hl Hp. cbv zeta.
  destruct (route_live true src payload r rc Hinv Hlive Hrc Hp) as (_ & _ & ->).
  assert (src ∈ conns cs) as Hin by (by apply (si_hist _ _ _ (ri_sets _ _ Hinv _ _ Hk))).
  pose proof (note_set_fighting src cs (clients r) (clientKey rc) (ri_sets _ _ Hinv _ _ Hk) Hin Hh Hl Hen)
    as Hf.
  unfold noteActivity. rewrite Hk, Hen, orb_false_r.
  destruct (Nat.ltb_spec (length (conns cs)) 2); [lia|].
  destruct (note_set true src cs (clients r)) as [cs' cl']. destruct Hf as (Ha & Hc & Hall).
  cbn [byKey clients].
  destruct (<[clientKey rc := cs']> (byKey r) !! keyAt payload 0) as [dcs|] eqn:Ed;
    [destruct (active dcs) as [peer|] eqn:Ea|]; cbn [fst snd byKey clients];
    exists cs'; rewrite lookup_insert_eq; split_and!; try done.
  - intros c Hc'. rewrite disabled_recv by done. auto.
  - intros E. rewrite E, lookup_insert_eq in Ed. simplify_eq.
  - intros E. by rewrite E, lookup_insert_eq in Ed.
Qed.

(** What a departure leaves, by cases. *)
Lemma departure_cases `{NodeKeys} (df : bool) (c : nat) (r : syntheticRelay) (rc : relayClient)
    (cs : clientSet) :
  registry_inv df r → clients r !! c = Some rc → byKey r !! clientKey rc = Some cs → c ∈ conns cs →
  let '(gone, r') := remove_locked c r in
  byTunnel r' = delete (tunnelFlowID rc) (byTunnel r) ∧
  (gone = true ↔ conns cs = [c]) ∧
  if gone then byKey r' = delete (clientKey rc) (byKey r)
  else ∃ cs', byKey r' = <[clientKey rc := cs']> (byKey r) ∧
    (∀ x, x ∈ conns cs' ↔ x ≠ c ∧ x ∈ conns cs) ∧
    (∀ s, conns cs' = [s] → active cs' = Some s ∧ disabled_at (clients r') s = false) ∧
    ((∃ s, s ∈ conns cs' ∧ disabled_at (clients r) s = false) → is_Some (active cs')).
Proof.
  intros Hinv Hrc Hk Hin. unfold remove_locked. rewrite Hrc, Hk.
  pose proof (ri_sets _ _ Hinv _ _ Hk) as Hset.
  pose proof (depart_inv _ _ _ c Hset) as Hd.
  assert (conns cs = [c] ↔ without c (conns cs) = []) as Hone.
  { split; [intros ->; cbn; by rewrite Nat.eqb_refl|]. intros Hw.
    assert (∀ x, x ∈ conns cs → x = c) as Hall.
    { intros x Hx. destruct (decide (x = c)) as [|Hne]; [done|].
      assert (x ∈ without c (conns cs)) as Hx' by (by apply elem_of_without).
      rewrite Hw in Hx'. by apply not_elem_of_nil in Hx'. }
    pose proof (si_nodup _ _ _ Hset) as Hnd. destruct (conns cs) as [|x [|y rest]].
    - by apply not_elem_of_nil in Hin.
    - by rewrite (Hall x) by by left.
    - rewrite (Hall x), (Hall y) in Hnd by (rewrite ?elem_of_cons; auto).
      apply NoDup_cons in Hnd as [[] _]. by left. }
  destruct (depart c (clients r) cs) as [o cl'] eqn:Ed. destruct Hd as (_ & Hinv' & Hmem & _ & Hmono).
  assert (o = None ↔ conns cs = [c]) as Ho.
  { rewrite Hone. unfold depart in Ed. destruct (without c (conns cs)) as [|s [|s2 l]]; by simplify_eq. }
  destruct o as [cs'|]; cbn [byKey byTunnel clients].
  - split_and!; [done|by split; [|intros ?%Ho]|]. exists cs'. specialize (Hinv' _ eq_refl).
    cbn in Hmem. split_and!; [done|done| |].
    + intros s Hs. unfold depart in Ed.
      destruct (without c (conns cs)) as [|s1 [|s2 l]] eqn:Ew; simplify_eq.
      cbn in Hs. simplify_eq. split; [done|]. rewrite disabled_alter.
      assert (s ∈ conns cs) as Hsin by (apply Hmem; cbn; by left).
      destruct (si_key _ _ _ Hset s Hsin) as (src & Hsrc & _). rewrite !bool_decide_true; eauto.
    + intros (s & Hs & Hen). destruct (active cs') eqn:Ea; [by eexists|].
      pose proof (si_dead _ _ _ Hinv' Ea s Hs) as Hdis. by rewrite Hmono in Hdis.
  - split_and!; [done| |done]. split; [intros _; by apply Ho|done].
Qed.

(** A departure that ends a key leaves every other connection as it was. *)
Lemma departure_clients `{NodeKeys} (c : nat) (r r1 : syntheticRelay) (rc : relayClient) (cs : clientSet) gone :
  clients r !! c = Some rc → byKey r !! clientKey rc = Some cs → conns cs = [c] →
  remove_locked c r = (gone, r1) → clients r1 = clients r.
Proof.
  intros Hrc Hk Hone Er. unfold remove_locked in Er. rewrite Hrc, Hk in Er. unfold depart in Er. rewrite Hone in Er.
  cbn in Er. rewrite Nat.eqb_refl in Er. cbn in Er. by simplify_eq.
Qed.

(** The connections registered after it are the live ones but the leaver. *)
Lemma departure_registered `{NodeKeys} (df : bool) (c : nat) (r r1 : syntheticRelay) (rc : relayClient) :
  relay_inv df r → clients r !! c = Some rc → live r c →
  byTunnel r1 = delete (tunnelFlowID rc) (byTunnel r) →
  ∀ x, (∃ t, byTunnel r1 !! t = Some x) ↔ live r x ∧ x ≠ c.
Proof.
  intros [Hinv Hix] Hrc Hc Hbt x. rewrite Hbt. split.
  - intros [t [Ht Hx]%lookup_delete_Some]. split; [by eapply registered_live|]. intros ->. apply Ht.
    destruct (ri_tunnel _ _ Hinv _ _ Hx) as (rc' & _ & Hrc' & <- & _). by simplify_eq.
  - intros [Hx Hne]. destruct (Hix x Hx) as [t Ht]. exists t. apply lookup_delete_Some. split; [|done].
    intros <-. destruct (Hix c Hc) as [tc Htc].
    destruct (ri_tunnel _ _ Hinv _ _ Htc) as (rc' & _ & Hrc' & <- & _). simplify_eq.
Qed.

(** A departure. It unregisters the tunnel; the key is gone exactly when
    the last connection leaves; a connection left alone is enabled and receives,
    whatever fighting went before; and as long as an enabled connection is left
    the key keeps a receiver. *)
Theorem departure `{NodeKeys} (df : bool) (c : nat) (r : syntheticRelay) (rc : relayClient)
    (cs : clientSet) :
  registry_inv df r → clients r !! c = Some rc → byKey r !! clientKey rc = Some cs → c ∈ conns cs →
  let '(gone, r') := remove_locked c r in
  byTunnel r' = delete (tunnelFlowID rc) (byTunnel r) ∧
  (gone = true ↔ conns cs = [c]) ∧
  if gone then byKey r' = delete (clientKey rc) (byKey r)
  else ∃ cs', byKey r' = <[clientKey rc := cs']> (byKey r) ∧
    (∀ x, x ∈ conns cs' ↔ x ≠ c ∧ x ∈ conns cs) ∧
    (∀ s, conns cs' = [s] → active cs' = Some s ∧ disabled_at (clients r') s = false) ∧
    ((∃ s, s ∈ conns cs' ∧ disabled_at (clients r) s = false) → is_Some (active cs')).
Proof. apply departure_cases. Qed.

(** C2: exactly-once PeerGone. When a key's last connection leaves, one
    PEER_GONE(Disconnected) frame for it is written to each other connection that
    had received a packet from the key, to nobody else, unmodified by any rule,
    and every record of the key is dropped, so a second departure of the same key
    would announce only newer deliveries. A departure that leaves another
    connection of the key announces nothing. *)
Theorem gone_announced `{NodeKeysLaws} `{Disco} `{Env} (df : bool) (c : nat) (r : syntheticRelay)
    (rc : relayClient) (cs : clientSet) (tr : list event) :
  relay_inv df r → clients r !! c = Some rc → byKey r !! clientKey rc = Some cs → c ∈ conns cs →
  ∃ targets, let '(r', tr') := remove c r tr in
    writes tr' = writes tr ++
      map (λ x, (conn_of (clients r) x, gone_frame (clientKey rc) PeerGoneReasonDisconnected)) targets ∧
    NoDup targets ∧
    (∀ x, x ∈ targets ↔ conns cs = [c] ∧ live r x ∧ x ≠ c ∧ clientKey rc ∈ received_at (clients r) x) ∧
    (conns cs = [c] → ∀ x, live r' x → clientKey rc ∉ received_at (clients r') x).
Proof.
  intros Hri Hrc Hk Hin. pose proof Hri as [Hinv _]. assert (live r c) as Hlive by by exists rc, cs.
  pose proof (remove_inv df c r Hinv) as Hinv1. pose proof (λ x, remove_members df c r x Hinv Hlive) as Hmem1.
  pose proof (departure_cases df c r rc cs Hinv Hrc Hk Hin) as Hdep. unfold remove.
  destruct (remove_locked c r) as [gone r1] eqn:Er. destruct Hdep as (Hbt & Hgone & Hrest).
  destruct gone; cbn [snd] in Hinv1, Hmem1.
  2: { exists []. unfold mret, eff_ret. rewrite app_nil_r. assert (conns cs ≠ [c]) as Hne.
       { intros E. apply Hgone in E. done. }
       split_and!; [done|apply NoDup_nil_2| |done]. intros x. split; [by intros ?%not_elem_of_nil|].
       by intros [? _]. }
  assert (conns cs = [c]) as Hone by by apply Hgone.
  pose proof (departure_clients c r r1 rc cs _ Hrc Hk Hone Er) as Hcl.
  unfold announceGone, key_of. rewrite Hrc. unfold announce_locked.
  pose proof (announce_fold (clientKey rc) (map_to_list (byTunnel r1)).*2 [] (clients r1)
    (byTunnel_nodup df r1 Hinv1)) as Hf.
  pose proof (announce_fold_store (clientKey rc) (map_to_list (byTunnel r1)).*2 ([], clients r1)) as [Hst _].
  destruct (foldl _ _ _) as [ts cl'] eqn:Ef. destruct Hf as ((news & Hts & Hnd & Hmem) & Hrec).
  cbn in Hts. subst ts. cbn [snd] in Hst. exists news.
  pose proof (emit_gone_writes cl' (clientKey rc) news tr) as Hw.
  unfold mbind, eff_bind, mret, eff_ret. cbn [clients].
  destruct (emit_gone cl' (clientKey rc) news tr) as [u tr'] eqn:Ee. cbn [snd] in Hw.
  pose proof (departure_registered df c r r1 rc Hri Hrc Hlive Hbt) as Hreg.
  split_and!.
  - rewrite Hw.
    + f_equal. apply map_ext. intros x. f_equal. unfold conn_of.
      specialize (Hst x). rewrite Hcl in Hst. unfold static in Hst.
      destruct (cl' !! x), (clients r !! x); cbn in Hst; by simplify_eq.
    + intros x [Hx _]%Hmem. apply elem_of_byTunnel in Hx as [t Hx].
      destruct (ri_tunnel _ _ Hinv1 _ _ Hx) as (rcx & _ & Hrcx & _).
      destruct (same_static_some _ _ _ _ Hst Hrcx) as (? & ? & _). eauto.
  - done.
  - intros x. rewrite Hmem, elem_of_byTunnel, Hreg, Hcl. tauto.
  - intros _ x Hlx. rewrite Hrec.
    assert (x ∈ (map_to_list (byTunnel r1)).*2) as Hx.
    { apply elem_of_byTunnel, Hreg, Hmem1.
      destruct Hlx as (rcx & csx & Hrcx & Hkx & Hinx). cbn in *.
      destruct (same_static_rev _ _ _ _ Hst Hrcx) as (rc0 & Hrc0 & Heq).
      exists rc0, csx. by rewrite <-(static_key _ _ Heq). }
    rewrite bool_decide_true by done. intros [_ Hni]%elem_of_difference. by apply Hni, elem_of_singleton.
Qed.

(** The shutdown drain. [closeAll] closes every registered connection once
    and empties the registry, after which nothing is routable and the removals of
    the unwinding connections change nothing. *)
Theorem closeAll_spec `{NodeKeys} `{BulkLaws} (df : bool) (r : syntheticRelay) :
  relay_inv df r →
  let '(cs, r') := closeAll_locked r in
  NoDup cs ∧ (∀ c, c ∈ cs ↔ live r c) ∧ (∀ c, ¬ live r' c) ∧
  (∀ c, remove_locked c r' = (false, r')).
Proof.
  intros Hri. pose proof Hri as [Hinv _]. unfold closeAll_locked.
  pose proof (MapValuesSlice_perm (byTunnel r)) as Hp. split_and!.
  - rewrite Hp. by eapply byTunnel_nodup.
  - intros c. rewrite Hp, elem_of_byTunnel. by apply (live_registered df).
  - intros c (rc & cs & _ & Hk & _). cbn in Hk. by rewrite lookup_empty in Hk.
  - intros c. unfold remove_locked. cbn. destruct (clients r !! c); [|done].
    by rewrite lookup_empty, delete_empty.
Qed.

(** Clients whose tunnel envelope was filtered out share the tunnel id [""].
    The later one hides the earlier in [byTunnel]: the drain then closes only the
    later one, although both are still registered under their keys. *)
Theorem uncaptured_clients_collide `{NodeKeys} `{BulkLaws} (k1 k2 : NodePublic) (c1 c2 : connid)
    (m1 m2 : bool) :
  k1 ≠ k2 →
  let '(a, r1) := register k1 c1 "" m1 newSyntheticRelay in
  let '(b, r2) := register k2 c2 "" m2 r1 in
  live r2 a ∧ live r2 b ∧ a ≠ b ∧ fst (closeAll_locked r2) = [b].
Proof.
  intros Hk. unfold register, newSyntheticRelay. cbn. rewrite lookup_insert_ne, !lookup_empty by done.
  split_and!.
  - eexists _, _. cbn. rewrite lookup_insert_ne, lookup_insert_eq by done.
    split_and!; [done|cbn; by rewrite lookup_insert_ne, lookup_insert_eq by done|by left].
  - eexists _, _. cbn. rewrite lookup_insert_eq. split_and!; [done|cbn; by rewrite lookup_insert_eq|by left].
  - done.
  - apply Permutation_singleton_r. rewrite MapValuesSlice_perm. cbn.
    rewrite insert_insert_eq, map_to_list_insert, map_to_list_empty by apply lookup_empty. done.
Qed.

(** A client that a drain has dropped and that routes a frame it had read, after two
    clients have joined under its key behind the drain, becomes the receiver of the
    key: the packets for the key then go to its closed connection. *)
Theorem dropped_sender_receives `{NodeKeys} `{Disco} `{Bulk} (k : NodePublic) (c0 c1 c2 : connid)
    (t0 t1 t2 : string) (m : bool) (payload : bytes) :
  NodePublicRawLen ≤ len payload →
  let '(a, r1) := register k c0 t0 m newSyntheticRelay in
  let '(b, r2) := register k c1 t1 m (snd (closeAll_locked r1)) in
  let '(c, r3) := register k c2 t2 m r2 in
  ∃ cs, byKey (snd (route_locked false a payload r3)) !! k = Some cs ∧
    conns cs = [b; c] ∧ active cs = Some a ∧ a ∉ conns cs.
Proof.
  intros Hl. unfold register, newSyntheticRelay. cbn. set (r3 := mkRelay _ _ _ _).
  assert (clients r3 !! 0%nat = Some (mkRelayClient c0 t0 k m false ∅)) as Hc by done.
  assert (byKey r3 !! k = Some (mkClientSet (Some 2%nat) (Some 2%nat) [1%nat; 2%nat] [])) as Hk.
  { cbn. by rewrite !lookup_insert_eq, !lookup_empty. }
  rewrite (route_byKey _ _ _ _ _ Hc Hl). unfold noteActivity, disabled_at. rewrite Hc. cbn [clientKey]. rewrite Hk.
  assert (∀ cl, note_set false 0 (mkClientSet (Some 2%nat) (Some 2%nat) [1%nat; 2%nat] []) cl
    = (mkClientSet (Some 0%nat) (Some 0%nat) [1%nat; 2%nat] [0%nat], cl)) as Hn by done.
  cbn [conns length disabled Nat.ltb Nat.leb orb]. rewrite Hn. cbn [byKey]. eexists. rewrite lookup_insert_eq.
  split; [done|]. split; [done|]. split; [done|].
  cbn. rewrite !not_elem_of_cons. split_and!; [done..|apply not_elem_of_nil].
Qed.

(** ** Witnesses: two connections of one key and one of another *)

Definition reg (k : Byte.byte) (cn : connid) (t : string) (r : syntheticRelay) : syntheticRelay :=
  snd (register (toy_key k) cn t false r).

Definition toy_relay : syntheticRelay :=
  reg x02 12 "t2" (reg x01 11 "t1" (reg x01 10 "t0" newSyntheticRelay)).

Definition to_key (k : Byte.byte) (packet : bytes) : bytes := repeat k 32 ++ packet.

Lemma toy_relay_ok df : relay_inv df toy_relay.
Proof.
  assert (∀ k cn t r, relay_inv df r → byTunnel r !! t = None → relay_inv df (reg k cn t r)) as Hreg.
  { intros k cn t r [Hinv Hix] Ht. split; [by apply register_inv|by eapply register_indexed]. }
  unfold toy_relay. do 3 (apply Hreg; [|reflexivity]). split; [apply registry_inv_new|].
  intros c (rc & cs & Hrc & _). discriminate Hrc.
Qed.

Lemma toy_relay_inv df : registry_inv df toy_relay.
Proof. apply toy_relay_ok. Qed.

(** Client [c] of the toy relay is live, by evaluation. *)
Ltac live_by_eval :=
  eexists _, _; split; [vm_compute; reflexivity|];
  split; [vm_compute; reflexivity|]; apply (bool_decide_unpack _); vm_compute; reflexivity.


Definition toy_rc (cn : connid) (t : string) (k : Byte.byte) : relayClient :=
  mkRelayClient cn t (toy_key k) false false ∅.

Lemma toy_live (c : nat) (cn : connid) (t : string) (k : Byte.byte) :
  clients toy_relay !! c = Some (toy_rc cn t k) →
  match byKey toy_relay !! toy_key k with
  | Some cs => bool_decide (c ∈ conns cs)
  | None => false
  end = true → live toy_relay c.
Proof.
  intros Hrc Hb. destruct (byKey toy_relay !! toy_key k) as [cs|] eqn:E; [|done].
  exists (toy_rc cn t k), cs. split_and!; [done|done|]. by apply bool_decide_eq_true in Hb.
Qed.

Lemma relay_invariant_witness :
  (is_Some (active (mkClientSet (Some 1%nat) (Some 1%nat) [0%nat; 1%nat] []))).
Proof.
  assert (rtc (@relay_step toy_keys toy_disco toy_bulk false) newSyntheticRelay toy_relay) as Hr.
  { eapply rtc_l; [apply (@step_register toy_keys toy_disco toy_bulk false (toy_key x01) 10%nat "t0" false)|].
    eapply rtc_l; [apply (@step_register toy_keys toy_disco toy_bulk false (toy_key x01) 11%nat "t1" false)|].
    apply rtc_once. apply (@step_register toy_keys toy_disco toy_bulk false (toy_key x02) 12%nat "t2" false). }
  pose proof (@relay_invariant toy_keys toy_disco toy_bulk false toy_relay Hr) as (_ & _ & H).
  apply (H (toy_key x01)); [|reflexivity]. vm_compute. reflexivity.
Defined.

Lemma route_spec_witness :
  ∃ peer recv, fst (route_locked false 2%nat (to_key x01 [x41]) toy_relay) = Deliver peer recv.
Proof.
  pose proof (route_spec false 2%nat (to_key x01 [x41]) toy_relay (toy_rc 12 "t2" x02)
    (toy_relay_inv false) (toy_live 2 12 "t2" x02 eq_refl ltac:(vm_compute; reflexivity))
    eq_refl ltac:(vm_compute; discriminate)) as H.
  cbv zeta in H. destruct (route_locked false 2%nat (to_key x01 [x41]) toy_relay) as [o r'].
  destruct H as [_ H]. cbn [fst]. apply H; [reflexivity|].
  exists (mkClientSet (Some 1%nat) (Some 1%nat) [0%nat; 1%nat] []). vm_compute. reflexivity.
Defined.

(** Client 0 speaks, although client 1 connected later: 0 now receives. *)
Lemma last_writer_receives_witness :
  fst (route_locked false 2%nat (to_key x01 [x41])
    (snd (route_locked false 0%nat (to_key x02 []) toy_relay)))
  = Deliver 0%nat (repeat x02 32 ++ [x41]).
Proof.
  refine (last_writer_receives 0%nat 2%nat (to_key x02 []) (to_key x01 [x41]) toy_relay
    (toy_rc 10 "t0" x01) (toy_rc 12 "t2" x02) (toy_relay_inv false) _ eq_refl eq_refl _ _ _ _ _).
  - exact (toy_live 0 10 "t0" x01 eq_refl ltac:(vm_compute; reflexivity)).
  - exact (toy_live 2 12 "t2" x02 eq_refl ltac:(vm_compute; reflexivity)).
  - apply (bool_decide_unpack _). vm_compute. reflexivity.
  - vm_compute. discriminate.
  - vm_compute. discriminate.
  - vm_compute. reflexivity.
Defined.

(** The toy relay after both connections of key 1 have sent once. *)
Definition toy_interleaved : syntheticRelay :=
  snd (route_locked true 1%nat (to_key x02 []) (snd (route_locked true 0%nat (to_key x02 []) toy_relay))).

Lemma toy_interleaved_inv : registry_inv true toy_interleaved.
Proof.
  apply route_inv; [apply route_inv; [apply toy_relay_inv|]|].
  - exact (toy_live 0 10 "t0" x01 eq_refl ltac:(vm_compute; reflexivity)).
  - exists (toy_rc 11 "t1" x01), (mkClientSet (Some 1%nat) (Some 1%nat) [0%nat; 1%nat] [0%nat]).
    split_and!; [reflexivity|vm_compute; reflexivity|right; left].
Qed.

Lemma fighters_disabled_witness :
  disabled_at (clients (snd (route_locked true 0%nat (to_key x02 []) toy_interleaved))) 1%nat = true.
Proof.
  pose (cs := mkClientSet (Some 1%nat) (Some 1%nat) [0%nat; 1%nat] [0%nat; 1%nat]).
  destruct (fighters_disabled 0%nat (to_key x02 []) toy_interleaved (toy_rc 10 "t0" x01) cs
    toy_interleaved_inv) as (cs' & _ & _ & _ & Hall & _).
  - exists (toy_rc 10 "t0" x01), cs. split_and!; [reflexivity|vm_compute; reflexivity|left].
  - reflexivity.
  - vm_compute. reflexivity.
  - cbn. lia.
  - reflexivity.
  - left.
  - discriminate.
  - vm_compute. discriminate.
  - apply Hall. right. left.
Defined.

Lemma departure_witness : fst (remove_locked 2%nat toy_relay) = true.
Proof.
  pose proof (departure false 2%nat toy_relay (toy_rc 12 "t2" x02)
    (mkClientSet (Some 2%nat) (Some 2%nat) [2%nat] []) (toy_relay_inv false) eq_refl
    ltac:(vm_compute; reflexivity) ltac:(left)) as H.
  destruct (remove_locked 2%nat toy_relay) as [g r']. destruct H as (_ & H & _).
  cbn [fst]. apply H. reflexivity.
Defined.

(** Key 2 has sent one packet to key 1 and leaves: connection 11 is told. *)
Definition toy_heard : syntheticRelay := snd (route_locked false 2%nat (to_key x01 [x41]) toy_relay).

Lemma toy_heard_key : clientKey <$> clients toy_heard !! 1%nat = Some (toy_key x01).
Proof. vm_compute. reflexivity. Qed.

Lemma toy_heard_live : live toy_heard 1.
Proof.
  pose proof toy_heard_key as Hk. apply fmap_Some in Hk as (rc & Hrc & Hk).
  exists rc, (mkClientSet (Some 1%nat) (Some 1%nat) [0%nat; 1%nat] []).
  split_and!; [exact Hrc|rewrite <-Hk; vm_compute; reflexivity|right; left].
Qed.

Lemma gone_announced_witness :
  ∃ targets, 1%nat ∈ targets ∧
    writes (snd (@remove toy_keys toy_disco env_capture 2%nat toy_heard [])) =
    map (λ x, (conn_of (clients toy_heard) x, gone_frame (toy_key x02) PeerGoneReasonDisconnected)) targets.
Proof.
  assert (relay_inv false toy_heard) as Hinv.
  { pose proof (toy_live 2 12 "t2" x02 eq_refl ltac:(vm_compute; reflexivity)) as Hl.
    destruct (toy_relay_ok false) as [Hri Hix]. split; [by apply route_inv|by eapply route_indexed]. }
  destruct (@gone_announced toy_keys toy_keys_laws toy_disco env_capture false 2%nat toy_heard
    (toy_rc 12 "t2" x02) (mkClientSet (Some 2%nat) (Some 2%nat) [2%nat] []) [] Hinv eq_refl
    ltac:(vm_compute; reflexivity) ltac:(left)) as [targets H].
  destruct (@remove toy_keys toy_disco env_capture 2%nat toy_heard []) as [r' tr'].
  destruct H as (Hw & _ & Hm & _). exists targets. split; [|exact Hw].
  apply Hm. split; [reflexivity|]. split_and!.
  - exact toy_heard_live.
  - discriminate.
  - apply (bool_decide_unpack _). vm_compute. reflexivity.
Defined.

Lemma closeAll_spec_witness : 2%nat ∈ fst (closeAll_locked toy_relay).
Proof.
  pose proof (closeAll_spec false toy_relay (toy_relay_ok false)) as H.
  destruct (closeAll_locked toy_relay) as [cs r']. destruct H as (_ & H & _). cbn [fst].
  apply H. exact (toy_live 2 12 "t2" x02 eq_refl ltac:(vm_compute; reflexivity)).
Defined.

Lemma uncaptured_clients_collide_witness :
  fst (closeAll_locked (snd (register (toy_key x02) 12 "" false
    (snd (register (toy_key x01) 11 "" false newSyntheticRelay))))) = [1%nat].
Proof.
  pose proof (uncaptured_clients_collide (toy_key x01) (toy_key x02) 11 12 false false
    ltac:(apply (bool_decide_unpack _); vm_compute; reflexivity)) as H.
  exact (proj2 (proj2 (proj2 H))).
Defined.
