(* ===== verification/DerpConfig.v ===== *)
(** * DERP configuration: [sidescale/derp/config.go] and [keys.go] *)

From Stdlib Require Import Init.Byte Strings.Byte Lia ZArith Ascii String.
From stdpp Require Import base option list gmap sets strings.
From S2P Require Import Prelude GoStd External Instances Adapter Persist.
Open Scope Z_scope.

Definition ServerKeySubstitute : string := "substitute".
Definition ServerKeyBorrow : string := "borrow".
Definition RelayModeRelay : string := "relay".
Definition RelayModeTerminate : string := "terminate".
Definition DupPolicyLastWriter : string := "last_writer".
Definition DupPolicyDisableFighters : string := "disable_fighters".

Record DerpConfig := mkDerpConfig {
  DerpHosts : list string;
  UpstreamOverrides : gmap string string;
  ServerKey : string;
  ServerKeypairPath : string;
  NodeIdentity : string;
  RelayMode : string;
  DupPolicy : string;
  MeshKey : string;
  CertNameSANs : list string
}.

Definition or_default (s d : string) : string := if bool_decide (s = EmptyString) then d else s.

Definition ApplyDefaults (c : DerpConfig) : DerpConfig :=
  mkDerpConfig (DerpHosts c) (UpstreamOverrides c)
    (or_default (ServerKey c) ServerKeySubstitute) (ServerKeypairPath c)
    (or_default (NodeIdentity c) IdentityPerClient)
    (or_default (RelayMode c) RelayModeRelay)
    (or_default (DupPolicy c) DupPolicyLastWriter) (MeshKey c) (CertNameSANs c).

(** [slices.Contains] *)
Definition Contains_str (l : list string) (s : string) : bool := bool_decide (s ∈ l).

Definition Validate (c : DerpConfig) : option error :=
  if (length (DerpHosts c) =? 0)%nat then Some (ErrNew "sidescale: derp requires derp_hosts")
  else if negb (Contains_str [ServerKeySubstitute; ServerKeyBorrow] (ServerKey c)) then
    Some (ErrFmt "sidescale: invalid derp server_key %q" [ServerKey c])
  else if bool_decide (ServerKey c = ServerKeyBorrow) && bool_decide (ServerKeypairPath c = EmptyString) then
    Some (ErrNew "sidescale: derp server_key=borrow requires server_keypair_path")
  else if negb (Contains_str [RelayModeRelay; RelayModeTerminate] (RelayMode c)) then
    Some (ErrFmt "sidescale: invalid derp relay_mode %q" [RelayMode c])
  else if negb (Contains_str [DupPolicyLastWriter; DupPolicyDisableFighters] (DupPolicy c)) then
    Some (ErrFmt "sidescale: invalid derp dup_policy %q" [DupPolicy c])
  else if negb (bool_decide (RelayMode c = RelayModeTerminate)) && negb (ValidIdentity (NodeIdentity c)) then
    Some (ErrFmt "sidescale: invalid derp node_identity %q" [NodeIdentity c])
  else None.

Section keys.
Context `{OS} {K : Type} `{PrivKey K}.

Definition NewNodeKeyProvider (readDir : string → result (list (string * bool))) (c : DerpConfig)
    (newKey : nat → K) : fsM (result (provider (K := K))) :=
  NewProvider readDir (NodeIdentity c) "derp node_identity" "derp node key" newKey.

Definition ProvisionServerNodeKey_cfg (c : DerpConfig) (newKey : K) : fsM (result K) :=
  ProvisionServerNodeKey (ServerKey c) (ServerKeypairPath c) newKey.
End keys.
