(* ===== verification/DerpTunnel.v ===== *)
(** * DERP tunnels: [sidescale/derp/tunnel.go], [handler.go], [shutdown.go]

    The handler's registry of live tunnels, the two logins of a relayed tunnel,
    the pumps between its ends, and the drain. A handler's state is threaded
    explicitly; connections and sectool are effects. *)

From Stdlib Require Import Init.Byte Strings.Byte Lia ZArith Ascii String.
From stdpp Require Import base option list gmap sets strings.
From S2P Require Import Prelude GoStd NetIP External Instances Adapter Persist DerpProto.
From S2P Require Import FrameConn DerpCapture DerpConfig DerpRelay.
Open Scope Z_scope.
Open Scope go_scope.

Definition derpPath : string := "/derp".
Definition derpUpgradeProto : string := "DERP".
Definition maxRetainedTunnelHosts : Z := 256.

Section tunnel.
Context `{NodeKeys} `{DerpJSON} `{Disco} `{Addr} `{URLParse} `{Reassembler} `{Bulk}.

(** ** The registry *)

(** The model keeps of [clientFr] and [upstreamF] the connection they write to. *)
Record activeTunnel := mkActiveTunnel {
  at_flowID : string;
  at_clientKey : NodePublic;
  at_forceClose : list connid;
  at_clientFr : connid;
  at_upstreamF : option connid;
  at_upstreamID : string;
  at_nodeKey : NodePrivate;
  at_upstreamPub : NodePublic;
  at_mesh : bool;
  at_host : string
}.

Record registry := mkRegistry {
  tunnels : gmap string activeTunnel;
  tunnelHosts : gmap string string;
  tunnelHostOrder : list string;
  draining : bool
}.

Definition registry0 : registry := mkRegistry ∅ ∅ [] false.

Definition retainTunnelHost (id host : string) (st : registry) : registry :=
  let '(hosts, order) :=
    match tunnelHosts st !! id with
    | Some _ => (tunnelHosts st, tunnelHostOrder st)
    | None =>
        let '(hosts, order) :=
          match tunnelHostOrder st with
          | oldest :: rest =>
              if maxRetainedTunnelHosts <=? Z.of_nat (size (tunnelHosts st))
              then (delete oldest (tunnelHosts st), rest)
              else (tunnelHosts st, tunnelHostOrder st)
          | [] => (tunnelHosts st, tunnelHostOrder st)
          end in
        (hosts, order ++ [id])
    end in
  mkRegistry (tunnels st) (<[id := host]> hosts) order (draining st).

Definition registerTunnel (id : string) (t : activeTunnel) (st : registry) : registry :=
  retainTunnelHost id (at_host t)
    (mkRegistry (<[id := t]> (tunnels st)) (tunnelHosts st) (tunnelHostOrder st) (draining st)).

Definition getTunnel (id : string) (st : registry) : option activeTunnel := tunnels st !! id.

Definition retainedTunnelHost (id : string) (st : registry) : option string := tunnelHosts st !! id.

Definition deregister (id : string) (st : registry) : registry :=
  mkRegistry (delete id (tunnels st)) (tunnelHosts st) (tunnelHostOrder st) (draining st).

Definition deregisterTunnel (at_ : activeTunnel) (st : registry) : eff registry :=
  _ ← emit (EvTornDown (at_flowID at_)); mret (deregister (at_flowID at_) st).

Definition beginDrain (st : registry) : registry :=
  mkRegistry (tunnels st) (tunnelHosts st) (tunnelHostOrder st) true.

Definition liveTunnels (st : registry) : list activeTunnel := MapValuesSlice (tunnels st).

(** ** The handler's fixed fields and an accepted stream *)

Record Handler := mkHandler {
  cfg : DerpConfig;
  name : string;
  serverKey : NodePrivate;
  nodeKey : string → result NodePrivate
}.

Record StreamConn := mkStreamConn {
  sc_conn : connid;
  StreamID : string;
  sc_Path : string;
  sc_Host : string;
  RequestFlowID : string;
  PeerAddr : string;
  sc_input : script
}.

(** ** Handshake frames *)

Definition readClientInfo (h : Handler) (fc : frameConn)
    : result (NodePublic * ClientInfo * bytes) * frameConn :=
  let '(r, fc) := ReadTypedFrame fc in
  (match r with
   | Err e => Err e
   | Ok (t, payload) =>
       if negb (bool_decide (t = FrameClientInfo)) then
         Err (ErrFmt "derp: expected client info, got %s" [FrameName t])
       else
         match OpenClientInfo (serverKey h) payload with
         | Err e => Err e
         | Ok (pub, info) =>
             let box := if NodePublicRawLen <=? len payload then from payload NodePublicRawLen else [] in
             Ok (pub, info, box)
         end
   end, fc).

Definition readUpstreamServerKey (fc : frameConn) : result NodePublic * frameConn :=
  let '(r, fc) := ReadTypedFrame fc in
  (match r with
   | Err e => Err (ErrWrap "read server key: %w" [] e)
   | Ok (t, payload) =>
       if negb (bool_decide (t = FrameServerKey)) then
         Err (ErrFmt "derp: expected server key, got %s" [FrameName t])
       else ParseServerKey payload
   end, fc).

Definition readUpstreamServerInfo (fc : frameConn) (nodeKey : NodePrivate) (serverPub : NodePublic)
    : result (ServerInfo * bytes) * frameConn :=
  let '(r, fc) := ReadTypedFrame fc in
  (match r with
   | Err e => Err (ErrWrap "read server info: %w" [] e)
   | Ok (t, payload) =>
       if negb (bool_decide (t = FrameServerInfo)) then
         Err (ErrFmt "derp: expected server info, got %s" [FrameName t])
       else match OpenServerInfo nodeKey serverPub payload with
            | Err e => Err e
            | Ok info => Ok (info, payload)
            end
   end, fc).

(** ** The upstream half *)

Definition upstreamDial (h : Handler) (host : string) : string * Z * bool :=
  let t := ResolveUpstream host (default EmptyString (UpstreamOverrides (cfg h) !! host))
             (DerpHosts (cfg h)) "https" in
  (Host t, Port t, bool_decide (Scheme t = "https"%string)).

Definition buildUpgradeRequest (host : string) : bytes := to_bytes
  ("GET " ++ derpPath ++ " HTTP/1.1" ++ CRLF ++
   "Host: " ++ host ++ CRLF ++
   "Upgrade: " ++ derpUpgradeProto ++ CRLF ++
   "Connection: Upgrade" ++ CRLF ++ CRLF)%string.

Record upstreamTunnel := mkUpstream {
  up_streamID : string;
  up_stream : connid;
  up_fr : frameConn;
  up_serverPub : NodePublic;
  up_serverInfo : ServerInfo;
  up_serverInfoBox : bytes;
  up_addr : string
}.

Context `{Env} `{Network} `{!Rand}.

Definition up_close (u : upstreamTunnel) : eff unit := ConnClose (up_stream u).

(** The login on a dialed stream. *)
Definition upstreamLogin (dialHost : string) (dialPort : Z) (streamID : string) (c : connid)
    (input : script) (nodeKey : NodePrivate) (clientInfo : ClientInfo) : eff (result upstreamTunnel) :=
  _ ←? check "write upgrade: %w" (ConnWrite c (buildUpgradeRequest dialHost));
  _ ← SetReadDeadline c true;
  '(code, status, buffered, rest) ←? mret (wrap "read upgrade response: %w" (http_ReadResponse input));
  if negb (code =? 101) then mret (Err (ErrFmt "upstream upgrade status %s" [status]))
  else
    let fc := FrameConn.prefix (newFrameConn c rest) buffered in
    let '(r, fc) := readUpstreamServerKey fc in
    serverPub ←? mret r;
    let ci := mkClientInfo ProtocolVersion (ci_MeshKey clientInfo) (ci_CanAckPings clientInfo)
                (ci_IsProber clientInfo) in
    nonce ← Nonce;
    ciPayload ←? mret (wrap "seal client info: %w" (ClientInfoPayload nonce nodeKey serverPub ci));
    _ ←? check "write client info: %w" (WriteFrame fc FrameClientInfo ciPayload);
    let '(r, fc) := readUpstreamServerInfo fc nodeKey serverPub in
    '(info, box) ←? mret r;
    _ ← SetReadDeadline c false;
    _ ← Log "info" "derp upstream connected";
    mret (Ok (mkUpstream streamID c fc serverPub info box (JoinHostPort dialHost (Itoa dialPort)))).

Definition openUpstream (h : Handler) (st : registry) (host : string) (nodeKey : NodePrivate)
    (clientInfo : ClientInfo) : eff (result upstreamTunnel) :=
  if draining st then mret (Err ErrShuttingDown)
  else
    let '(dialHost, dialPort, useTLS) := upstreamDial h host in
    r ← (λ tr, (net_Dial tr dialHost dialPort useTLS, tr ++ [EvDial dialHost dialPort useTLS]));
    match r with
    | Err e => mret (Err (ErrWrap "dial upstream: %w" [] e))
    | Ok (streamID, c, input) =>
        res ← upstreamLogin dialHost dialPort streamID c input nodeKey clientInfo;
        match res with
        | Ok u => mret (Ok u)
        | Err e => _ ← ConnClose c; mret (Err e)
        end
    end.

(** ** The tunnel envelope *)

Record envelopeInfo := mkEnvelope {
  parentFlowID : string;
  tunnelKey : string;
  clientAddr : string;
  upstreamAddr : string;
  clientPub : NodePublic;
  clientInfo : ClientInfo;
  serverInfo : option ServerInfo;
  upstreamPub : NodePublic;
  env_nodeKey : NodePublic;
  relayMode : string
}.

Definition json_header (name : string) (r : result bytes) : list wire.Header :=
  match r with Ok js => [hdr name (of_bytes js)] | Err _ => [] end.

Definition envelopeHeaders (h : Handler) (i : envelopeInfo) : list wire.Header :=
  [hdr "X-Derp-Protocol-Version" (Itoa ProtocolVersion);
   hdr "X-Derp-Transport" "http-upgrade";
   hdr "X-Derp-Relay-Mode" (relayMode i);
   hdr "X-Derp-Client-Facing-Server-Pubkey" (NodePublic_String (Public (serverKey h)));
   hdr "X-Derp-Client-Node-Pubkey" (NodePublic_String (clientPub i));
   hdr "X-Derp-Mesh" (FormatBool (negb (MeshKey_IsZero (ci_MeshKey (clientInfo i)))));
   hdr "X-Derp-Client-Addr" (clientAddr i)] ++
  json_header "X-Derp-Client-Info" (marshal_ci (clientInfo i)) ++
  (match serverInfo i with
   | Some si => json_header "X-Derp-Server-Info" (marshal_si si)
   | None => []
   end) ++
  (if bool_decide (relayMode i = RelayModeRelay) then
     [hdr "X-Derp-Server-Facing-Server-Pubkey" (NodePublic_String (upstreamPub i));
      hdr "X-Derp-Sidecar-Node-Pubkey" (NodePublic_String (env_nodeKey i));
      hdr "X-Derp-Upstream-Addr" (upstreamAddr i)]
   else []).

Definition emitTunnelEnvelope (h : Handler) (i : envelopeInfo) : eff (result (string * bool)) :=
  now ← Now;
  PushFlow (wire.mkFlow tunnelProtocolTag DirBidirectional (parentFlowID i)
    (Some (wire.mkFlowMessage "TUNNEL" ("/" ++ name h ++ "/derp/tunnel/" ++ tunnelKey i)%string "" 0
             (envelopeHeaders h i) [] None None))
    None [] now None).

(** ** The pumps *)

(** One round of [pumpFrames]: [None] when the pump has ended. *)
Definition pump_once (tunnelID dir : string) (src dst : frameConn) : eff (option frameConn) :=
  let '(r, src) := ReadFrame src in
  match r with
  | Err _ => mret None
  | Ok frame =>
      res ← captureFrame tunnelID frame dir;
      out ← (match res with
             | Ok out => mret out
             | Err e => _ ← tunnelError tunnelID "capture frame" e; mret frame
             end);
      w ← Write dst out;
      mret (match w with Some _ => None | None => Some src end)
  end.

(** The whole pump, with fuel; [false] would be running out of it. *)
Fixpoint pumpFrames (fuel : nat) (tunnelID dir : string) (src dst : frameConn) : eff bool :=
  match fuel with
  | O => mret false
  | S fuel =>
      r ← pump_once tunnelID dir src dst;
      match r with
      | None => mret true
      | Some src => pumpFrames fuel tunnelID dir src dst
      end
  end.

(** Both pumps, interleaved by the scheduler, until the first one ends. *)
Fixpoint bridge (fuel : nat) (tunnelID : string) (up client : frameConn) : eff bool :=
  match fuel with
  | O => mret false
  | S fuel =>
      first ← (λ tr, (net_sched tr, tr));
      if first : bool then
        r ← pump_once tunnelID DirServerToClient up client;
        match r with None => mret true | Some up => bridge fuel tunnelID up client end
      else
        r ← pump_once tunnelID DirClientToServer client up;
        match r with None => mret true | Some client => bridge fuel tunnelID up client end
  end.

(** Rounds that suffice: every round but the last consumes a frame. *)
Definition bridge_fuel (up client : frameConn) : nat :=
  S (length (pending up) + length (pending client)).

(** [if js, err := json.Marshal(info); err == nil { capture }] *)
Definition captureLogin (tunnelID : string) (t : FrameType) (pub : NodePublic) (box : bytes)
    (js : result bytes) (dir : string) : eff unit :=
  match js with
  | Ok js => _ ← captureHandshakeFrame tunnelID t pub box js dir; mret tt
  | Err _ => mret tt
  end.

(** ** [runTunnel] *)

(** From the established upstream on: what is deferred runs in the code's order. *)
Definition tunnelBody (h : Handler) (clientPub : NodePublic) (ci : ClientInfo)
    (clientBox : bytes) (clientFr : frameConn) (up : upstreamTunnel) (sc : StreamConn)
    (tunnelID : string) : eff unit :=
  nonce ← Nonce;
  match ServerInfoPayload nonce (serverKey h) clientPub (up_serverInfo up) with
  | Err e => tunnelError (StreamID sc) "seal server info" e
  | Ok siPayload =>
      w ← WriteFrame clientFr FrameServerInfo siPayload;
      match w with
      | Some e => tunnelError (StreamID sc) "write server info" e
      | None =>
          _ ← captureLogin tunnelID FrameClientInfo clientPub clientBox (marshal_ci ci) DirClientToServer;
          _ ← captureLogin tunnelID FrameServerInfo (up_serverPub up) (up_serverInfoBox up)
                (marshal_si (up_serverInfo up)) DirServerToClient;
          _ ← Log "info" "derp tunnel established";
          _ ← bridge (bridge_fuel (up_fr up) clientFr) tunnelID (up_fr up) clientFr;
          mret tt
      end
  end.

(** The composite literal of [runTunnel]: it does not set [upstreamF]. *)
Definition newActiveTunnel (sc : StreamConn) (clientPub : NodePublic) (ci : ClientInfo)
    (clientFr : frameConn) (nk : NodePrivate) (up : upstreamTunnel) (tunnelID : string) : activeTunnel :=
  mkActiveTunnel tunnelID clientPub [sc_conn sc; up_stream up] (fc_conn clientFr) None
    (up_streamID up) nk (up_serverPub up) (negb (MeshKey_IsZero (ci_MeshKey ci))) (sc_Host sc).

Definition tunnelWithUpstream (h : Handler) (sc : StreamConn) (clientPub : NodePublic)
    (ci : ClientInfo) (clientBox : bytes) (clientFr : frameConn) (nk : NodePrivate)
    (up : upstreamTunnel) (st : registry) : eff registry :=
  env ← emitTunnelEnvelope h (mkEnvelope (RequestFlowID sc) (StreamID sc) (PeerAddr sc) (up_addr up)
          clientPub ci (Some (up_serverInfo up)) (up_serverPub up) (Public nk) RelayModeRelay);
  match env with
  | Err e => _ ← tunnelError (StreamID sc) "tunnel envelope" e; mret st
  | Ok (tunnelID, captured) =>
      let body := tunnelBody h clientPub ci clientBox clientFr up sc tunnelID in
      if captured : bool then
        let at_ := newActiveTunnel sc clientPub ci clientFr nk up tunnelID in
        let st := registerTunnel tunnelID at_ st in
        _ ← deferred (CompleteFlow tunnelID) body;
        deregisterTunnel at_ st
      else _ ← body; mret st
  end.

Definition tunnelSession (h : Handler) (sc : StreamConn) (st : registry) : eff registry :=
  let clientFr := newFrameConn (sc_conn sc) (sc_input sc) in
  _ ← SetReadDeadline (sc_conn sc) true;
  w ← WriteFrame clientFr FrameServerKey (ServerKeyPayload (Public (serverKey h)));
  match w with
  | Some e => _ ← tunnelError (StreamID sc) "write server key" e; mret st
  | None =>
      let '(r, clientFr) := readClientInfo h clientFr in
      match r with
      | Err e => _ ← tunnelError (StreamID sc) "client info" e; mret st
      | Ok (clientPub, ci, clientBox) =>
          _ ← SetReadDeadline (sc_conn sc) false;
          match nodeKey h (NodePublic_String clientPub) with
          | Err e => _ ← tunnelError (StreamID sc) "node identity" e; mret st
          | Ok nk =>
              u ← openUpstream h st (sc_Host sc) nk ci;
              match u with
              | Err e => _ ← tunnelError (StreamID sc) "open upstream" e; mret st
              | Ok up => deferred (up_close up)
                           (tunnelWithUpstream h sc clientPub ci clientBox clientFr nk up st)
              end
          end
      end
  end.

Definition runTunnel (h : Handler) (sc : StreamConn) (st : registry) : eff registry :=
  deferred (ConnClose (sc_conn sc)) (tunnelSession h sc st).

(** ** [runTerminate] *)

Definition disableFighters (h : Handler) : bool := bool_decide (DupPolicy (cfg h) = DupPolicyDisableFighters).

(** From the registered client to its departure. *)
Definition terminateJoined (h : Handler) (tunnelID : string) (clientPub : NodePublic) (ci : ClientInfo)
    (clientFr : frameConn) (r : syntheticRelay) : eff syntheticRelay :=
  let '(c, r) := register clientPub (fc_conn clientFr) tunnelID
                   (negb (MeshKey_IsZero (ci_MeshKey ci))) r in
  _ ← Log "info" "derp synthetic client joined";
  o ← terminateLoop (S (length (pending clientFr))) (disableFighters h) tunnelID c clientFr r;
  remove c (match o with Some (r, _) => r | None => r end).

(** What follows the envelope, under the deferred completion. *)
Definition terminateBody (h : Handler) (sc : StreamConn) (tunnelID : string) (clientPub : NodePublic)
    (ci : ClientInfo) (clientBox siPayload : bytes) (si : ServerInfo) (clientFr : frameConn)
    (r : syntheticRelay) : eff syntheticRelay :=
  w ← WriteFrame clientFr FrameServerInfo siPayload;
  match w with
  | Some e => _ ← tunnelError (StreamID sc) "write server info" e; mret r
  | None =>
      _ ← captureLogin tunnelID FrameClientInfo clientPub clientBox (marshal_ci ci) DirClientToServer;
      _ ← captureLogin tunnelID FrameServerInfo (Public (serverKey h)) siPayload (marshal_si si)
            DirServerToClient;
      terminateJoined h tunnelID clientPub ci clientFr r
  end.

Definition terminateLoggedIn (h : Handler) (sc : StreamConn) (clientPub : NodePublic) (ci : ClientInfo)
    (clientBox : bytes) (clientFr : frameConn) (r : syntheticRelay) : eff syntheticRelay :=
  let si := mkServerInfo ProtocolVersion 0 0 in
  nonce ← Nonce;
  match ServerInfoPayload nonce (serverKey h) clientPub si with
  | Err e => _ ← tunnelError (StreamID sc) "seal server info" e; mret r
  | Ok siPayload =>
      env ← emitTunnelEnvelope h (mkEnvelope "" (StreamID sc) (PeerAddr sc) "" clientPub ci (Some si)
              NodePublic_zero NodePublic_zero RelayModeTerminate);
      match env with
      | Err e => _ ← tunnelError (StreamID sc) "tunnel envelope" e; mret r
      | Ok (tunnelID, captured) =>
          let body := terminateBody h sc tunnelID clientPub ci clientBox siPayload si clientFr r in
          if captured : bool then deferred (CompleteFlow tunnelID) body else body
      end
  end.

Definition terminateSession (h : Handler) (sc : StreamConn) (r : syntheticRelay) : eff syntheticRelay :=
  _ ← SetReadDeadline (sc_conn sc) true;
  match http_ReadRequest (sc_input sc) with
  | Err e => _ ← tunnelError (StreamID sc) "read derp upgrade" e; mret r
  | Ok (path, buffered, rest) =>
      if negb (bool_decide (path = derpPath)) then
        _ ← tunnelError (StreamID sc) "derp upgrade path" (ErrFmt "unexpected path %q" [path]); mret r
      else
        w ← ConnWrite (sc_conn sc) upgradeResponse;
        match w with
        | Some e => _ ← tunnelError (StreamID sc) "write 101" e; mret r
        | None =>
            let clientFr := FrameConn.prefix (newFrameConn (sc_conn sc) rest) buffered in
            w ← WriteFrame clientFr FrameServerKey (ServerKeyPayload (Public (serverKey h)));
            match w with
            | Some e => _ ← tunnelError (StreamID sc) "write server key" e; mret r
            | None =>
                let '(res, clientFr) := readClientInfo h clientFr in
                match res with
                | Err e => _ ← tunnelError (StreamID sc) "client info" e; mret r
                | Ok (clientPub, ci, clientBox) =>
                    _ ← SetReadDeadline (sc_conn sc) false;
                    terminateLoggedIn h sc clientPub ci clientBox clientFr r
                end
            end
        end
  end.

Definition runTerminate (h : Handler) (sc : StreamConn) (r : syntheticRelay) : eff syntheticRelay :=
  deferred (ConnClose (sc_conn sc)) (terminateSession h sc r).

(** ** [ServeStream] and the drain *)

(** The mutable state of a handler; [relay] is nil under relay mode. *)
Record hstate := mkHstate { reg : registry; relay : option syntheticRelay }.

Definition NewHandler (c : DerpConfig) : hstate :=
  mkHstate registry0 (if bool_decide (RelayMode c = RelayModeTerminate)
                      then Some newSyntheticRelay else None).

Definition Draining (st : hstate) : bool := draining (reg st).

Definition ServeStream (h : Handler) (sc : StreamConn) (st : hstate) : eff hstate :=
  if Draining st then _ ← ConnClose (sc_conn sc); mret st
  else if bool_decide (sc_Path sc = derpPath) then
    rg ← runTunnel h sc (reg st); mret (mkHstate rg (relay st))
  else
    match relay st with
    | Some r =>
        if bool_decide (sc_Path sc = EmptyString) && bool_decide (RelayMode (cfg h) = RelayModeTerminate)
        then r ← runTerminate h sc r; mret (mkHstate (reg st) (Some r))
        else _ ← ConnClose (sc_conn sc); mret st
    | None => _ ← ConnClose (sc_conn sc); mret st
    end.

Fixpoint closeAllConns (l : list connid) : eff unit :=
  match l with
  | [] => mret tt
  | c :: l => _ ← ConnClose c; closeAllConns l
  end.

Fixpoint forceCloseAll (l : list activeTunnel) : eff unit :=
  match l with
  | [] => mret tt
  | t :: l => _ ← closeAllConns (at_forceClose t); forceCloseAll l
  end.

(** [inTime] says which of the awaited tunnels signal [tornDown] before the
    drain window closes. *)
Definition Shutdown (inTime : activeTunnel → bool) (st : hstate) : eff (Z * hstate) :=
  let rg := beginDrain (reg st) in
  let live := liveTunnels rg in
  _ ← forceCloseAll live;
  rl ← (match relay st with
        | Some r => r ← closeAll r; mret (Some r)
        | None => mret None
        end);
  mret (Z.of_nat (length (List.filter (λ t, negb (inTime t)) live)), mkHstate rg rl).
End tunnel.
