(* ===== verification/DerpTunnelSpec.v ===== *)
(** * DERP tunnels: properties

    The bounded record of tunnel hosts, the pumps (transparency, termination),
    and the life cycle of a tunnel: what is completed, deregistered and closed on
    every path. *)

From Stdlib Require Import Init.Byte Strings.Byte Lia ZArith Ascii String.
From stdpp Require Import base option list fin_maps gmap sets strings.
From S2P Require Import Prelude GoStd NetIP External Instances Adapter Persist DerpProto.
From S2P Require Import FrameConn DerpCapture DerpConfig DerpRelay DerpRelaySpec DerpTunnel.
Open Scope Z_scope.
Open Scope go_scope.

(** ** The retained hosts *)

Section hosts.
Context `{NodeKeys}.

Record hosts_inv (st : registry) : Prop := {
  hi_nodup : NoDup (tunnelHostOrder st);
  hi_dom id : is_Some (tunnelHosts st !! id) ↔ id ∈ tunnelHostOrder st;
  hi_size : size (tunnelHosts st) = length (tunnelHostOrder st);
  hi_bound : Z.of_nat (length (tunnelHostOrder st)) ≤ maxRetainedTunnelHosts
}.

Lemma hosts_inv0 : hosts_inv registry0.
Proof.
  split; cbn; [apply NoDup_nil_2| |done|done]. intros id.
  rewrite lookup_empty, elem_of_nil. split; [by intros [? ?]|done].
Qed.

(** Dropping the oldest id and its host. *)
Definition evict (st : registry) : gmap string string * list string :=
  match tunnelHostOrder st with
  | oldest :: rest =>
      if maxRetainedTunnelHosts <=? Z.of_nat (length (tunnelHostOrder st))
      then (delete oldest (tunnelHosts st), rest)
      else (tunnelHosts st, tunnelHostOrder st)
  | [] => (tunnelHosts st, tunnelHostOrder st)
  end.

Lemma evict_spec st :
  hosts_inv st →
  let '(hosts, order) := evict st in
  order = drop (S (length (tunnelHostOrder st)) - 256) (tunnelHostOrder st) ∧
  hosts_inv (mkRegistry (tunnels st) hosts order (draining st)) ∧
  Z.of_nat (length order) < maxRetainedTunnelHosts ∧
  ∀ x, hosts !! x = if bool_decide (x ∈ order) then tunnelHosts st !! x else None.
Proof.
  intros [Hnd Hdom Hsz Hb]. unfold evict, maxRetainedTunnelHosts in *.
  assert (∀ x, x ∉ tunnelHostOrder st → tunnelHosts st !! x = None) as Hout.
  { intros x Hx. apply eq_None_not_Some. by rewrite Hdom. }
  destruct (tunnelHostOrder st) as [|oldest rest] eqn:Eo; cbn [length] in *.
  - split_and!; [done|by split; cbn; rewrite ?Eo|done|]. intros x.
    rewrite bool_decide_false by apply not_elem_of_nil. apply Hout, not_elem_of_nil.
  - destruct (Z.leb_spec 256 (Z.of_nat (S (length rest)))).
    + replace (S (S (length rest)) - 256)%nat with 1%nat by lia. cbn [drop]. rewrite drop_0.
      apply NoDup_cons in Hnd as [Hni Hnd].
      assert (∀ x, delete oldest (tunnelHosts st) !! x
        = if bool_decide (x ∈ rest) then tunnelHosts st !! x else None) as Hl.
      { intros x. case_bool_decide as Hx.
        - rewrite lookup_delete_ne; [done|]. by intros ->.
        - apply lookup_delete_None. destruct (decide (oldest = x)); [by left|right].
          apply Hout. rewrite elem_of_cons. naive_solver. }
      split_and!; [done| |lia|done]. split; cbn; [done| | |unfold maxRetainedTunnelHosts; lia].
      * intros id. rewrite Hl. case_bool_decide as Hx; [|split; [by intros [? ?]|done]].
        rewrite Hdom, elem_of_cons. tauto.
      * rewrite map_size_delete_Some; [lia|]. apply Hdom. by left.
    + replace (S (S (length rest)) - 256)%nat with 0%nat by lia. cbn [drop].
      split_and!; [done|by split; cbn; rewrite ?Eo|cbn [length]; lia|]. intros x. case_bool_decide as Hx; [done|auto].
Qed.

(** A new id: the oldest one makes room when the record is full. *)
Lemma retain_new id host st :
  hosts_inv st → tunnelHosts st !! id = None →
  let st' := retainTunnelHost id host st in
  let kept := drop (S (length (tunnelHostOrder st)) - 256) (tunnelHostOrder st) in
  tunnelHostOrder st' = kept ++ [id] ∧
  (∀ x, tunnelHosts st' !! x = if bool_decide (x = id) then Some host
                               else if bool_decide (x ∈ kept) then tunnelHosts st !! x else None) ∧
  hosts_inv st'.
Proof.
  intros Hinv Hnone. cbv zeta.
  assert (retainTunnelHost id host st = let '(hosts, order) := evict st in
    mkRegistry (tunnels st) (<[id := host]> hosts) (order ++ [id]) (draining st)) as ->.
  { unfold retainTunnelHost, evict. rewrite Hnone, (hi_size _ Hinv).
    destruct (tunnelHostOrder st); [done|]. by destruct (_ <=? _). }
  pose proof (evict_spec st Hinv) as He. destruct (evict st) as [hosts order].
  destruct He as (-> & [Hnd Hdom Hsz _] & Hlt & Hl). cbn in *. set (kept := drop _ _) in *.
  assert (hosts !! id = None) as Hid.
  { rewrite Hl. by case_bool_decide. }
  assert (id ∉ kept) as Hni by (rewrite <-Hdom, Hid; by intros [? ?]).
  split_and!; [done| |].
  - intros x. case_bool_decide as Hx; [subst; by rewrite lookup_insert_eq|].
    by rewrite lookup_insert_ne by done.
  - split; cbn.
    + apply NoDup_app. split_and!; [done| |apply NoDup_singleton].
      by intros x Hx ->%list_elem_of_singleton.
    + intros x. rewrite elem_of_app, list_elem_of_singleton, <-Hdom.
      destruct (decide (x = id)) as [->|Hne].
      * rewrite lookup_insert_eq. split; [by right|by eexists].
      * rewrite lookup_insert_ne by done. naive_solver.
    + rewrite map_size_insert_None, length_app by done. cbn. lia.
    + rewrite length_app. unfold maxRetainedTunnelHosts in *. cbn. lia.
Qed.

(** A known id keeps its place; only its host is updated. *)
Lemma retain_known id host h0 st :
  hosts_inv st → tunnelHosts st !! id = Some h0 →
  let st' := retainTunnelHost id host st in
  tunnelHostOrder st' = tunnelHostOrder st ∧ tunnelHosts st' = <[id := host]> (tunnelHosts st) ∧
  hosts_inv st'.
Proof.
  intros [Hnd Hdom Hsz Hb] Hs. cbv zeta. unfold retainTunnelHost. rewrite Hs. cbn.
  split_and!; [done..|]. split; cbn; [done| | |done].
  - intros x. destruct (decide (x = id)) as [->|]; [rewrite lookup_insert_eq, <-Hdom, Hs|];
      [by split; intros; eexists|by rewrite lookup_insert_ne].
  - rewrite map_size_insert_Some; [done|by eexists].
Qed.

Definition register_all (regs : list (string * activeTunnel)) (st : registry) : registry :=
  foldl (λ st r, registerTunnel (fst r) (snd r) st) st regs.

Lemma register_hosts id t st :
  tunnelHostOrder (registerTunnel id t st) = tunnelHostOrder (retainTunnelHost id (at_host t) st) ∧
  tunnelHosts (registerTunnel id t st) = tunnelHosts (retainTunnelHost id (at_host t) st).
Proof.
  unfold registerTunnel, retainTunnelHost. cbn.
  destruct (tunnelHosts st !! id); [done|]. destruct (tunnelHostOrder st); [done|].
  by destruct (_ <=? _).
Qed.

Lemma tunnels_register id t st : tunnels (registerTunnel id t st) = <[id := t]> (tunnels st).
Proof.
  unfold registerTunnel, retainTunnelHost. cbn.
  destruct (tunnelHosts st !! id); [done|]. destruct (tunnelHostOrder st); [done|].
  by destruct (_ <=? _).
Qed.

Lemma hosts_inv_ext st st' :
  tunnelHostOrder st' = tunnelHostOrder st → tunnelHosts st' = tunnelHosts st →
  hosts_inv st → hosts_inv st'.
Proof. intros Ho Hh [? ? ? ?]. by split; rewrite ?Ho, ?Hh. Qed.

Lemma register_all_spec (regs : list (string * activeTunnel)) :
  NoDup regs.*1 →
  let st := register_all regs registry0 in
  hosts_inv st ∧ tunnelHostOrder st = drop (length regs - 256) regs.*1 ∧
  ∀ id t, (id, t) ∈ drop (length regs - 256) regs → tunnelHosts st !! id = Some (at_host t).
Proof.
  induction regs as [|[id t] regs IH] using rev_ind; cbv zeta.
  { intros _. split; [apply hosts_inv0|]. split; [done|]. by intros id t ?%not_elem_of_nil. }
  rewrite fmap_app. cbn. intros (Hnd & Hni & _)%NoDup_app. destruct (IH Hnd) as (Hinv & Ho & Hh).
  unfold register_all. rewrite foldl_app. cbn. fold (register_all regs registry0).
  set (st := register_all regs registry0) in *.
  assert (id ∉ regs.*1) as Hid by (intros Hin; apply (Hni id Hin); by left).
  assert (tunnelHosts st !! id = None) as Hnone.
  { apply eq_None_not_Some. rewrite (hi_dom _ Hinv), Ho. intros Hin. apply Hid.
    rewrite <-(take_drop (length regs - 256) regs.*1). apply elem_of_app. by right. }
  destruct (retain_new id (at_host t) st Hinv Hnone) as (Ho' & Hl' & Hinv').
  destruct (register_hosts id t st) as [Eo Eh].
  assert (drop (S (length (tunnelHostOrder st)) - 256) (tunnelHostOrder st)
    = drop (S (length regs) - 256) regs.*1) as Hkept.
  { rewrite Ho, length_drop, length_fmap, drop_drop. f_equal. lia. }
  rewrite Hkept in Ho', Hl'.
  split; [by eapply hosts_inv_ext|]. rewrite Eo, Eh. split.
  - rewrite Ho', length_app. cbn. rewrite Nat.add_1_r, drop_app_le; [done|]. rewrite length_fmap. lia.
  - intros x tx. rewrite length_app. cbn. rewrite Nat.add_1_r, drop_app_le by lia.
    rewrite elem_of_app, list_elem_of_singleton, Hl'. intros [Hin|[= -> ->]].
    + assert (x ∈ drop (S (length regs) - 256) regs.*1) as Hx.
      { rewrite <-fmap_drop. apply list_elem_of_fmap. by exists (x, tx). }
      rewrite bool_decide_false, bool_decide_true by
        (try done; intros ->; apply Hid; rewrite <-(take_drop (S (length regs) - 256) regs.*1);
         apply elem_of_app; by right).
      apply Hh. replace (S (length regs) - 256)%nat with
        ((length regs - 256) + (S (length regs) - 256 - (length regs - 256)))%nat in Hin by lia.
      rewrite <-drop_drop in Hin. rewrite <-(take_drop (S (length regs) - 256 - (length regs - 256))
        (drop (length regs - 256) regs)). apply elem_of_app. by right.
    + by rewrite bool_decide_true.
Qed.
End hosts.

(** ** The pumps *)

Section pump.
Context `{NodeKeysLaws} `{Disco} `{ReassemblerLaws} `{Env}.

(** What may leave the pump for a frame that entered it. *)
Definition forwarded (dir : string) (f : FrameType * bytes) (out : bytes) : Prop :=
  out = EncodeFrame (fst f) (snd f) ∨
  (fst f = FrameHealth ∧ snd f ≠ [] ∧ ∃ tr body fired,
     env_ApplyBody tr (snd f) (bodyRuleType dir) = (body, fired) ∧ fired ≠ [] ∧
     out = EncodeFrame FrameHealth body).

(** A round on a frame that can be written: it is captured once and one frame
    leaves; a failed capture sends the frame as it came. *)
Lemma pump_once_frame tunnelID dir src dst t p src' tr :
  ReadFrame src = (Ok (EncodeFrame t p), src') →
  (∀ tr b, env_Write tr (fc_conn dst) b = None) →
  ∃ out evs flow, pump_once tunnelID dir src dst tr = (Some src', tr ++ evs) ∧
    forwarded dir (t, p) out ∧ writes evs = [(fc_conn dst, out)] ∧ pushes evs = [flow] ∧
    wire.ParentFlowID flow = tunnelID.
Proof.
  intros Hr Hw. destruct (FrameHeader_typed t p) as [n Hh].
  pose proof (captureFrame_run tunnelID (EncodeFrame t p) dir tr t n Hh) as Hrun. cbv zeta in Hrun.
  rewrite FramePayload_encode in Hrun. cbn [default] in Hrun. unfold id in Hrun.
  destruct (env_ApplyBody tr p (bodyRuleType dir)) as [nb fired] eqn:Ea.
  set (flow := setMessage _ _ _) in Hrun.
  assert (wire.ParentFlowID flow = tunnelID) as Hpar.
  { unfold flow, setMessage. by destruct (bool_decide _). }
  unfold pump_once, mbind, eff_bind. rewrite Hr, Hrun.
  unfold mret, eff_ret, tunnelError, Log, emit, Write, ConnWrite.
  destruct (env_PushFlow tr flow) as [x|e]; rewrite Hw.
  - eexists _, [EvPush flow; EvWrite (fc_conn dst) _], flow. split; [by rewrite <-app_assoc|].
    split_and!; [|done..]. destruct (rewrites t p fired) eqn:Er; [|by left].
    right. unfold rewrites in Er. rewrite !andb_true_iff, bool_decide_eq_true in Er.
    destruct Er as [[-> Hp] Hf]. cbn. split_and!; [done|by intros ->|].
    exists tr, nb, fired. split_and!; [done| |done]. by intros ->.
  - eexists (EncodeFrame t p), [EvPush flow; EvLog _ _; EvWrite (fc_conn dst) _], flow.
    split; [rewrite <-!app_assoc; reflexivity|]. split_and!; [by left|done..].
Qed.

Lemma pump_frames_spec fs tunnelID dir src dst tail fuel tr :
  Forall frame_ok fs → fc_frameErr src = None → script_clean (fc_input src) →
  pending src = encode_all fs ++ tail → SplitFrame tail = Ok (0, false) →
  (∀ tr b, env_Write tr (fc_conn dst) b = None) → (length fs < fuel)%nat →
  ∃ outs, let '(done_, tr') := pumpFrames fuel tunnelID dir src dst tr in
    done_ = true ∧ writes tr' = writes tr ++ map (pair (fc_conn dst)) outs ∧
    Forall2 (forwarded dir) fs outs.
Proof.
  intros Hok. revert fuel src tr. induction Hok as [|[t p] fs Hp Hok IH]; intros fuel src tr Hf Hc Hpend Htail Hw Hfuel.
  - exists []. destruct fuel as [|fuel]; [lia|]. cbn [pumpFrames]. unfold mbind, eff_bind, pump_once.
    assert (∃ e fc, ReadFrame src = (Err e, fc)) as (e & fc & ->).
    { unfold ReadFrame. rewrite Hf. apply (read_loop_waits _ _ _ tail); done. }
    unfold mret, eff_ret. rewrite app_nil_r. split_and!; [done|done|constructor].
  - destruct fuel as [|fuel]; [cbn in Hfuel; lia|]. cbn [pumpFrames]. unfold mbind, eff_bind.
    destruct (read_loop_next (fc_conn src) (fc_re src) (fc_input src) (EncodeFrame t p)
      (encode_all fs ++ tail) (is_frame_encode _ _ Hp) Hc) as (re' & input' & Hr & Hc' & HR & _).
    { unfold pending in Hpend. rewrite Hpend. unfold encode_all. cbn [map concat fst snd].
      by rewrite <-app_assoc. }
    assert (ReadFrame src = (Ok (EncodeFrame t p), mkFrameConn (fc_conn src) re' None input')) as Hrf.
    { unfold ReadFrame. by rewrite Hf. }
    destruct (pump_once_frame tunnelID dir src dst t p _ tr Hrf Hw)
      as (out & evs & flow & -> & Hfw & Hwr & _).
    destruct (IH fuel (mkFrameConn (fc_conn src) re' None input') (tr ++ evs)) as [outs Ho];
      [done|done|done|done|done|cbn in Hfuel; lia|].
    exists (out :: outs). destruct (pumpFrames fuel tunnelID dir _ dst (tr ++ evs)) as [d tr'].
    destruct Ho as (-> & -> & Hall). split_and!; [done| |by constructor].
    rewrite writes_app, Hwr, <-app_assoc. done.
Qed.

(** *** The bridge always ends *)

Lemma pump_once_shrinks tunnelID dir src dst tr src' tr' :
  conn_ok src → pump_once tunnelID dir src dst tr = (Some src', tr') →
  conn_ok src' ∧ (length (pending src') < length (pending src))%nat.
Proof.
  intros Hinv. unfold pump_once. pose proof (ReadFrame_post src Hinv) as Hp.
  destruct (ReadFrame src) as [[f|e] fc]; [|by intros [=]]. destruct Hp as (Hp & Hi & Hok).
  specialize (Hok f eq_refl). apply SplitFrame_Ok_inv in Hok as ((Hlen & _) & _).
  unfold mbind, eff_bind, mret, eff_ret. destruct (captureFrame _ _ _ _) as [r tr1].
  destruct r; unfold Write, ConnWrite, tunnelError, Log, emit;
    destruct (env_Write _ _ _); intros [= <- <-]; (split; [done|]);
    rewrite Hp; cbn [frame_of]; rewrite length_app; lia.
Qed.

Lemma bridge_ends `{Network} fuel tunnelID up client tr :
  conn_ok up → conn_ok client →
  (length (pending up) + length (pending client) < fuel)%nat →
  fst (bridge fuel tunnelID up client tr) = true.
Proof.
  revert up client tr. induction fuel as [|fuel IH]; intros up client tr Hu Hc Hf; [lia|].
  cbn [bridge]. unfold mbind, eff_bind. destruct (net_sched tr).
  - destruct (pump_once tunnelID DirServerToClient up client tr) as [[up'|] tr'] eqn:E; [|done].
    apply pump_once_shrinks in E as [? ?]; [|done]. apply IH; [done|done|lia].
  - destruct (pump_once tunnelID DirClientToServer client up tr) as [[c'|] tr'] eqn:E; [|done].
    apply pump_once_shrinks in E as [? ?]; [|done]. apply IH; [done|done|lia].
Qed.
End pump.

(** ** The life cycle: dials, logins, envelopes, completions, teardowns, closes

    Every event is read with what the outside answered at that point of the
    history. *)

Inductive life_event :=
  | LDial (host : string) (port : Z) (tls : bool) (answer : result (string * connid * script))
  | LConnected
  | LJoined
  | LEnvelope (f : wire.Flow) (answer : result (string * bool))
  | LComplete (id : string)
  | LTornDown (id : string)
  | LClose (c : connid).

Section life.
Context `{Env} `{Network}.

(** The log lines of a login and of a joined client are theirs alone. *)
Definition life1 (tr : list event) (e : event) : list life_event :=
  match e with
  | EvDial host port tls => [LDial host port tls (net_Dial tr host port tls)]
  | EvLog _ msg =>
      if String.eqb msg "derp upstream connected" then [LConnected]
      else if String.eqb msg "derp synthetic client joined" then [LJoined] else []
  | EvPush f =>
      if String.eqb (wire.ProtocolTag f) tunnelProtocolTag then [LEnvelope f (env_PushFlow tr f)] else []
  | EvComplete id => [LComplete id]
  | EvTornDown id => [LTornDown id]
  | EvClose c => [LClose c]
  | _ => []
  end.

(** The life-cycle events of [new], which follows [tr]. *)
Fixpoint life (tr new : list event) : list life_event :=
  match new with [] => [] | e :: new => life1 tr e ++ life (tr ++ [e]) new end.

Lemma life_app tr n1 n2 : life tr (n1 ++ n2) = life tr n1 ++ life (tr ++ n1) n2.
Proof.
  revert tr. induction n1 as [|e n1 IH]; intros tr; cbn [app life]; [by rewrite app_nil_r|].
  by rewrite IH, <-!app_assoc.
Qed.

(** [m] adds [evs] to the life-cycle events. *)
Definition lives {A} (m : eff A) (tr : list event) (evs : list life_event) : Prop :=
  ∃ new, snd (m tr) = tr ++ new ∧ life tr new = evs.

(** A computation without life-cycle events. *)
Definition quiet {A} (m : eff A) : Prop := ∀ tr, lives m tr [].

Lemma lives_ret {A} (a : A) tr : lives (mret a : eff A) tr [].
Proof. exists []. by rewrite app_nil_r. Qed.

Lemma lives_bind {A B} (m : eff A) (k : A → eff B) tr e1 e2 :
  lives m tr e1 → lives (k (fst (m tr))) (snd (m tr)) e2 → lives (m ≫= k) tr (e1 ++ e2).
Proof.
  unfold lives, mbind, eff_bind. destruct (m tr) as [a tr1]. cbn [fst snd].
  intros (n1 & -> & <-) (n2 & H2 & <-). exists (n1 ++ n2). by rewrite H2, app_assoc, life_app.
Qed.

Lemma lives_emit e tr : lives (emit e) tr (life1 tr e).
Proof. exists [e]. cbn. by rewrite app_nil_r. Qed.

Lemma quiet_ret {A} (a : A) : quiet (mret a : eff A).
Proof. intros tr. apply lives_ret. Qed.

Lemma quiet_bind {A B} (m : eff A) (k : A → eff B) :
  quiet m → (∀ a, quiet (k a)) → quiet (m ≫= k).
Proof. intros Hm Hk tr. apply (lives_bind m k tr [] []); [apply Hm|apply Hk]. Qed.

Lemma quiet_read {A} (f : list event → A) : quiet (λ tr, (f tr, tr)).
Proof. intros tr. exists []. by rewrite app_nil_r. Qed.

Lemma quiet_write {A} (f : list event → A) (e : list event → event) :
  (∀ tr, life1 tr (e tr) = []) → quiet (λ tr, (f tr, tr ++ [e tr])).
Proof. intros He tr. exists [e tr]. split; [done|]. cbn. by rewrite He. Qed.

Lemma quiet_ebind {A B} (m : eff (result A)) (k : A → eff (result B)) :
  quiet m → (∀ a, quiet (k a)) → quiet (ebind m k).
Proof. intros Hm Hk. apply quiet_bind; [done|]. intros [a|e]; [apply Hk|apply quiet_ret]. Qed.

Lemma quiet_check f m : quiet m → quiet (check f m).
Proof. intros. apply quiet_bind; [done|]. intros. apply quiet_ret. Qed.
End life.

Create HintDb quiet.
#[export] Hint Resolve quiet_ret quiet_read quiet_check : quiet.
#[export] Hint Extern 1 (quiet (λ _, (_, _ ++ [_]))) => (apply quiet_write; done) : quiet.

(** Structural proofs that a computation is quiet. *)
Ltac quiet_step :=
  cbv beta zeta;
  lazymatch goal with
  | |- ∀ _, _ => intros
  | |- quiet (_ ≫= _) => apply quiet_bind
  | |- quiet (ebind _ _) => apply quiet_ebind
  | |- quiet (match ?x with _ => _ end) => destruct x
  | |- quiet _ => solve [auto with quiet nocore]
  end.
Ltac solve_quiet := repeat quiet_step.

Lemma setMessage_tag f dir m : wire.ProtocolTag (setMessage f dir m) = wire.ProtocolTag f.
Proof. unfold setMessage. by case_bool_decide. Qed.

Section quiet.
Context `{NodeKeys} `{DerpJSON} `{Disco} `{Addr} `{URLParse} `{Reassembler} `{Env} `{Network} `{!Rand}.

Lemma quiet_Log l m :
  String.eqb m "derp upstream connected" = false → String.eqb m "derp synthetic client joined" = false →
  quiet (Log l m).
Proof. intros Hc Hj tr. exists [EvLog l m]. split; [done|]. cbn. by rewrite Hc, Hj. Qed.
Lemma quiet_PushFlow f : wire.ProtocolTag f = frameProtocolTag → quiet (PushFlow f).
Proof. intros Ht. apply (quiet_write (λ tr, env_PushFlow tr f) (λ _, EvPush f)). intros tr. cbn. by rewrite Ht. Qed.
Lemma quiet_ConnWrite c b : quiet (ConnWrite c b).
Proof. unfold ConnWrite. auto with quiet. Qed.
Lemma quiet_SetReadDeadline c b : quiet (SetReadDeadline c b).
Proof. intros tr. by exists [EvDeadline c b]. Qed.
Lemma quiet_tunnelError id s e : quiet (tunnelError id s e).
Proof. by apply quiet_Log. Qed.

#[local] Hint Resolve quiet_ConnWrite quiet_SetReadDeadline quiet_tunnelError : quiet.
#[local] Hint Extern 1 (quiet (Log _ _)) => (apply quiet_Log; reflexivity) : quiet.
#[local] Hint Extern 1 (quiet (PushFlow _)) =>
  (apply quiet_PushFlow; rewrite ?setMessage_tag; reflexivity) : quiet.

Lemma quiet_captureFrame id f dir : quiet (captureFrame id f dir).
Proof. unfold captureFrame, Now, ApplyBody, push_then. solve_quiet. Qed.
Lemma quiet_captureHandshakeFrame id t k box js dir : quiet (captureHandshakeFrame id t k box js dir).
Proof. unfold captureHandshakeFrame, Now. solve_quiet. Qed.

#[local] Hint Resolve quiet_captureFrame quiet_captureHandshakeFrame : quiet.

Lemma quiet_captureLogin id t k box js dir : quiet (captureLogin id t k box js dir).
Proof. unfold captureLogin. solve_quiet. Qed.
Lemma quiet_pump_once id dir src dst : quiet (pump_once id dir src dst).
Proof. unfold pump_once, Write. solve_quiet. Qed.
Lemma quiet_emitAndWrite id c t p : quiet (emitAndWrite id c t p).
Proof. unfold emitAndWrite. solve_quiet. Qed.

#[local] Hint Resolve quiet_captureLogin quiet_pump_once quiet_emitAndWrite : quiet.

Lemma quiet_bridge fuel id up cl : quiet (bridge fuel id up cl).
Proof.
  revert up cl. induction fuel as [|fuel IH]; intros up cl; cbn [bridge]; solve_quiet.
Qed.

#[local] Hint Resolve quiet_bridge : quiet.

Lemma quiet_tunnelBody h k ci box fc up sc id : quiet (tunnelBody h k ci box fc up sc id).
Proof. unfold tunnelBody, Nonce, WriteFrame. solve_quiet. Qed.
End quiet.
#[export] Hint Resolve quiet_ConnWrite quiet_SetReadDeadline quiet_tunnelError
  quiet_captureFrame quiet_captureHandshakeFrame quiet_captureLogin quiet_pump_once quiet_emitAndWrite
  quiet_bridge quiet_tunnelBody : quiet.
#[export] Hint Extern 1 (quiet (Log _ _)) => (apply quiet_Log; reflexivity) : quiet.
#[export] Hint Extern 1 (quiet (PushFlow _)) =>
  (apply quiet_PushFlow; rewrite ?setMessage_tag; reflexivity) : quiet.

Section outcomes.
Context `{Env} `{Network}.

(** [m], started after [tr], adds life-cycle events and a result related by [P]. *)
Definition outcome {A} (P : list life_event → A → Prop) (m : eff A) (tr : list event) : Prop :=
  ∃ evs, lives m tr evs ∧ P evs (fst (m tr)).

Lemma outcome_ret {A} (P : list life_event → A → Prop) a tr : P [] a → outcome P (mret a) tr.
Proof. intros HP. exists []. split; [apply lives_ret|done]. Qed.

Lemma outcome_bind {A B} (P : list life_event → A → Prop) (Q : list life_event → B → Prop) m (k : A → eff B) tr :
  outcome P m tr → (∀ evs a tr', P evs a → outcome (λ e2 b, Q (evs ++ e2) b) (k a) tr') →
  outcome Q (m ≫= k) tr.
Proof.
  intros (e1 & Hl1 & HP) Hk. destruct (Hk e1 (fst (m tr)) (snd (m tr)) HP) as (e2 & Hl2 & HQ).
  exists (e1 ++ e2). split; [by apply lives_bind|].
  unfold mbind, eff_bind. destruct (m tr). exact HQ.
Qed.

Lemma outcome_then {A B} (Q : list life_event → B → Prop) (m : eff A) (k : A → eff B) tr :
  quiet m → (∀ tr', outcome Q (k (fst (m tr))) tr') → outcome Q (m ≫= k) tr.
Proof.
  intros Hm Hk. eapply (outcome_bind (λ evs a, evs = [] ∧ a = fst (m tr))).
  - exists []. split; [apply Hm|done].
  - intros evs a tr' [-> ->]. apply Hk.
Qed.

Lemma outcome_quiet {A} (P : list life_event → A → Prop) (m : eff A) tr :
  quiet m → P [] (fst (m tr)) → outcome P m tr.
Proof. intros Hm HP. exists []. split; [apply Hm|done]. Qed.

Lemma outcome_deferred {A} (P Q : list life_event → A → Prop) cl (m : eff A) tr e :
  outcome P m tr → (∀ tr', lives cl tr' e) → (∀ evs a, P evs a → Q (evs ++ e) a) →
  outcome Q (deferred cl m) tr.
Proof.
  intros (e1 & (n1 & Hn1 & Hl1) & HP) Hcl HQ. exists (e1 ++ e). unfold lives, deferred.
  destruct (Hcl (snd (m tr))) as (n2 & Hn2 & Hl2). destruct (m tr) as [a tr1]. cbn [fst snd] in *.
  destruct (cl tr1) as [u tr2]. cbn [fst snd] in *. split; [|by apply HQ].
  subst tr1. exists (n1 ++ n2). by rewrite Hn2, app_assoc, life_app, Hl1, Hl2.
Qed.

Lemma outcome_weaken {A} (P Q : list life_event → A → Prop) (m : eff A) tr :
  (∀ evs a, P evs a → Q evs a) → outcome P m tr → outcome Q m tr.
Proof. intros HPQ (evs & Hl & HP). exists evs. auto. Qed.

(** A failure that is only logged. *)
Lemma outcome_log {A} (P : list life_event → A → Prop) (m : eff unit) (a : A) tr :
  quiet m → P [] a → outcome P (_ ← m; mret a) tr.
Proof. intros Hm HP. apply outcome_then; [done|]. intros. by apply outcome_ret. Qed.

(** A step that may fail before anything happened. *)
Lemma outcome_ebind {A B} (Q : list life_event → result B → Prop) (m : eff (result A)) k tr :
  quiet m → (∀ e, Q [] (Err e)) → (∀ a tr', fst (m tr) = Ok a → outcome Q (k a) tr') → outcome Q (ebind m k) tr.
Proof.
  intros Hm He Hk. apply outcome_then; [done|]. intros tr'. destruct (fst (m tr)) eqn:E; [by apply Hk|by apply outcome_ret].
Qed.

(** One life-cycle event of its own. *)
Lemma outcome_emit (P : list life_event → unit → Prop) e tr : P (life1 tr e) tt → outcome P (emit e) tr.
Proof. intros HP. exists (life1 tr e). split; [apply lives_emit|done]. Qed.
End outcomes.

Section lifecycle.
Context `{NodeKeys} `{DerpJSON} `{Disco} `{Addr} `{URLParse} `{Reassembler} `{Bulk} `{Env} `{Network} `{!Rand}.

Lemma upstreamLogin_outcome host port sid c input nk ci tr :
  outcome (λ evs r, match r with Ok u => evs = [LConnected] ∧ up_stream u = c | Err _ => evs = [] end)
    (upstreamLogin host port sid c input nk ci) tr.
Proof.
  unfold upstreamLogin. apply outcome_ebind; [auto with quiet|done|]. intros _ tr1 _.
  apply outcome_then; [auto with quiet|]. intros tr2.
  apply outcome_ebind; [auto with quiet|done|]. intros [[[code status] buffered] rest] tr3 _.
  destruct (negb _); [by apply outcome_ret|]. destruct (readUpstreamServerKey _) as [r fc].
  apply outcome_ebind; [auto with quiet|done|]. intros spub tr4 _. cbv zeta.
  apply outcome_then; [apply quiet_read|]. intros tr5.
  apply outcome_ebind; [auto with quiet|done|]. intros box tr6 _.
  apply outcome_ebind; [unfold WriteFrame; auto with quiet|done|]. intros _ tr7 _.
  destruct (readUpstreamServerInfo _ _ _) as [r' fc'].
  apply outcome_ebind; [auto with quiet|done|]. intros [info sbox] tr8 _.
  apply outcome_then; [auto with quiet|]. intros tr9.
  eapply (outcome_bind (λ evs _, evs = [LConnected])); [by apply outcome_emit|].
  intros ? _ tr10 ->. by apply outcome_ret.
Qed.

(** The ways a dial ends: what is left open belongs to the returned tunnel. *)
Inductive dialed (host : string) (port : Z) (tls : bool) : list life_event → result upstreamTunnel → Prop :=
  | dial_failed e e' : dialed host port tls [LDial host port tls (Err e)] (Err e')
  | dial_closed sid c input e' :
      dialed host port tls [LDial host port tls (Ok (sid, c, input)); LClose c] (Err e')
  | dial_open sid c input u :
      up_stream u = c → dialed host port tls [LDial host port tls (Ok (sid, c, input)); LConnected] (Ok u).

Lemma openUpstream_outcome h st host nk ci tr :
  outcome (λ evs r, if draining st then evs = [] ∧ r = Err ErrShuttingDown
                    else let '(dh, dp, tls) := upstreamDial h host in dialed dh dp tls evs r)
    (openUpstream h st host nk ci) tr.
Proof.
  unfold openUpstream. destruct (draining st); [by apply outcome_ret|].
  destruct (upstreamDial h host) as [[dh dp] tls].
  apply (outcome_bind (λ evs r, evs = [LDial dh dp tls r])).
  { exists [LDial dh dp tls (net_Dial tr dh dp tls)]. split; [by exists [EvDial dh dp tls]|done]. }
  intros evs r tr1 ->. destruct r as [[[sid c] input]|e]; [|apply outcome_ret; constructor].
  eapply outcome_bind; [apply upstreamLogin_outcome|]. intros evs r tr2 Hu. destruct r as [u|e].
  - destruct Hu as [-> Hu]. apply outcome_ret. by constructor.
  - subst evs. apply (outcome_bind (λ evs _, evs = [LClose c])); [by apply outcome_emit|].
    intros ? ? ? ->. apply outcome_ret. constructor.
Qed.

(** The one flow a tunnel is announced with. *)
Lemma emitTunnelEnvelope_outcome h i tr :
  outcome (λ evs r, ∃ f, evs = [LEnvelope f r] ∧ wire.ParentFlowID f = parentFlowID i)
    (emitTunnelEnvelope h i) tr.
Proof.
  unfold emitTunnelEnvelope. apply outcome_then; [apply quiet_read|]. intros tr1.
  set (f := wire.mkFlow _ _ _ _ _ _ _ _). exists [LEnvelope f (env_PushFlow tr1 f)].
  split; [by exists [EvPush f]|by exists f].
Qed.

(** The part of a tunnel between its upstream's login and its closing. *)
Inductive enveloped (sc : StreamConn) (c : connid) (st : registry) : list life_event → registry → Prop :=
  | env_failed f e : wire.ParentFlowID f = RequestFlowID sc → enveloped sc c st [LEnvelope f (Err e)] st
  | env_uncaptured f id :
      wire.ParentFlowID f = RequestFlowID sc → enveloped sc c st [LEnvelope f (Ok (id, false))] st
  | env_captured f id k ci fc nk up :
      wire.ParentFlowID f = RequestFlowID sc → up_stream up = c →
      enveloped sc c st [LEnvelope f (Ok (id, true)); LComplete id; LTornDown id]
        (deregister id (registerTunnel id (newActiveTunnel sc k ci fc nk up id) st)).

Lemma tunnelWithUpstream_outcome h sc k ci box fc nk up st tr :
  outcome (enveloped sc (up_stream up) st) (tunnelWithUpstream h sc k ci box fc nk up st) tr.
Proof.
  unfold tunnelWithUpstream. eapply outcome_bind; [apply emitTunnelEnvelope_outcome|].
  intros evs r tr1 (f & -> & Hf). destruct r as [[id [|]]|e]; cbv zeta.
  - set (at_ := newActiveTunnel _ _ _ _ _ _ id).
    apply (outcome_bind (λ evs _, evs = [LComplete id])).
    + apply (outcome_deferred (λ evs _, evs = []) _ _ _ _ [LComplete id]).
      * apply outcome_quiet; auto with quiet.
      * intros. apply lives_emit.
      * by intros evs _ ->.
    + intros ? _ tr2 ->. unfold deregisterTunnel.
      apply (outcome_bind (λ evs _, evs = [LTornDown id])); [by apply outcome_emit|].
      intros ? _ tr3 ->. apply outcome_ret. cbn. by constructor.
  - apply outcome_then; [auto with quiet|]. intros. apply outcome_ret. by constructor.
  - apply outcome_log; [auto with quiet|by constructor].
Qed.

(** What a relayed session does before its client is closed. *)
Inductive tunnel_life (h : Handler) (sc : StreamConn) (st : registry) : list life_event → registry → Prop :=
  | tl_refused : tunnel_life h sc st [] st
  | tl_dial_failed host port tls e :
      upstreamDial h (sc_Host sc) = (host, port, tls) → tunnel_life h sc st [LDial host port tls (Err e)] st
  | tl_login_failed host port tls sid c input :
      upstreamDial h (sc_Host sc) = (host, port, tls) →
      tunnel_life h sc st [LDial host port tls (Ok (sid, c, input)); LClose c] st
  | tl_bridged host port tls sid c input evs st' :
      upstreamDial h (sc_Host sc) = (host, port, tls) → enveloped sc c st evs st' →
      tunnel_life h sc st (LDial host port tls (Ok (sid, c, input)) :: LConnected :: evs ++ [LClose c]) st'.

(** A client whose login is answered: it can be written to, its CLIENT_INFO opens,
    there is an identity for it, and no drain has begun. *)
Definition admitted (h : Handler) (sc : StreamConn) (st : registry) : Prop :=
  draining st = false ∧ (∀ tr b, env_Write tr (sc_conn sc) b = None) ∧
  ∃ k ci box nk, fst (readClientInfo h (newFrameConn (sc_conn sc) (sc_input sc))) = Ok (k, ci, box) ∧
    nodeKey h (NodePublic_String k) = Ok nk.

(** The session, and when there is one. *)
Definition relayed (h : Handler) (sc : StreamConn) (st : registry) (evs : list life_event) (st' : registry) : Prop :=
  tunnel_life h sc st evs st' ∧ (draining st = true → evs = []) ∧ (admitted h sc st → evs ≠ []).

Lemma relayed_refused h sc st : (admitted h sc st → False) → relayed h sc st [] st.
Proof. intros Hn. split; [constructor|]. split; [done|]. by intros ?%Hn. Qed.

Lemma tunnelSession_outcome h sc st tr : outcome (relayed h sc st) (tunnelSession h sc st) tr.
Proof.
  unfold tunnelSession. apply outcome_then; [auto with quiet|]. intros tr1.
  apply outcome_then; [apply quiet_ConnWrite|]. intros tr2.
  destruct (fst _) eqn:Ew.
  { apply outcome_log; [auto with quiet|]. apply relayed_refused. intros (_ & Hw & _).
    unfold WriteFrame, ConnWrite in Ew. cbn in Ew. by rewrite Hw in Ew. }
  destruct (readClientInfo h _) as [[[[k ci] box]|e] fc] eqn:Er.
  2: { apply outcome_log; [auto with quiet|]. apply relayed_refused. intros (_ & _ & ? & ? & ? & ? & Hr & _).
       by rewrite Er in Hr. }
  apply outcome_then; [auto with quiet|]. intros tr3.
  destruct (nodeKey h _) as [nk|e] eqn:En.
  2: { apply outcome_log; [auto with quiet|]. apply relayed_refused. intros (_ & _ & ? & ? & ? & ? & Hr & Hn).
       rewrite Er in Hr. cbn in Hr. simplify_eq. congruence. }
  eapply outcome_bind; [apply openUpstream_outcome|]. intros evs r tr4 Hr.
  destruct (draining st) eqn:Ed.
  { destruct Hr as [-> ->]. apply outcome_log; [auto with quiet|]. apply relayed_refused.
    intros (Hd & _). by rewrite Ed in Hd. }
  destruct (upstreamDial h (sc_Host sc)) as [[dh dp] tls] eqn:Eh. destruct r as [u|e].
  - inversion Hr as [| |sid c input u0 Hu]; subst.
    eapply (outcome_deferred _ _ _ _ _ [LClose (up_stream u)]); [apply tunnelWithUpstream_outcome| |].
    + intros. apply lives_emit.
    + intros evs st' He. cbn [app]. split; [by eapply tl_bridged|]. split; [by rewrite Ed|done].
  - apply outcome_log; [auto with quiet|]. rewrite app_nil_r.
    inversion Hr; subst; (split; [by econstructor|split; [by rewrite Ed|done]]).
Qed.
End lifecycle.

(** ** Properties *)

(** C32: the life of a relayed tunnel, on every path and for every behaviour of
    the client, the upstream and sectool. The client's connection is closed
    once, last. A client whose login is answered has its host's upstream dialed,
    which is closed exactly once; an upstream that logs in has exactly one
    envelope pushed for it, parented to the captured upgrade. When sectool
    captures the envelope under an id, the tunnel is registered under that id (its
    host stays on record), and that very id is completed exactly once, before the
    tunnel is deregistered and signalled as torn down; when it does not, or refuses
    the envelope, nothing is completed and the registry is untouched.
    A draining handler dials nothing. *)
Theorem runTunnel_lifecycle `{NodeKeys} `{DerpJSON} `{Disco} `{Addr} `{URLParse} `{Reassembler}
    `{Bulk} `{Env} `{Network} `{!Rand} (h : Handler) (sc : StreamConn) (st : registry) (tr : list event) :
  ∃ new evs, snd (runTunnel h sc st tr) = tr ++ new ∧
    life tr new = evs ++ [LClose (sc_conn sc)] ∧
    tunnel_life h sc st evs (fst (runTunnel h sc st tr)) ∧
    (draining st = true → evs = []) ∧ (admitted h sc st → evs ≠ []).
Proof.
  destruct (outcome_deferred (relayed h sc st)
    (λ evs st', ∃ e, evs = e ++ [LClose (sc_conn sc)] ∧ relayed h sc st e st')
    (ConnClose (sc_conn sc)) (tunnelSession h sc st) tr [LClose (sc_conn sc)])
    as (evs & (new & Hn & Hl) & (e & -> & Hs)).
  - apply tunnelSession_outcome.
  - intros. apply lives_emit.
  - intros evs st' Hs. by exists evs.
  - by exists new, e.
Qed.

(** The record of tunnel hosts that fresh replays use. After any sequence
    of tunnels it holds the hosts of exactly the last 256, whether or not they
    are still live, in first-in first-out order. *)
Theorem retained_hosts `{NodeKeys} (regs : list (string * activeTunnel)) :
  NoDup regs.*1 →
  let st := register_all regs registry0 in
  let recent := drop (length regs - 256) regs in
  tunnelHostOrder st = recent.*1 ∧
  (∀ id t, (id, t) ∈ recent →
     retainedTunnelHost id st = Some (at_host t) ∧
     retainedTunnelHost id (deregister id st) = Some (at_host t)) ∧
  (∀ id, id ∉ recent.*1 → retainedTunnelHost id st = None) ∧
  Z.of_nat (size (tunnelHosts st)) ≤ maxRetainedTunnelHosts.
Proof.
  intros Hnd. cbv zeta. destruct (register_all_spec regs Hnd) as (Hinv & Ho & Hh).
  rewrite fmap_drop. split_and!; [done| | |].
  - intros id t Hin. unfold retainedTunnelHost. cbn. auto.
  - intros id Hni. unfold retainedTunnelHost. apply eq_None_not_Some.
    by rewrite (hi_dom _ Hinv), Ho.
  - rewrite (hi_size _ Hinv). apply Hinv.
Qed.

(** Two tunnels, the first of which has ended. *)
Lemma retained_hosts_witness :
  let at_ (id host : string) := @mkActiveTunnel toy_keys id (toy_key x01) [] 1%nat None EmptyString
    (toy_key x02) (toy_key x03) false host in
  retainedTunnelHost "t1" (deregister "t1" (register_all [("t1", at_ "t1" "derp1.example");
    ("t2", at_ "t2" "derp2.example")]%string registry0)) = Some "derp1.example"%string.
Proof.
  intros at_.
  destruct (retained_hosts [("t1", at_ "t1" "derp1.example"); ("t2", at_ "t2" "derp2.example")]%string)
    as (_ & H & _).
  - apply (bool_decide_unpack _). vm_compute. reflexivity.
  - apply (H "t1"%string (at_ "t1" "derp1.example")%string). left.
Defined.

(** C33: the pumps are transparent. A clean stream of frames is forwarded frame
    by frame, in order, none lost, duplicated or added, whatever the captures
    return; each frame leaves as it came, unless it is a non-empty HEALTH whose
    text a rule rewrote; an incomplete last frame is not forwarded. *)
Theorem pump_transparent `{NodeKeysLaws} `{Disco} `{ReassemblerLaws} `{Env}
    (fs : list (FrameType * bytes)) (tunnelID dir : string) (src dst : frameConn) (rest : bytes)
    (fuel : nat) (tr : list event) :
  Forall frame_ok fs → fc_frameErr src = None → script_clean (fc_input src) →
  pending src = encode_all fs ++ rest → SplitFrame rest = Ok (0, false) →
  (∀ tr b, env_Write tr (fc_conn dst) b = None) → (length fs < fuel)%nat →
  ∃ outs, let '(ended, tr') := pumpFrames fuel tunnelID dir src dst tr in
    ended = true ∧ writes tr' = writes tr ++ map (pair (fc_conn dst)) outs ∧
    Forall2 (forwarded dir) fs outs ∧
    ((∀ tr b, snd (env_ApplyBody tr b (bodyRuleType dir)) = []) →
     outs = map (λ f, EncodeFrame (fst f) (snd f)) fs).
Proof.
  intros Hok Hf Hc Hp Hr Hw Hfuel.
  destruct (pump_frames_spec fs tunnelID dir src dst rest fuel tr Hok Hf Hc Hp Hr Hw Hfuel) as [outs Ho].
  exists outs. destruct (pumpFrames _ _ _ _ _ _) as [ended tr']. destruct Ho as (? & ? & Hall).
  split_and!; [done..|]. intros Hno. clear -Hall Hno.
  induction Hall as [|f out fs outs Hfw Hall IH]; [done|]. cbn [map]. rewrite IH. f_equal.
  destruct Hfw as [->|(_ & _ & tr0 & body & fired & Ha & Hne & _)]; [done|].
  specialize (Hno tr0 (snd f)). by rewrite Ha in Hno.
Qed.

(** One HEALTH frame in two chunks, under rules that rewrite every body. *)
Lemma pump_transparent_witness :
  ∃ outs, Forall2 (@forwarded env_rewrite DirServerToClient) [(FrameHealth, [x41])] outs ∧
    writes (snd (@pumpFrames toy_keys toy_disco toy_reassembler env_rewrite 2 "t1" DirServerToClient
      (newFrameConn 1%nat [([x14; x00; x00], None); ([x00; x01; x41], None)]) (newFrameConn 2%nat []) []))
    = map (pair 2%nat) outs.
Proof.
  destruct (@pump_transparent toy_keys toy_keys_laws toy_disco toy_reassembler toy_reassembler_laws
    env_rewrite [(FrameHealth, [x41])] "t1" DirServerToClient
    (newFrameConn 1%nat [([x14; x00; x00], None); ([x00; x01; x41], None)]) (newFrameConn 2%nat [])
    [] 2 []) as [outs H].
  - repeat constructor; vm_compute; discriminate.
  - reflexivity.
  - repeat constructor.
  - vm_compute. reflexivity.
  - reflexivity.
  - reflexivity.
  - cbn. lia.
  - exists outs. destruct (pumpFrames _ _ _ _ _ _) as [ended tr']. destruct H as (_ & Hw & Hf & _).
    split; [exact Hf|exact Hw].
Defined.

(** The bridge ends. With the fuel the model gives it, the two pumps always
    run to the end of one of them, for every interleaving and every behaviour of
    the network and sectool. *)
Theorem bridge_terminates `{NodeKeysLaws} `{Disco} `{ReassemblerLaws} `{Env} `{Network}
    (tunnelID : string) (up client : frameConn) (tr : list event) :
  conn_ok up → conn_ok client →
  fst (bridge (bridge_fuel up client) tunnelID up client tr) = true.
Proof. intros Hu Hc. apply bridge_ends; [done|done|]. unfold bridge_fuel. lia. Qed.

Lemma bridge_terminates_witness :
  let up := newFrameConn 100%nat [([x06; x00; x00; x00; x00], None)] in
  let client := newFrameConn 1%nat [] in
  fst (@bridge toy_keys toy_disco toy_reassembler env_capture (net_of (Err (ErrNew "")))
    (bridge_fuel up client) "t1" up client []) = true.
Proof.
  intros up client. apply bridge_terminates; apply conn_ok_new.
Defined.
