(* ===== verification/DerpSessionSpec.v ===== *)
(** * DERP sessions: the upstream identity, terminate mode and the drain *)

From Stdlib Require Import Init.Byte Strings.Byte Lia ZArith Ascii String.
From stdpp Require Import base option list fin_maps gmap sets strings.
From S2P Require Import Prelude GoStd NetIP External Instances Adapter Persist DerpProto.
From S2P Require Import FrameConn DerpCapture DerpConfig DerpRelay DerpRelaySpec DerpTunnel.
From S2P Require Import DerpTunnelSpec.
Open Scope Z_scope.
Open Scope go_scope.

(** ** Quiet relay operations *)

Section relay_quiet.
Context `{NodeKeys} `{Disco} `{Env} `{Network} `{Reassembler}.

Lemma quiet_emit_to cl c t p : quiet (emit_to cl c t p).
Proof. unfold emit_to. solve_quiet. Qed.
#[local] Hint Resolve quiet_emit_to : quiet.

Lemma quiet_emit_routed cl src o : quiet (emit_routed cl src o).
Proof. unfold emit_routed. solve_quiet. Qed.
#[local] Hint Resolve quiet_emit_routed : quiet.

Lemma quiet_route df src p r : quiet (route df src p r).
Proof. unfold route. solve_quiet. Qed.

Lemma quiet_emit_gone cl gone ts : quiet (emit_gone cl gone ts).
Proof. induction ts as [|c ts IH]; cbn [emit_gone]; solve_quiet. Qed.
#[local] Hint Resolve quiet_route quiet_emit_gone : quiet.

Lemma quiet_remove c r : quiet (remove c r).
Proof. unfold remove, announceGone. solve_quiet. Qed.

Lemma quiet_terminateFrame df id c cfr t p r : quiet (terminateFrame df id c cfr t p r).
Proof. unfold terminateFrame. solve_quiet. Qed.
#[local] Hint Resolve quiet_terminateFrame : quiet.

Lemma quiet_terminateLoop fuel df id c fc r : quiet (terminateLoop fuel df id c fc r).
Proof. revert fc r. induction fuel as [|fuel IH]; intros fc r; cbn [terminateLoop]; solve_quiet. Qed.

(** ** One client's life in the registry *)

(** [r'] is a well-formed registry with the clients of [r]. *)
Definition keeps (df : bool) (r r' : syntheticRelay) : Prop :=
  registry_inv df r' ∧ ∀ x, live r' x ↔ live r x.

Lemma keeps_trans df r1 r2 r3 : keeps df r1 r2 → keeps df r2 r3 → keeps df r1 r3.
Proof. intros [_ Ha] [Hb Hc]. split; [done|]. intros x. by rewrite Hc, Ha. Qed.

(** Nobody joins, leaves, or changes. *)
Definition undisturbed (df : bool) (r r' : syntheticRelay) : Prop :=
  keeps df r r' ∧ same_static (clients r) (clients r').

Lemma undisturbed_refl df r : registry_inv df r → undisturbed df r r.
Proof. by split; [split|]. Qed.

Lemma undisturbed_trans df r1 r2 r3 : undisturbed df r1 r2 → undisturbed df r2 r3 → undisturbed df r1 r3.
Proof. intros [Ha Hb] [Hc Hd]. split; [by eapply keeps_trans|by eapply same_static_trans]. Qed.

Lemma terminateFrame_result df id c cfr t p r tr :
  fst (terminateFrame df id c cfr t p r tr) = r ∨
  ∃ payload, fst (terminateFrame df id c cfr t p r tr) = snd (route_locked df c payload r).
Proof.
  unfold terminateFrame, mbind, eff_bind, mret, eff_ret.
  destruct (captureFrame _ _ _ _) as [res tr1]. destruct res as [out|e]; cbn [tunnelError Log emit];
    match goal with |- context [FramePayload ?o] => set (pl := default [] (FramePayload o)) end;
    clearbody pl.
  all: assert (∀ tr0, fst (route df c pl r tr0) = snd (route_locked df c pl r)) as Hroute
    by (intros tr0; unfold route, mbind, eff_bind, mret, eff_ret;
        destruct (route_locked df c pl r); by destruct (emit_routed _ _ _ _)).
  all: destruct t; try (left; reflexivity); [right; by exists pl|left].
  all: by destruct (emitAndWrite _ _ _ _ _).
Qed.

Lemma terminateFrame_keeps df id c cfr t p r tr :
  registry_inv df r → live r c → undisturbed df r (fst (terminateFrame df id c cfr t p r tr)).
Proof.
  intros Hinv Hl. destruct (terminateFrame_result df id c cfr t p r tr) as [->|[pl ->]];
    [by apply undisturbed_refl|].
  split; [split; [by apply route_inv|]|by apply route_same]. intros x. by apply (route_members df).
Qed.

Context `{!ReassemblerLaws}.

(** The loop ends by itself and leaves everybody registered. *)
Lemma terminateLoop_keeps df id c fuel fc r tr :
  conn_ok fc → registry_inv df r → live r c → (length (pending fc) < fuel)%nat →
  ∃ r' fc', fst (terminateLoop fuel df id c fc r tr) = Some (r', fc') ∧ undisturbed df r r'.
Proof.
  revert fc r tr. induction fuel as [|fuel IH]; intros fc r tr Hok Hinv Hl Hf; [lia|].
  cbn [terminateLoop]. pose proof (ReadTypedFrame_post fc Hok) as Hp.
  destruct (ReadTypedFrame fc) as [[[t p]|e] fc1]; destruct Hp as (Hok1 & _ & Hpend).
  - destruct (Hpend t p eq_refl) as [Hpd _].
    unfold mbind, eff_bind. pose proof (terminateFrame_keeps df id c (fc_conn fc1) t p r tr Hinv Hl) as Hk.
    destruct (terminateFrame _ _ _ _ _ _ _ _) as [r1 tr1]. cbn [fst] in Hk.
    destruct (IH fc1 r1 tr1 Hok1) as (r' & fc' & Hr & Hk'); [apply Hk|by apply Hk| |].
    { rewrite Hpd, length_app, EncodeFrame_length in Hf. lia. }
    exists r', fc'. split; [done|]. by eapply undisturbed_trans.
  - exists r, fc1. split; [done|]. by apply undisturbed_refl.
Qed.

Lemma remove_result c r tr :
  fst (remove c r tr) = (let '(gone, r') := remove_locked c r in
                         if gone then snd (announce_locked (key_of r c) r') else r').
Proof.
  unfold remove. destruct (remove_locked c r) as [[|] r']; [|done].
  unfold announceGone, mbind, eff_bind. destruct (announce_locked _ _) as [ts r2].
  by destruct (emit_gone _ _ _ _).
Qed.

Lemma remove_keeps df c r tr :
  registry_inv df r → live r c →
  registry_inv df (fst (remove c r tr)) ∧ (∀ x, live (fst (remove c r tr)) x ↔ live r x ∧ x ≠ c) ∧
  same_static (clients r) (clients (fst (remove c r tr))).
Proof.
  intros Hinv Hl. rewrite remove_result. pose proof (remove_same df c r Hinv) as Hrs.
  pose proof (remove_inv df c r Hinv) as Hri. pose proof (λ x, remove_members df c r x Hinv Hl) as Hrm.
  destruct (remove_locked c r) as [[|] r1]; cbn [snd] in *; [|done].
  split; [by apply announce_inv|]. split; [intros x; by rewrite announce_members, Hrm|].
  eapply same_static_trans; [exact Hrs|apply announce_same].
Qed.
End relay_quiet.
#[export] Hint Resolve quiet_emit_to quiet_emit_routed quiet_route quiet_emit_gone quiet_remove
  quiet_terminateFrame quiet_terminateLoop : quiet.

Section terminate.
Context `{NodeKeys} `{DerpJSON} `{Disco} `{Reassembler} `{!ReassemblerLaws} `{Env} `{Network} `{!Rand}.

Lemma register_fresh_id k cn t (m : bool) r df :
  registry_inv df r → ¬ live r (fst (register k cn t m r)).
Proof.
  intros Hinv (rc & _ & Hrc & _). cbn in Hrc.
  assert (is_Some (clients r !! nextClient r)) as Hs by eauto. apply (ri_fresh _ _ Hinv) in Hs. lia.
Qed.

(** Between [r] and [r'] a new client was registered, on connection [cn] and under
    the tunnel id [id]. *)
Definition joined (cn : connid) (id : string) (r r' : syntheticRelay) : Prop :=
  clients r !! nextClient r = None ∧
  ∃ rc, clients r' !! nextClient r = Some rc ∧ fr rc = cn ∧ tunnelFlowID rc = id.

Lemma register_joined df k cn t (m : bool) r r' :
  registry_inv df r → same_static (clients (snd (register k cn t m r))) (clients r') → joined cn t r r'.
Proof.
  intros Hinv Hs. split.
  - apply eq_None_not_Some. intros Hc%(ri_fresh _ _ Hinv). lia.
  - destruct (same_static_some _ _ (nextClient r) (mkRelayClient cn t k m false ∅) Hs) as (rc & Hrc & Hst);
      [by cbn; rewrite lookup_insert_eq|]. exists rc. by injection Hst.
Qed.

Lemma terminateJoined_keeps h id k ci fc r tr :
  conn_ok fc → registry_inv (disableFighters h) r →
  keeps (disableFighters h) r (fst (terminateJoined h id k ci fc r tr)) ∧
  joined (fc_conn fc) id r (fst (terminateJoined h id k ci fc r tr)).
Proof.
  intros Hok Hinv. unfold terminateJoined.
  pose proof (register_inv (disableFighters h) k (fc_conn fc) id
    (negb (MeshKey_IsZero (ci_MeshKey ci))) r Hinv) as Hinv1.
  pose proof (λ x, register_members k (fc_conn fc) id (negb (MeshKey_IsZero (ci_MeshKey ci)))
    (disableFighters h) r x Hinv) as Hmem.
  pose proof (register_fresh_id k (fc_conn fc) id (negb (MeshKey_IsZero (ci_MeshKey ci))) r _ Hinv) as Hnew.
  pose proof (λ r', register_joined _ k (fc_conn fc) id (negb (MeshKey_IsZero (ci_MeshKey ci))) r r' Hinv) as Hj.
  destruct (register k (fc_conn fc) id (negb (MeshKey_IsZero (ci_MeshKey ci))) r) as [c r1]. cbn [fst snd] in *.
  assert (live r1 c) as Hl by (apply Hmem; by right).
  unfold mbind, eff_bind, Log, emit.
  destruct (terminateLoop_keeps (disableFighters h) id c (S (length (pending fc))) fc r1
    (tr ++ [EvLog "info" "derp synthetic client joined"]) Hok Hinv1 Hl ltac:(lia))
    as (r2 & fc2 & Hr2 & [[Hinv2 Hl2] Hs2]).
  destruct (terminateLoop _ _ _ _ _ _ _) as [o tr2]. cbn [fst] in Hr2. subst o.
  destruct (remove_keeps (disableFighters h) c r2 tr2 Hinv2 ltac:(by apply Hl2)) as (Hinv3 & Hl3 & Hs3).
  split; [|by apply Hj; eapply same_static_trans].
  split; [done|]. intros x. rewrite Hl3, Hl2, Hmem. split; [|intros Hx; split; [by left|by intros ->]].
  intros [[Hx|Hx] Hne]; done.
Qed.

Lemma terminateJoined_lives h id k ci fc r tr : lives (terminateJoined h id k ci fc r) tr [LJoined].
Proof.
  unfold terminateJoined. destruct (register _ _ _ _ _) as [c r1].
  apply (lives_bind _ _ _ [LJoined] []); [apply lives_emit|].
  apply quiet_bind; [auto with quiet|]. intros [[r2 fc2]|]; auto with quiet.
Qed.

(** Either the client could not be written to, or it joined. *)
Lemma terminateBody_outcome h sc id k ci box pl si fc r tr :
  conn_ok fc → registry_inv (disableFighters h) r →
  outcome (λ evs r', (evs = [] ∧ r' = r ∧ ¬ ∀ tr b, env_Write tr (fc_conn fc) b = None) ∨
                     (evs = [LJoined] ∧ keeps (disableFighters h) r r' ∧ joined (fc_conn fc) id r r'))
    (terminateBody h sc id k ci box pl si fc r) tr.
Proof.
  intros Hok Hinv. unfold terminateBody. apply outcome_then; [unfold WriteFrame; auto with quiet|]. intros tr1.
  destruct (fst _) eqn:Ew.
  { apply outcome_log; [auto with quiet|]. left. split_and!; [done..|]. intros Hw.
    unfold WriteFrame, ConnWrite in Ew. cbn in Ew. by rewrite Hw in Ew. }
  apply outcome_then; [auto with quiet|]. intros tr2. apply outcome_then; [auto with quiet|]. intros tr3.
  exists [LJoined]. split; [apply terminateJoined_lives|]. right. split; [done|]. by apply terminateJoined_keeps.
Qed.

Definition completed (captured : bool) (id : string) : list life_event := if captured then [LComplete id] else [].

(** What a terminate-mode session does before its client is closed: it has no
    envelope, the push of its envelope failed, its client could not be greeted,
    or the client joined and left. *)
Inductive terminated (df : bool) (cn : connid) (r : syntheticRelay) : list life_event → syntheticRelay → Prop :=
  | term_refused : terminated df cn r [] r
  | term_failed f e : terminated df cn r [LEnvelope f (Err e)] r
  | term_ungreeted f id captured :
      terminated df cn r (LEnvelope f (Ok (id, captured)) :: completed captured id) r
  | term_joined f id captured r' :
      keeps df r r' → joined cn id r r' →
      terminated df cn r (LEnvelope f (Ok (id, captured)) :: LJoined :: completed captured id) r'.

(** A client that logs in and can be written to. *)
Definition logged_in (h : Handler) (sc : StreamConn) : Prop :=
  (∀ tr b, env_Write tr (sc_conn sc) b = None) ∧
  ∃ buffered rest k ci box, http_ReadRequest (sc_input sc) = Ok (derpPath, buffered, rest) ∧
    fst (readClientInfo h (FrameConn.prefix (newFrameConn (sc_conn sc) rest) buffered)) = Ok (k, ci, box) ∧
    ∀ nonce, ∃ pl, ServerInfoPayload nonce (serverKey h) k (mkServerInfo ProtocolVersion 0 0) = Ok pl.

(** It joins, unless sectool refuses its envelope. *)
Definition greeted (evs : list life_event) : Prop :=
  ∃ f, (∃ e, evs = [LEnvelope f (Err e)]) ∨
    ∃ id captured, evs = LEnvelope f (Ok (id, captured)) :: LJoined :: completed captured id.

Definition term_life (h : Handler) (sc : StreamConn) (r : syntheticRelay) (evs : list life_event)
    (r' : syntheticRelay) : Prop :=
  terminated (disableFighters h) (sc_conn sc) r evs r' ∧ (logged_in h sc → greeted evs).

Lemma term_life_refused h sc r : (logged_in h sc → False) → term_life h sc r [] r.
Proof. intros Hn. split; [constructor|]. by intros ?%Hn. Qed.

Lemma readClientInfo_ok h fc : conn_ok fc → conn_ok (snd (readClientInfo h fc)).
Proof.
  intros Hok. unfold readClientInfo. pose proof (ReadTypedFrame_post fc Hok) as Hp.
  destruct (ReadTypedFrame fc) as [r fc1]. by destruct Hp.
Qed.

Lemma readClientInfo_conn h fc : fc_conn (snd (readClientInfo h fc)) = fc_conn fc.
Proof.
  unfold readClientInfo. destruct (ReadTypedFrame fc) as [r fc1] eqn:E. cbn.
  unfold ReadTypedFrame in E. destruct (ReadFrame fc) as [r0 fc0] eqn:E0.
  assert (fc_conn fc0 = fc_conn fc) as <- by (unfold ReadFrame in E0;
    pose proof (read_loop_conn (fc_conn fc) (fc_re fc) (fc_frameErr fc) (fc_input fc)) as Hc; by rewrite E0 in Hc).
  repeat case_match; by simplify_eq.
Qed.

Lemma prefix_conn c rest b : fc_conn (FrameConn.prefix (newFrameConn c rest) b) = c.
Proof. unfold FrameConn.prefix. by case_match. Qed.

Lemma terminateLoggedIn_outcome h sc k ci box fc r tr :
  conn_ok fc → registry_inv (disableFighters h) r →
  outcome (λ evs r', terminated (disableFighters h) (fc_conn fc) r evs r' ∧
      ((∀ tr b, env_Write tr (fc_conn fc) b = None) →
       (∀ nonce, ∃ pl, ServerInfoPayload nonce (serverKey h) k (mkServerInfo ProtocolVersion 0 0) = Ok pl) →
       greeted evs))
    (terminateLoggedIn h sc k ci box fc r) tr.
Proof.
  intros Hok Hinv. unfold terminateLoggedIn. apply outcome_then; [apply quiet_read|]. intros tr1.
  destruct (ServerInfoPayload _ _ _ _) as [pl|e] eqn:Ep.
  2: { apply outcome_log; [auto with quiet|]. split; [constructor|]. intros _ Hp. destruct (Hp (fst (Nonce tr))) as [? Hx].
       congruence. }
  eapply outcome_bind; [apply emitTunnelEnvelope_outcome|]. intros evs res tr2 (f & -> & _).
  destruct res as [[id captured]|e].
  2: { apply outcome_log; [auto with quiet|]. split; [constructor|]. intros _ _. exists f. left. by exists e. }
  cbv zeta.
  set (P := λ (x : list life_event) r', (x = [] ∧ r' = r ∧ ¬ ∀ tr b, env_Write tr (fc_conn fc) b = None) ∨
    (x = [LJoined] ∧ keeps (disableFighters h) r r' ∧ joined (fc_conn fc) id r r')).
  assert (∀ x r', P x r' →
    terminated (disableFighters h) (fc_conn fc) r (LEnvelope f (Ok (id, captured)) :: x ++ completed captured id) r' ∧
    ((∀ tr b, env_Write tr (fc_conn fc) b = None) →
     (∀ nonce, ∃ pl, ServerInfoPayload nonce (serverKey h) k (mkServerInfo ProtocolVersion 0 0) = Ok pl) →
     greeted (LEnvelope f (Ok (id, captured)) :: x ++ completed captured id))) as HP.
  { intros x r' [(-> & -> & Hw)|(-> & Hk & Hj)]; (split; [by constructor|]); intros Hok' _; [by destruct Hw|].
    exists f. right. by exists id, captured. }
  destruct captured.
  - eapply (outcome_deferred P _ _ _ _ [LComplete id]); [by apply terminateBody_outcome| |].
    + intros. apply lives_emit.
    + intros x r' Hx. by apply HP.
  - eapply outcome_weaken; [|by apply terminateBody_outcome]. intros x r' Hx.
    specialize (HP x r' Hx). cbn in *. by rewrite app_nil_r in HP.
Qed.

Lemma terminateSession_outcome h sc r tr :
  registry_inv (disableFighters h) r → outcome (term_life h sc r) (terminateSession h sc r) tr.
Proof.
  intros Hinv. unfold terminateSession. apply outcome_then; [auto with quiet|]. intros tr1.
  destruct (http_ReadRequest (sc_input sc)) as [[[path buffered] rest]|e] eqn:Eh.
  2: { apply outcome_log; [auto with quiet|]. apply term_life_refused. intros (_ & ? & ? & ? & ? & ? & Hh & _). congruence. }
  destruct (negb _) eqn:Ep.
  { apply outcome_log; [auto with quiet|]. apply term_life_refused. intros (_ & ? & ? & ? & ? & ? & Hh & _).
    rewrite Eh in Hh. injection Hh as -> -> ->. by rewrite bool_decide_true in Ep. }
  apply negb_false_iff, bool_decide_eq_true in Ep. subst path.
  apply outcome_then; [auto with quiet|]. intros tr2. destruct (fst _) eqn:Ew.
  { apply outcome_log; [auto with quiet|]. apply term_life_refused. intros (Hw & _). cbn in Ew. by rewrite Hw in Ew. }
  apply outcome_then; [apply quiet_ConnWrite|]. intros tr3. destruct (fst (WriteFrame _ _ _ _)) eqn:Ew'.
  { apply outcome_log; [auto with quiet|]. apply term_life_refused. intros (Hw & _).
    unfold WriteFrame, ConnWrite in Ew'. cbn in Ew'. by rewrite prefix_conn, Hw in Ew'. }
  pose proof (readClientInfo_ok h _ (conn_ok_prefix (sc_conn sc) rest buffered)) as Hok.
  pose proof (readClientInfo_conn h (FrameConn.prefix (newFrameConn (sc_conn sc) rest) buffered)) as Hc.
  rewrite prefix_conn in Hc.
  destruct (readClientInfo h _) as [[[[k ci] box]|e] fc] eqn:Er; cbn [snd] in Hok, Hc.
  2: { apply outcome_log; [auto with quiet|]. apply term_life_refused. intros (_ & ? & ? & ? & ? & ? & Hh & Hr & _).
       rewrite Eh in Hh. injection Hh as <- <-. by rewrite Er in Hr. }
  apply outcome_then; [auto with quiet|]. intros tr4.
  eapply outcome_weaken; [|by apply terminateLoggedIn_outcome]. intros evs r' [Ht Hg]. rewrite Hc in Ht. split; [done|].
  intros (Hw & b' & rest' & k' & ci' & box' & Hh & Hr & Hp). rewrite Eh in Hh. injection Hh as <- <-.
  rewrite Er in Hr. injection Hr as <- <- <-. apply Hg; [by rewrite Hc|done].
Qed.
End terminate.

(** ** Properties *)

(** C34: the life of a terminate-mode client, on every path and whatever tunnel id
    it gets, captured or not. Its connection is closed once, last. A client that
    logs in has one envelope pushed for it, and joins unless sectool refuses the
    envelope; when sectool captures it under an id, that very id is completed
    exactly once, after the client's session, and otherwise nothing is completed.
    A client that joins is registered as a new one, on its own connection and under
    that id, and is removed again, whatever it sent, so the registry has the same
    members as before and is still well formed. The loop over its frames always
    ends. *)
Theorem runTerminate_lifecycle `{NodeKeys} `{DerpJSON} `{Disco} `{ReassemblerLaws} `{Env} `{Network}
    `{!Rand} (h : Handler) (sc : StreamConn) (r : syntheticRelay) (tr : list event) :
  registry_inv (disableFighters h) r →
  ∃ new evs, snd (runTerminate h sc r tr) = tr ++ new ∧
    life tr new = evs ++ [LClose (sc_conn sc)] ∧
    terminated (disableFighters h) (sc_conn sc) r evs (fst (runTerminate h sc r tr)) ∧
    (logged_in h sc → greeted evs) ∧
    registry_inv (disableFighters h) (fst (runTerminate h sc r tr)) ∧
    ∀ x, live (fst (runTerminate h sc r tr)) x ↔ live r x.
Proof.
  intros Hinv.
  destruct (outcome_deferred (term_life h sc r)
    (λ evs r', ∃ e, evs = e ++ [LClose (sc_conn sc)] ∧ term_life h sc r e r')
    (ConnClose (sc_conn sc)) (terminateSession h sc r) tr [LClose (sc_conn sc)])
    as (evs & (new & Hn & Hl) & (e & -> & [Ht Hg])).
  - by apply terminateSession_outcome.
  - intros. apply lives_emit.
  - intros evs r' Ht. by exists evs.
  - assert (keeps (disableFighters h) r (fst (runTerminate h sc r tr))) as [Hi Hm].
    { revert Ht. unfold runTerminate. generalize (fst (deferred (ConnClose (sc_conn sc)) (terminateSession h sc r) tr)).
      by intros r' []. }
    by exists new, e.
Qed.

(** A client logs in, sends one PING and closes; its envelope is captured: the
    envelope, the two login frames, the PING and the PONG are pushed. *)
Definition toy_handler : Handler := mkHandler (mkDerpConfig [] ∅ EmptyString EmptyString IdentityShared
  RelayModeTerminate DupPolicyLastWriter EmptyString []) "derp" (toy_key x0a) (λ _, Err (ErrNew "")).

Definition toy_client : StreamConn := mkStreamConn 7%nat "s1" "" "" "" "198.51.100.7:9"
  [(to_bytes "/derp", None);
   (EncodeFrame FrameClientInfo (NodePublic_raw (toy_key x01) ++
      SealTo [] (toy_key x01) (toy_key x0a) [x02; x00; x00]), None);
   (EncodeFrame FramePing [x01], None)].

Definition toy_terminate : syntheticRelay * list event :=
  @runTerminate toy_keys toy_json toy_disco toy_reassembler env_capture (net_of (Err (ErrNew "")))
    toy_rand toy_handler toy_client newSyntheticRelay [].

Lemma toy_terminate_trace :
  length (pushes (snd toy_terminate)) = 5%nat ∧
  http_ReadRequest (Network := net_of (Err (ErrNew ""))) (sc_input toy_client)
    = Ok (derpPath, [], List.tl (sc_input toy_client)).
Proof. vm_compute. done. Qed.

Lemma runTerminate_lifecycle_witness :
  (∃ evs, greeted evs ∧
    @life env_capture (net_of (Err (ErrNew ""))) [] (snd toy_terminate) = evs ++ [LClose 7%nat]) ∧
  length (pushes (snd toy_terminate)) = 5%nat.
Proof.
  destruct (@runTerminate_lifecycle toy_keys toy_json toy_disco toy_reassembler toy_reassembler_laws
    env_capture (net_of (Err (ErrNew ""))) toy_rand toy_handler toy_client newSyntheticRelay [])
    as (new & evs & Hn & Hl & _ & Hg & _).
  - apply registry_inv_new.
  - split; [|apply toy_terminate_trace]. exists evs. split.
    + apply Hg. split; [done|]. eexists _, _, _, _, _. split; [apply toy_terminate_trace|].
      split; [vm_compute; reflexivity|]. intros nonce. eexists. reflexivity.
    + unfold toy_terminate. rewrite Hn. exact Hl.
Defined.
