(* ===== verification/DerpDrainSpec.v ===== *)
(** * The upstream login of a relayed tunnel, and the shutdown drain *)

From Stdlib Require Import Init.Byte Strings.Byte Lia ZArith Ascii String.
From stdpp Require Import base option list fin_maps gmap sets strings.
From S2P Require Import Prelude GoStd NetIP External Instances Adapter Persist DerpProto FrameConn.
From S2P Require Import DerpCapture DerpConfig DerpRelay DerpRelaySpec DerpTunnel DerpTunnelSpec.
From S2P Require Import DerpSessionSpec.
Open Scope Z_scope.
Open Scope go_scope.

(** The connections a trace closes. *)
Definition closes (tr : list event) : list connid :=
  omap (λ e, match e with EvClose c => Some c | _ => None end) tr.

Lemma closes_app tr1 tr2 : closes (tr1 ++ tr2) = closes tr1 ++ closes tr2.
Proof. apply omap_app. Qed.

Section login.
Context `{NodeKeys} `{DerpJSON} `{Disco} `{Addr} `{URLParse} `{Reassembler} `{Bulk} `{Env} `{Network} `{!Rand}.

(** The client info sidescale presents upstream for a client's own. *)
Definition presented (ci : ClientInfo) : ClientInfo :=
  mkClientInfo ProtocolVersion (ci_MeshKey ci) (ci_CanAckPings ci) (ci_IsProber ci).

Lemma readUpstreamServerKey_conn fc : fc_conn (snd (readUpstreamServerKey fc)) = fc_conn fc.
Proof.
  unfold readUpstreamServerKey. destruct (ReadTypedFrame fc) as [r fc1] eqn:E. cbn.
  unfold ReadTypedFrame in E. destruct (ReadFrame fc) as [r0 fc0] eqn:E0.
  assert (fc_conn fc0 = fc_conn fc) as <- by (unfold ReadFrame in E0; pose proof (read_loop_conn (fc_conn fc) (fc_re fc) (fc_frameErr fc) (fc_input fc)) as Hc;
        by rewrite E0 in Hc).
  repeat case_match; by simplify_eq.
Qed.

(** A login that succeeds has written the upgrade request and one CLIENT_INFO. *)
Lemma upstreamLogin_ok host port sid c input nk ci tr u tr' :
  upstreamLogin host port sid c input nk ci tr = (Ok u, tr') →
  up_stream u = c ∧ up_streamID u = sid ∧
  ∃ nonce box, ClientInfoPayload nonce nk (up_serverPub u) (presented ci) = Ok box ∧
    writes tr' = writes tr ++ [(c, buildUpgradeRequest host); (c, EncodeFrame FrameClientInfo box)].
Proof.
  unfold upstreamLogin, ebind, check, wrap, mbind, eff_bind, mret, eff_ret, ConnWrite, SetReadDeadline,
    emit, Nonce, WriteFrame, Log.
  destruct (env_Write _ _ _); [done|].
  destruct (http_ReadResponse input) as [[[[code status] buffered] rest]|e]; [|done].
  destruct (negb _); [done|].
  set (fc0 := FrameConn.prefix _ _). pose proof (readUpstreamServerKey_conn fc0) as Hc.
  assert (fc_conn fc0 = c) as Hc0 by (unfold fc0, FrameConn.prefix; by case_match). rewrite Hc0 in Hc.
  destruct (readUpstreamServerKey fc0) as [[spub|e] fc1]; [|done]. cbn [snd] in Hc. subst c.
  fold (presented ci). destruct (ClientInfoPayload _ _ _ _) as [box|e] eqn:Eb; [|done].
  unfold ConnWrite. destruct (env_Write _ _ _); [done|].
  destruct (readUpstreamServerInfo fc1 nk spub) as [[[info sbox]|e] fc2]; [|done].
  intros [= <- <-]. split_and!; [done|done|]. eexists _, box. split; [exact Eb|].
  rewrite !writes_app. cbn. by rewrite !app_nil_r, <-app_assoc.
Qed.

Lemma closeAllConns_run cs tr :
  snd (closeAllConns cs tr) = tr ++ map EvClose cs.
Proof.
  revert tr. induction cs as [|c cs IH]; intros tr; cbn; [by rewrite app_nil_r|].
  unfold mbind, eff_bind, ConnClose, emit. by rewrite IH, <-app_assoc.
Qed.

Lemma forceCloseAll_run l tr :
  snd (forceCloseAll l tr) = tr ++ map EvClose (concat (map at_forceClose l)).
Proof.
  revert tr. induction l as [|t l IH]; intros tr; cbn [forceCloseAll map concat]; [by rewrite app_nil_r|].
  unfold mbind, eff_bind. pose proof (closeAllConns_run (at_forceClose t) tr) as Hc.
  destruct (closeAllConns _ tr) as [u tr1]. cbn in Hc. subst tr1.
  by rewrite IH, <-app_assoc, map_app.
Qed.

Lemma closeConns_run cl cs tr :
  snd (closeConns cl cs tr) = tr ++ map EvClose (map (conn_of cl) cs).
Proof.
  revert tr. induction cs as [|c cs IH]; intros tr; cbn; [by rewrite app_nil_r|].
  unfold mbind, eff_bind, ConnClose, emit. by rewrite IH, <-app_assoc.
Qed.

Lemma closeAll_run r tr :
  closeAll r tr = (snd (closeAll_locked r),
    tr ++ map EvClose (map (conn_of (clients r)) (fst (closeAll_locked r)))).
Proof.
  unfold closeAll, mbind, eff_bind, mret, eff_ret. destruct (closeAll_locked r) as [cs r'].
  pose proof (closeConns_run (clients r) cs tr) as Hc.
  by destruct (closeConns _ _ _) as [u tr1]; cbn in *; subst.
Qed.

Lemma Shutdown_run inTime st tr :
  let live := liveTunnels (reg st) in
  Shutdown inTime st tr =
    ((Z.of_nat (length (List.filter (λ t, negb (inTime t)) live)),
      mkHstate (beginDrain (reg st)) (snd ∘ closeAll_locked <$> relay st)),
     tr ++ map EvClose (concat (map at_forceClose live) ++
       match relay st with Some r => map (conn_of (clients r)) (fst (closeAll_locked r)) | None => [] end)).
Proof.
  cbv zeta. unfold Shutdown, mbind, eff_bind, mret, eff_ret.
  change (liveTunnels (beginDrain (reg st))) with (liveTunnels (reg st)).
  pose proof (forceCloseAll_run (liveTunnels (reg st)) tr) as Hf.
  destruct (forceCloseAll _ tr) as [u tr1]. cbn in Hf. subst tr1.
  destruct (relay st) as [r|]; [|by rewrite app_nil_r].
  rewrite closeAll_run, <-app_assoc, map_app. done.
Qed.

Lemma elem_of_live_conns `{!BulkLaws} st c :
  c ∈ concat (map at_forceClose (liveTunnels st)) ↔ ∃ id t, tunnels st !! id = Some t ∧ c ∈ at_forceClose t.
Proof.
  rewrite list_elem_of_In, List.in_concat. split.
  - intros (x & (t & <- & Ht%list_elem_of_In)%List.in_map_iff & Hc%list_elem_of_In).
    unfold liveTunnels in Ht. rewrite MapValuesSlice_perm in Ht.
    apply list_elem_of_fmap in Ht as ([id t'] & -> & Ht%elem_of_map_to_list). eauto.
  - intros (id & t & Ht & Hc). exists (at_forceClose t). split; [|by apply list_elem_of_In].
    apply List.in_map, list_elem_of_In. unfold liveTunnels. rewrite MapValuesSlice_perm.
    apply list_elem_of_fmap. exists (id, t). split; [done|]. by apply elem_of_map_to_list.
Qed.

Lemma elem_of_relay_conns `{!BulkLaws} r c :
  c ∈ map (conn_of (clients r)) (fst (closeAll_locked r)) ↔
  ∃ t x, byTunnel r !! t = Some x ∧ c = conn_of (clients r) x.
Proof.
  rewrite list_elem_of_fmap. cbn.
  assert (∀ x, x ∈ MapValuesSlice (byTunnel r) ↔ ∃ t, byTunnel r !! t = Some x) as Hl; [|naive_solver].
  intros x. by rewrite (MapValuesSlice_perm (byTunnel r)), elem_of_byTunnel.
Qed.

(** How many of the live tunnels the drain gave up on. *)
Lemma left_count `{!BulkLaws} (inTime : activeTunnel → bool) st :
  length (List.filter (λ t, negb (inTime t)) (liveTunnels st)) =
  size (filter (λ x : string * activeTunnel, inTime x.2 = false) (tunnels st)).
Proof.
  assert (∀ l, length (List.filter (λ t, negb (inTime t)) l) = length (filter (λ t, inTime t = false) l)) as Hf.
  { intros l. induction l as [|t l IH]; [done|]. cbn [List.filter]. rewrite filter_cons.
    destruct (inTime t); cbn; [by rewrite decide_False by done|by rewrite decide_True, IH by done]. }
  rewrite Hf. unfold liveTunnels. rewrite (MapValuesSlice_perm (tunnels st)).
  rewrite <-length_map_to_list, map_filter_alt, map_to_list_to_map.
  - clear. induction (map_to_list (tunnels st)) as [|[id t] l IH]; [done|]. cbn [fmap list_fmap snd].
    rewrite !filter_cons. cbn [snd]. case_decide; cbn [length]; by rewrite IH.
  - eapply sublist_NoDup; [apply (NoDup_fst_map_to_list (tunnels st))|apply fmap_sublist, sublist_filter].
Qed.

Lemma remove_drained r c tr :
  remove c (snd (closeAll_locked r)) tr = (snd (closeAll_locked r), tr).
Proof.
  unfold remove, remove_locked. cbn. destruct (clients r !! c); [|done].
  by rewrite lookup_empty, delete_empty.
Qed.
End login.

(** ** Properties *)

(** Who the upstream sees. A successful upstream login has written exactly
    the upgrade request and one CLIENT_INFO; the upstream that owns the server key
    opens it to the sidecar's own node key for this client and to the client's
    own mesh key and flags, under the protocol version sidescale speaks; nothing
    of the client's key or its box is sent. No login happens during a drain. *)
Theorem openUpstream_login `{NodeKeysLaws} `{DerpJSONLaws} `{Disco} `{Addr} `{URLParse} `{Reassembler}
    `{Bulk} `{Env} `{Network} `{!Rand} (h : Handler) (st : registry) (host : string) (nk : NodePrivate)
    (ci : ClientInfo) (u : upstreamTunnel) (tr tr' : list event) :
  openUpstream h st host nk ci tr = (Ok u, tr') → Public nk ≠ NodePublic_zero →
  let '(dialHost, dialPort, useTLS) := upstreamDial h host in
  draining st = false ∧
  ∃ sid input box, net_Dial tr dialHost dialPort useTLS = Ok (sid, up_stream u, input) ∧
    writes tr' = writes tr ++ [(up_stream u, buildUpgradeRequest dialHost);
                               (up_stream u, EncodeFrame FrameClientInfo box)] ∧
    ∀ serverPriv, Public serverPriv = up_serverPub u →
      OpenClientInfo serverPriv box = Ok (Public nk, presented ci).
Proof.
  intros Hr Hz. unfold openUpstream in Hr. destruct (draining st); [by simplify_eq|].
  destruct (upstreamDial h host) as [[dh dp] tls].
  unfold mbind, eff_bind, mret, eff_ret in Hr.
  destruct (net_Dial tr dh dp tls) as [[[sid c] input]|e]; [|by simplify_eq].
  destruct (upstreamLogin dh dp sid c input nk ci _) as [r tr1] eqn:El.
  destruct r as [u'|e]; [|by destruct (ConnClose c tr1)]. injection Hr as -> ->.
  apply upstreamLogin_ok in El as (Hs & _ & nonce & box & Hb & Hw). rewrite Hs. split; [done|].
  exists sid, input, box. split_and!; [done| |].
  - rewrite Hw, writes_app. cbn. by rewrite app_nil_r.
  - intros q Hq. rewrite <-Hq in Hb. by eapply OpenClientInfo_seal.
Qed.

(** An upstream with key 0b accepts the upgrade and the login of the node key 02
    for a client that presents the mesh key 77. *)
Definition toy_open : result upstreamTunnel * list event :=
  @openUpstream toy_keys toy_json toy_addr toy_url toy_reassembler env_capture
    (net_of (Ok ("s2"%string, 100%nat,
      [(to_bytes "HTTP/1.1 101 Switching Protocols", None);
       (EncodeFrame FrameServerKey (ServerKeyPayload (toy_key x0b)), None);
       (EncodeFrame FrameServerInfo (SealTo [] (toy_key x0b) (toy_key x02) [x02; x00; x00]), None)])))
    toy_rand (mkHandler (mkDerpConfig [] ∅ EmptyString EmptyString IdentityShared
      RelayModeRelay DupPolicyLastWriter EmptyString []) "derp" (toy_key x0a) (λ _, Err (ErrNew "")))
    registry0 "derp.example" (toy_key x02) (mkClientInfo 1 [x77] true false) [].

Lemma toy_open_ok :
  match fst toy_open with Ok u => bool_decide (up_serverPub u = toy_key x0b) | Err _ => false end = true.
Proof. vm_compute. reflexivity. Qed.

Lemma openUpstream_login_witness :
  ∃ u box, fst toy_open = Ok u ∧
    (up_stream u, EncodeFrame FrameClientInfo box) ∈ writes (snd toy_open) ∧
    OpenClientInfo (toy_key x0b) box = Ok (toy_key x02, mkClientInfo 2 [x77] true false).
Proof.
  pose proof toy_open_ok as Hok. destruct toy_open as [r tr'] eqn:E. cbn [fst snd] in *.
  destruct r as [u|e]; [|discriminate]. apply bool_decide_eq_true in Hok.
  pose proof (@openUpstream_login toy_keys toy_keys_laws toy_json toy_json_laws toy_disco toy_addr toy_url
    toy_reassembler toy_bulk env_capture _ toy_rand _ _ _ _ _ u [] tr' E
    ltac:(apply (bool_decide_unpack _); vm_compute; reflexivity)) as H.
  destruct (upstreamDial _ _) as [[dh dp] tls]. destruct H as (_ & sid & input & box & _ & Hw & Ho).
  exists u, box. split; [reflexivity|split].
  - rewrite Hw. right. left.
  - apply Ho. symmetry. exact Hok.
Defined.

(** C23: the drain. [Shutdown] closes both connections of every live tunnel and
    the connection of every client the synthetic relay finds by its tunnel, which
    are all of its clients when their tunnel ids are distinct; it closes nothing
    else, and returns exactly how many of the live tunnels were not torn down in
    time. From then on a new stream is closed unserved and no upstream is dialed,
    and the closed relay clients' own removals find nothing left to do. *)
Theorem drain_spec `{NodeKeys} `{DerpJSON} `{Disco} `{Addr} `{URLParse} `{Reassembler} `{BulkLaws}
    `{Env} `{Network} `{!Rand} (h : Handler) (inTime : activeTunnel → bool) (st : hstate) (tr : list event) :
  let '((left_, st'), tr') := Shutdown inTime st tr in
  ∃ new, tr' = tr ++ new ∧ length new = length (closes new) ∧
  (∀ c, c ∈ closes new ↔
     (∃ id t, tunnels (reg st) !! id = Some t ∧ c ∈ at_forceClose t) ∨
     (∃ r t x, relay st = Some r ∧ byTunnel r !! t = Some x ∧ c = conn_of (clients r) x)) ∧
  (∀ r x, relay st = Some r → indexed r → live r x → conn_of (clients r) x ∈ closes new) ∧
  left_ = Z.of_nat (size (filter (λ x : string * activeTunnel, inTime x.2 = false) (tunnels (reg st)))) ∧
  (∀ sc tr2, ServeStream h sc st' tr2 = (st', tr2 ++ [EvClose (sc_conn sc)])) ∧
  (∀ host nk ci tr2, openUpstream h (reg st') host nk ci tr2 = (Err ErrShuttingDown, tr2)) ∧
  (∀ r c tr2, relay st' = Some r → remove c r tr2 = (r, tr2)).
Proof.
  rewrite Shutdown_run. cbv zeta. set (new := map EvClose _). exists new.
  assert (∀ l, closes (map EvClose l) = l) as Hcl.
  { intros l. induction l as [|c l IH]; [done|]. cbn. by f_equal. }
  assert (∀ c, c ∈ closes new ↔
     (∃ id t, tunnels (reg st) !! id = Some t ∧ c ∈ at_forceClose t) ∨
     (∃ r t x, relay st = Some r ∧ byTunnel r !! t = Some x ∧ c = conn_of (clients r) x)) as Hc.
  { intros c. unfold new. rewrite Hcl, elem_of_app. f_equiv; [by apply elem_of_live_conns|].
    destruct (relay st) as [r|]; [rewrite elem_of_relay_conns; naive_solver|].
    split; [by intros ?%elem_of_nil|naive_solver]. }
  split_and!; [done|unfold new; by rewrite Hcl, length_map|exact Hc| |by rewrite left_count|done|done|].
  - intros r x Hr Hix Hx. apply Hc. right. destruct (Hix x Hx) as [t Ht]. eauto 10.
  - intros r c tr2. cbn. destruct (relay st) as [r0|]; [|done]. intros [= <-].
    apply (remove_drained r0).
Qed.

(** A relay-mode handler with one live tunnel over connections 1 and 100, which is
    not torn down in time. *)
Lemma drain_spec_witness :
  let t := @mkActiveTunnel toy_keys "t1" (toy_key x01) [1%nat; 100%nat] 1%nat None EmptyString
    (toy_key x02) (toy_key x03) false "derp.example" in
  let st := mkHstate (registerTunnel "t1" t registry0) None in
  100%nat ∈ closes (snd (@Shutdown toy_keys toy_bulk (λ _, false) st [])) ∧
  fst (fst (@Shutdown toy_keys toy_bulk (λ _, false) st [])) = 1.
Proof.
  intros t st.
  pose proof (@drain_spec toy_keys toy_json toy_disco toy_addr toy_url toy_reassembler toy_bulk
    toy_bulk_laws env_capture (net_of (Err (ErrNew ""))) toy_rand toy_handler (λ _, false) st [])
    as H. destruct (Shutdown _ st []) as [[l st'] tr'].
  destruct H as (new & -> & _ & Hc & _ & Hl & _). cbn [fst snd app]. split.
  - apply Hc. left. exists "t1"%string, t. split; [reflexivity|]. right. left.
  - rewrite Hl. vm_compute. reflexivity.
Defined.
