(* ===== verification/DerpReplay.v ===== *)
(** * DERP sends: [sidescale/derp/replay.go]

    The resolution of the side of a tunnel a frame is sent on, the frame rebuilt
    from a captured message and its mutations, and the flow produced for it. A
    send changes no state of the handler: a fresh upstream lives only inside it. *)

From Stdlib Require Import Init.Byte Strings.Byte Lia ZArith Ascii String.
From stdpp Require Import base option list gmap sets strings.
From S2P Require Import Prelude GoStd NetIP External Instances Adapter Persist DerpProto FrameConn.
From S2P Require Import DerpCapture DerpConfig DerpRelay DerpTunnel.
Open Scope Z_scope.
Open Scope go_scope.

(** [setsHeader] *)
Definition setsHeader (muts : list wire.Mutation) (name : string) : bool :=
  existsb (λ m, bool_decide (wire.Op m = "set_header"%string) && EqualFold (wire.MName m) name) muts.

(** [resolveFrameType]: the type, and whether it matched a named frame. *)
Definition resolveFrameType `{Bulk} (name : string) : result (FrameType * bool) :=
  let '(t, ok) := FrameTypeByName name in
  if ok then Ok (t, true)
  else match ParseUint (TrimPrefix name "FRAME_") 0 8 with
       | (n, NumOk) => Ok (byte_of_Z n, false)
       | _ => Err (ErrFmt "derp inject: unknown frame %q" [name])
       end.

(** [maps.Copy(dst, src)] on annotation maps with distinct keys. *)
Definition maps_Copy (dst src : list (string * wire.any)) : list (string * wire.any) :=
  List.filter (λ kv, negb (bool_decide (fst kv ∈ src.*1))) dst ++ src.

Section replay.
Context `{NodeKeys} `{DerpJSON} `{Disco} `{Addr} `{URLParse} `{Reassembler} `{Bulk} `{Mutations}
  `{Env} `{Network} `{!Rand}.

(** [fr] keeps the connection the frame is written to. *)
Record sendTarget := mkSendTarget {
  tg_flowID : string;
  tg_dir : string;
  tg_fr : connid;
  tg_clientKey : NodePublic;
  tg_nodeKey : NodePrivate;
  tg_upstreamPub : NodePublic;
  tg_mesh : bool;
  tg_cleanup : option (eff unit)
}.

Definition soleDerpHost (h : Handler) : option string :=
  match DerpHosts (cfg h) with
  | [host] => Some (fst (addr_Parse host "https"))
  | _ => None
  end.

Definition freshInfo : ClientInfo := mkClientInfo ProtocolVersion [] false false.

Definition freshCleanup (up : upstreamTunnel) (tunnelID : string) (captured : bool) : eff unit :=
  _ ← up_close up; if captured then CompleteFlow tunnelID else mret tt.

Definition openFreshUpstream (h : Handler) (st : registry) (host : string) : eff (result sendTarget) :=
  nodeKey ← NewNode;
  up ←? openUpstream h st host nodeKey freshInfo;
  env ← emitTunnelEnvelope h (mkEnvelope "" (up_streamID up) "" (up_addr up) NodePublic_zero freshInfo
          (Some (up_serverInfo up)) (up_serverPub up) (Public nodeKey) RelayModeRelay);
  match env with
  | Err e => _ ← up_close up; mret (Err e)
  | Ok (tunnelID, captured) =>
      mret (Ok (mkSendTarget tunnelID DirClientToServer (fc_conn (up_fr up)) NodePublic_zero nodeKey
                  (up_serverPub up) false (Some (freshCleanup up tunnelID captured))))
  end.

Definition resolveTerminate (r : syntheticRelay) (tunnelID dir : string) : result sendTarget :=
  if bool_decide (dir = DirClientToServer) then
    Err (ErrNew "derp: client_to_server send has no upstream under terminate mode")
  else if bool_decide (tunnelID = EmptyString) then
    Err (ErrNew "derp: tunnel_id required to target a terminate-mode client")
  else match byTunnelID tunnelID r ≫= (clients r !!.) with
       | None => Err (ErrFmt "derp: no registered client for tunnel %q" [tunnelID])
       | Some rc => Ok (mkSendTarget tunnelID DirServerToClient (fr rc) (clientKey rc)
                          NodePrivate_zero NodePublic_zero (mesh rc) None)
       end.

Definition resolveLive (at_ : activeTunnel) (tunnelID dir : string) : result sendTarget :=
  match (if bool_decide (dir = DirServerToClient) then Some (at_clientFr at_) else at_upstreamF at_) with
  | None => Err (ErrFmt "derp: tunnel %q has no %s side" [tunnelID; dir])
  | Some fr => Ok (mkSendTarget tunnelID dir fr (at_clientKey at_) (at_nodeKey at_) (at_upstreamPub at_)
                     (at_mesh at_) None)
  end.

Definition resolveSide (h : Handler) (st : hstate) (tunnelID dir : string) (allowFresh : bool)
    : eff (result sendTarget) :=
  match relay st with
  | Some r => mret (resolveTerminate r tunnelID dir)
  | None =>
      match getTunnel tunnelID (reg st) with
      | Some at_ => mret (resolveLive at_ tunnelID dir)
      | None =>
          if bool_decide (dir = DirServerToClient) then
            mret (Err (ErrFmt "derp: tunnel %q not live, server_to_client send needs a live client" [tunnelID]))
          else if negb allowFresh then mret (Err (ErrFmt "derp: tunnel %q not found" [tunnelID]))
          else match retainedTunnelHost tunnelID (reg st) with
               | Some host => openFreshUpstream h (reg st) host
               | None =>
                   match soleDerpHost h with
                   | Some host => openFreshUpstream h (reg st) host
                   | None => mret (Err (ErrNew
                       "derp: no live tunnel and no single derp host to open a fresh upstream"))
                   end
               end
      end
  end.

(** ** The sent frame *)

Definition unheld_key_ann : list (string * wire.any) :=
  [("binding", wire.AnyString "derp_node_key"); ("reason", wire.AnyString "unheld_node_private_key")]%string.

Definition fold_body (m : wire.FlowMessage) : wire.FlowMessage :=
  if 0 <? len (wire.Body m) then
    wire.mkFlowMessage (wire.Method m) (wire.Path m) (wire.Query m) (wire.StatusCode m) (wire.Headers m)
      [] (Some (wire.Body m)) (wire.Codec m)
  else m.

(** The payload, the annotation of a node key that is not held, and the message
    to record; [nonce] is the one a re-seal draws. *)
Definition reframePayload (h : Handler) (nonce : bytes) (tgt : sendTarget) (t : FrameType)
    (m : wire.FlowMessage) (muts : list wire.Mutation)
    : result (bytes * list (string * wire.any) * wire.FlowMessage) :=
  match t with
  | FrameClientInfo =>
      if NodePrivate_IsZero (tg_nodeKey tgt) then
        Err (ErrNew "derp: CLIENT_INFO replay requires a relay upstream")
      else match unmarshal_ci (wire.Body m) with
      | Err e => Err (ErrWrap "derp: CLIENT_INFO body: %w" [] e)
      | Ok ci =>
          match ClientInfoPayload nonce (tg_nodeKey tgt) (tg_upstreamPub tgt) ci with
          | Err e => Err e
          | Ok payload =>
              let ann :=
                if setsHeader muts "X-Derp-Node-Key" &&
                   negb (bool_decide (headerValue (wire.Headers m) "X-Derp-Node-Key"
                                      = NodePublic_String (Public (tg_nodeKey tgt))))
                then unheld_key_ann else [] in
              Ok (payload, ann, m)
          end
      end
  | FrameServerInfo =>
      match unmarshal_si (wire.Body m) with
      | Err e => Err (ErrWrap "derp: SERVER_INFO body: %w" [] e)
      | Ok si =>
          match ServerInfoPayload nonce (serverKey h) (tg_clientKey tgt) si with
          | Err e => Err e
          | Ok payload => Ok (payload, [], m)
          end
      end
  | FrameSendPacket | FrameRecvPacket | FrameForwardPacket =>
      let m := fold_body m in Ok (encodePayload (frameFromMessage m t), [], m)
  | _ => Ok (encodePayload (frameFromMessage m t), [], m)
  end.

Definition emitProduced (tgt : sendTarget) (m : wire.FlowMessage) (parentFlowID : string)
    (ann : list (string * wire.any)) : eff (result wire.SidecarSendResult) :=
  now ← Now;
  r ← PushFlow (setMessage (wire.mkFlow frameProtocolTag (tg_dir tgt) parentFlowID None None ann now (Some now))
                  (tg_dir tgt) m);
  mret (match r with
        | Err e => Err e
        | Ok (id, _) =>
            Ok (wire.mkSendResult (if bool_decide (id = EmptyString) then [] else [id]) None)
        end).

Definition reframeBody (h : Handler) (tgt : sendTarget) (msg : wire.FlowMessage)
    (muts : list wire.Mutation) (parentFlowID : string) (ann : list (string * wire.any))
    : eff (result wire.SidecarSendResult) :=
  m ←? mret (ApplyMutations msg muts);
  '(t, _) ←? mret (resolveFrameType (wire.Method m));
  nonce ← Nonce;
  '(payload, extra, m) ←? mret (reframePayload h nonce tgt t m muts);
  w ← ConnWrite (tg_fr tgt) (EncodeFrame t payload);
  match w with
  | Some e => mret (Err e)
  | None => emitProduced tgt m parentFlowID
              (if (length extra =? 0)%nat then ann else maps_Copy ann extra)
  end.

Definition reframeAndSend (h : Handler) (tgt : sendTarget) (msg : wire.FlowMessage)
    (muts : list wire.Mutation) (parentFlowID : string) (ann : list (string * wire.any))
    : eff (result wire.SidecarSendResult) :=
  match tg_cleanup tgt with
  | Some cleanup => deferred cleanup (reframeBody h tgt msg muts parentFlowID ann)
  | None => reframeBody h tgt msg muts parentFlowID ann
  end.

Definition replay (h : Handler) (st : hstate) (p : wire.SidecarSendParams)
    : eff (result wire.SidecarSendResult) :=
  match wire.sp_Flow p with
  | None => mret (Err (ErrNew "derp replay: source flow not inlined"))
  | Some src =>
      let dir := wire.Direction src in
      let msg := if bool_decide (dir = DirServerToClient) then wire.Response src else wire.Request src in
      match msg with
      | None => mret (Err (ErrNew "derp replay: source flow has no frame to replay"))
      | Some msg =>
          tgt ←? resolveSide h st (wire.ParentFlowID src) dir true;
          reframeAndSend h tgt msg (wire.sp_Mutations p) (wire.sp_FlowID p) []
      end
  end.
End replay.
