(* ===== verification/DerpInject.v ===== *)
(** * DERP injection: [sidescale/derp/injection.go] and [OnSidecarSend]

    A frame originated from an injection request: its type, its side, its typed
    fields, and the send they are handed to. *)

From Stdlib Require Import Init.Byte Strings.Byte Lia ZArith Ascii String.
From stdpp Require Import base option list gmap sets strings.
From S2P Require Import Prelude GoStd NetIP External Instances Adapter Persist DerpProto FrameConn.
From S2P Require Import DerpCapture DerpConfig DerpRelay DerpTunnel DerpReplay.
Open Scope Z_scope.
Open Scope go_scope.

Definition InjectToolName : string := "derp_inject".

(** The fields of the request, in the order of the source. *)
Record injectionRequest := mkInjection {
  TunnelID : string;
  Frame : string;
  Direction : string;
  SrcKey : string;
  DstKey : string;
  PeerKey : string;
  Reason : Z;
  ir_Flags : Z;
  ir_IPPort : string;
  ir_AppName : string;
  Home : bool;
  ReconnectMs : Z;
  TryForMs : Z;
  ir_Body : string;
  ir_Mutations : list wire.Mutation
}.

(** [json.Unmarshal] into an [injectionRequest]. *)
Class InjectJSON := { unmarshal_injection : bytes → result injectionRequest }.

Definition defaultDirs : gmap FrameType string := list_to_map
  [(FrameRecvPacket, DirServerToClient); (FramePeerGone, DirServerToClient);
   (FramePeerPresent, DirServerToClient); (FrameHealth, DirServerToClient);
   (FrameRestarting, DirServerToClient); (FramePing, DirServerToClient);
   (FramePong, DirServerToClient); (FrameSendPacket, DirClientToServer);
   (FrameNotePreferred, DirClientToServer); (FrameWatchConns, DirClientToServer);
   (FrameClosePeer, DirClientToServer)].

(** ** The typed fields *)

Section fields.
Context `{NodeKeys} `{Disco}.

Definition nodeKeyHeader (name value : string) : result wire.Header :=
  if bool_decide (value = EmptyString) then Err (ErrFmt "derp inject: %s required" [name])
  else let '(k, ok) := NodePublic_UnmarshalText value in
       if ok then Ok (hdr name (NodePublic_String k))
       else Err (ErrFmt "derp inject: invalid %s %q: %w" [name; value]).

Definition b64_or_err (body : string) : result bytes :=
  let '(b, ok) := b64_decode body in if ok then Ok b else Err (ErrNew "illegal base64 data").

Definition packetFields (t : FrameType) (keyHeader keyValue body : string) : result frameFields :=
  kh ← nodeKeyHeader keyHeader keyValue;
  payload ← b64_or_err body;
  Ok (mkFrameFields t (kh :: packetMetaHeaders payload) [] (Some payload) None).


Definition peerPresentTail (ir : injectionRequest) : result (option bytes) :=
  if (ir_Flags ir =? 0) && bool_decide (ir_IPPort ir = EmptyString) && bool_decide (ir_AppName ir = EmptyString)
  then Ok None
  else if (ir_Flags ir <? 0) || (255 <? ir_Flags ir) then
    Err (ErrFmt "derp inject: flags %d does not fit one byte" [Itoa (ir_Flags ir)])
  else
    ipPort ← (if bool_decide (ir_IPPort ir = EmptyString) then Ok AddrPort_zero
              else match ParseAddrPort (ir_IPPort ir) with
                   | None => Err (ErrFmt "derp inject: invalid ip_port %q: %w" [ir_IPPort ir])
                   | Some ap => Ok ap
                   end);
    match BuildPeerPresentTail ipPort (byte_of_Z (ir_Flags ir)) (to_bytes (ir_AppName ir)) with
    | Err e => Err (ErrWrap "derp inject: %w" [] e)
    | Ok tail => Ok (Some tail)
    end.

Definition with_headers (t : FrameType) (hs : list wire.Header) : frameFields :=
  mkFrameFields t hs [] None None.

Definition buildFrameFields (t : FrameType) (known : bool) (ir : injectionRequest) : result frameFields :=
  if negb known then
    body ← b64_or_err (ir_Body ir); Ok (mkFrameFields t [] [] (Some body) None)
  else
  match t with
  | FrameRecvPacket => packetFields t "X-Derp-Src-Key" (SrcKey ir) (ir_Body ir)
  | FrameSendPacket => packetFields t "X-Derp-Dst-Key" (DstKey ir) (ir_Body ir)
  | FramePeerGone =>
      peer ← nodeKeyHeader "X-Derp-Peer-Key" (PeerKey ir);
      Ok (with_headers t [peer; hdr "X-Derp-Peer-Gone-Reason" (Itoa (Reason ir))])
  | FramePeerPresent =>
      peer ← nodeKeyHeader "X-Derp-Peer-Key" (PeerKey ir);
      tail ← peerPresentTail ir;
      Ok (with_headers t (peer ::
            (let tl := default [] tail in
             if 0 <? len tl then [hdr "X-Derp-Peer-Present-Tail" (b64_encode tl)] else [])))
  | FrameHealth => Ok (mkFrameFields t [] (to_bytes (ir_Body ir)) None None)
  | FrameRestarting =>
      Ok (with_headers t [hdr "X-Derp-Reconnect-Ms" (FormatUint (ReconnectMs ir));
                          hdr "X-Derp-Try-For-Ms" (FormatUint (TryForMs ir))])
  | FramePing | FramePong => Ok (with_headers t [hdr "X-Derp-Ping-Token" (ir_Body ir)])
  | FrameNotePreferred => Ok (with_headers t [hdr "X-Derp-Home" (FormatBool (Home ir))])
  | FrameClosePeer =>
      peer ← nodeKeyHeader "X-Derp-Peer-Key" (PeerKey ir); Ok (with_headers t [peer])
  | FrameWatchConns => Ok (fields0 t)
  | _ => Err (ErrFmt "derp inject: frame %q not injectable" [Frame ir])
  end.
End fields.

(** ** The injection *)

Section inject.
Context `{NodeKeys} `{DerpJSON} `{Disco} `{Addr} `{URLParse} `{Reassembler} `{Bulk} `{Mutations}
  `{Env} `{Network} `{!Rand} `{InjectJSON}.

Definition parseInjection (raw : bytes) : result injectionRequest :=
  if (length raw =? 0)%nat then Err (ErrNew "derp inject: empty payload")
  else match unmarshal_injection raw with
       | Err e => Err (ErrWrap "derp inject: parse payload: %w" [] e)
       | Ok ir => if bool_decide (Frame ir = EmptyString) then Err (ErrNew "derp inject: frame required")
                  else Ok ir
       end.

Definition injectDir (t : FrameType) (ir : injectionRequest) : result string :=
  dir ← (if bool_decide (Direction ir = EmptyString) then
           match defaultDirs !! t with
           | None => Err (ErrFmt "derp inject: direction required for frame %q" [Frame ir])
           | Some d => Ok d
           end
         else Ok (Direction ir));
  if negb (bool_decide (dir = DirClientToServer)) && negb (bool_decide (dir = DirServerToClient))
  then Err (ErrFmt "derp inject: invalid direction %q" [dir])
  else Ok dir.

Definition mesh_frame (t : FrameType) : bool :=
  bool_decide (t = FrameWatchConns) || bool_decide (t = FrameClosePeer).

Definition injectFrame (h : Handler) (st : hstate) (ir : injectionRequest)
    : eff (result wire.SidecarSendResult) :=
  '(t, known) ←? mret (resolveFrameType (Frame ir));
  dir ←? mret (injectDir t ir);
  f ←? mret (buildFrameFields t known ir);
  tgt ←? resolveSide h st (TunnelID ir) dir true;
  if mesh_frame t && negb (tg_mesh tgt) then
    _ ← (match tg_cleanup tgt with Some cleanup => cleanup | None => mret tt end);
    mret (Err (ErrNew "derp inject: mesh frame requires a mesh tunnel"))
  else
    reframeAndSend h tgt (frameMessage t f) (ir_Mutations ir) "" [(AnnInjected, wire.AnyBool true)].

Definition inject (h : Handler) (st : hstate) (p : wire.SidecarSendParams)
    : eff (result wire.SidecarSendResult) :=
  let payload := if (length (wire.sp_Payload p) =? 0)%nat then wire.sp_Target p else wire.sp_Payload p in
  ir ←? mret (parseInjection payload);
  injectFrame h st ir.

Definition OnSidecarSend (h : Handler) (st : hstate) (p : wire.SidecarSendParams)
    : eff (result wire.SidecarSendResult) :=
  match wire.sp_Flow p with
  | None => if bool_decide (wire.sp_FlowID p = EmptyString) then inject h st p else replay h st p
  | Some _ => replay h st p
  end.

(** ** The tool *)

Definition injectSummary (ir : injectionRequest) (ids : list string) : string :=
  let target := if bool_decide (TunnelID ir = EmptyString) then "a fresh tunnel"%string
                else ("tunnel " ++ TunnelID ir)%string in
  ("Injected " ++ Frame ir ++ " into " ++ target ++ ", produced flow(s): " ++ String.concat ", " ids)%string.

(** The JSON object of a tool's result: an error text, or a summary and the ids. *)
Inductive toolResult :=
  | ToolError (e : error)
  | ToolSummary (summary : string) (new_flow_ids : list string).

Definition OnInvokeTool (h : Handler) (st : hstate) (name : string) (arguments : bytes)
    : eff (result toolResult) :=
  if negb (bool_decide (name = InjectToolName)) then
    mret (Err (ErrFmt "invoke_tool: unknown tool %q" [name]))
  else
    match parseInjection arguments with
    | Err e => mret (Ok (ToolError e))
    | Ok ir =>
        res ← injectFrame h st ir;
        mret (Ok (match res with
                  | Err e => ToolError e
                  | Ok r => ToolSummary (injectSummary ir (wire.NewFlowIDs r)) (wire.NewFlowIDs r)
                  end))
    end.
End inject.
