(* ===== verification/DerpSendSpec.v ===== *)
(** * DERP replay and injection: properties *)

From Stdlib Require Import Init.Byte Strings.Byte Lia ZArith Ascii String.
From stdpp Require Import base option list fin_maps gmap sets strings.
From S2P Require Import Prelude GoStd NetIP External Instances Adapter Persist DerpProto FrameConn.
From S2P Require Import DerpCapture DerpConfig DerpRelay DerpRelaySpec DerpTunnel DerpTunnelSpec.
From S2P Require Import DerpReplay DerpInject.
Open Scope Z_scope.
Open Scope go_scope.

(** ** Frame names *)

Lemma byte_check (f : Byte.byte → bool) :
  forallb (λ z, f (byte_of_Z z)) (seqZ 0 256) = true → ∀ b, f b = true.
Proof.
  intros Hf b. rewrite <-(byte_of_Z_of_byte b). pose proof (Z_of_byte_bound b).
  apply (seqZ_check (λ z, f (byte_of_Z z)) 0 256 Hf). lia.
Qed.

(** An unknown type's name is no frame's name, and its hex digits parse back. *)
Lemma unknown_name t :
  frameNames !! t = None →
  (∀ t', frameNames !! t' ≠ Some (FrameName t)) ∧
  ParseUint (TrimPrefix (FrameName t) "FRAME_") 0 8 = (Z_of_byte t, NumOk).
Proof.
  intros Ht.
  assert (match frameNames !! t with
          | Some _ => true
          | None => negb (bool_decide (FrameName t ∈ (map_to_list frameNames).*2)) &&
              bool_decide (fst (ParseUint (TrimPrefix (FrameName t) "FRAME_") 0 8) = Z_of_byte t) &&
              match snd (ParseUint (TrimPrefix (FrameName t) "FRAME_") 0 8) with NumOk => true | _ => false end
          end = true) as Hc.
  { clear Ht. revert t. apply (byte_check (λ t, match frameNames !! t with Some _ => _ | None => _ end)).
    vm_compute. reflexivity. }
  rewrite Ht, !andb_true_iff, negb_true_iff, bool_decide_eq_false, bool_decide_eq_true in Hc.
  destruct Hc as [[Hn Hp] Hs]. split.
  - intros t' Ht'. apply Hn, list_elem_of_fmap. exists (t', FrameName t). split; [done|].
    by apply elem_of_map_to_list.
  - destruct (ParseUint _ _ _) as [n []]; [|done..]. cbn in Hp. by subst.
Qed.

(** A frame's name always resolves to its type, named or not. *)
Lemma resolveFrameType_name `{BulkLaws} t :
  resolveFrameType (FrameName t) = Ok (t, bool_decide (is_Some (frameNames !! t))).
Proof.
  unfold resolveFrameType. destruct (frameNames !! t) as [n|] eqn:E.
  - assert (FrameName t = n) as -> by (unfold FrameName; by rewrite E).
    by rewrite (FrameTypeByName_known t n E).
  - destruct (unknown_name t E) as [Hn Hp]. rewrite (FrameTypeByName_unknown _ Hn), Hp.
    by rewrite byte_of_Z_of_byte.
Qed.

(** ** Sending *)

Section send.
Context `{NodeKeysLaws} `{DerpJSON} `{Disco} `{Addr} `{URLParse} `{Reassembler} `{BulkLaws} `{Mutations}
  `{Env} `{Network} `{!Rand}.

(** The connection of the client of a tunnel: relay mode, then terminate mode. *)
Inductive client_side (st : hstate) (id : string) : connid → Prop :=
  | side_relay at_ :
      relay st = None → tunnels (reg st) !! id = Some at_ → client_side st id (at_clientFr at_)
  | side_terminate r x rc :
      relay st = Some r → id ≠ EmptyString → byTunnel r !! id = Some x → clients r !! x = Some rc →
      client_side st id (fr rc).

Lemma resolveSide_client h st id c tr :
  client_side st id c →
  ∃ tgt, resolveSide h st id DirServerToClient true tr = (Ok tgt, tr) ∧
    tg_fr tgt = c ∧ tg_dir tgt = DirServerToClient ∧ tg_cleanup tgt = None.
Proof.
  unfold resolveSide. intros [at_ Hr Ht|r x rc Hr Hne Hb Hc]; rewrite Hr.
  - unfold getTunnel. rewrite Ht. by eexists.
  - unfold resolveTerminate, byTunnelID. rewrite (bool_decide_false (id = EmptyString)) by done.
    rewrite Hb. cbn. rewrite Hc. by eexists.
Qed.

(** A frame that needs no re-seal, sent and recorded. *)
Lemma reframeBody_run h tgt msg muts parent ann tr m t payload m' :
  ApplyMutations msg muts = Ok m → wire.Method m = FrameName t →
  (∀ nonce, reframePayload h nonce tgt t m muts = Ok (payload, [], m')) →
  let '(r, tr') := reframeBody h tgt msg muts parent ann tr in
  writes tr' = writes tr ++ [(tg_fr tgt, EncodeFrame t payload)] ∧
  match env_Write tr (tg_fr tgt) (EncodeFrame t payload) with
  | Some e => r = Err e ∧ pushes tr' = pushes tr
  | None => ∃ now, pushes tr' = pushes tr ++ [setMessage
      (wire.mkFlow frameProtocolTag (tg_dir tgt) parent None None ann now (Some now)) (tg_dir tgt) m']
  end.
Proof.
  intros Hm Hn Hp. unfold reframeBody, ebind, mbind, eff_bind, mret, eff_ret, Nonce, ConnWrite.
  rewrite Hm, Hn, resolveFrameType_name, Hp. cbv zeta.
  destruct (env_Write tr _ _) as [e|].
  - rewrite writes_app, pushes_app. cbn. by rewrite app_nil_r.
  - cbn [length Nat.eqb]. unfold emitProduced, mbind, eff_bind, Now, PushFlow, mret, eff_ret.
    rewrite !writes_app, !pushes_app. cbn. rewrite !app_nil_r. split; [done|]. by eexists.
Qed.

(** The message with its text body replaced: what a body mutation produces. *)
Definition edit_Body (m : wire.FlowMessage) (b : bytes) : wire.FlowMessage :=
  wire.mkFlowMessage (wire.Method m) (wire.Path m) (wire.Query m) (wire.StatusCode m) (wire.Headers m)
    b (wire.BodyRaw m) (wire.Codec m).

Definition captured_message (t : FrameType) (p : bytes) : wire.FlowMessage :=
  frameMessage t (decodeFrame t (Some p)).

Lemma captured_message_name t p : wire.Method (captured_message t p) = FrameName t.
Proof. unfold captured_message, frameMessage. by case_match. Qed.

Lemma captured_packet_body t p :
  t ∈ [FrameSendPacket; FrameRecvPacket; FrameForwardPacket] →
  wire.Body (captured_message t p) = [] ∧ is_Some (wire.BodyRaw (captured_message t p)).
Proof.
  unfold captured_message. intros Ht. rewrite !elem_of_cons, elem_of_nil in Ht.
  destruct Ht as [->|[->|[->|[]]]]; cbn [decodeFrame]; case_match; by split.
Qed.

Lemma reframe_unedited h nonce tgt t p muts :
  t ≠ FrameClientInfo → t ≠ FrameServerInfo →
  reframePayload h nonce tgt t (captured_message t p) muts = Ok (resent t p, [], captured_message t p).
Proof.
  intros Hc Hs.
  assert (encodePayload (frameFromMessage (captured_message t p) t) = resent t p) as He.
  { destruct (decodeFrame_shape t (Some p)) as (Ht & Hraw & _).
    unfold captured_message. rewrite frameFromMessage_frameMessage by done. apply recode_spec. }
  assert (t ∈ [FrameSendPacket; FrameRecvPacket; FrameForwardPacket] →
    fold_body (captured_message t p) = captured_message t p) as Hf.
  { intros Ht. unfold fold_body. by destruct (captured_packet_body t p Ht) as [-> _]. }
  unfold reframePayload. destruct t; try done; rewrite ?Hf, ?He; try done;
    rewrite !elem_of_cons; tauto.
Qed.

Lemma replay_client h st p src msg c tr :
  wire.sp_Flow p = Some src → wire.Direction src = DirServerToClient → wire.Response src = Some msg →
  client_side st (wire.ParentFlowID src) c →
  ∃ tgt, replay h st p tr = reframeBody h tgt msg (wire.sp_Mutations p) (wire.sp_FlowID p) [] tr ∧
    tg_fr tgt = c ∧ tg_dir tgt = DirServerToClient.
Proof.
  intros Hf Hd Hm Hc. destruct (resolveSide_client h st _ c tr Hc) as (tgt & Hr & Ht & Hdir & Hcl).
  exists tgt. unfold replay. rewrite Hf, Hd. cbv zeta. rewrite bool_decide_true by done.
  rewrite Hm. unfold ebind, mbind, eff_bind. rewrite Hr. unfold reframeAndSend. by rewrite Hcl.
Qed.

(** What is sent for a captured frame whose text body was replaced by [b]. *)
Definition edited (t : FrameType) (p b : bytes) : bytes :=
  match t with
  | FrameSendPacket | FrameRecvPacket => (if 32 <=? len p then take 32 p else []) ++ b
  | FrameForwardPacket => (if 64 <=? len p then take 64 p else []) ++ b
  | FrameHealth => b
  | _ => resent t p
  end.

Lemma encode_packet_edit t p b :
  t = FrameSendPacket ∨ t = FrameRecvPacket →
  encodePayload (mkFrameFields t (headers (decodeFrame t (Some p))) [] (Some b) None) = edited t p b.
Proof.
  intros [-> | ->]; unfold edited, encodePayload; cbn [decodeFrame default id typ headers bodyRaw];
    unfold NodePublicRawLen; (destruct (Z.leb_spec 32 (len p)) as [Hle|]; [|reflexivity]); cbn [headers];
    try change (packetKeyHdr FrameSendPacket) with "X-Derp-Dst-Key"%string;
    try change (packetKeyHdr FrameRecvPacket) with "X-Derp-Src-Key"%string; lookups;
    (erewrite rawKey_of; [|lookups; reflexivity]);
    by rewrite raw_key0 by (unfold NodePublicRawLen; lia).
Qed.

Lemma encode_forward_edit p b :
  encodePayload (mkFrameFields FrameForwardPacket (headers (decodeFrame FrameForwardPacket (Some p)))
    [] (Some b) None) = edited FrameForwardPacket p b.
Proof.
  unfold edited, encodePayload; cbn [decodeFrame default id typ headers bodyRaw].
  unfold NodePublicRawLen. change (2 * 32) with 64.
  destruct (Z.leb_spec 64 (len p)) as [Hle|]; [|reflexivity]. cbn [headers]. lookups.
  erewrite (rawKey_of _ "X-Derp-Src-Key"); [|lookups; reflexivity].
  erewrite (rawKey_of _ "X-Derp-Dst-Key"); [|lookups; reflexivity].
  rewrite !raw_keyAt by (unfold NodePublicRawLen; lia).
  change (take 32 p ++ take 32 (drop 32 p) ++ b = take 64 p ++ b).
  change 64%nat with (32 + 32)%nat. by rewrite <-take_take_drop, <-app_assoc.
Qed.

(** Only HEALTH is encoded from its text body. *)
Lemma encode_ignores_body f b :
  typ f ≠ FrameHealth →
  encodePayload (mkFrameFields (typ f) (headers f) b (bodyRaw f) (tail f)) = encodePayload f.
Proof. intros Ht. unfold encodePayload. cbn [typ headers bodyRaw tail]. by destruct (typ f). Qed.

(** The message recorded for an edited frame: a packet's new body is opaque. *)
Definition recorded (t : FrameType) (p b : bytes) : wire.FlowMessage :=
  if bool_decide (t ∈ [FrameSendPacket; FrameRecvPacket; FrameForwardPacket])
  then fold_body (edit_Body (captured_message t p) b) else edit_Body (captured_message t p) b.

Lemma fold_edit t p b :
  b ≠ [] → frameFromMessage (fold_body (edit_Body (captured_message t p) b)) t
    = mkFrameFields t (headers (decodeFrame t (Some p))) [] (Some b) None.
Proof.
  intros Hb. unfold fold_body, frameFromMessage. cbn [edit_Body wire.Body].
  destruct (Z.ltb_spec 0 (len b)) as [_|Hl]; [|destruct b; cbn in Hl; [done|lia]].
  cbn. f_equal. unfold captured_message, frameMessage. by case_match.
Qed.

Lemma reframe_edited h nonce tgt t p b muts :
  b ≠ [] → t ≠ FrameClientInfo → t ≠ FrameServerInfo →
  reframePayload h nonce tgt t (edit_Body (captured_message t p) b) muts
    = Ok (edited t p b, [], recorded t p b).
Proof.
  intros Hb Hc Hs. unfold recorded. case_bool_decide as Hin.
  - rewrite !elem_of_cons, elem_of_nil in Hin.
    destruct Hin as [->|[->|[->|[]]]]; cbn [reframePayload]; rewrite fold_edit by done;
      rewrite ?encode_forward_edit, ?encode_packet_edit by auto; done.
  - assert (reframePayload h nonce tgt t (edit_Body (captured_message t p) b) muts
      = Ok (encodePayload (frameFromMessage (edit_Body (captured_message t p) b) t), [],
            edit_Body (captured_message t p) b)) as ->.
    { unfold reframePayload. destruct t; try done; destruct Hin; rewrite !elem_of_cons; tauto. }
    do 2 f_equal. f_equal. destruct (decide (t = FrameHealth)) as [->|Ht]; [done|].
    destruct (decodeFrame_shape t (Some p)) as (Hty & Hraw & _).
    transitivity (resent t p).
    + rewrite <-recode_spec. unfold recode. rewrite <-(frameFromMessage_frameMessage t) by done.
      by apply (encode_ignores_body (frameFromMessage (captured_message t p) t) b).
    + unfold edited. destruct t; try done; destruct Hin; rewrite !elem_of_cons; tauto.
Qed.
End send.

(** ** Injected frames *)

Section injected.
Context `{NodeKeysLaws} `{Disco}.

(** The widths of the request's integers. *)
Definition ir_ok (ir : injectionRequest) : Prop :=
  min_int ≤ Reason ir ≤ max_int ∧ 0 ≤ ReconnectMs ir < 2 ^ 32 ∧ 0 ≤ TryForMs ir < 2 ^ 32.

Definition key_bytes (text : string) : bytes := NodePublic_raw (fst (NodePublic_UnmarshalText text)).

(** The payload of an injected frame. A type given in hex carries the body, unless
    it is the number of a typed frame that is not a packet: then the frame is
    encoded from no headers. *)
Definition injected (t : FrameType) (known : bool) (ir : injectionRequest) : bytes :=
  if known then
    match t with
    | FrameRecvPacket => key_bytes (SrcKey ir) ++ fst (b64_decode (ir_Body ir))
    | FrameSendPacket => key_bytes (DstKey ir) ++ fst (b64_decode (ir_Body ir))
    | FramePeerGone => key_bytes (PeerKey ir) ++ [byte_of_Z (Reason ir)]
    | FramePeerPresent => key_bytes (PeerKey ir) ++
        match peerPresentTail ir with Ok (Some tl) => tl | _ => [] end
    | FrameHealth => to_bytes (ir_Body ir)
    | FrameRestarting => be_PutUint32 (ReconnectMs ir) ++ be_PutUint32 (TryForMs ir)
    | FramePing | FramePong => fst (b64_decode (ir_Body ir))
    | FrameNotePreferred => if Home ir then [x01] else [x00]
    | FrameClosePeer => key_bytes (PeerKey ir)
    | _ => []
    end
  else
    match t with
    | FramePeerGone => NodePublic_raw NodePublic_zero ++ [x00]
    | FramePeerPresent | FrameClosePeer => NodePublic_raw NodePublic_zero
    | FrameRestarting => repeat x00 8
    | FrameNotePreferred => [x00]
    | FramePing | FramePong | FrameHealth | FrameKeepAlive | FrameWatchConns => []
    | _ => fst (b64_decode (ir_Body ir))
    end.

Lemma nodeKeyHeader_ok name v h :
  nodeKeyHeader name v = Ok h →
  ∃ k, NodePublic_UnmarshalText v = (k, true) ∧ h = wire.mkHeader name (NodePublic_String k).
Proof.
  unfold nodeKeyHeader. case_bool_decide; [done|].
  destruct (NodePublic_UnmarshalText v) as [k []]; [|done]. intros [= <-]. by exists k.
Qed.

Lemma b64_or_err_ok s b : b64_or_err s = Ok b → fst (b64_decode s) = b.
Proof. unfold b64_or_err. destruct (b64_decode s) as [b' []]; [|done]. by intros [= ->]. Qed.

Lemma inject_packet t ir f name v :
  t = FrameRecvPacket ∨ t = FrameSendPacket → name = packetKeyHdr t →
  packetFields t name v (ir_Body ir) = Ok f →
  encodePayload (frameFromMessage (frameMessage t f) t) = key_bytes v ++ fst (b64_decode (ir_Body ir)).
Proof.
  intros Ht -> Hf. unfold packetFields, mbind, result_bind in Hf.
  destruct (nodeKeyHeader _ _) as [kh|] eqn:Ek; [|done].
  apply nodeKeyHeader_ok in Ek as (k & Hk & ->).
  destruct (b64_or_err (ir_Body ir)) as [b|] eqn:Eb; [|done]. apply b64_or_err_ok in Eb.
  injection Hf as <-. unfold key_bytes. rewrite Hk, Eb.
  destruct Ht as [-> | ->]; unfold frameFromMessage, frameMessage, encodePayload; cbn [typ headers bodyRaw
    wire.Headers wire.BodyRaw default];
    try change (packetKeyHdr FrameSendPacket) with "X-Derp-Dst-Key"%string;
    try change (packetKeyHdr FrameRecvPacket) with "X-Derp-Src-Key"%string; lookups;
    by (erewrite rawKey_of; [|lookups; reflexivity]).
Qed.

Lemma inject_known t ir f :
  ir_ok ir → buildFrameFields t true ir = Ok f →
  encodePayload (frameFromMessage (frameMessage t f) t) = injected t true ir.
Proof.
  intros (Hr & Hre & Htr) Hf. unfold buildFrameFields in Hf. cbn [negb] in Hf.
  unfold mbind, result_bind in Hf.
  destruct t; try discriminate Hf; cbn [injected].
  all: try (eapply inject_packet in Hf; [exact Hf|by auto|reflexivity]).
  all: repeat match type of Hf with
    | context [nodeKeyHeader ?n ?v] => destruct (nodeKeyHeader n v) as [kh|] eqn:Ek; [|discriminate Hf];
        apply nodeKeyHeader_ok in Ek as (k & Hk & ->)
    | context [peerPresentTail ?r] => destruct (peerPresentTail r) as [tl|] eqn:Et; [|discriminate Hf]
    end; injection Hf as <-;
    unfold frameFromMessage, frameMessage, with_headers, fields0, encodePayload;
    cbn [typ headers bodyRaw body wire.Headers wire.BodyRaw wire.Body default tail]; try reflexivity.
  all: unfold key_bytes; rewrite ?Hk; lookups.
  - by destruct (Home ir).
  - erewrite rawKey_of; [|lookups; reflexivity]. by rewrite Atoi_Itoa by lia.
  - erewrite rawKey_of; [|lookups; reflexivity]. f_equal.
    destruct tl as [[|x tl]|]; [done| |done].
    change (0 <? len (default [] (Some (x :: tl)))) with true. cbv iota. lookups.
    by rewrite b64_roundtrip.
  - by (erewrite rawKey_of; [|lookups; reflexivity]).
  - unfold parseMs. lookups. by rewrite !ParseUint_FormatUint by lia.
Qed.

Lemma inject_hex t ir f :
  buildFrameFields t false ir = Ok f →
  encodePayload (frameFromMessage (frameMessage t f) t) = injected t false ir.
Proof.
  unfold buildFrameFields. cbn [negb]. unfold mbind, result_bind.
  destruct (b64_or_err (ir_Body ir)) as [b|] eqn:Eb; [|done]. intros [= <-].
  apply b64_or_err_ok in Eb. unfold injected. rewrite Eb. clear Eb.
  unfold frameFromMessage, frameMessage, encodePayload.
  cbn [typ headers bodyRaw body wire.Headers wire.BodyRaw wire.Body default tail].
  destruct t; try reflexivity; unfold rawKey, headerValue; cbn; rewrite ?app_nil_r; reflexivity.
Qed.

Lemma inject_message t known ir f :
  buildFrameFields t known ir = Ok f →
  wire.Method (frameMessage t f) = FrameName t ∧
  (t ∈ [FrameSendPacket; FrameRecvPacket; FrameForwardPacket] → wire.Body (frameMessage t f) = []) ∧
  (known = true → t ≠ FrameClientInfo ∧ t ≠ FrameServerInfo).
Proof.
  intros Hf. split_and!; [unfold frameMessage; by case_match| |intros ->; split; intros ->; discriminate Hf].
  intros Ht. rewrite !elem_of_cons, elem_of_nil in Ht.
  assert (∃ b, bodyRaw f = Some b) as [b Hb]; [|unfold frameMessage; by rewrite Hb].
  unfold buildFrameFields in Hf. destruct known; cbn [negb] in Hf; unfold mbind, result_bind in Hf.
  - destruct Ht as [->|[->|[->|[]]]]; try discriminate Hf; unfold packetFields, mbind, result_bind in Hf;
      repeat case_match; simplify_eq; by eexists.
  - destruct (b64_or_err _); [|done]. injection Hf as <-. by eexists.
Qed.

Lemma inject_payload t known ir f :
  ir_ok ir → buildFrameFields t known ir = Ok f →
  encodePayload (frameFromMessage (frameMessage t f) t) = injected t known ir.
Proof. destruct known; [by apply inject_known|]. intros _. apply inject_hex. Qed.

Lemma reframe_injected `{DerpJSON} h nonce tgt t known ir f muts :
  ir_ok ir → buildFrameFields t known ir = Ok f → t ≠ FrameClientInfo → t ≠ FrameServerInfo →
  reframePayload h nonce tgt t (frameMessage t f) muts = Ok (injected t known ir, [], frameMessage t f).
Proof.
  intros Hir Hf Hc Hs. rewrite <-(inject_payload t known ir f Hir Hf).
  destruct (inject_message t known ir f Hf) as (_ & Hb & _).
  assert (t ∈ [FrameSendPacket; FrameRecvPacket; FrameForwardPacket] →
    fold_body (frameMessage t f) = frameMessage t f) as Hfold.
  { intros Ht. unfold fold_body. by rewrite Hb. }
  unfold reframePayload. destruct t; try done; rewrite Hfold; try done; rewrite !elem_of_cons; tauto.
Qed.
End injected.

(** ** The life of a send *)

Section life.
Context `{NodeKeys} `{DerpJSON} `{Disco} `{Addr} `{URLParse} `{Reassembler} `{Bulk} `{Mutations}
  `{Env} `{Network} `{!Rand} `{InjectJSON}.

(** What a send may do: nothing, or one dial of a fresh upstream, whose connection
    it closes again and whose envelope it completes if sectool has captured it. *)
Inductive send_life : list life_event → Prop :=
  | send_none : send_life []
  | send_dial_failed host port tls e : send_life [LDial host port tls (Err e)]
  | send_login_failed host port tls sid c input :
      send_life [LDial host port tls (Ok (sid, c, input)); LClose c]
  | send_unannounced host port tls sid c input f e :
      send_life [LDial host port tls (Ok (sid, c, input)); LConnected; LEnvelope f (Err e); LClose c]
  | send_fresh host port tls sid c input f id captured :
      send_life (LDial host port tls (Ok (sid, c, input)) :: LConnected :: LEnvelope f (Ok (id, captured)) ::
        LClose c :: if captured : bool then [LComplete id] else []).

(** A resolved target: what its cleanup does completes the life of the send. *)
Definition resolved (evs : list life_event) (r : result sendTarget) : Prop :=
  match r with
  | Err _ => send_life evs
  | Ok tgt =>
      match tg_cleanup tgt with
      | None => evs = []
      | Some cleanup => evs ≠ [] ∧ ∃ fin, send_life (evs ++ fin) ∧ ∀ tr, lives cleanup tr fin
      end
  end.

Lemma freshCleanup_lives up id captured tr :
  lives (freshCleanup up id captured) tr
    (LClose (up_stream up) :: if captured : bool then [LComplete id] else []).
Proof.
  unfold freshCleanup. apply (lives_bind _ _ _ [_]); [apply lives_emit|].
  destruct captured; [apply lives_emit|apply lives_ret].
Qed.

Lemma quiet_NewNode : quiet NewNode.
Proof. apply quiet_read. Qed.

Lemma openFreshUpstream_outcome h st host tr :
  outcome (λ evs r, resolved evs r ∧ (if draining st then evs = [] else evs ≠ [])) (openFreshUpstream h st host) tr.
Proof.
  unfold openFreshUpstream. apply outcome_then; [apply quiet_NewNode|]. intros tr1. unfold ebind.
  eapply outcome_bind; [apply openUpstream_outcome|]. intros evs r tr2 Hr.
  destruct (draining st).
  { destruct Hr as [-> ->]. apply outcome_ret. split; [constructor|done]. }
  destruct (upstreamDial h host) as [[dh dp] tls].
  destruct Hr as [? ?|? ? ? ?|? ? ? up <-].
  - apply outcome_ret. split; [constructor|done].
  - apply outcome_ret. split; [constructor|done].
  - eapply outcome_bind; [apply emitTunnelEnvelope_outcome|]. intros evs r tr3 (f & -> & _).
    destruct r as [[id captured]|e].
    + apply outcome_ret. split; [|done]. rewrite app_nil_r. cbn [resolved tg_cleanup].
      split; [done|]. eexists. split; [|intros; apply freshCleanup_lives]. constructor.
    + apply (outcome_bind (λ evs _, evs = [LClose (up_stream up)])); [by apply outcome_emit|].
      intros ? ? ? ->. apply outcome_ret. split; [constructor|done].
Qed.

(** No dial in terminate mode or during a drain. *)
Definition no_dial (st : hstate) : Prop := draining (reg st) = true ∨ is_Some (relay st).

Lemma resolveSide_outcome h st id dir fresh tr :
  outcome (λ evs r, resolved evs r ∧ (no_dial st → evs = [])) (resolveSide h st id dir fresh) tr.
Proof.
  assert (∀ e, resolved [] (Err e) ∧ (no_dial st → [] = @nil life_event)) as Herr by (split; [constructor|done]).
  unfold resolveSide. destruct (relay st) as [r|] eqn:Er.
  { apply outcome_ret. unfold resolveTerminate. repeat case_match; split; try done; constructor. }
  assert (∀ host, outcome (λ evs r, resolved evs r ∧ (no_dial st → evs = []))
    (openFreshUpstream h (reg st) host) tr) as Hfresh.
  { intros host. eapply outcome_weaken; [|apply openFreshUpstream_outcome]. intros evs r [Hr Hd].
    split; [done|]. intros [Hdr|[? Hs]]; [by rewrite Hdr in Hd|by rewrite Er in Hs]. }
  destruct (getTunnel id (reg st)).
  { apply outcome_ret. unfold resolveLive. repeat case_match; split; try done; constructor. }
  destruct (bool_decide _); [apply outcome_ret, Herr|]. destruct (negb fresh); [apply outcome_ret, Herr|].
  destruct (retainedTunnelHost _ _); [apply Hfresh|]. destruct (soleDerpHost h); [apply Hfresh|]. apply outcome_ret, Herr.
Qed.

Lemma quiet_reframeBody h tgt msg muts parent ann : quiet (reframeBody h tgt msg muts parent ann).
Proof.
  unfold reframeBody, Nonce, emitProduced, Now. solve_quiet.
Qed.

(** What a send adds to the life of its target, and nothing without a dial. *)
Definition sent (st : hstate) {A} (evs : list life_event) (_ : A) : Prop :=
  send_life evs ∧ (no_dial st → evs = []).

Lemma reframeAndSend_outcome st h tgt msg muts parent ann evs tr :
  resolved evs (Ok tgt) → (no_dial st → evs = []) →
  outcome (λ e2, sent st (evs ++ e2)) (reframeAndSend h tgt msg muts parent ann) tr.
Proof.
  unfold reframeAndSend, sent. cbn [resolved]. destruct (tg_cleanup tgt) as [cleanup|].
  - intros (Hne & fin & Hl & Hc) Hd. apply (outcome_deferred (λ e _, e = []) _ _ _ _ fin).
    + apply outcome_quiet; [apply quiet_reframeBody|done].
    + exact Hc.
    + intros e a ->. split; [exact Hl|]. by intros ?%Hd.
  - intros -> _. apply outcome_quiet; [apply quiet_reframeBody|]. split; [constructor|done].
Qed.

Lemma resolved_then h st id dir fresh {A} (k : sendTarget → eff (result A)) tr :
  (∀ tgt evs tr', resolved evs (Ok tgt) → (no_dial st → evs = []) →
     outcome (λ e2, sent st (evs ++ e2)) (k tgt) tr') →
  outcome (sent st) (ebind (resolveSide h st id dir fresh) k) tr.
Proof.
  intros Hk. unfold ebind. eapply outcome_bind; [apply resolveSide_outcome|].
  intros evs [tgt|e] tr' [Hr Hd]; [by apply Hk|]. apply outcome_ret. by rewrite app_nil_r.
Qed.

Lemma sent_none st {A} (a : A) : sent st [] a.
Proof. split; [constructor|done]. Qed.

(** A replay towards the upstream of a tunnel that is gone. *)
Definition gone_replay (h : Handler) (st : hstate) (p : wire.SidecarSendParams) : Prop :=
  ∃ src, wire.sp_Flow p = Some src ∧ wire.Direction src ≠ DirServerToClient ∧ is_Some (wire.Request src) ∧
    relay st = None ∧ draining (reg st) = false ∧ getTunnel (wire.ParentFlowID src) (reg st) = None ∧
    (is_Some (retainedTunnelHost (wire.ParentFlowID src) (reg st)) ∨ is_Some (soleDerpHost h)).

Lemma gone_replay_dials h st p tr :
  gone_replay h st p → outcome (λ evs _, evs ≠ []) (replay h st p) tr.
Proof.
  intros (src & Hf & Hd & [msg Hm] & Hrl & Hdr & Ht & Hh). unfold replay. rewrite Hf. cbv zeta.
  rewrite bool_decide_false by done. rewrite Hm. unfold ebind.
  assert (∀ host, outcome (λ evs r, resolved evs r ∧ evs ≠ []) (openFreshUpstream h (reg st) host) tr) as Hfresh.
  { intros host. eapply outcome_weaken; [|apply openFreshUpstream_outcome]. intros evs r [Hr Hn].
    by rewrite Hdr in Hn. }
  eapply (outcome_bind (λ evs r, resolved evs r ∧ evs ≠ [])).
  - unfold resolveSide. rewrite Hrl, Ht, bool_decide_false by done. cbn [negb].
    destruct (retainedTunnelHost _ _); [apply Hfresh|]. destruct (soleDerpHost h); [apply Hfresh|]. by destruct Hh as [[? ?]|[? ?]].
  - intros evs [tgt|e] tr' [Hr Hn]; [|apply outcome_ret; by rewrite app_nil_r].
    eapply outcome_weaken; [|apply (reframeAndSend_outcome st _ tgt _ _ _ _ evs); [done|]].
    + intros e2 a _ E. by apply app_eq_nil in E as [? _].
    + intros [?|[? ?]]; congruence.
Qed.

Lemma replay_outcome h st p tr : outcome (sent st) (replay h st p) tr.
Proof.
  unfold replay. destruct (wire.sp_Flow p) as [src|]; [|apply outcome_ret, sent_none].
  cbv zeta. destruct (if bool_decide _ then _ else _); [|apply outcome_ret, sent_none].
  apply resolved_then. intros. by apply reframeAndSend_outcome.
Qed.

Lemma injectFrame_outcome h st ir tr : outcome (sent st) (injectFrame h st ir) tr.
Proof.
  unfold injectFrame. unfold ebind at 1 2 3. apply outcome_then; [apply quiet_ret|]. intros tr1. cbn [fst mret eff_ret].
  destruct (resolveFrameType _) as [[t known]|e]; [|apply outcome_ret, sent_none].
  apply outcome_then; [apply quiet_ret|]. intros tr2. cbn [fst mret eff_ret].
  destruct (injectDir t ir) as [dir|e]; [|apply outcome_ret, sent_none].
  apply outcome_then; [apply quiet_ret|]. intros tr3. cbn [fst mret eff_ret].
  destruct (buildFrameFields t known ir) as [f|e]; [|apply outcome_ret, sent_none].
  apply resolved_then. intros tgt evs tr4 Hr Hd.
  destruct (mesh_frame t && negb (tg_mesh tgt)); [|by apply reframeAndSend_outcome].
  cbn [resolved] in Hr. destruct (tg_cleanup tgt) as [cleanup|].
  - destruct Hr as (Hne & fin & Hl & Hc). apply (outcome_bind (λ e _, e = fin)).
    + exists fin. split; [apply Hc|done].
    + intros ? ? ? ->. apply outcome_ret. rewrite app_nil_r. split; [done|]. by intros ?%Hd.
  - subst evs. apply outcome_then; [apply quiet_ret|]. intros. apply outcome_ret, sent_none.
Qed.

Lemma OnSidecarSend_outcome h st p tr : outcome (sent st) (OnSidecarSend h st p) tr.
Proof.
  unfold OnSidecarSend. destruct (wire.sp_Flow p); [apply replay_outcome|].
  destruct (bool_decide _); [|apply replay_outcome]. unfold inject, ebind.
  apply outcome_then; [apply quiet_ret|]. intros tr1. cbn [fst mret eff_ret].
  destruct (parseInjection _); [apply injectFrame_outcome|apply outcome_ret, sent_none].
Qed.
End life.

(** ** Properties *)

(** C21: replaying a captured server-to-client frame. The client of the tunnel
    (relay or terminate mode) is sent exactly one frame, the captured one up to
    what the typed view of its type drops ([resent]); the produced flow is
    recorded once, parented to the replayed flow and with the message as it was
    captured, and only when the write succeeded. *)
Theorem replay_unedited `{NodeKeysLaws} `{DerpJSON} `{Disco} `{Addr} `{URLParse} `{Reassembler} `{BulkLaws}
    `{MutationsLaws} `{Env} `{Network} `{!Rand} (h : Handler) (st : hstate) (params : wire.SidecarSendParams)
    (src : wire.Flow) (t : FrameType) (p : bytes) (c : connid) (tr : list event) :
  wire.sp_Flow params = Some src → wire.sp_Mutations params = [] →
  wire.Direction src = DirServerToClient → wire.Response src = Some (captured_message t p) →
  client_side st (wire.ParentFlowID src) c → t ≠ FrameClientInfo → t ≠ FrameServerInfo →
  let '(r, tr') := replay h st params tr in
  writes tr' = writes tr ++ [(c, EncodeFrame t (resent t p))] ∧
  match env_Write tr c (EncodeFrame t (resent t p)) with
  | Some e => r = Err e ∧ pushes tr' = pushes tr
  | None => ∃ now, pushes tr' = pushes tr ++ [wire.mkFlow frameProtocolTag DirServerToClient
      (wire.sp_FlowID params) None (Some (captured_message t p)) [] now (Some now)]
  end.
Proof.
  intros Hf Hmu Hd Hm Hc Hci Hsi.
  destruct (replay_client h st params src _ c tr Hf Hd Hm Hc) as (tgt & -> & <- & Hdir). rewrite Hmu, <-Hdir.
  pose proof (reframeBody_run h tgt _ [] (wire.sp_FlowID params) [] tr _ t _ _ (ApplyMutations_nil _)
    (captured_message_name t p) (λ n, reframe_unedited h n tgt t p [] Hci Hsi)) as Hr.
  unfold setMessage in Hr. rewrite bool_decide_true in Hr by done. exact Hr.
Qed.

(** Replaying a captured frame with its text body replaced by [b]. For packets
    [b] replaces the opaque payload behind the keys and for HEALTH the text; for
    every other type the edit does not reach the wire, although the recorded flow
    shows it as the body of what was sent. *)
Theorem replay_body_edit `{NodeKeysLaws} `{DerpJSON} `{Disco} `{Addr} `{URLParse} `{Reassembler} `{BulkLaws}
    `{Mutations} `{Env} `{Network} `{!Rand} (h : Handler) (st : hstate) (params : wire.SidecarSendParams)
    (src : wire.Flow) (t : FrameType) (p b : bytes) (c : connid) (tr : list event) :
  wire.sp_Flow params = Some src → b ≠ [] →
  ApplyMutations (captured_message t p) (wire.sp_Mutations params)
    = Ok (edit_Body (captured_message t p) b) →
  wire.Direction src = DirServerToClient → wire.Response src = Some (captured_message t p) →
  client_side st (wire.ParentFlowID src) c → t ≠ FrameClientInfo → t ≠ FrameServerInfo →
  let '(r, tr') := replay h st params tr in
  writes tr' = writes tr ++ [(c, EncodeFrame t (edited t p b))] ∧
  (env_Write tr c (EncodeFrame t (edited t p b)) = None → ∃ now,
     pushes tr' = pushes tr ++ [wire.mkFlow frameProtocolTag DirServerToClient
       (wire.sp_FlowID params) None (Some (recorded t p b)) [] now (Some now)]) ∧
  (t ∉ typed_frames → edited t p b = p ∧ wire.Body (recorded t p b) = b).
Proof.
  intros Hf Hb Ha Hd Hm Hc Hci Hsi.
  destruct (replay_client h st params src _ c tr Hf Hd Hm Hc) as (tgt & -> & <- & Hdir). rewrite <-Hdir.
  pose proof (reframeBody_run h tgt _ _ (wire.sp_FlowID params) [] tr _ t _ _ Ha
    (captured_message_name t p) (λ n, reframe_edited h n tgt t p b _ Hb Hci Hsi)) as Hr.
  unfold setMessage in Hr. rewrite bool_decide_true in Hr by done.
  destruct (reframeBody _ _ _ _ _ _ _) as [r tr']. destruct Hr as [Hw Hr]. split_and!; [done| |].
  - intros Hok. by rewrite Hok in Hr.
  - clear. intros Hni. unfold edited, recorded.
    assert (∀ x, x ∈ typed_frames → t ≠ x) as Hne by (intros x Hx ->; done).
    rewrite bool_decide_false.
    + split; [|done]. clear Hni. destruct t; first [reflexivity|exfalso; eapply Hne; [|reflexivity]].
      all: by (apply (bool_decide_unpack _); reflexivity).
    + intros Hin. apply Hni. rewrite !elem_of_cons, elem_of_nil in Hin.
      by destruct Hin as [->|[->|[->|[]]]]; apply (bool_decide_unpack _).
Qed.

(** C22: a send leaks nothing. Whatever the request (a replay, an injection, a
    malformed payload, a mesh frame that is refused) and whatever the network and
    sectool answer, a send dials at most once and closes what it dialed exactly
    once; it pushes an envelope for every upstream that logs in, and on every path
    after that it completes this very envelope, after the close, exactly when
    sectool has captured it. A replay towards the upstream of a tunnel that is gone
    does dial; in terminate mode and during a drain nothing is dialed. *)
Theorem send_lifecycle `{NodeKeys} `{DerpJSON} `{Disco} `{Addr} `{URLParse} `{Reassembler} `{Bulk}
    `{Mutations} `{Env} `{Network} `{!Rand} `{InjectJSON} (h : Handler) (st : hstate)
    (p : wire.SidecarSendParams) (tr : list event) :
  ∃ new, snd (OnSidecarSend h st p tr) = tr ++ new ∧ send_life (life tr new) ∧
    (draining (reg st) = true ∨ is_Some (relay st) → life tr new = []) ∧
    (gone_replay h st p → life tr new ≠ []).
Proof.
  destruct (OnSidecarSend_outcome h st p tr) as (evs & (new & Hn & Hl) & Hs & Hd).
  exists new. rewrite Hl. split_and!; [done..|]. intros Hg. pose proof Hg as (src & Hf & _).
  destruct (gone_replay_dials h st p tr Hg) as (evs' & (new' & Hn' & Hl') & Hne).
  unfold OnSidecarSend in Hn. rewrite Hf in Hn. rewrite Hn in Hn'. apply app_inv_head in Hn' as <-. by rewrite <-Hl, Hl'.
Qed.

(** No frame can be sent to the upstream of a live relayed tunnel. [runTunnel]
    registers its tunnel without an upstream side, so while the tunnel is live
    every client-to-server replay and injection naming it is refused, and nothing
    is written, dialed or recorded; only once the tunnel is gone can the same
    request open a fresh upstream. *)
Theorem live_client_to_server_refused `{NodeKeys} `{DerpJSON} `{Disco} `{Addr} `{URLParse} `{Reassembler}
    `{Bulk} `{Mutations} `{Env} `{Network} `{!Rand} `{InjectJSON} (h : Handler) (st : hstate) (rg : registry)
    (sc : StreamConn) (k : NodePublic) (ci : ClientInfo) (fc : frameConn) (nk : NodePrivate)
    (up : upstreamTunnel) (id : string) (tr : list event) :
  relay st = None → reg st = registerTunnel id (newActiveTunnel sc k ci fc nk up id) rg →
  (∀ p src msg, wire.sp_Flow p = Some src → wire.ParentFlowID src = id →
     wire.Direction src = DirClientToServer → wire.Request src = Some msg →
     OnSidecarSend h st p tr
       = (Err (ErrFmt "derp: tunnel %q has no %s side" [id; DirClientToServer]), tr)) ∧
  (∀ ir, TunnelID ir = id → Direction ir = DirClientToServer →
     ∃ e, injectFrame h st ir tr = (Err e, tr)).
Proof.
  intros Hrl Hrg.
  assert (resolveSide h st id DirClientToServer true tr
    = (Err (ErrFmt "derp: tunnel %q has no %s side" [id; DirClientToServer]), tr)) as Hs.
  { unfold resolveSide, getTunnel. rewrite Hrl, Hrg, tunnels_register, lookup_insert_eq. done. }
  split.
  - intros p src msg Hf Hp Hd Hm. unfold OnSidecarSend, replay. rewrite Hf, Hd, Hm, Hp.
    unfold ebind, mbind, eff_bind. cbv zeta. rewrite bool_decide_false by done. by rewrite Hs.
  - intros ir Hid Hd. unfold injectFrame, ebind, mbind, eff_bind, mret, eff_ret.
    destruct (resolveFrameType _) as [[t known]|e]; [|by eexists].
    assert (injectDir t ir = Ok DirClientToServer) as -> by (unfold injectDir; by rewrite Hd).
    destruct (buildFrameFields t known ir); [|by eexists]. rewrite Hid, Hs. by eexists.
Qed.

(** Re-sealing. A CLIENT_INFO sent on a target opens at the upstream to the
    node key held for it and the edited body, and the send is annotated exactly
    when a mutation set the key header to another key; without a held key it is
    refused. A SERVER_INFO opens at the client to the edited body. *)
Theorem reseal_spec `{NodeKeysLaws} `{DerpJSONLaws} `{Disco} (h : Handler) (nonce : bytes)
    (tgt : sendTarget) (t : FrameType) (m : wire.FlowMessage) (muts : list wire.Mutation) (payload : bytes)
    (ann : list (string * wire.any)) (m' : wire.FlowMessage) :
  t = FrameClientInfo ∨ t = FrameServerInfo → Public (tg_nodeKey tgt) ≠ NodePublic_zero →
  reframePayload h nonce tgt t m muts = Ok (payload, ann, m') →
  m' = m ∧
  (t = FrameClientInfo → tg_nodeKey tgt ≠ NodePrivate_zero ∧
     (∀ q, Public q = tg_upstreamPub tgt → ∃ ci, unmarshal_ci (wire.Body m) = Ok ci ∧
        OpenClientInfo q payload = Ok (Public (tg_nodeKey tgt), ci)) ∧
     (ann = unheld_key_ann ↔ setsHeader muts "X-Derp-Node-Key" = true ∧
        headerValue (wire.Headers m) "X-Derp-Node-Key" ≠ NodePublic_String (Public (tg_nodeKey tgt)))) ∧
  (t = FrameServerInfo → ann = [] ∧
     ∀ q, Public q = tg_clientKey tgt → ∃ si, unmarshal_si (wire.Body m) = Ok si ∧
        OpenServerInfo q (Public (serverKey h)) payload = Ok si).
Proof.
  intros [-> | ->] Hz; cbn [reframePayload].
  - destruct (NodePrivate_IsZero (tg_nodeKey tgt)) eqn:Ez; [done|].
    destruct (unmarshal_ci (wire.Body m)) as [ci|e]; [|done].
    destruct (ClientInfoPayload _ _ _ ci) as [pl|e] eqn:Ep; [|done]. intros [= <- <- <-].
    split_and!; [done| |done]. intros _. split_and!.
    + intros Hk. by rewrite Hk, NodePrivate_zero_IsZero in Ez.
    + intros q Hq. exists ci. split; [done|]. rewrite <-Hq in Ep. by eapply OpenClientInfo_seal.
    + destruct (setsHeader _ _); cbn [andb]; [|naive_solver]. case_bool_decide; cbn; naive_solver.
  - destruct (unmarshal_si (wire.Body m)) as [si|e]; [|done].
    destruct (ServerInfoPayload _ _ _ si) as [pl|e] eqn:Ep; [|done]. intros [= <- <- <-].
    split_and!; [done|done|]. intros _. split; [done|]. intros q Hq. exists si. split; [done|].
    rewrite <-Hq in Ep. by eapply OpenServerInfo_seal.
Qed.

(** C24: an injected server-to-client frame. A request whose fields are accepted
    reaches the client of the tunnel it names as exactly one frame with the
    payload [injected] spells out from the request, keys and base64 decoded and
    integers at their width; it is recorded once, marked injected and without a
    parent, and only if the write succeeded. *)
Theorem inject_spec `{NodeKeysLaws} `{DerpJSON} `{Disco} `{Addr} `{URLParse} `{Reassembler} `{BulkLaws}
    `{MutationsLaws} `{Env} `{Network} `{!Rand} `{InjectJSON} (h : Handler) (st : hstate)
    (ir : injectionRequest) (t : FrameType) (known : bool) (f : frameFields) (c : connid) (tr : list event) :
  ir_ok ir → resolveFrameType (Frame ir) = Ok (t, known) → injectDir t ir = Ok DirServerToClient →
  buildFrameFields t known ir = Ok f → ir_Mutations ir = [] → mesh_frame t = false →
  client_side st (TunnelID ir) c → t ≠ FrameClientInfo → t ≠ FrameServerInfo →
  let '(r, tr') := injectFrame h st ir tr in
  writes tr' = writes tr ++ [(c, EncodeFrame t (injected t known ir))] ∧
  match env_Write tr c (EncodeFrame t (injected t known ir)) with
  | Some e => r = Err e ∧ pushes tr' = pushes tr
  | None => ∃ now, pushes tr' = pushes tr ++ [wire.mkFlow frameProtocolTag DirServerToClient "" None
      (Some (frameMessage t f)) [(AnnInjected, wire.AnyBool true)] now (Some now)]
  end.
Proof.
  intros Hir Ht Hd Hf Hm Hmesh Hc Hci Hsi.
  destruct (resolveSide_client h st _ c tr Hc) as (tgt & Hr & <- & Hdir & Hcl).
  assert (injectFrame h st ir tr = reframeBody h tgt (frameMessage t f) [] "" [(AnnInjected, wire.AnyBool true)] tr)
    as ->.
  { unfold injectFrame, ebind, mbind, eff_bind, mret, eff_ret. rewrite Ht, Hd, Hf, Hr, Hmesh, Hm. cbn [andb].
    unfold reframeAndSend. by rewrite Hcl. }
  rewrite <-Hdir.
  pose proof (reframeBody_run h tgt _ [] "" [(AnnInjected, wire.AnyBool true)] tr _ t _ _
    (ApplyMutations_nil _) (proj1 (inject_message t known ir f Hf))
    (λ n, reframe_injected h n tgt t known ir f [] Hir Hf Hci Hsi)) as Hrun.
  unfold setMessage in Hrun. rewrite bool_decide_true in Hrun by done. exact Hrun.
Qed.

(** ** A handler for the witnesses: one live relayed tunnel, its client on
    connection 1 *)

Definition toy_send_handler : Handler := mkHandler (mkDerpConfig ["derp.example"%string] ∅ EmptyString
  EmptyString IdentityShared RelayModeRelay DupPolicyLastWriter EmptyString []) "derp" (toy_key x0a)
  (λ _, Err (ErrNew "")).

Definition toy_sc : StreamConn := mkStreamConn 1%nat "s1" "/derp" "derp.example" "" "" [].
Definition toy_up : upstreamTunnel := @mkUpstream toy_keys toy_reassembler "s2" 100%nat (newFrameConn 100%nat [])
  (toy_key x0b) (mkServerInfo 2 0 0) [] "derp.example:443".
Definition toy_tunnel : activeTunnel := newActiveTunnel toy_sc (toy_key x01) (mkClientInfo 2 [] false false)
  (newFrameConn 1%nat []) (toy_key x02) toy_up "t1".
Definition toy_state : hstate := mkHstate (registerTunnel "t1" toy_tunnel registry0) None.

Lemma toy_side : client_side toy_state "t1" 1%nat.
Proof. by apply (side_relay toy_state "t1" toy_tunnel). Qed.

Definition toy_params (msg : wire.FlowMessage) (muts : list wire.Mutation) (dir : string) : wire.SidecarSendParams :=
  wire.mkSendParams (Some (wire.mkFlow frameProtocolTag dir "t1" (Some msg) (Some msg) [] 0 None))
    "f1" muts [] [] "".

#[local] Instance toy_inject_json : InjectJSON := {| unmarshal_injection _ := Err (ErrNew "json") |}.
#[local] Instance toy_env : Env := env_capture.
#[local] Instance toy_net : Network := net_of (Err (ErrNew "")).

(** A PEER_GONE with a byte behind its typed fields loses it. *)
Lemma replay_unedited_witness :
  writes (snd (replay toy_send_handler toy_state
    (toy_params (captured_message FramePeerGone (repeat x07 33 ++ [x01])) [] DirServerToClient) []))
  = [(1%nat, EncodeFrame FramePeerGone (repeat x07 33))].
Proof.
  pose proof (replay_unedited toy_send_handler toy_state
    (toy_params (captured_message FramePeerGone (repeat x07 33 ++ [x01])) [] DirServerToClient)
    (wire.mkFlow frameProtocolTag DirServerToClient "t1" _ (Some _) [] 0 None) FramePeerGone
    (repeat x07 33 ++ [x01]) 1%nat [] eq_refl eq_refl eq_refl eq_refl toy_side
    ltac:(discriminate) ltac:(discriminate)) as H.
  destruct (replay _ _ _ _) as [r tr']. exact (proj1 H).
Defined.

(** The toy mutation replaces the body; an unknown frame keeps its payload. *)
Lemma replay_body_edit_witness :
  writes (snd (replay toy_send_handler toy_state
    (toy_params (captured_message x99 [x41]) [wire.mkMutation "set_body" "" "new"] DirServerToClient) []))
  = [(1%nat, EncodeFrame x99 [x41])].
Proof.
  pose proof (replay_body_edit toy_send_handler toy_state
    (toy_params (captured_message x99 [x41]) [wire.mkMutation "set_body" "" "new"] DirServerToClient)
    (wire.mkFlow frameProtocolTag DirServerToClient "t1" _ (Some _) [] 0 None) x99
    [x41] (to_bytes "new") 1%nat [] eq_refl ltac:(discriminate) eq_refl eq_refl eq_refl toy_side
    ltac:(discriminate) ltac:(discriminate)) as H.
  destruct (replay _ _ _ _) as [r tr']. exact (proj1 H).
Defined.

Lemma live_client_to_server_refused_witness :
  OnSidecarSend toy_send_handler toy_state
    (toy_params (captured_message FramePing [x41]) [] DirClientToServer) []
  = (Err (ErrFmt "derp: tunnel %q has no %s side" ["t1"; DirClientToServer]%string), []).
Proof.
  refine (proj1 (live_client_to_server_refused toy_send_handler toy_state registry0 toy_sc (toy_key x01)
    (mkClientInfo 2 [] false false) (newFrameConn 1%nat []) (toy_key x02) toy_up "t1" [] eq_refl eq_refl)
    (toy_params (captured_message FramePing [x41]) [] DirClientToServer)
    (wire.mkFlow frameProtocolTag DirClientToServer "t1" (Some _) _ [] 0 None) _ eq_refl eq_refl eq_refl eq_refl).
Defined.

Lemma reseal_spec_witness :
  let tgt := mkSendTarget "t1" DirServerToClient 1%nat (toy_key x01) (toy_key x02) (toy_key x0b) false None in
  let m := wire.mkFlowMessage "SERVER_INFO" "" "" 0 [] [x02; x07; x09] None None in
  ∃ payload, reframePayload toy_send_handler [] tgt FrameServerInfo m [] = Ok (payload, [], m) ∧
    OpenServerInfo (toy_key x01) (toy_key x0a) payload = Ok (mkServerInfo 2 7 9).
Proof.
  intros tgt m. eexists. split; [reflexivity|].
  edestruct (reseal_spec toy_send_handler [] tgt FrameServerInfo m []) as (_ & _ & Hs);
    [by right|apply (bool_decide_unpack _); vm_compute; reflexivity|reflexivity|].
  destruct (Hs eq_refl) as [_ Ho]. destruct (Ho (toy_key x01) eq_refl) as (si & Hsi & Hop).
  injection Hsi as <-. exact Hop.
Defined.

(** A PEER_GONE with reason 256 goes out with reason 0. *)
Lemma inject_spec_witness :
  let ir := mkInjection "t1" "PEER_GONE" "" "" "" (NodePublic_String (toy_key x07)) 256 0 "" "" false 0 0 "" [] in
  writes (snd (injectFrame toy_send_handler toy_state ir []))
  = [(1%nat, EncodeFrame FramePeerGone (repeat x07 32 ++ [x00]))].
Proof.
  intros ir. edestruct (buildFrameFields FramePeerGone true ir) as [f|e] eqn:Ef; [|discriminate Ef].
  pose proof (inject_spec toy_send_handler toy_state ir FramePeerGone true f 1%nat []) as H.
  destruct (injectFrame _ _ _ _) as [r tr']. destruct H as [Hw _].
  - split; [split; vm_compute; discriminate|]. split; split; vm_compute; congruence.
  - vm_compute. reflexivity.
  - vm_compute. reflexivity.
  - exact Ef.
  - reflexivity.
  - reflexivity.
  - exact toy_side.
  - discriminate.
  - discriminate.
  - exact Hw.
Defined.
