(* ===== verification/TsProto.v ===== *)
(** * Inner control-protocol framing: [sidescale/tsproto/mapresponse.go],
    [earlynoise.go] and [InitiationVersion] of [noise.go] *)

From Stdlib Require Import Init.Byte Strings.Byte Lia ZArith Ascii String.
From stdpp Require Import base option list gmap sets strings.
From S2P Require Import Prelude GoStd External Instances.
Open Scope Z_scope.
Open Scope go_scope.

(** ** MapResponse frames *)

Definition mapFrameLenBytes : Z := 4.
Definition MaxMapFrameBytes : Z := 10 * 2 ^ 20.
Definition zstdMagic : bytes := [x28; xb5; x2f; xfd].

(** [bytes.HasPrefix] *)
Definition bytes_HasPrefix (b p : bytes) : bool := bool_decide (take (length p) b = p).

Section map.
Context `{Zstd}.

Definition EncodeMapResponseFrame (jsonPayload : bytes) (compress : bool) : bytes :=
  let body := if compress then zstd_encode jsonPayload else jsonPayload in
  le_PutUint32 (len body) ++ body.

(** The payload, whether it was compressed, and the bytes consumed; [Ok None] is
    an incomplete frame. *)
Definition DecodeMapResponseFrame (buf : bytes) : result (option (bytes * bool * Z)) :=
  if len buf <? mapFrameLenBytes then Ok None
  else
    let length := le_get (buf.[0 : mapFrameLenBytes]) in
    if MaxMapFrameBytes <? length then
      Err (ErrFmt "tsproto: map frame length %d exceeds max %d" [Itoa length; Itoa MaxMapFrameBytes])
    else
      let end_ := mapFrameLenBytes + length in
      if len buf <? end_ then Ok None
      else
        let body := buf.[mapFrameLenBytes : end_] in
        if negb (bytes_HasPrefix body zstdMagic) then Ok (Some (body, false, end_))
        else payload ← zstd_decode body; Ok (Some (payload, true, end_)).
End map.

(** ** EarlyNoise *)

Definition maxEarlyNoiseBytes : Z := 10 * 2 ^ 20.

(** What a buffered reader will deliver: bytes, then an error. *)
Record breader := mkReader { avail : bytes; rerr : error }.

Definition ErrUnexpectedEOF : error := ErrNew "unexpected EOF".

(** [br.Peek(n)] *)
Definition Peek (n : nat) (br : breader) : result bytes :=
  if (n <=? length (avail br))%nat then Ok (take n (avail br)) else Err (rerr br).

(** [io.ReadFull] into [n] bytes. *)
Definition ReadFull (n : nat) (br : breader) : result bytes * breader :=
  if (n <=? length (avail br))%nat then (Ok (take n (avail br)), mkReader (drop n (avail br)) (rerr br))
  else (Err (if (length (avail br) =? 0)%nat then rerr br
             else if bool_decide (rerr br = io_EOF) then ErrUnexpectedEOF else rerr br),
        mkReader [] (rerr br)).

Section early.
Context `{EarlyNoiseMsg}.

Definition earlyNoiseHeaderLen : nat := length EarlyPayloadMagic + 4.

Definition EncodeEarlyNoise (n : EarlyNoise) : result bytes :=
  payload ← marshal_en n;
  if maxEarlyNoiseBytes <? len payload then
    Err (ErrFmt "tsproto: early noise payload %d exceeds max %d" [Itoa (len payload); Itoa maxEarlyNoiseBytes])
  else Ok (EarlyPayloadMagic ++ be_PutUint32 (len payload) ++ payload).

(** The raw frame and its message, or [Ok None] when the stream does not start
    with one. *)
Definition ReadEarlyNoise (br : breader) : result (option (bytes * EarlyNoise)) * breader :=
  match Peek (length EarlyPayloadMagic) br with
  | Err e => if errors_Is e io_EOF then (Ok None, br) else (Err e, br)
  | Ok head =>
      if negb (bool_decide (head = EarlyPayloadMagic)) then (Ok None, br)
      else
        let '(r, br) := ReadFull earlyNoiseHeaderLen br in
        match r with
        | Err e => (Err e, br)
        | Ok hdr =>
            let length := be_get (drop (length EarlyPayloadMagic) hdr) in
            if maxEarlyNoiseBytes <? length then
              (Err (ErrFmt "tsproto: early noise length %d exceeds max %d"
                      [Itoa length; Itoa maxEarlyNoiseBytes]), br)
            else
              let '(r, br) := ReadFull (Z.to_nat length) br in
              match r with
              | Err e => (Err e, br)
              | Ok payload =>
                  (match unmarshal_en payload with
                   | Err e => Err e
                   | Ok msg => Ok (Some (hdr ++ payload, msg))
                   end, br)
              end
        end
  end.

Definition DecodeEarlyNoise (buf : bytes) : result (option (EarlyNoise * Z)) :=
  if (length buf <? earlyNoiseHeaderLen)%nat then Ok None
  else if negb (bool_decide (take (length EarlyPayloadMagic) buf = EarlyPayloadMagic)) then
    Err (ErrNew "tsproto: bad early noise magic")
  else
    let length := be_get (take 4 (drop (length EarlyPayloadMagic) buf)) in
    if maxEarlyNoiseBytes <? length then
      Err (ErrFmt "tsproto: early noise length %d exceeds max %d" [Itoa length; Itoa maxEarlyNoiseBytes])
    else
      let end_ := Z.of_nat earlyNoiseHeaderLen + length in
      if len buf <? end_ then Ok None
      else
        msg ← unmarshal_en (buf.[Z.of_nat earlyNoiseHeaderLen : end_]);
        Ok (Some (msg, end_)).
End early.

(** ** [InitiationVersion] *)

Definition InitiationVersion (init : bytes) : result Z :=
  if len init <? 2 then Err (ErrNew "tsproto: initiation too short for version")
  else Ok (be_get (take 2 init)).

(** ** Lemmas *)

Section lemmas.
Context `{ZstdLaws}.

Definition frame_body (payload : bytes) (compress : bool) : bytes :=
  if compress then zstd_encode payload else payload.

Lemma EncodeMapResponseFrame_length payload compress :
  length (EncodeMapResponseFrame payload compress) = (4 + length (frame_body payload compress))%nat.
Proof. unfold EncodeMapResponseFrame, le_PutUint32. by rewrite length_app, length_le_put. Qed.

Lemma map_header (body rest : bytes) :
  len body < 2 ^ 32 → le_get ((le_PutUint32 (len body) ++ body ++ rest).[0 : mapFrameLenBytes]) = len body.
Proof.
  intros Hb. unfold mapFrameLenBytes, le_PutUint32. cbn [Z.to_nat]. rewrite drop_0.
  rewrite take_app_exact by (rewrite length_le_put; done). rewrite le_get_put.
  apply Z.mod_small. change (256 ^ Z.of_nat 4) with (2 ^ 32). lia.
Qed.

(** A body the decoder reads back: compressed, or without the magic. *)
Definition plain (payload : bytes) (compress : bool) : Prop :=
  compress = true ∨ bytes_HasPrefix payload zstdMagic = false.

Lemma frame_body_magic payload compress :
  plain payload compress → bytes_HasPrefix (frame_body payload compress) zstdMagic = compress.
Proof.
  intros Hp. destruct compress; cbn [frame_body]; [|by destruct Hp].
  destruct (zstd_encode_magic payload) as [rest ->]. unfold bytes_HasPrefix. by apply bool_decide_eq_true.
Qed.

Lemma DecodeMap_encode payload compress rest :
  plain payload compress → len (frame_body payload compress) ≤ MaxMapFrameBytes →
  DecodeMapResponseFrame (EncodeMapResponseFrame payload compress ++ rest)
    = Ok (Some (payload, compress, len (EncodeMapResponseFrame payload compress))).
Proof.
  intros Hp Hm. rewrite EncodeMapResponseFrame_length. pose proof (frame_body_magic _ _ Hp) as Hmag.
  unfold EncodeMapResponseFrame. fold (frame_body payload compress).
  set (body := frame_body payload compress) in *.
  assert (len body < 2 ^ 32) as Hlt by (unfold MaxMapFrameBytes in Hm; lia).
  unfold DecodeMapResponseFrame. rewrite <-app_assoc, map_header by done.
  rewrite !length_app. unfold le_PutUint32 at 1 2. rewrite length_le_put. unfold mapFrameLenBytes at 1 3.
  destruct (Z.ltb_spec (Z.of_nat (4 + (length body + length rest))) 4); [lia|].
  destruct (Z.ltb_spec MaxMapFrameBytes (len body)); [lia|]. unfold mapFrameLenBytes.
  destruct (Z.ltb_spec (Z.of_nat (4 + (length body + length rest))) (4 + len body)); [lia|].
  assert ((le_PutUint32 (len body) ++ body ++ rest).[4 : 4 + len body] = body) as ->.
  { unfold le_PutUint32. rewrite drop_app_exact by (rewrite length_le_put; done). apply take_app_exact. lia. }
  rewrite Hmag. destruct compress; cbn [negb].
  - unfold body, frame_body. rewrite zstd_roundtrip. cbn. do 4 f_equal. unfold frame_body. lia.
  - unfold body, frame_body. do 4 f_equal. unfold frame_body. lia.
Qed.

(** What is missing its last bytes is reported incomplete. *)
Lemma DecodeMap_prefix payload compress b rest :
  len (frame_body payload compress) ≤ MaxMapFrameBytes →
  EncodeMapResponseFrame payload compress = b ++ rest → rest ≠ [] → DecodeMapResponseFrame b = Ok None.
Proof.
  intros Hm Hb Hr. pose proof (EncodeMapResponseFrame_length payload compress) as Hl.
  rewrite Hb, length_app in Hl. destruct rest as [|x rest]; [done|]. cbn in Hl.
  unfold DecodeMapResponseFrame, mapFrameLenBytes.
  destruct (Z.ltb_spec (len b) 4) as [|H4]; [done|].
  assert (le_get (b.[0 : 4]) = len (frame_body payload compress)) as ->.
  { assert (take 4 b = take 4 (EncodeMapResponseFrame payload compress)) as Ht.
    { rewrite Hb, take_app_le by lia. done. }
    change (b.[0 : 4]) with (take 4 b). rewrite Ht. unfold EncodeMapResponseFrame, le_PutUint32.
    rewrite take_app_exact by (by rewrite length_le_put). rewrite le_get_put. apply Z.mod_small.
    change (256 ^ Z.of_nat 4) with (2 ^ 32). unfold MaxMapFrameBytes in Hm. lia. }
  destruct (Z.ltb_spec MaxMapFrameBytes (len (frame_body payload compress))); [lia|].
  destruct (Z.ltb_spec (len b) (4 + len (frame_body payload compress))); [done|lia].
Qed.
End lemmas.

Section early_lemmas.
Context `{EarlyNoiseLaws}.

Lemma ReadFull_app n b rest e :
  length b = n → ReadFull n (mkReader (b ++ rest) e) = (Ok b, mkReader rest e).
Proof.
  intros Hl. unfold ReadFull. cbn [avail rerr]. rewrite length_app.
  destruct (Nat.leb_spec n (length b + length rest)); [|lia].
  by rewrite take_app_exact, drop_app_exact by done.
Qed.

(** The length field of an encoded message. *)
Lemma early_length (payload : bytes) :
  len payload ≤ maxEarlyNoiseBytes → be_get (be_PutUint32 (len payload)) = len payload.
Proof.
  unfold maxEarlyNoiseBytes, be_PutUint32. intros Hl. rewrite be_get_put. apply Z.mod_small.
  change (256 ^ Z.of_nat 4) with (2 ^ 32). lia.
Qed.

Lemma EncodeEarlyNoise_inv n f :
  EncodeEarlyNoise n = Ok f →
  ∃ js, marshal_en n = Ok js ∧ len js ≤ maxEarlyNoiseBytes ∧
    f = EarlyPayloadMagic ++ be_PutUint32 (len js) ++ js.
Proof.
  unfold EncodeEarlyNoise, mbind, result_bind. destruct (marshal_en n) as [js|]; [|done].
  destruct (Z.ltb_spec maxEarlyNoiseBytes (len js)); [done|]. intros [= <-]. by exists js.
Qed.

Lemma ReadEarlyNoise_encode n f rest e :
  EncodeEarlyNoise n = Ok f →
  ReadEarlyNoise (mkReader (f ++ rest) e) = (Ok (Some (f, n)), mkReader rest e).
Proof.
  intros (js & Hjs & Hmax & ->)%EncodeEarlyNoise_inv. unfold ReadEarlyNoise, Peek. cbn [avail rerr].
  rewrite length_app, length_app.
  destruct (Nat.leb_spec (length EarlyPayloadMagic)
    (length EarlyPayloadMagic + length (be_PutUint32 (len js) ++ js) + length rest)); [|lia].
  rewrite <-app_assoc, take_app_exact by done. rewrite bool_decide_true by done. cbn [negb].
  rewrite (app_assoc EarlyPayloadMagic), <-app_assoc.
  assert (length (be_PutUint32 (len js)) = 4%nat) as H4 by apply length_be_put.
  rewrite (app_assoc EarlyPayloadMagic (be_PutUint32 (len js))) at 1.
  rewrite <-!app_assoc, (app_assoc EarlyPayloadMagic), ReadFull_app
    by (rewrite length_app, H4; done).
  rewrite drop_app_exact by done. rewrite early_length by done.
  destruct (Z.ltb_spec maxEarlyNoiseBytes (len js)); [lia|].
  rewrite ReadFull_app by lia. rewrite (en_json_roundtrip _ _ Hjs). by rewrite <-app_assoc.
Qed.

Lemma DecodeEarlyNoise_encode n f rest :
  EncodeEarlyNoise n = Ok f → DecodeEarlyNoise (f ++ rest) = Ok (Some (n, len f)).
Proof.
  intros (js & Hjs & Hmax & ->)%EncodeEarlyNoise_inv. unfold DecodeEarlyNoise, earlyNoiseHeaderLen.
  assert (length (be_PutUint32 (len js)) = 4%nat) as H4 by apply length_be_put.
  rewrite !length_app, H4.
  destruct (Nat.ltb_spec (length EarlyPayloadMagic + (4 + length js) + length rest)
    (length EarlyPayloadMagic + 4)); [lia|].
  rewrite <-!app_assoc, take_app_exact by done. rewrite bool_decide_true by done. cbn [negb].
  rewrite drop_app_exact by done. rewrite take_app_exact by done. rewrite early_length by done.
  destruct (Z.ltb_spec maxEarlyNoiseBytes (len js)); [lia|].
  destruct (Z.ltb_spec (Z.of_nat (length EarlyPayloadMagic + (4 + length js) + length rest))
    (Z.of_nat (length EarlyPayloadMagic + 4) + len js)); [lia|].
  rewrite (app_assoc EarlyPayloadMagic), drop_app_exact by (rewrite length_app, H4; lia).
  rewrite take_app_exact by lia. rewrite (en_json_roundtrip _ _ Hjs). cbn. do 3 f_equal. lia.
Qed.
End early_lemmas.

(** ** Properties *)

(** MapResponse frames. Whatever follows it, an encoded frame within the cap
    decodes to its payload and compression mode and is consumed exactly; every
    strict prefix of it is reported incomplete; a longer length prefix is refused
    as soon as it is readable, before anything is buffered for it. *)
Theorem map_frame_roundtrip `{ZstdLaws} (payload : bytes) (compress : bool) :
  plain payload compress → len (frame_body payload compress) ≤ MaxMapFrameBytes →
  (∀ rest, DecodeMapResponseFrame (EncodeMapResponseFrame payload compress ++ rest)
     = Ok (Some (payload, compress, len (EncodeMapResponseFrame payload compress)))) ∧
  (∀ b rest, EncodeMapResponseFrame payload compress = b ++ rest → rest ≠ [] →
     DecodeMapResponseFrame b = Ok None) ∧
  (∀ n rest, MaxMapFrameBytes < n < 2 ^ 32 →
     ∃ e, DecodeMapResponseFrame (le_PutUint32 n ++ rest) = Err e).
Proof.
  intros Hp Hm. split_and!.
  - intros rest. by apply DecodeMap_encode.
  - intros b rest. by apply DecodeMap_prefix.
  - intros n rest Hn. unfold DecodeMapResponseFrame, mapFrameLenBytes, le_PutUint32.
    rewrite length_app, length_le_put.
    destruct (Z.ltb_spec (Z.of_nat (4 + length rest)) 4); [lia|].
    change ((le_put 4 n ++ rest).[0 : 4]) with (take 4 (le_put 4 n ++ rest)).
    rewrite take_app_exact by apply length_le_put. rewrite le_get_put.
    change (256 ^ Z.of_nat 4) with (2 ^ 32). rewrite Z.mod_small by lia.
    destruct (Z.ltb_spec MaxMapFrameBytes n); [by eexists|lia].
Qed.

Lemma map_frame_roundtrip_witness :
  DecodeMapResponseFrame (EncodeMapResponseFrame (to_bytes "{}") true ++ [x01])
  = Ok (Some (to_bytes "{}", true, 10)).
Proof.
  refine (proj1 (map_frame_roundtrip (to_bytes "{}") true _ _) [x01]); [by left|vm_compute; discriminate].
Defined.

(** EarlyNoise. An encoded message is read off a stream exactly, with its raw
    frame and whatever follows left in place, and decodes from a buffer to the
    same message and length; a stream that does not start with the magic, or ends
    before it, is left unconsumed without an error. *)
Theorem early_noise_roundtrip `{EarlyNoiseLaws} (n : EarlyNoise) (f rest : bytes) (e : error) :
  EncodeEarlyNoise n = Ok f →
  ReadEarlyNoise (mkReader (f ++ rest) e) = (Ok (Some (f, n)), mkReader rest e) ∧
  DecodeEarlyNoise (f ++ rest) = Ok (Some (n, len f)) ∧
  (∀ b, (5 ≤ length b)%nat → take 5 b ≠ EarlyPayloadMagic →
     ReadEarlyNoise (mkReader b e) = (Ok None, mkReader b e)) ∧
  (∀ b, (length b < 5)%nat → ReadEarlyNoise (mkReader b io_EOF) = (Ok None, mkReader b io_EOF)).
Proof.
  intros Hf. split_and!; [by apply ReadEarlyNoise_encode|by apply DecodeEarlyNoise_encode| |].
  - intros b Hb Hne. unfold ReadEarlyNoise, Peek. cbn [avail rerr]. rewrite EarlyPayloadMagic_length.
    destruct (Nat.leb_spec 5 (length b)); [|lia]. by rewrite bool_decide_false by done.
  - intros b Hb. unfold ReadEarlyNoise, Peek. cbn [avail rerr]. rewrite EarlyPayloadMagic_length.
    destruct (Nat.leb_spec 5 (length b)); [lia|]. done.
Qed.

Lemma early_noise_roundtrip_witness :
  fst (@ReadEarlyNoise toy_early (mkReader ([xff; xff; xff; x54; x53; x00; x00; x00; x01; x42] ++ [x50]) io_EOF))
  = Ok (Some ([xff; xff; xff; x54; x53; x00; x00; x00; x01; x42], x42)).
Proof.
  destruct (@early_noise_roundtrip toy_early toy_early_laws x42 [xff; xff; xff; x54; x53; x00; x00; x00; x01; x42] [x50]
    io_EOF) as (H & _); [reflexivity|]. exact (f_equal fst H).
Defined.
