(* ===== verification/MapStream.v ===== *)
(** * The map stream: [sidescale/noise/mapstream.go], with the copy loop of
    [tsproto/http2tunnel.go] that consumes it

    The upstream body is a script of chunks and read errors; a script that is
    used up reads as end of file. *)

From Stdlib Require Import Init.Byte Strings.Byte Lia ZArith Ascii String.
From stdpp Require Import base option list gmap sets strings.
From S2P Require Import Prelude GoStd External Instances Adapter TsProto.
Open Scope Z_scope.
Open Scope go_scope.

Definition streamProtocolTag : string := "tailscale.control.map.stream".
Definition mapFramePrefixLen : Z := 4.
Definition compressedBytesHeader : string := "X-Sectool-Compressed-Bytes".
Definition compressedLenHeader : string := "X-Sectool-Compressed-Len".

Definition compressedHeaders (compressed : bytes) : list wire.Header :=
  [wire.mkHeader compressedBytesHeader (b64_encode compressed);
   wire.mkHeader compressedLenHeader (Itoa (len compressed))].

(** [r.split]: the side effect is the recorded frame error. *)
Definition split (buf : bytes) (frameErr : option error) : Z * bool * option error :=
  if len buf <? mapFramePrefixLen then (0, false, frameErr)
  else
    let length := le_get (buf.[0 : mapFramePrefixLen]) in
    if MaxMapFrameBytes <? length then
      (0, false, Some (ErrFmt "mapstream: frame length %d exceeds max %d"
                         [Itoa length; Itoa MaxMapFrameBytes]))
    else
      let total := mapFramePrefixLen + length in
      if len buf <? total then (0, false, frameErr) else (total, true, frameErr).

Section reader.
Context `{Reassembler} `{Zstd} `{Env}.

Record mapStreamReader := mkMapReader {
  parentID : string;
  upstream : connid;
  re : reasm;
  pending : bytes;
  done : bool;
  finished : bool;
  frameErr : option error;
  input : script
}.

Definition newMapStreamReader (up : connid) (input : script) (parentID : string) : mapStreamReader :=
  mkMapReader parentID up reasm_zero [] false false None input.

Definition r_re (x : reasm) (fe : option error) (r : mapStreamReader) : mapStreamReader :=
  mkMapReader (parentID r) (upstream r) x (pending r) (done r) (finished r) fe (input r).
Definition r_pending (b : bytes) (r : mapStreamReader) : mapStreamReader :=
  mkMapReader (parentID r) (upstream r) (re r) b (done r) (finished r) (frameErr r) (input r).
Definition r_input (x : reasm) (d : bool) (i : script) (r : mapStreamReader) : mapStreamReader :=
  mkMapReader (parentID r) (upstream r) x (pending r) d (finished r) (frameErr r) i.

Definition finish (r : mapStreamReader) : eff mapStreamReader :=
  if finished r || bool_decide (parentID r = EmptyString) then mret r
  else
    _ ← CompleteFlow (parentID r);
    mret (mkMapReader (parentID r) (upstream r) (re r) (pending r) (done r) true (frameErr r) (input r)).

Definition chunkMessage (frame body : bytes) : wire.FlowMessage :=
  wire.mkFlowMessage "" "" "" 200
    (compressedHeaders (drop (Z.to_nat mapFramePrefixLen) frame)) body None None.

Definition chunkFlow (parent : string) (now : Z) (msg : wire.FlowMessage) : wire.Flow :=
  wire.mkFlow streamProtocolTag DirServerToClient parent None (Some msg) [] now (Some now).

Definition push_chunk (flow : wire.Flow) (out : bytes) : eff (result bytes) :=
  r ← PushFlow flow; mret (match r with Err e => Err e | Ok _ => Ok out end).

Definition processFrame (parent : string) (frame : bytes) : eff (result bytes) :=
  match DecodeMapResponseFrame frame with
  | Err e => mret (Err e)
  | Ok None => mret (Err (ErrNew "mapstream: short frame passed to processFrame"))
  | Ok (Some (payload, compressed, _)) =>
      '(mutJSON, fired) ← ApplyBody payload wire.RuleTypeResponseBody;
      now ← Now;
      if (length fired =? 0)%nat then push_chunk (chunkFlow parent now (chunkMessage frame payload)) frame
      else
        let outFrame := EncodeMapResponseFrame mutJSON compressed in
        push_chunk (chunkFlow parent now (chunkMessage outFrame mutJSON)) outFrame
  end.

Definition fail_read (e : error) (r : mapStreamReader) : eff (option (result unit) * mapStreamReader) :=
  r ← finish r; mret (Some (Err e), r).

(** One round of the loop of [Read]; [None] is to go around again. *)
Definition fill_once (r : mapStreamReader) : eff (option (result unit) * mapStreamReader) :=
  match pending r with
  | _ :: _ => mret (Some (Ok tt), r)
  | [] =>
      let '(o, re, fe) := Next split (re r) (frameErr r) in
      let r := r_re re fe r in
      match o with
      | Some frame =>
          out ← processFrame (parentID r) frame;
          match out with
          | Err e => fail_read e r
          | Ok out => mret (Some (Ok tt), r_pending out r)
          end
      | None =>
          match fe with
          | Some e => fail_read e r
          | None =>
              if done r then fail_read io_EOF r
              else
                match input r with
                | [] => mret (None, r_input re true [] r)
                | (b, err) :: input =>
                    let re := if 0 <? len b then Append re b else re in
                    match err with
                    | None => mret (None, r_input re false input r)
                    | Some e =>
                        if bool_decide (e = io_EOF) then mret (None, r_input re true input r)
                        else fail_read e (r_input re false input r)
                    end
                end
          end
      end
  end.

Fixpoint fill (fuel : nat) (r : mapStreamReader) : eff (option (result unit) * mapStreamReader) :=
  match fuel with
  | O => mret (None, r)
  | S fuel =>
      '(o, r) ← fill_once r;
      match o with
      | Some res => mret (Some res, r)
      | None => fill fuel r
      end
  end.

(** Every round but the last two consumes an entry of the script. *)
Definition fill_fuel (r : mapStreamReader) : nat := S (S (length (input r))).

(** [Read] into [k] bytes; [None] would be running out of fuel. *)
Definition Read (k : nat) (r : mapStreamReader) : eff (option (result bytes) * mapStreamReader) :=
  '(o, r) ← fill (fill_fuel r) r;
  mret (match o with
        | None => (None, r)
        | Some (Err e) => (Some (Err e), r)
        | Some (Ok _) => (Some (Ok (take k (pending r))), r_pending (drop k (pending r)) r)
        end).

Definition Close (r : mapStreamReader) : eff mapStreamReader :=
  r ← finish r; _ ← ConnClose (upstream r); mret r.

(** [flushingCopy] to the client's response writer; [None] is out of fuel. *)
Definition copyBuf : nat := Z.to_nat (32 * 1024).

Fixpoint flushingCopy (fuel : nat) (w : connid) (r : mapStreamReader) : eff (option mapStreamReader) :=
  match fuel with
  | O => mret None
  | S fuel =>
      '(o, r) ← Read copyBuf r;
      match o with
      | None => mret None
      | Some (Err _) => mret (Some r)
      | Some (Ok b) =>
          if 0 <? len b then
            e ← ConnWrite w b;
            match e with
            | Some _ => mret (Some r)
            | None => flushingCopy fuel w r
            end
          else flushingCopy fuel w r
      end
  end.
End reader.
Arguments mapStreamReader {_}.

(** ** Lemmas *)

Section lemmas.
Context `{ReassemblerLaws} `{ZstdLaws} `{Env}.

(** [f] is split off every buffer that starts with it, and a strict prefix waits. *)
Definition is_map_frame (f : bytes) : Prop :=
  (∀ rest, split (f ++ rest) None = (len f, true, None)) ∧
  (∀ b rest, f = b ++ rest → rest ≠ [] → split b None = (0, false, None)).

Lemma split_header (body rest : bytes) :
  len body ≤ MaxMapFrameBytes →
  le_get ((le_PutUint32 (len body) ++ body ++ rest).[0 : mapFramePrefixLen]) = len body.
Proof. intros Hb. apply map_header. unfold MaxMapFrameBytes in Hb. lia. Qed.

Lemma is_map_frame_encode payload compress :
  len (frame_body payload compress) ≤ MaxMapFrameBytes →
  is_map_frame (EncodeMapResponseFrame payload compress).
Proof.
  intros Hm. pose proof (EncodeMapResponseFrame_length payload compress) as Hl. split.
  - intros rest. unfold split, mapFramePrefixLen. rewrite length_app, Hl.
    unfold EncodeMapResponseFrame. fold (frame_body payload compress). rewrite <-app_assoc.
    pose proof (split_header (frame_body payload compress) rest Hm) as Hh. unfold mapFramePrefixLen in Hh.
    rewrite Hh.
    destruct (Z.ltb_spec (Z.of_nat (4 + length (frame_body payload compress) + length rest)) 4); [lia|].
    destruct (Z.ltb_spec MaxMapFrameBytes (len (frame_body payload compress))); [lia|].
    destruct (Z.ltb_spec (Z.of_nat (4 + length (frame_body payload compress) + length rest))
      (4 + len (frame_body payload compress))); [lia|].
    do 2 f_equal. lia.
  - intros b rest Hb Hr. unfold split, mapFramePrefixLen.
    destruct (Z.ltb_spec (len b) 4) as [|H4]; [done|].
    rewrite Hb, length_app in Hl. destruct rest as [|x rest]; [done|]. cbn in Hl.
    assert (le_get (b.[0 : 4]) = len (frame_body payload compress)) as ->.
    { rewrite <-(split_header (frame_body payload compress) []) by done. f_equal.
      unfold EncodeMapResponseFrame in Hb. fold (frame_body payload compress) in Hb.
      rewrite app_nil_r, Hb. unfold mapFramePrefixLen. cbn [Z.to_nat]. rewrite !drop_0.
      rewrite take_app_le by (change (Pos.to_nat 4 - 0)%nat with 4%nat; lia). done. }
    destruct (Z.ltb_spec MaxMapFrameBytes (len (frame_body payload compress))); [lia|].
    destruct (Z.ltb_spec (len b) (4 + len (frame_body payload compress))); [done|lia].
Qed.

(** A script that ends cleanly: its last entry may carry the end of file. *)
Inductive ends_clean : script → Prop :=
  | ec_nil : ends_clean []
  | ec_eof b : ends_clean [(b, Some io_EOF)]
  | ec_chunk b l : ends_clean l → ends_clean ((b, None) :: l).

(** The rounds a reader may still wait. *)
Definition todo (r : mapStreamReader) : nat := if done r then 0 else S (length (input r)).

(** A reader between frames, with the bytes it will still see. *)
Record ready (r : mapStreamReader) (R : bytes) : Prop := {
  rd_pending : pending r = [];
  rd_err : frameErr r = None;
  rd_clean : ends_clean (input r);
  rd_done : done r = true → input r = [];
  rd_bytes : buffered (re r) ++ script_bytes (input r) = R
}.

Lemma Append_if' (x : reasm) (b : bytes) :
  buffered (if 0 <? len b then Append x b else x) = buffered x ++ b.
Proof.
  destruct (Z.ltb_spec 0 (len b)); [apply buffered_Append|].
  destruct b; simpl in *; [by rewrite app_nil_r|lia].
Qed.

(** One round on a buffer that waits. *)
Lemma fill_once_waits r R tr :
  ready r R → split (buffered (re r)) None = (0, false, None) → done r = false →
  ∃ r', fill_once r tr = ((None, r'), tr) ∧ ready r' R ∧
    parentID r' = parentID r ∧ upstream r' = upstream r ∧ finished r' = finished r ∧
    (todo r' < todo r)%nat.
Proof.
  intros [Hp He Hc Hd Hb] Hs Hdone. unfold fill_once, todo. rewrite Hp, He.
  destruct (Next_none split (re r) None 0 None Hs) as (x & -> & Hx).
  change (done (r_re x None r)) with (done r). change (input (r_re x None r)) with (input r). rewrite Hdone.
  inversion Hc as [Hi|b Hi|b l Hl Hi]; rewrite <-Hi in Hb.
  - eexists. split; [reflexivity|]. split; [|cbn; auto with lia]. split; cbn; try done; [constructor|by rewrite Hx].
  - rewrite bool_decide_true by done. eexists. split; [reflexivity|]. split; [|cbn; auto with lia].
    split; cbn; try done; [constructor|]. rewrite Append_if', Hx, <-Hb. cbn. by rewrite !app_nil_r.
  - eexists. split; [reflexivity|]. split; [|cbn; auto with lia].
    split; cbn; try done. rewrite Append_if', Hx, <-Hb. unfold script_bytes. cbn. by rewrite <-app_assoc.
Qed.

Lemma fill_more n r tr r' tr' :
  fill_once r tr = ((None, r'), tr') → fill (S n) r tr = fill n r' tr'.
Proof. intros E. cbn [fill]. unfold mbind, eff_bind. by rewrite E. Qed.

Lemma fill_stop n r tr x r' tr' :
  fill_once r tr = ((Some x, r'), tr') → fill (S n) r tr = ((Some x, r'), tr').
Proof. intros E. cbn [fill]. unfold mbind, eff_bind. by rewrite E. Qed.

(** The parts of a reader that waiting leaves alone. *)
Definition same (r r' : mapStreamReader) : Prop :=
  parentID r' = parentID r ∧ upstream r' = upstream r ∧ finished r' = finished r.

(** Reading towards a frame of the stream: the reader hands it to [processFrame]
    and stands behind it. *)
Lemma fill_next r f R n tr :
  ready r (f ++ R) → is_map_frame f → (todo r < n)%nat →
  ∃ r', ready r' R ∧ same r r' ∧
    fill n r tr = (out ← processFrame (parentID r) f;
                   match out with
                   | Err e => fail_read e r'
                   | Ok out => mret (Some (Ok tt), r_pending out r')
                   end) tr.
Proof.
  intros Hr [Hsplit Hwait]. revert r Hr. induction n as [|n IH]; intros r Hr Hn; [lia|].
  pose proof Hr as [Hp He Hc Hd Hb].
  destruct (stream_cases _ _ _ _ Hb) as [(r0 & Hr0 & HR)|(k & Hk & Hne & HR)].
  - destruct (Next_split split (re r) None (len f) None) as (x & Hx & Hxb); [by rewrite Hr0|].
    rewrite Hr0, take_app_exact in Hx by lia. rewrite Hr0, drop_app_exact in Hxb by lia.
    exists (r_re x None r). split; [by split; cbn; rewrite ?Hxb|]. split; [done|].
    cbn [fill]. unfold fill_once. rewrite Hp, He, Hx. unfold mbind, eff_bind.
    change (parentID (r_re x None r)) with (parentID r).
    destruct (processFrame (parentID r) f tr) as [[out|e] tr1]; [done|].
    unfold fail_read, mbind, eff_bind. by destruct (finish _ tr1).
  - destruct (done r) eqn:Hdone.
    { rewrite (Hd eq_refl) in HR. by destruct k. }
    destruct (fill_once_waits r (f ++ R) tr Hr (Hwait _ _ Hk Hne) Hdone)
      as (r1 & E & Hr1 & Hp1 & Hu1 & Hf1 & Ht).
    destruct (IH r1 Hr1) as (r2 & Hr2 & (Hp2 & Hu2 & Hf2) & E2); [lia|].
    exists r2. split; [done|]. split; [by repeat split; congruence|].
    by rewrite (fill_more _ _ _ _ _ E), E2, Hp1.
Qed.

(** An incomplete tail ends the stream. *)
Lemma fill_end r R n tr :
  ready r R → (∀ b rest, R = b ++ rest → split b None = (0, false, None)) → (todo r < n)%nat →
  ∃ r', same r r' ∧ fill n r tr = fail_read io_EOF r' tr.
Proof.
  intros Hr Hwait. revert r Hr. induction n as [|n IH]; intros r Hr Hn; [lia|].
  pose proof Hr as [Hp He Hc Hd Hb]. assert (split (buffered (re r)) None = (0, false, None)) as Hs by eauto.
  destruct (done r) eqn:Hdone.
  - destruct (Next_none split (re r) None 0 None Hs) as (x & Hx & Hxb).
    exists (r_re x None r). split; [done|]. cbn [fill]. unfold fill_once. rewrite Hp, He, Hx.
    change (done (r_re x None r)) with (done r). rewrite Hdone.
    unfold fail_read, mbind, eff_bind. by destruct (finish _ tr).
  - destruct (fill_once_waits r R tr Hr Hs Hdone) as (r1 & E & Hr1 & Hp1 & Hu1 & Hf1 & Ht).
    destruct (IH r1 Hr1) as (r2 & (Hp2 & Hu2 & Hf2) & E2); [lia|].
    exists r2. split; [by repeat split; congruence|]. by rewrite (fill_more _ _ _ _ _ E), E2.
Qed.

(** *** The copy to the client *)

Fixpoint pieces_fuel (n : nat) (b : bytes) : list bytes :=
  match n, b with
  | S n, _ :: _ => take copyBuf b :: pieces_fuel n (drop copyBuf b)
  | _, _ => []
  end.

(** The buffers in which [flushingCopy] writes out [b]. *)
Definition pieces (b : bytes) : list bytes := pieces_fuel (length b) b.

Fixpoint write_pieces (w : connid) (bs : list bytes) : eff unit :=
  match bs with
  | [] => mret tt
  | b :: bs => _ ← ConnWrite w b; write_pieces w bs
  end.

Lemma copyBuf_pos : (0 < copyBuf)%nat.
Proof. unfold copyBuf. lia. Qed.
#[local] Opaque copyBuf.

Lemma drop_copyBuf_length (x : Byte.byte) b n :
  (length (x :: b) ≤ S n)%nat → (length (drop copyBuf (x :: b)) ≤ n)%nat.
Proof. rewrite length_drop. pose proof copyBuf_pos. simpl. lia. Qed.

Lemma concat_pieces b : concat (pieces b) = b.
Proof.
  unfold pieces. assert (length b ≤ length b)%nat as Hn by done. revert Hn.
  generalize (length b) at 2 3 as n. intros n. revert b.
  induction n as [|n IH]; intros [|x b] Hn; try done; [simpl in Hn; lia|].
  cbn [pieces_fuel concat]. rewrite IH by (by apply drop_copyBuf_length). apply take_drop.
Qed.

Lemma Read_pending k r tr :
  pending r ≠ [] → Read k r tr = ((Some (Ok (take k (pending r))), r_pending (drop k (pending r)) r), tr).
Proof.
  intros Hp. unfold Read, fill_fuel, mbind, eff_bind.
  rewrite (fill_stop _ r tr (Ok tt) r tr); [done|]. unfold fill_once. by destruct (pending r).
Qed.

Definition writes_ok (w : connid) : Prop := ∀ tr b, env_Write tr w b = None.
Definition pushes_ok : Prop := ∀ tr f, ∃ id, env_PushFlow tr f = Ok id.

(** A delivered frame is written out in pieces. *)
Lemma copy_drain w n : writes_ok w → ∀ r tr, (length (pending r) ≤ n)%nat →
  ∃ j, (pending r ≠ [] → 0 < j)%nat ∧ ∀ m, flushingCopy (j + m) w r tr
    = flushingCopy m w (r_pending [] r) (snd (write_pieces w (pieces_fuel n (pending r)) tr)).
Proof.
  intros Hw. induction n as [|n IH]; intros r tr Hn.
  - exists 0%nat. destruct r as [p u x [|] d f e i]; [done|simpl in Hn; lia].
  - destruct (pending r) as [|x b] eqn:Hp.
    { exists 0%nat. destruct r; simpl in Hp; by subst. }
    set (r1 := r_pending (drop copyBuf (x :: b)) r).
    destruct (IH r1 (tr ++ [EvWrite w (take copyBuf (x :: b))])) as (j & _ & Hj).
    { by apply drop_copyBuf_length. }
    exists (S j). split; [lia|]. intros m. cbn [Nat.add flushingCopy]. unfold mbind at 1, eff_bind at 1.
    rewrite Read_pending by (by rewrite Hp). rewrite Hp. fold r1.
    destruct (Z.ltb_spec 0 (len (take copyBuf (x :: b)))) as [|Hl].
    2: { rewrite length_take in Hl. pose proof copyBuf_pos. simpl in Hl. lia. }
    unfold mbind at 1, eff_bind at 1. unfold ConnWrite. rewrite Hw, Hj. done.
Qed.

(** What one frame of the stream amounts to. *)
Definition encode_frame (f : bytes * bool) : bytes := EncodeMapResponseFrame (fst f) (snd f).
Definition map_frame_ok (f : bytes * bool) : Prop :=
  plain (fst f) (snd f) ∧ len (frame_body (fst f) (snd f)) ≤ MaxMapFrameBytes.

Definition relay_frame (parent : string) (w : connid) (f : bytes * bool) : eff unit :=
  '(mutJSON, fired) ← ApplyBody (fst f) wire.RuleTypeResponseBody;
  now ← Now;
  let body := if (length fired =? 0)%nat then fst f else mutJSON in
  let out := encode_frame (body, snd f) in
  _ ← PushFlow (chunkFlow parent now (chunkMessage out body));
  write_pieces w (pieces out).

Fixpoint relay_frames (parent : string) (w : connid) (fs : list (bytes * bool)) : eff unit :=
  match fs with
  | [] => mret tt
  | f :: fs => _ ← relay_frame parent w f; relay_frames parent w fs
  end.

(** The end of the stream completes the parent. *)
Definition stream_end (parent : string) : eff unit :=
  if bool_decide (parent = EmptyString) then mret tt else CompleteFlow parent.

(** The whole stream, the parent flow completed at its end. *)
Definition relay_stream (parent : string) (w : connid) (fs : list (bytes * bool)) : eff unit :=
  _ ← relay_frames parent w fs; stream_end parent.

Lemma encode_frame_nonempty f : encode_frame f ≠ [].
Proof.
  intros E. pose proof (EncodeMapResponseFrame_length (fst f) (snd f)) as Hl.
  unfold encode_frame in E. by rewrite E in Hl.
Qed.

Lemma processFrame_encode parent f tr :
  pushes_ok → map_frame_ok f →
  ∃ out tr1, processFrame parent (encode_frame f) tr = (Ok out, tr1) ∧ out ≠ [] ∧
    ∀ w, relay_frame parent w f tr = write_pieces w (pieces out) tr1.
Proof.
  intros Hpu [Hpl Hmax]. unfold processFrame.
  pose proof (DecodeMap_encode (fst f) (snd f) [] Hpl Hmax) as Hd. rewrite app_nil_r in Hd.
  unfold encode_frame at 1. rewrite Hd. unfold relay_frame, mbind, eff_bind, ApplyBody, Now, push_chunk, PushFlow.
  destruct (env_ApplyBody tr (fst f) wire.RuleTypeResponseBody) as [mutJSON fired].
  destruct (length fired =? 0)%nat; unfold mbind, eff_bind.
  - destruct (Hpu tr (chunkFlow parent (env_Now tr) (chunkMessage (encode_frame f) (fst f)))) as (id & ->).
    eexists _, _. split; [reflexivity|]. split; [apply encode_frame_nonempty|]. by destruct f.
  - destruct (Hpu tr (chunkFlow parent (env_Now tr)
      (chunkMessage (EncodeMapResponseFrame mutJSON (snd f)) mutJSON))) as (id & ->).
    eexists _, _. split; [reflexivity|]. split; [apply (encode_frame_nonempty (mutJSON, snd f))|]. done.
Qed.

Lemma ready_fuel r : (todo r < fill_fuel r)%nat.
Proof. unfold todo, fill_fuel. destruct (done r); lia. Qed.

Lemma eff_bind_ext {A B} (m1 m2 : eff A) (k : A → eff B) tr1 tr2 :
  m1 tr1 = m2 tr2 → (m1 ≫= k) tr1 = (m2 ≫= k) tr2.
Proof. unfold mbind, eff_bind. by intros ->. Qed.

Lemma flushingCopy_Read n w r tr r' tr' :
  Read copyBuf r tr = Read copyBuf r' tr' → flushingCopy (S n) w r tr = flushingCopy (S n) w r' tr'.
Proof. intros E. cbn [flushingCopy]. by apply eff_bind_ext. Qed.

(** One frame of the stream, whatever chunks it arrives in. *)
Lemma copy_frame w f R r tr :
  writes_ok w → pushes_ok → map_frame_ok f → ready r (encode_frame f ++ R) →
  ∃ r' j, ready r' R ∧ same r r' ∧
    ∀ m, flushingCopy (j + m) w r tr = flushingCopy m w r' (snd (relay_frame (parentID r) w f tr)).
Proof.
  intros Hw Hpu Hf Hr.
  destruct (fill_next r (encode_frame f) R (fill_fuel r) tr Hr (is_map_frame_encode _ _ (proj2 Hf)) (ready_fuel r))
    as (r1 & Hr1 & Hs & E).
  destruct (processFrame_encode (parentID r) f tr Hpu Hf) as (out & tr1 & Ep & Hne & Erel).
  unfold mbind, eff_bind in E. rewrite Ep in E.
  destruct (copy_drain w (length out) Hw (r_pending out r1) tr1) as (j & Hpos & Hj); [done|].
  destruct j as [|j]; [by specialize (Hpos Hne); lia|].
  assert (r_pending [] (r_pending out r1) = r1) as Hb.
  { destruct Hr1 as [Hp _ _ _ _]. destruct r1. simpl in *. by subst. }
  exists r1, (S j). split; [done|]. split; [done|]. intros m. rewrite Erel, <-Hb.
  etransitivity; [|apply (Hj m)]. apply flushingCopy_Read.
  rewrite (Read_pending _ (r_pending out r1)) by done.
  unfold Read, mbind, eff_bind. by rewrite E.
Qed.

Lemma same_trans r1 r2 r3 : same r1 r2 → same r2 r3 → same r1 r3.
Proof. intros (? & ? & ?) (? & ? & ?). repeat split; congruence. Qed.

Lemma copy_frames w fs R : writes_ok w → pushes_ok → Forall map_frame_ok fs → ∀ r tr,
  ready r (concat (map encode_frame fs) ++ R) →
  ∃ r' j, ready r' R ∧ same r r' ∧
    ∀ m, flushingCopy (j + m) w r tr = flushingCopy m w r' (snd (relay_frames (parentID r) w fs tr)).
Proof.
  intros Hw Hpu. induction fs as [|f fs IH]; intros Hok r tr Hr; [by exists r, 0%nat|].
  apply Forall_cons in Hok as [Hf Hok]. cbn [map concat] in Hr. rewrite <-app_assoc in Hr.
  destruct (copy_frame w f _ r tr Hw Hpu Hf Hr) as (r1 & j1 & Hr1 & Hs1 & E1).
  destruct (IH Hok r1 (snd (relay_frame (parentID r) w f tr)) Hr1) as (r2 & j2 & Hr2 & Hs2 & E2).
  exists r2, (j1 + j2)%nat. split; [done|]. split; [by eapply same_trans|]. intros m.
  rewrite <-Nat.add_assoc, E1, E2, (proj1 Hs1). cbn [relay_frames]. unfold mbind, eff_bind.
  by destruct (relay_frame (parentID r) w f tr).
Qed.

Definition closed_reader (r : mapStreamReader) : Prop := parentID r = EmptyString ∨ finished r = true.

Lemma finish_spec r tr :
  closed_reader (fst (finish r tr)) ∧
  snd (finish r tr) = if finished r then tr else snd (stream_end (parentID r) tr).
Proof.
  unfold finish, stream_end, closed_reader. destruct (finished r) eqn:Ef; cbn [orb]; [auto|].
  case_bool_decide; cbn; auto.
Qed.

Lemma finish_closed r tr : closed_reader r → finish r tr = (r, tr).
Proof.
  unfold finish, closed_reader. intros [->| ->]; [|done]. rewrite bool_decide_true by done.
  by destruct (finished r).
Qed.

Lemma Read_error k r tr e r' tr' :
  fill (fill_fuel r) r tr = ((Some (Err e), r'), tr') → Read k r tr = ((Some (Err e), r'), tr').
Proof. intros E. unfold Read, mbind, eff_bind. by rewrite E. Qed.

Lemma copy_end w R r tr :
  ready r R → (∀ b rest, R = b ++ rest → split b None = (0, false, None)) →
  ∃ r', (∀ m, flushingCopy (S m) w r tr
      = (Some r', if finished r then tr else snd (stream_end (parentID r) tr))) ∧
    closed_reader r' ∧ upstream r' = upstream r.
Proof.
  intros Hr Hw. destruct (fill_end r R (fill_fuel r) tr Hr Hw (ready_fuel r)) as (r1 & (Hp & Hu & Hf) & E).
  destruct (finish_spec r1 tr) as [Hc Ht]. rewrite Hp, Hf in Ht.
  assert (upstream (fst (finish r1 tr)) = upstream r1) as Hup.
  { unfold finish. by destruct (_ || _). }
  unfold fail_read, mbind, eff_bind in E. destruct (finish r1 tr) as [r2 tr2]. simpl in *. subst tr2.
  exists r2. split; [|by rewrite Hup]. intros m. cbn [flushingCopy]. unfold mbind at 1, eff_bind at 1.
  by rewrite (Read_error _ _ _ _ _ _ E).
Qed.

(** A cut-off frame makes every reader wait. *)
Lemma truncated_waits p c tail k :
  len (frame_body p c) ≤ MaxMapFrameBytes → EncodeMapResponseFrame p c = tail ++ k → k ≠ [] →
  ∀ b rest, tail = b ++ rest → split b None = (0, false, None).
Proof.
  intros Hm E Hk b rest ->. apply (proj2 (is_map_frame_encode p c Hm) b (rest ++ k)); [by rewrite app_assoc|].
  by destruct rest.
Qed.

Lemma ready_new up input parent :
  ends_clean input → ready (newMapStreamReader up input parent) (script_bytes input).
Proof. intros Hc. split; cbn; try done. by rewrite buffered_zero. Qed.

(** *** What the stream writes *)
Definition written (w : connid) (tr : list event) : bytes :=
  concat (omap (λ e, match e with EvWrite c b => if decide (c = w) then Some b else None | _ => None end) tr).

Lemma written_app w tr1 tr2 : written w (tr1 ++ tr2) = written w tr1 ++ written w tr2.
Proof. unfold written. by rewrite omap_app, concat_app. Qed.

Lemma write_pieces_written w bs tr :
  written w (snd (write_pieces w bs tr)) = written w tr ++ concat bs.
Proof.
  revert tr. induction bs as [|b bs IH]; intros tr; cbn; [by rewrite app_nil_r|].
  unfold mbind, eff_bind, ConnWrite. rewrite IH, written_app, <-app_assoc. f_equal.
  unfold written. cbn. rewrite decide_True by done. cbn. by rewrite app_nil_r.
Qed.

Lemma relay_frame_untouched parent w f tr :
  (∀ tr b rt, snd (env_ApplyBody tr b rt) = []) →
  written w (snd (relay_frame parent w f tr)) = written w tr ++ encode_frame f.
Proof.
  intros Hrules. unfold relay_frame, mbind, eff_bind, ApplyBody, Now, PushFlow.
  specialize (Hrules tr (fst f) wire.RuleTypeResponseBody).
  destruct (env_ApplyBody tr (fst f) wire.RuleTypeResponseBody) as [b fired]. simpl in Hrules. subst fired.
  cbn [length Nat.eqb]. rewrite write_pieces_written, concat_pieces, written_app. cbn.
  unfold encode_frame. by rewrite app_nil_r.
Qed.

Lemma relay_frames_untouched parent w fs tr :
  (∀ tr b rt, snd (env_ApplyBody tr b rt) = []) →
  written w (snd (relay_frames parent w fs tr)) = written w tr ++ concat (map encode_frame fs).
Proof.
  intros Hrules. revert tr. induction fs as [|f fs IH]; intros tr; cbn; [by rewrite app_nil_r|].
  unfold mbind, eff_bind. pose proof (relay_frame_untouched parent w f tr Hrules) as Hf.
  destruct (relay_frame parent w f tr) as [[] tr1]. cbn [snd] in Hf. by rewrite IH, Hf, <-app_assoc.
Qed.

(** *** The parent flow *)
Definition completes (tr : list event) : list string :=
  omap (λ e, match e with EvComplete id => Some id | _ => None end) tr.

#[local] Arguments completes : simpl never.

Lemma completes_app tr1 tr2 : completes (tr1 ++ tr2) = completes tr1 ++ completes tr2.
Proof. apply omap_app. Qed.

(** One step of a reader completes the parent when it finishes it, and never
    for an uncaptured stream. *)
Definition completes_step (r r' : mapStreamReader) (tr tr' : list event) : Prop :=
  parentID r' = parentID r ∧
  (finished r = true → finished r' = true) ∧
  (finished r = false → finished r' = true → parentID r ≠ EmptyString) ∧
  completes tr' = completes tr ++ (if negb (finished r) && finished r' then [parentID r] else []).

Lemma completes_step_refl r r' tr tr' :
  parentID r' = parentID r → finished r' = finished r → completes tr' = completes tr →
  completes_step r r' tr tr'.
Proof.
  intros Hp Hf Ht. split; [done|]. rewrite Hf, Ht. destruct (finished r); cbn; rewrite app_nil_r; split_and!; congruence.
Qed.

Lemma completes_step_trans r1 r2 r3 tr1 tr2 tr3 :
  completes_step r1 r2 tr1 tr2 → completes_step r2 r3 tr2 tr3 → completes_step r1 r3 tr1 tr3.
Proof.
  intros (Hp & Hf & Hn & Ht) (Hp' & Hf' & Hn' & Ht'). unfold completes_step. rewrite Ht', Ht, Hp', Hp.
  rewrite Hp in *.
  destruct (finished r1), (finished r2), (finished r3); cbn; rewrite ?app_nil_r; split_and!;
    auto; try done; try (by discriminate Hf); try (by discriminate Hf'); intuition congruence.
Qed.

Lemma finish_step r tr : completes_step r (fst (finish r tr)) tr (snd (finish r tr)).
Proof.
  unfold finish. destruct (finished r) eqn:Ef; cbn [orb]; [by apply completes_step_refl|].
  case_bool_decide; [by apply completes_step_refl|].
  unfold completes_step, mbind, eff_bind, CompleteFlow, emit. cbn. rewrite Ef, completes_app. done.
Qed.

Lemma fail_read_step e r tr :
  ∃ r', fst (fail_read e r tr) = (Some (Err e), r') ∧ completes_step r r' tr (snd (fail_read e r tr)).
Proof.
  pose proof (finish_step r tr) as Hs. unfold fail_read, mbind, eff_bind. destruct (finish r tr) as [r' tr'].
  by exists r'.
Qed.

Lemma processFrame_completes parent f tr : completes (snd (processFrame parent f tr)) = completes tr.
Proof.
  unfold processFrame. destruct (DecodeMapResponseFrame f) as [[[[p c] n]|]|]; [|done..].
  assert (∀ flow out tr, completes (snd (push_chunk flow out tr)) = completes tr) as Hpush.
  { intros flow out tr1. change (snd (push_chunk flow out tr1)) with (tr1 ++ [EvPush flow]).
    by rewrite completes_app, app_nil_r. }
  unfold mbind, eff_bind, ApplyBody, Now. destruct (env_ApplyBody _ _ _) as [b fired].
  destruct (_ =? _)%nat; apply Hpush.
Qed.

(** Every round keeps the account of the parent, and waits only while the script lasts. *)
Lemma fill_once_step r tr :
  let '((o, r'), tr') := fill_once r tr in
  completes_step r r' tr tr' ∧ (o = None → (todo r' < todo r)%nat).
Proof.
  unfold fill_once. destruct (pending r); [|by split; [apply completes_step_refl|]].
  destruct (Next split (re r) (frameErr r)) as [[[frame|] x] fe].
  - unfold mbind, eff_bind. cbv zeta.
    pose proof (processFrame_completes (parentID (r_re x fe r)) frame tr) as Hc.
    destruct (processFrame _ frame tr) as [[out|e] tr1]; [by split; [apply completes_step_refl|]|].
    destruct (fail_read_step e (r_re x fe r) tr1) as (r' & E & Hs).
    destruct (fail_read e _ tr1) as [[o r2] tr2]. simpl in E. simplify_eq. split; [|done].
    eapply completes_step_trans; [|exact Hs]. by apply completes_step_refl.
  - assert (∀ e r2, parentID r2 = parentID r → finished r2 = finished r →
      let '((o, r'), tr') := fail_read e r2 tr in
      completes_step r r' tr tr' ∧ (o = None → (todo r' < todo r)%nat)) as Hfail.
    { intros e r2 Hp Hf. destruct (fail_read_step e r2 tr) as (r' & E & Hs).
      destruct (fail_read e r2 tr) as [[o r3] tr2]. simpl in E. simplify_eq. split; [|done].
      eapply completes_step_trans; [|exact Hs]. by apply completes_step_refl. }
    destruct fe as [e|]; [by apply Hfail|]. change (done (r_re x None r)) with (done r).
    change (input (r_re x None r)) with (input r).
    destruct (done r) eqn:Hd; [by apply Hfail|].
    assert (todo r = S (length (input r))) as Htd by (unfold todo; by rewrite Hd).
    destruct (input r) as [|[b [e|]] l].
    + split; [by apply completes_step_refl|]. rewrite Htd. cbn. lia.
    + case_bool_decide; [|by apply Hfail]. split; [by apply completes_step_refl|]. rewrite Htd. cbn. lia.
    + split; [by apply completes_step_refl|]. rewrite Htd. cbn. lia.
Qed.

Lemma fill_step n r tr :
  let '((o, r'), tr') := fill n r tr in
  completes_step r r' tr tr' ∧ ((todo r < n)%nat → is_Some o).
Proof.
  revert r tr. induction n as [|n IH]; intros r tr; [by split; [apply completes_step_refl|lia]|].
  cbn [fill]. unfold mbind, eff_bind. pose proof (fill_once_step r tr) as Ho1.
  destruct (fill_once r tr) as [[[o|] r1] tr1]; [by destruct Ho1 as [? _]|]. destruct Ho1 as [Hs Hd].
  specialize (IH r1 tr1). destruct (fill n r1 tr1) as [[o r2] tr2]. destruct IH as [Hs2 Ho].
  split; [by eapply completes_step_trans|]. intros. apply Ho. specialize (Hd eq_refl). lia.
Qed.

Lemma Read_step k r tr :
  let '((o, r'), tr') := Read k r tr in completes_step r r' tr tr' ∧ is_Some o.
Proof.
  unfold Read, mbind, eff_bind. pose proof (fill_step (fill_fuel r) r tr) as Hf.
  destruct (fill (fill_fuel r) r tr) as [[o r1] tr1]. destruct Hf as [Hs Ho].
  destruct (Ho (ready_fuel r)) as [[[]|e] ->]; cbn; [|by eauto]. split; [|by eauto].
  eapply completes_step_trans; [exact Hs|]. by apply completes_step_refl.
Qed.

(** A client that reads the sizes [ks] and then closes, as the HTTP server does
    with a response body. *)
Fixpoint read_all (ks : list nat) (r : mapStreamReader) :
    eff (list (option (result bytes)) * mapStreamReader) :=
  match ks with
  | [] => mret ([], r)
  | k :: ks => '(o, r) ← Read k r; '(os, r) ← read_all ks r; mret (o :: os, r)
  end.

Lemma read_all_step ks r tr :
  let '((os, r'), tr') := read_all ks r tr in
  completes_step r r' tr tr' ∧ Forall is_Some os.
Proof.
  revert r tr. induction ks as [|k ks IH]; intros r tr; [by split; [apply completes_step_refl|]|].
  cbn [read_all]. unfold mbind, eff_bind. pose proof (Read_step k r tr) as Hr1.
  destruct (Read k r tr) as [[o r1] tr1]. destruct Hr1 as [Hs Ho]. specialize (IH r1 tr1).
  destruct (read_all ks r1 tr1) as [[os r2] tr2]. destruct IH as [Hs2 Hos]. cbn.
  split; [by eapply completes_step_trans|by constructor].
Qed.
End lemmas.

(** ** Properties *)

(** C37: the map stream relay refines a loop over the frames. Whatever chunks the
    upstream body arrives in (the last one with or without the end of file, and
    possibly cut off inside a frame), copying the stream to the client does
    exactly this, in order, for each whole frame: consult the rules on the
    decoded payload, push one child flow of the parent carrying the frame that
    is forwarded, and write that frame out (the original one, or when a rule
    fired the mutated payload in the compression mode of the original); a cut-off
    frame is not forwarded; then the parent is completed, and closing the reader
    afterwards only closes the upstream body. Without rules the client receives
    the upstream's bytes unchanged. A frame that a rule mutates is recorded once,
    mutated, where the README promises a captured and a mutated flow. The copy
    terminates. *)
Theorem map_stream_relay `{ReassemblerLaws} `{ZstdLaws} `{Env} (w up : connid) (parent : string)
    (fs : list (bytes * bool)) (input : script) (p k tail : bytes) (c : bool) (tr : list event) :
  writes_ok w → pushes_ok → Forall map_frame_ok fs → ends_clean input →
  script_bytes input = concat (map encode_frame fs) ++ tail →
  EncodeMapResponseFrame p c = tail ++ k → k ≠ [] → len (frame_body p c) ≤ MaxMapFrameBytes →
  ∃ n r', ∀ m,
    flushingCopy (n + m) w (newMapStreamReader up input parent) tr
      = (Some r', snd (relay_stream parent w fs tr)) ∧
    (∀ tr', Close r' tr' = (r', tr' ++ [EvClose up])) ∧
    ((∀ tr b rt, snd (env_ApplyBody tr b rt) = []) →
     written w (snd (relay_stream parent w fs tr)) = written w tr ++ concat (map encode_frame fs)).
Proof.
  intros Hw Hpu Hfs Hc Hb Ht Hk Hm. set (r := newMapStreamReader up input parent).
  pose proof (ready_new up input parent Hc) as Hr. rewrite Hb in Hr. fold r in Hr.
  destruct (copy_frames w fs tail Hw Hpu Hfs r tr Hr) as (r1 & j & Hr1 & (Hp1 & Hu1 & Hf1) & Ec).
  destruct (copy_end w tail r1 (snd (relay_frames parent w fs tr)) Hr1 (truncated_waits p c tail k Hm Ht Hk))
    as (r2 & Ee & Hcl & Hu2).
  exists (j + 1)%nat, r2. intros m. split; [|split].
  - rewrite <-Nat.add_assoc, Ec, Ee, Hf1, Hp1. cbn [r parentID finished newMapStreamReader].
    unfold relay_stream, mbind, eff_bind. by destruct (relay_frames parent w fs tr).
  - intros tr'. unfold Close, mbind, eff_bind. rewrite finish_closed by done. by rewrite Hu2, Hu1.
  - intros Hrules. rewrite <-relay_frames_untouched with (parent := parent) by done.
    unfold relay_stream, mbind, eff_bind. destruct (relay_frames parent w fs tr) as [[] tr1].
    unfold stream_end. case_bool_decide; [done|]. unfold CompleteFlow, emit. cbn [snd].
    by rewrite written_app, app_nil_r.
Qed.

Lemma map_stream_relay_witness :
  ∃ n r', ∀ m, @flushingCopy toy_reassembler toy_zstd env_capture (n + m) 1%nat
      (newMapStreamReader 2%nat [([x02; x00; x00], None); ([x00; x7b; x7d; x09], Some io_EOF)] "p") []
    = (Some r', snd (@relay_stream toy_zstd env_capture "p" 1%nat [([x7b; x7d], false)] [])).
Proof.
  destruct (@map_stream_relay toy_reassembler toy_reassembler_laws toy_zstd toy_zstd_laws env_capture
    1%nat 2%nat "p" [([x7b; x7d], false)] [([x02; x00; x00], None); ([x00; x7b; x7d; x09], Some io_EOF)]
    (repeat x41 9) ([x00; x00; x00] ++ repeat x41 9) [x09] false []) as (n & r' & E).
  - by intros ? ?.
  - intros tr f. by eexists.
  - apply Forall_singleton. split; [by right|vm_compute; discriminate].
  - repeat constructor.
  - reflexivity.
  - reflexivity.
  - discriminate.
  - vm_compute. discriminate.
  - exists n, r'. intros m. exact (proj1 (E m)).
Defined.

(** The parent of a map stream. Whatever the upstream delivers, whatever read
    sizes the client uses, whatever sectool answers: every read returns, and once
    the reader is closed its parent flow has been completed exactly once (not at
    all when the parent was not captured), by the close or before it. *)
Theorem map_stream_parent_completed `{Reassembler} `{Zstd} `{Env} (up : connid) (parent : string)
    (input : script) (ks : list nat) (tr : list event) :
  let '((os, r), tr1) := read_all ks (newMapStreamReader up input parent) tr in
  Forall is_Some os ∧
  completes (snd (Close r tr1)) = completes tr ++ (if bool_decide (parent = EmptyString) then [] else [parent]).
Proof.
  pose proof (read_all_step ks (newMapStreamReader up input parent) tr) as Hs.
  destruct (read_all ks _ tr) as [[os r] tr1]. destruct Hs as [Hs Hos]. split; [done|].
  pose proof (finish_step r tr1) as Hf. pose proof (proj1 (finish_spec r tr1)) as Hc.
  unfold Close, mbind, eff_bind. destruct (finish r tr1) as [r2 tr2]. cbn [fst snd] in *.
  change (snd _) with (tr2 ++ [EvClose (upstream r2)]). rewrite completes_app, app_nil_r.
  destruct (completes_step_trans _ _ _ _ _ _ Hs Hf) as (Hp & _ & Hn & ->).
  cbn [parentID finished newMapStreamReader negb andb] in *. unfold closed_reader in Hc. rewrite Hp in Hc.
  case_bool_decide as Hpar; destruct (finished r2); try done.
  - by specialize (Hn eq_refl eq_refl).
  - by destruct Hc.
Qed.
