(* ===== verification/UpstreamPool.v ===== *)
(** * The pool of upstream Noise connections: [sidescale/noise/upstreampool.go],
    with the tunnel operations of [tunnel.go] and [shutdown.go] that hold its
    references

    Upstreams are shared pointers in the code: the model keeps a store [ups] from
    identities to their fields. Every definition below is one critical section of
    [h.mu] (or of a tunnel's leaf lock); goroutines interleave between them, so a
    reference that a goroutine holds while it runs unlocked is a [token]. A
    closed connection is recorded in [closed_uc] in the order of the closes. *)

From Stdlib Require Import Lia ZArith Ascii String.
From stdpp Require Import base option list fin_maps gmap sets strings.
From S2P Require Import Prelude GoStd External Instances Adapter.
Open Scope Z_scope.

Section pool.
Context `{MachineKeys}.

Record poolKey := mkPoolKey {
  pk_id : MachinePublic;
  pk_host : string;
  pk_version : Z;
  pk_session : string
}.

#[export] Instance poolKey_eq_dec : EqDecision poolKey.
Proof. solve_decision. Defined.
#[export] Instance poolKey_countable : Countable poolKey.
Proof.
  apply (inj_countable' (λ k, (pk_id k, pk_host k, pk_version k, pk_session k))
    (λ '(i, h, v, s), mkPoolKey i h v s)).
  by intros [].
Defined.

(** The fields of [sharedUpstream]: [uc] is nil until the dial succeeded, [ready]
    is open while dialing, [dialErr] is the error with [dialCanceled]. *)
Record sharedUpstream := mkShared {
  key : poolKey;
  uc : bool;
  refs : Z;
  idleTimer : bool;
  closed : bool;
  ready : bool;
  dialErr : option (error * bool)
}.

(** What the goroutines see of a tunnel: the upstream it is bound to. *)
Record boundTunnel := mkBound { up : nat; at_closed : bool }.

Record pool := mkPool {
  ups : gmap nat sharedUpstream;
  upstreams : gmap poolKey nat;
  draining : bool;
  bound : gmap nat boundTunnel;
  tokens : list nat;
  closed_uc : list nat
}.

Definition pool0 : pool := mkPool ∅ ∅ false ∅ [] [].

(** ** Field updates *)

Definition set_ups (f : gmap nat sharedUpstream → gmap nat sharedUpstream) (s : pool) : pool :=
  mkPool (f (ups s)) (upstreams s) (draining s) (bound s) (tokens s) (closed_uc s).
Definition set_map (f : gmap poolKey nat → gmap poolKey nat) (s : pool) : pool :=
  mkPool (ups s) (f (upstreams s)) (draining s) (bound s) (tokens s) (closed_uc s).
Definition set_tokens (f : list nat → list nat) (s : pool) : pool :=
  mkPool (ups s) (upstreams s) (draining s) (bound s) (f (tokens s)) (closed_uc s).
Definition set_bound (f : gmap nat boundTunnel → gmap nat boundTunnel) (s : pool) : pool :=
  mkPool (ups s) (upstreams s) (draining s) (f (bound s)) (tokens s) (closed_uc s).
Definition close_uc (u : nat) (s : pool) : pool :=
  mkPool (ups s) (upstreams s) (draining s) (bound s) (tokens s) (closed_uc s ++ [u]).

Definition u_refs (d : Z) (su : sharedUpstream) : sharedUpstream :=
  mkShared (key su) (uc su) (refs su + d) (idleTimer su) (closed su) (ready su) (dialErr su).
Definition u_timer (b : bool) (su : sharedUpstream) : sharedUpstream :=
  mkShared (key su) (uc su) (refs su) b (closed su) (ready su) (dialErr su).
Definition u_close (su : sharedUpstream) : sharedUpstream :=
  mkShared (key su) (uc su) (refs su) (idleTimer su) true (ready su) (dialErr su).
Definition u_dialed (ok : bool) (err : option (error * bool)) (su : sharedUpstream) : sharedUpstream :=
  mkShared (key su) ok (refs su) (idleTimer su) (closed su) false err.

(** [if h.upstreams[u.key] == u { delete(h.upstreams, u.key) }] *)
Definition unlink (u : nat) (su : sharedUpstream) (s : pool) : pool :=
  if bool_decide (upstreams s !! key su = Some u) then set_map (delete (key su)) s else s.

(** ** [getOrCreateUpstream] *)

Inductive acquired :=
  | Refused
  | Acquired (u : nat)
  | WaitFor (u : nat)
  | Dial (u : nat).

Definition acquireLocked (u : nat) (s : pool) : pool :=
  set_ups (alter (λ su, u_timer false (u_refs 1 su)) u) s.

(** The first critical section of the loop; [fresh] names a new object. *)
Definition getOrCreate_enter (k : poolKey) (fresh : nat) (s : pool) : acquired * pool :=
  if draining s then (Refused, s)
  else
    let dial := (Dial fresh,
      mkPool (<[fresh := mkShared k false 1 false false true None]> (ups s)) (<[k := fresh]> (upstreams s))
        (draining s) (bound s) (tokens s) (closed_uc s)) in
    match upstreams s !! k with
    | Some u =>
        match ups s !! u with
        | Some su =>
            if closed su then dial
            else if negb (ready su) then (Acquired u, acquireLocked u s)
            else (WaitFor u, s)
        | None => dial
        end
    | None => dial
    end.

(** What a waiter does once the dial it waited for has resolved: [None] is to go
    around the loop; [live] says its own context is. *)
Definition getOrCreate_woken (u : nat) (live : bool) (s : pool) : option error :=
  match ups s !! u ≫= dialErr with
  | Some (e, canceled) => if canceled && live then None else Some e
  | None => None
  end.

(** The last critical section of the dialer: [res] is the dial's error and
    whether the dialer's context was canceled. The second component says that the
    fresh connection is discarded. *)
Inductive dialed := DialFailed (e : error) | DialDrained | DialUp.

Definition getOrCreate_dialed (u : nat) (su : sharedUpstream) (res : option (error * bool)) (s : pool)
    : dialed * pool :=
  match res with
  | Some (e, canceled) =>
      (DialFailed e,
       unlink u su (set_ups (<[u := u_close (u_dialed false (Some (e, canceled)) su)]>) s))
  | None =>
      if closed su then
        (DialDrained, close_uc u (set_ups (<[u := u_dialed false None su]>) s))
      else (DialUp, set_ups (<[u := u_dialed true None su]>) s)
  end.

(** ** [tryAcquireUpstream], [releaseUpstream], [idleCloseUpstream], [evictUpstream] *)

Definition tryAcquireUpstream (u : nat) (su : sharedUpstream) (s : pool) : bool * pool :=
  if closed su then (false, s) else (true, acquireLocked u s).

Definition releaseUpstream (u : nat) (su : sharedUpstream) (s : pool) : pool :=
  let su := u_refs (-1) su in
  if (0 <? refs su) || closed su then set_ups (<[u := su]>) s
  else set_ups (<[u := u_timer true su]>) s.

Definition idleCloseUpstream (u : nat) (su : sharedUpstream) (s : pool) : pool :=
  if closed su || (0 <? refs su) then s
  else close_uc u (unlink u su (set_ups (<[u := u_close su]>) s)).

Definition evictUpstream (u : nat) (su : sharedUpstream) (s : pool) : pool :=
  if closed su then s
  else close_uc u (unlink u su (set_ups (<[u := u_timer false (u_close su)]>) s)).

(** ** The drain: [beginDrain] and [drainUpstreams] *)

Definition beginDrain (s : pool) : pool :=
  mkPool (ups s) (upstreams s) true (bound s) (tokens s) (closed_uc s).

(** One entry of the snapshot; its connection is closed if it has one. *)
Definition drain_one (u : nat) (s : pool) : pool :=
  match ups s !! u with
  | None => s
  | Some su =>
      let s := set_map (delete (key su)) (set_ups (<[u := u_timer false (u_close su)]>) s) in
      if uc su then close_uc u s else s
  end.

Definition drainUpstreams `{Bulk} (s : pool) : pool :=
  fold_left (λ s u, drain_one u s) (MapValuesSlice (upstreams s)) s.

(** ** Tunnels: [closeTunnel] and the swap of [healUpstream] *)

(** The tunnel's reference becomes the caller's; [None] when it was closed. *)
Definition closeTunnel (bt : boundTunnel) (t : nat) (s : pool) : option nat * pool :=
  (if at_closed bt then None else Some (up bt), set_bound (<[t := mkBound (up bt) true]>) s).

(** The upstream whose reference the healer is left with. *)
Definition heal_swap (bt : boundTunnel) (t dead fresh : nat) (s : pool) : nat * pool :=
  if at_closed bt || negb (bool_decide (up bt = dead)) then (fresh, s)
  else (dead, set_bound (<[t := mkBound fresh false]>) s).

(** ** The interleaving *)

(** Take one occurrence of a token. *)
Fixpoint drop_token (u : nat) (l : list nat) : list nat :=
  match l with
  | [] => []
  | x :: l => if decide (x = u) then l else x :: drop_token u l
  end.

(** An upstream that a goroutine may use: its dial has succeeded. *)
Definition established (s : pool) (u : nat) (su : sharedUpstream) : Prop :=
  ups s !! u = Some su ∧ uc su = true.

Inductive pool_step `{Bulk} : pool → pool → Prop :=
  | step_get s k fresh r s' :
      ups s !! fresh = None → getOrCreate_enter k fresh s = (r, s') →
      pool_step s (match r with Acquired u | Dial u => set_tokens (cons u) s' | _ => s' end)
  | step_dialed s u su res r s' :
      ups s !! u = Some su → ready su = true → getOrCreate_dialed u su res s = (r, s') →
      pool_step s (match r with DialUp => s' | _ => set_tokens (drop_token u) s' end)
  | step_bind s u su t :
      u ∈ tokens s → established s u su → bound s !! t = None →
      pool_step s (set_bound (<[t := mkBound u false]>) (set_tokens (drop_token u) s))
  | step_release s u su :
      u ∈ tokens s → established s u su →
      pool_step s (set_tokens (drop_token u) (releaseUpstream u su s))
  | step_try s u su b s' :
      established s u su → tryAcquireUpstream u su s = (b, s') →
      pool_step s (if b : bool then set_tokens (cons u) s' else s')
  | step_idle s u su :
      established s u su → pool_step s (idleCloseUpstream u su s)
  | step_evict s u su :
      established s u su → pool_step s (evictUpstream u su s)
  | step_close s t bt o s' :
      bound s !! t = Some bt → closeTunnel bt t s = (o, s') →
      pool_step s (match o with Some u => set_tokens (cons u) s' | None => s' end)
  | step_heal s t bt dead fresh su u s' :
      bound s !! t = Some bt → fresh ∈ tokens s → established s fresh su →
      heal_swap bt t dead fresh s = (u, s') →
      pool_step s (set_tokens (λ l, u :: drop_token fresh l) s')
  | step_begin_drain s : pool_step s (beginDrain s)
  | step_drain s : draining s = true → pool_step s (drainUpstreams s).
End pool.
