(* ===== verification/UpstreamPoolSpec.v ===== *)
(** * The upstream pool: properties

    The invariant of every interleaving of the pool's critical sections with the
    tunnels and goroutines that hold its references. *)

From Stdlib Require Import Init.Byte Strings.Byte Lia ZArith Ascii String.
From stdpp Require Import base option list fin_maps gmap sets strings relations.
From S2P Require Import Prelude GoStd External Instances Adapter UpstreamPool.
Open Scope Z_scope.

Section pool.
Context `{MachineKeys}.

(** ** Who holds a reference *)

Definition token_count (u : nat) (l : list nat) : nat := length (filter (λ x, x = u) l).

Definition binds (u : nat) (bt : boundTunnel) : bool := bool_decide (up bt = u) && negb (at_closed bt).

Definition bound_count (u : nat) (m : gmap nat boundTunnel) : nat :=
  size (filter (λ kv, binds u (snd kv) = true) m).

(** The open tunnels bound to [u] and the references goroutines hold. *)
Definition holders (s : pool) (u : nat) : Z := Z.of_nat (token_count u (tokens s) + bound_count u (bound s)).

#[local] Arguments token_count : simpl never.
#[local] Arguments bound_count : simpl never.

Lemma token_count_cons u x l : token_count u (x :: l) = ((if decide (x = u) then 1 else 0) + token_count u l)%nat.
Proof. unfold token_count. rewrite filter_cons. by case_decide. Qed.

Lemma token_count_drop u x l :
  x ∈ l → (token_count u (drop_token x l) + (if decide (x = u) then 1 else 0))%nat = token_count u l.
Proof.
  induction l as [|y l IH]; [by intros ?%not_elem_of_nil|]. intros Hx. cbn [drop_token].
  rewrite token_count_cons. destruct (decide (y = x)) as [->|Hne]; [lia|].
  apply elem_of_cons in Hx as [->|Hx]; [done|]. rewrite token_count_cons. specialize (IH Hx). lia.
Qed.

Lemma bound_count_delete u t bt m :
  m !! t = Some bt → bound_count u m = (bound_count u (delete t m) + Nat.b2n (binds u bt))%nat.
Proof.
  intros Ht. unfold bound_count. rewrite map_filter_delete.
  destruct (binds u bt) eqn:Eb; cbn [Nat.b2n].
  - rewrite map_size_delete_Some; [|exists bt; by apply map_lookup_filter_Some].
    assert (size (filter (λ kv, binds u kv.2 = true) m) ≠ 0%nat); [|lia].
    rewrite map_size_ne_0_lookup. exists t, bt. by apply map_lookup_filter_Some.
  - rewrite delete_id; [lia|]. apply map_lookup_filter_None. right. intros x Hx.
    rewrite Ht in Hx. injection Hx as <-. cbn. by rewrite Eb.
Qed.

Lemma bound_count_new u t bt m :
  m !! t = None → bound_count u (<[t := bt]> m) = (bound_count u m + Nat.b2n (binds u bt))%nat.
Proof.
  intros Ht. rewrite (bound_count_delete u t bt) by apply lookup_insert_eq.
  by rewrite delete_insert_id.
Qed.

Lemma bound_count_update u t bt bt' m :
  m !! t = Some bt →
  (bound_count u (<[t := bt']> m) + Nat.b2n (binds u bt) = bound_count u m + Nat.b2n (binds u bt'))%nat.
Proof.
  intros Ht. rewrite (bound_count_delete u t bt' (<[t := bt']> m)) by apply lookup_insert_eq.
  rewrite delete_insert_eq, (bound_count_delete u t bt m Ht). lia.
Qed.

Lemma bound_count_pos u t bt m : m !! t = Some bt → binds u bt = true → (0 < bound_count u m)%nat.
Proof. intros Ht Hb. rewrite (bound_count_delete u t bt m Ht), Hb. cbn. lia. Qed.

Lemma token_count_pos u l : u ∈ l → (0 < token_count u l)%nat.
Proof. intros Hu. pose proof (token_count_drop u u l Hu) as Hd. rewrite decide_True in Hd by done. lia. Qed.
(** ** The invariant *)

(** One upstream, given whether the pool's map leads to it, its holders, and
    whether its connection has been closed. *)
Record ok_up (linked : Prop) (h : Z) (gone : Prop) (su : sharedUpstream) : Prop := {
  ok_live : uc su = true →
    ready su = false ∧ dialErr su = None ∧ refs su = h ∧
    (closed su = false → (idleTimer su = true ↔ refs su = 0));
  ok_dialing : ready su = true →
    uc su = false ∧ dialErr su = None ∧ refs su = 1 ∧ h = 1 ∧ idleTimer su = false ∧ ¬ gone;
  ok_dead : uc su = false → ready su = false → closed su = true ∧ h = 0;
  ok_linked : closed su = false → linked ∧ ¬ gone;
  ok_gone : closed su = true → ready su = false → dialErr su = None → gone
}.

Record pool_inv (s : pool) : Prop := {
  pi_up u su : ups s !! u = Some su →
    ok_up (upstreams s !! key su = Some u) (holders s u) (u ∈ closed_uc s) su;
  pi_map k u : upstreams s !! k = Some u →
    ∃ su, ups s !! u = Some su ∧ key su = k ∧ closed su = false;
  pi_nodup : NoDup (closed_uc s);
  pi_known u : ups s !! u = None → holders s u = 0 ∧ u ∉ closed_uc s
}.

Lemma pool_inv0 : pool_inv pool0.
Proof.
  split; cbn.
  - intros u su. by rewrite lookup_empty.
  - intros k u. by rewrite lookup_empty.
  - apply NoDup_nil_2.
  - intros u _. split; [|apply not_elem_of_nil]. unfold holders, bound_count. cbn.
    by rewrite map_filter_empty, map_size_empty.
Qed.

Lemma ok_up_ext (l l' g g' : Prop) h h' su :
  (l → l') → (g ↔ g') → h = h' → ok_up l h g su → ok_up l' h' g' su.
Proof.
  intros Hl Hg <- [H1 H2 H3 H4 H5]. split; [done| |done| |].
  - rewrite <-Hg. exact H2.
  - intros Hc. destruct (H4 Hc). rewrite <-Hg. auto.
  - rewrite <-Hg. exact H5.
Qed.

(** The shape of every step: one upstream changes, the others keep their link,
    their holders and their connection. *)
Lemma pool_inv_update s s' u su' :
  pool_inv s → ups s' = <[u := su']> (ups s) →
  (∀ v, v ≠ u → holders s' v = holders s v) →
  (∀ v, v ≠ u → v ∈ closed_uc s' ↔ v ∈ closed_uc s) → NoDup (closed_uc s') →
  (∀ k v, v ≠ u → upstreams s' !! k = Some v ↔ upstreams s !! k = Some v) →
  (∀ k, upstreams s' !! k = Some u → key su' = k ∧ closed su' = false) →
  ok_up (upstreams s' !! key su' = Some u) (holders s' u) (u ∈ closed_uc s') su' →
  pool_inv s'.
Proof.
  intros Hinv Hups Hh Hc Hnd Hm Hmu Hok. split.
  - intros v sv. rewrite Hups. destruct (decide (v = u)) as [->|Hne].
    + rewrite lookup_insert_eq. by intros [= <-].
    + rewrite lookup_insert_ne by done. intros Hv. apply (pi_up _ Hinv) in Hv.
      eapply ok_up_ext; [| | |exact Hv]; [by apply Hm|by rewrite Hc|by rewrite Hh].
  - intros k v Hk. rewrite Hups. destruct (decide (v = u)) as [->|Hne].
    + rewrite lookup_insert_eq. exists su'. by apply Hmu in Hk as [? ?].
    + rewrite lookup_insert_ne by done. by apply (pi_map _ Hinv), Hm.
  - done.
  - intros v. rewrite Hups. intros [Hv Hne]%lookup_insert_None. rewrite Hh, Hc by done.
    by apply (pi_known _ Hinv).
Qed.

(** A step that only moves references around. *)
Lemma pool_inv_holders s s' :
  pool_inv s → ups s' = ups s → upstreams s' = upstreams s → closed_uc s' = closed_uc s →
  (∀ u, holders s' u = holders s u) → pool_inv s'.
Proof.
  intros [Hup Hmap Hnd Hk] Hu Hm Hc Hh. split; rewrite ?Hu, ?Hm, ?Hc; [|done|done|].
  - intros u su Hs. rewrite Hh. by apply Hup.
  - intros u Hs. rewrite Hh. by apply Hk.
Qed.

Lemma linked_back s u su k : pool_inv s → ups s !! u = Some su → upstreams s !! k = Some u → k = key su.
Proof. intros Hinv Hu Hk. apply (pi_map _ Hinv) in Hk as (su' & Hu' & <- & _). by simplify_eq. Qed.

Lemma unlink_fields u su s :
  ups (unlink u su s) = ups s ∧ closed_uc (unlink u su s) = closed_uc s ∧
  tokens (unlink u su s) = tokens s ∧ bound (unlink u su s) = bound s.
Proof. unfold unlink. by case_bool_decide. Qed.

Lemma unlink_map u su s :
  (∀ k, upstreams s !! k = Some u → k = key su) →
  (∀ k v, v ≠ u → upstreams (unlink u su s) !! k = Some v ↔ upstreams s !! k = Some v) ∧
  (∀ k, upstreams (unlink u su s) !! k ≠ Some u).
Proof.
  intros Hk. unfold unlink. case_bool_decide as Hb; cbn.
  - split.
    + intros k v Hv. destruct (decide (k = key su)) as [->|Hne].
      * rewrite lookup_delete_eq. split; [done|]. intros Hs. rewrite Hb in Hs. by injection Hs as <-.
      * by rewrite lookup_delete_ne by done.
    + intros k Hs. apply lookup_delete_Some in Hs as [Hne Hs]. by apply Hne, eq_sym, Hk.
  - split; [done|]. intros k Hs. apply Hb. by rewrite <-(Hk k Hs).
Qed.
(** ** Counting through a step *)

Definition one (P : Prop) `{Decision P} : Z := if decide P then 1 else 0.

Lemma holders_eq s s' u :
  tokens s' = tokens s → bound s' = bound s → holders s' u = holders s u.
Proof. unfold holders. by intros -> ->. Qed.

Lemma holders_token u s s' v :
  tokens s' = u :: tokens s → bound s' = bound s → holders s' v = holders s v + one (v = u).
Proof.
  unfold holders, one. intros -> ->. rewrite token_count_cons.
  destruct (decide (u = v)), (decide (v = u)); subst; try done; lia.
Qed.

Lemma holders_drop u s s' v :
  u ∈ tokens s → tokens s' = drop_token u (tokens s) → bound s' = bound s →
  holders s' v = holders s v - one (v = u).
Proof.
  unfold holders, one. intros Hu -> ->. pose proof (token_count_drop v u (tokens s) Hu) as Hd.
  destruct (decide (u = v)), (decide (v = u)); subst; try done; lia.
Qed.

Lemma holders_pos_token s u : u ∈ tokens s → 0 < holders s u.
Proof. intros Hu. unfold holders. pose proof (token_count_pos u _ Hu). lia. Qed.

Lemma holders_pos_bound s t bt : bound s !! t = Some bt → at_closed bt = false → 0 < holders s (up bt).
Proof.
  intros Ht Hc. unfold holders. assert (binds (up bt) bt = true) as Hb
    by (unfold binds; by rewrite Hc, bool_decide_true).
  pose proof (bound_count_pos _ _ _ _ Ht Hb). lia.
Qed.

Lemma holders_nonneg s u : 0 ≤ holders s u.
Proof. unfold holders. lia. Qed.

(** What holds of an upstream somebody holds. *)
Lemma held_dialed s u su :
  pool_inv s → ups s !! u = Some su → 0 < holders s u → uc su = true ∨ ready su = true.
Proof.
  intros Hinv Hu Hh. pose proof (pi_up _ Hinv _ _ Hu) as Hok.
  destruct (uc su) eqn:Eu; [by left|]. destruct (ready su) eqn:Er; [by right|].
  destruct (ok_dead _ _ _ _ Hok Eu Er). lia.
Qed.

Lemma lookup_alter_upd (m : gmap nat sharedUpstream) f u su :
  m !! u = Some su → alter f u m = <[u := f su]> m.
Proof. intros Hu. apply map_eq. intros v. destruct (decide (v = u)) as [->|].
  - by rewrite lookup_alter_eq, lookup_insert_eq, Hu.
  - by rewrite lookup_alter_ne, lookup_insert_ne by done.
Qed.

(** ** Every step preserves the invariant *)

(** Acquiring an established upstream, the new reference in hand. *)
Lemma acquire_inv s u su :
  pool_inv s → established s u su → closed su = false →
  pool_inv (set_tokens (cons u) (acquireLocked u s)).
Proof.
  intros Hinv [Hu Huc] Hcl. pose proof (pi_up _ Hinv _ _ Hu) as Hok.
  destruct (ok_live _ _ _ _ Hok Huc) as (Hr & Hd & Hrefs & _).
  destruct (ok_linked _ _ _ _ Hok Hcl) as [Hl Hg].
  pose proof (holders_nonneg s u) as Hnn.
  assert (∀ v, holders (set_tokens (cons u) (acquireLocked u s)) v = holders s v + one (v = u)) as Hh
    by (intros v; by apply holders_token).
  eapply (pool_inv_update s _ u (u_timer false (u_refs 1 su))); try done.
  - cbn. by rewrite (lookup_alter_upd _ _ _ _ Hu).
  - intros v Hv. rewrite Hh. unfold one. rewrite decide_False by done. lia.
  - apply Hinv.
  - cbn. intros k Hk. by rewrite (linked_back _ _ _ _ Hinv Hu Hk).
  - rewrite Hh. unfold one. rewrite decide_True by done. cbn in *. split; cbn; intros; try congruence.
    + split_and!; try done; try lia.
    + done.
Qed.

Lemma enter_inv s k fresh r s' :
  pool_inv s → ups s !! fresh = None → getOrCreate_enter k fresh s = (r, s') →
  pool_inv (match r with Acquired u | Dial u => set_tokens (cons u) s' | _ => s' end).
Proof.
  intros Hinv Hf. unfold getOrCreate_enter. destruct (draining s); [by intros [= <- <-]|].
  destruct (upstreams s !! k) as [u|] eqn:Ek.
  - destruct (pi_map _ Hinv _ _ Ek) as (su & Hu & <- & Hcl). rewrite Hu, Hcl.
    pose proof (pi_up _ Hinv _ _ Hu) as Hok.
    destruct (ready su) eqn:Er; cbn [negb]; intros [= <- <-]; [done|].
    apply (acquire_inv s u su); [done|split; [done|]|done].
    destruct (uc su) eqn:Eu; [done|]. destruct (ok_dead _ _ _ _ Hok Eu Er). congruence.
  - intros [= <- <-]. destruct (pi_known _ Hinv _ Hf) as [Hh0 Hc0].
    set (s' := set_tokens _ _).
    assert (∀ v, holders s' v = holders s v + one (v = fresh)) as Hh by (intros v; by apply holders_token).
    assert (∀ k', upstreams s !! k' ≠ Some fresh) as Hnof.
    { intros k' Hk'. apply (pi_map _ Hinv) in Hk' as (? & ? & _). congruence. }
    eapply (pool_inv_update s s' fresh (mkShared k false 1 false false true None)); try done.
    + intros v Hv. rewrite Hh. unfold one. rewrite decide_False by done. lia.
    + apply Hinv.
    + cbn. intros k' v Hv. destruct (decide (k' = k)) as [->|].
      * rewrite lookup_insert_eq, Ek. naive_solver.
      * by rewrite lookup_insert_ne by done.
    + cbn. intros k'. destruct (decide (k' = k)) as [->|]; [done|].
      rewrite lookup_insert_ne by done. intros Hk'. by destruct (Hnof k').
    + rewrite Hh, Hh0. unfold one. rewrite decide_True by done. cbn.
      rewrite lookup_insert_eq. by split.
Qed.

Lemma one_ne (v u : nat) : v ≠ u → one (v = u) = 0.
Proof. intros. unfold one. by rewrite decide_False by done. Qed.

Lemma one_eq (u : nat) : one (u = u) = 1.
Proof. unfold one. by rewrite decide_True by done. Qed.

Lemma dialer_token s u su :
  pool_inv s → ups s !! u = Some su → ready su = true →
  u ∈ tokens s → ∀ s', tokens s' = drop_token u (tokens s) → bound s' = bound s →
  holders s' u = 0 ∧ ∀ v, v ≠ u → holders s' v = holders s v.
Proof.
  intros Hinv Hu Hr Ht s' Htk Hb. destruct (ok_dialing _ _ _ _ (pi_up _ Hinv _ _ Hu) Hr) as (_ & _ & _ & Hh & _).
  pose proof (λ v, holders_drop u s s' v Ht Htk Hb) as Hd. split.
  - rewrite Hd, one_eq. lia.
  - intros v Hv. rewrite Hd, one_ne by done. lia.
Qed.

(** The dialer's own reference is the token it runs with. *)
Definition dialers_hold (s : pool) : Prop :=
  ∀ u su, ups s !! u = Some su → ready su = true → u ∈ tokens s.

Lemma dialed_inv s u su res r s' :
  pool_inv s → dialers_hold s → ups s !! u = Some su → ready su = true →
  getOrCreate_dialed u su res s = (r, s') →
  pool_inv (match r with DialUp => s' | _ => set_tokens (drop_token u) s' end).
Proof.
  intros Hinv Hdh Hu Hr. pose proof (pi_up _ Hinv _ _ Hu) as Hok.
  destruct (ok_dialing _ _ _ _ Hok Hr) as (Huc & Hd & Hrefs & Hh1 & Hidle & Hng).
  pose proof (dialer_token s u su Hinv Hu Hr (Hdh _ _ Hu Hr)) as Htok.
  unfold getOrCreate_dialed. destruct res as [[e canceled]|].
  - intros [= <- <-].
    set (su' := u_close (u_dialed false (Some (e, canceled)) su)).
    destruct (unlink_fields u su (set_ups (<[u := su']>) s)) as (Hf1 & Hf2 & Hf3 & Hf4).
    destruct (unlink_map u su (set_ups (<[u := su']>) s)) as [Hm1 Hm2].
    { intros k. apply (linked_back s u su k Hinv Hu). }
    destruct (Htok (set_tokens (drop_token u) (unlink u su (set_ups (<[u := su']>) s)))) as [H0 Hoth];
      [cbn; by rewrite Hf3|cbn; by rewrite Hf4|].
    eapply (pool_inv_update s _ u su'); try done; cbn; rewrite ?Hf2.
    + done.
    + apply Hinv.
    + intros k Hk. by destruct (Hm2 k).
  - destruct (closed su) eqn:Ec; intros [= <- <-].
    + set (s' := set_tokens _ _).
      destruct (Htok s' eq_refl eq_refl) as [H0 Hoth].
      eapply (pool_inv_update s s' u (u_dialed false None su)); try done; cbn.
      * intros v Hv. rewrite elem_of_app, list_elem_of_singleton. naive_solver.
      * apply NoDup_app. split_and!; [apply Hinv| |apply NoDup_singleton].
        by intros x Hx ->%list_elem_of_singleton.
      * intros k Hk. apply (pi_map _ Hinv) in Hk as (su0 & Hu0 & _ & Hc0). congruence.
      * rewrite H0. split; cbn; try done; try congruence. intros. apply elem_of_app. right. by left.
    + eapply (pool_inv_update s _ u (u_dialed true None su)); try done; cbn.
      * apply Hinv.
      * intros k Hk. by rewrite (linked_back _ _ _ _ Hinv Hu Hk).
      * rewrite (holders_eq s) by done. destruct (ok_linked _ _ _ _ Hok Ec) as [Hl _].
        rewrite Hh1. split; cbn; try done; try congruence.
        intros _. rewrite Hidle, Hrefs. split_and!; try done.
Qed.

Lemma release_inv s u su :
  pool_inv s → u ∈ tokens s → established s u su →
  pool_inv (set_tokens (drop_token u) (releaseUpstream u su s)).
Proof.
  intros Hinv Ht [Hu Huc]. pose proof (pi_up _ Hinv _ _ Hu) as Hok.
  destruct (ok_live _ _ _ _ Hok Huc) as (Hr & Hd & Hrefs & Hid). pose proof (holders_pos_token s u Ht) as Hpos.
  assert (∀ s', tokens s' = drop_token u (tokens s) → bound s' = bound s →
    ∀ v, holders s' v = holders s v - one (v = u)) as Hh by (intros s' Htk Hb v; by apply (holders_drop u s)).
  assert (∀ su', key su' = key su → uc su' = true → closed su' = closed su → ready su' = false →
    dialErr su' = None → refs su' = refs su - 1 →
    (closed su = false → (idleTimer su' = true ↔ refs su' = 0)) →
    pool_inv (set_tokens (drop_token u) (set_ups (<[u := su']>) s))) as Hgen.
  { intros su' Hk Huc' Hcl Hr' Hd' Hrf Hti.
    eapply (pool_inv_update s _ u su'); try done; cbn.
    - intros v Hv. rewrite Hh, one_ne by done. lia.
    - apply Hinv.
    - intros k Hlk. rewrite Hk, Hcl. rewrite (linked_back _ _ _ _ Hinv Hu Hlk).
      apply (pi_map _ Hinv) in Hlk as (su0 & Hu0 & _ & Hc0). by simplify_eq.
    - rewrite Hh, one_eq, Hk by done. split; rewrite ?Huc', ?Hcl, ?Hr', ?Hd'; try done.
      + intros _. split_and!; try done. lia.
      + apply Hok.
      + intros Hc _ _. by apply (ok_gone _ _ _ _ Hok). }
  unfold releaseUpstream. destruct (Z.ltb_spec 0 (refs (u_refs (-1) su))) as [Hlt|Hle]; cbn [orb].
  - apply Hgen; try done; cbn in *; try lia. intros Hc. rewrite (Hid Hc). lia.
  - destruct (closed (u_refs (-1) su)) eqn:Ec; apply Hgen; try done; cbn in *; try lia; congruence.
Qed.

(** Closing an established open upstream. *)
Lemma close_inv s u su su' :
  pool_inv s → established s u su → closed su = false →
  key su' = key su → uc su' = true → closed su' = true → ready su' = ready su →
  dialErr su' = dialErr su → refs su' = refs su →
  pool_inv (close_uc u (unlink u su (set_ups (<[u := su']>) s))).
Proof.
  intros Hinv [Hu Huc] Hcl Hk Huc' Hcl' Hr' Hd' Hrf. pose proof (pi_up _ Hinv _ _ Hu) as Hok.
  destruct (ok_live _ _ _ _ Hok Huc) as (Hr & Hd & Hrefs & _).
  destruct (ok_linked _ _ _ _ Hok Hcl) as [_ Hg].
  destruct (unlink_fields u su (set_ups (<[u := su']>) s)) as (Hf1 & Hf2 & Hf3 & Hf4).
  destruct (unlink_map u su (set_ups (<[u := su']>) s)) as [Hm1 Hm2].
  { intros k. apply (linked_back s u su k Hinv Hu). }
  eapply (pool_inv_update s _ u su'); try done; cbn; rewrite ?Hf2.
  - intros v Hv. by apply holders_eq.
  - intros v Hv. cbn. rewrite elem_of_app, list_elem_of_singleton. naive_solver.
  - cbn. apply NoDup_app. split_and!; [apply Hinv| |apply NoDup_singleton].
    by intros x Hx ->%list_elem_of_singleton.
  - intros k Hlk. by destruct (Hm2 k).
  - rewrite (holders_eq s) by done. split; rewrite ?Huc', ?Hcl', ?Hr', ?Hd', ?Hr; try done.
    + intros _. split_and!; try done. by rewrite Hrf.
    + intros _ _ _. cbn. apply elem_of_app. right. by left.
Qed.

Lemma idle_inv s u su : pool_inv s → established s u su → pool_inv (idleCloseUpstream u su s).
Proof.
  intros Hinv He. unfold idleCloseUpstream. destruct (closed su) eqn:Ec; [done|].
  destruct (0 <? refs su); [done|]. cbn [orb]. by apply close_inv; try apply He.
Qed.

Lemma evict_inv s u su : pool_inv s → established s u su → pool_inv (evictUpstream u su s).
Proof.
  intros Hinv He. unfold evictUpstream. destruct (closed su) eqn:Ec; [done|].
  by apply close_inv; try apply He.
Qed.

Lemma bind_holders s u t :
  u ∈ tokens s → bound s !! t = None →
  ∀ v, holders (set_bound (<[t := mkBound u false]>) (set_tokens (drop_token u) s)) v = holders s v.
Proof.
  intros Ht Hb v. unfold holders. cbn. rewrite bound_count_new by done.
  pose proof (token_count_drop v u (tokens s) Ht) as Hd. unfold binds. cbn.
  revert Hd. destruct (decide (u = v)) as [->|Hne];
    [rewrite bool_decide_true by done|rewrite bool_decide_false by done]; cbn; lia.
Qed.

Lemma close_holders s t bt o s' :
  bound s !! t = Some bt → closeTunnel bt t s = (o, s') →
  ∀ v, holders (match o with Some u => set_tokens (cons u) s' | None => s' end) v = holders s v.
Proof.
  intros Hb [= <- <-] v. pose proof (bound_count_update v t bt (mkBound (up bt) true) (bound s) Hb) as Hc.
  assert (binds v (mkBound (up bt) true) = false) as Hb' by (unfold binds; cbn; apply andb_false_r).
  rewrite Hb' in Hc. unfold holders. destruct (at_closed bt) eqn:Ec; cbn.
  - unfold binds in Hc. rewrite Ec, andb_false_r in Hc. cbn in Hc. lia.
  - rewrite token_count_cons. unfold binds in Hc. rewrite Ec, andb_true_r in Hc.
    destruct (decide (up bt = v)); [rewrite bool_decide_true in Hc by done|
      rewrite bool_decide_false in Hc by done]; cbn in Hc; lia.
Qed.

Lemma heal_holders s t bt dead fresh u s' :
  bound s !! t = Some bt → fresh ∈ tokens s → heal_swap bt t dead fresh s = (u, s') →
  ∀ v, holders (set_tokens (λ l, u :: drop_token fresh l) s') v = holders s v.
Proof.
  intros Hb Hf Hs v. unfold heal_swap in Hs. pose proof (token_count_drop v fresh (tokens s) Hf) as Hd.
  destruct (at_closed bt || negb (bool_decide (up bt = dead))) eqn:E; injection Hs as <- <-;
    unfold holders; cbn; rewrite token_count_cons.
  - revert Hd. destruct (decide (fresh = v)); lia.
  - apply orb_false_iff in E as [Ec Eu]. apply negb_false_iff, bool_decide_eq_true in Eu as <-.
    pose proof (bound_count_update v t bt (mkBound fresh false) (bound s) Hb) as Hc.
    unfold binds in Hc. cbn in Hc. rewrite Ec, !andb_true_r in Hc.
    revert Hd. destruct (decide (up bt = v)), (decide (fresh = v)); intros Hd; cbn in Hc;
      repeat first [rewrite bool_decide_true in Hc by done|rewrite bool_decide_false in Hc by done];
      cbn in Hc; lia.
Qed.

(** ** The drain *)

Lemma drain_one_inv s u k :
  pool_inv s → upstreams s !! k = Some u →
  let s' := drain_one u s in
  pool_inv s' ∧ tokens s' = tokens s ∧ bound s' = bound s ∧ draining s' = draining s ∧
  (∀ v sv, ups s' !! v = Some sv → ∃ sv0, ups s !! v = Some sv0 ∧ ready sv = ready sv0) ∧
  (∀ k' v, upstreams s' !! k' = Some v ↔ upstreams s !! k' = Some v ∧ v ≠ u).
Proof.
  intros Hinv Hk. cbv zeta. destruct (pi_map _ Hinv _ _ Hk) as (su & Hu & <- & Hcl).
  pose proof (pi_up _ Hinv _ _ Hu) as Hok. destruct (ok_linked _ _ _ _ Hok Hcl) as [_ Hg].
  unfold drain_one. rewrite Hu. set (su' := u_timer false (u_close su)).
  assert (∀ k' v, delete (key su) (upstreams s) !! k' = Some v ↔ upstreams s !! k' = Some v ∧ v ≠ u) as Hm.
  { intros k' v. rewrite lookup_delete_Some. split.
    - intros [Hne Hv]. split; [done|]. intros ->. by apply Hne, eq_sym, (linked_back s u).
    - intros [Hv Hne]. split; [|done]. intros <-. congruence. }
  assert (∀ v sv, <[u:=su']> (ups s) !! v = Some sv → ∃ sv0, ups s !! v = Some sv0 ∧ ready sv = ready sv0) as Hr.
  { intros v sv. destruct (decide (v = u)) as [->|].
    - rewrite lookup_insert_eq. intros [= <-]. by exists su.
    - rewrite lookup_insert_ne by done. by exists sv. }
  destruct (uc su) eqn:Euc; (split; [|done]).
  - destruct (ok_live _ _ _ _ Hok Euc) as (Hrd & Hd & Hrefs & _).
    eapply (pool_inv_update s _ u su'); try done; cbn.
    + intros v Hv. rewrite elem_of_app, list_elem_of_singleton. naive_solver.
    + apply NoDup_app. split_and!; [apply Hinv| |apply NoDup_singleton].
      by intros x Hx ->%list_elem_of_singleton.
    + intros k' v Hv. rewrite Hm. naive_solver.
    + intros k' Hk'. apply Hm in Hk' as [_ ?]. done.
    + rewrite (holders_eq s) by done. split; cbn; rewrite ?Euc, ?Hrd; try done.
      intros _ _ _. apply elem_of_app. right. by left.
  - assert (ready su = true) as Hrd.
    { destruct (ready su) eqn:Er; [done|]. destruct (ok_dead _ _ _ _ Hok Euc Er). congruence. }
    destruct (ok_dialing _ _ _ _ Hok Hrd) as (_ & Hd & Hrefs & Hh & Hidle & _).
    eapply (pool_inv_update s _ u su'); try done; cbn.
    + apply Hinv.
    + intros k' v Hv. rewrite Hm. naive_solver.
    + intros k' Hk'. apply Hm in Hk' as [_ ?]. done.
    + rewrite (holders_eq s) by done. split; cbn; rewrite ?Euc, ?Hrd; try done.
Qed.

Lemma drain_list_inv l s :
  pool_inv s → NoDup l → (∀ u, u ∈ l → ∃ k, upstreams s !! k = Some u) →
  let s' := fold_left (λ s u, drain_one u s) l s in
  pool_inv s' ∧ tokens s' = tokens s ∧ bound s' = bound s ∧ draining s' = draining s ∧
  (∀ v sv, ups s' !! v = Some sv → ∃ sv0, ups s !! v = Some sv0 ∧ ready sv = ready sv0) ∧
  (∀ k v, upstreams s' !! k = Some v ↔ upstreams s !! k = Some v ∧ v ∉ l).
Proof.
  revert s. induction l as [|u l IH]; intros s Hinv Hnd Hl; cbn [fold_left].
  { split_and!; try done; [by eexists|]. intros k v. split; [|by intros [? _]].
    intros ?. split; [done|]. apply not_elem_of_nil. }
  apply NoDup_cons in Hnd as [Hni Hnd]. destruct (Hl u) as [k Hk]; [by left|].
  destruct (drain_one_inv s u k Hinv Hk) as (Hi1 & Ht1 & Hb1 & Hd1 & Hr1 & Hm1).
  destruct (IH (drain_one u s) Hi1 Hnd) as (Hi2 & Ht2 & Hb2 & Hd2 & Hr2 & Hm2).
  { intros v Hv. destruct (Hl v) as [kv Hkv]; [by right|]. exists kv. apply Hm1.
    split; [done|]. by intros ->. }
  cbv zeta in *. split_and!; [done|congruence|congruence|congruence| |].
  - intros v sv Hv. destruct (Hr2 v sv Hv) as (sv1 & Hv1 & ->). by apply Hr1.
  - intros k' v. rewrite Hm2, Hm1, elem_of_cons. naive_solver.
Qed.

Lemma drainUpstreams_inv `{BulkLaws} s :
  pool_inv s →
  let s' := drainUpstreams s in
  pool_inv s' ∧ tokens s' = tokens s ∧ bound s' = bound s ∧ draining s' = draining s ∧
  (∀ v sv, ups s' !! v = Some sv → ∃ sv0, ups s !! v = Some sv0 ∧ ready sv = ready sv0) ∧
  upstreams s' = ∅.
Proof.
  intros Hinv. pose proof (MapValuesSlice_perm (upstreams s)) as Hp.
  destruct (drain_list_inv (MapValuesSlice (upstreams s)) s Hinv) as (Hi & Ht & Hb & Hd & Hr & Hm).
  - rewrite Hp. apply NoDup_fmap_2_strong; [|apply NoDup_map_to_list].
    intros [k1 u1] [k2 u2] Hm1%elem_of_map_to_list Hm2%elem_of_map_to_list. cbn. intros <-.
    destruct (pi_map _ Hinv _ _ Hm1) as (su & Hu & <- & _). by rewrite (linked_back _ _ _ _ Hinv Hu Hm2).
  - intros u. rewrite Hp, list_elem_of_fmap. intros ([k u'] & -> & Hk%elem_of_map_to_list). by exists k.
  - cbv zeta. split_and!; try done. apply map_empty. intros k.
    apply eq_None_not_Some. intros [v Hv]. apply Hm in Hv as [Hv Hni]. apply Hni.
    rewrite Hp. apply list_elem_of_fmap. exists (k, v). split; [done|]. by apply elem_of_map_to_list.
Qed.

(** ** Every step *)

Lemma elem_of_drop_token u v l : v ∈ l → v ≠ u → v ∈ drop_token u l.
Proof.
  induction l as [|x l IH]; [by intros ?%not_elem_of_nil|]. cbn. intros Hv Hne.
  apply elem_of_cons in Hv as [->|Hv].
  - rewrite decide_False by done. by left.
  - case_decide; [done|]. right. auto.
Qed.

(** A dial in flight after a step was in flight before it, or is the new one. *)
Lemma dialers_hold_step s s' :
  dialers_hold s →
  (∀ v sv, ups s' !! v = Some sv → ready sv = true →
     v ∈ tokens s' ∨ ∃ sv0, ups s !! v = Some sv0 ∧ ready sv0 = true ∧ (v ∈ tokens s → v ∈ tokens s')) →
  dialers_hold s'.
Proof. intros Hd Hs v sv Hv Hr. destruct (Hs v sv Hv Hr) as [?|(sv0 & Hv0 & Hr0 & Ht)]; [done|]. eauto. Qed.

Lemma established_ready s u su : pool_inv s → established s u su → ready su = false.
Proof. intros Hinv [Hu Huc]. by destruct (ok_live _ _ _ _ (pi_up _ Hinv _ _ Hu) Huc). Qed.

(** Using an established upstream moves no dialer's reference. *)
Lemma dialers_hold_use s s' u su su' :
  pool_inv s → dialers_hold s → established s u su → ups s' = <[u := su']> (ups s) →
  ready su' = ready su → (∀ x, x ∈ tokens s → x ≠ u → x ∈ tokens s') → dialers_hold s'.
Proof.
  intros Hinv Hd He Hups Hr Ht v sv. rewrite Hups. destruct (decide (v = u)) as [->|Hne].
  - pose proof (established_ready s u su Hinv He). rewrite lookup_insert_eq. intros [= <-] ?. congruence.
  - rewrite lookup_insert_ne by done. intros Hv Hrv. apply Ht; [by eapply Hd|done].
Qed.

Lemma established_id s u su : established s u su → ups s = <[u := su]> (ups s).
Proof. intros [Hu _]. by rewrite insert_id. Qed.

Definition full_inv (s : pool) : Prop := pool_inv s ∧ dialers_hold s.

Lemma step_get_inv s k fresh r s' :
  full_inv s → ups s !! fresh = None → getOrCreate_enter k fresh s = (r, s') →
  full_inv (match r with Acquired u | Dial u => set_tokens (cons u) s' | _ => s' end).
Proof.
  intros [Hinv Hd] Hf Hr. split; [by eapply enter_inv|]. unfold getOrCreate_enter in Hr.
  destruct (draining s); [by simplify_eq|].
  assert (dialers_hold (set_tokens (cons fresh) (mkPool
    (<[fresh := mkShared k false 1 false false true None]> (ups s)) (<[k := fresh]> (upstreams s))
    (draining s) (bound s) (tokens s) (closed_uc s)))) as Hnew.
  { apply (dialers_hold_step s); [done|]. cbn. intros v sv. destruct (decide (v = fresh)) as [->|].
    - intros _ _. left. by left.
    - rewrite lookup_insert_ne by done. intros Hv Hrv. right. exists sv. split_and!; [done|done|].
      intros. by right. }
  destruct (upstreams s !! k) as [u|]; [|by injection Hr as <- <-].
  destruct (ups s !! u) as [su|] eqn:Hu; [|by injection Hr as <- <-].
  destruct (closed su); [by injection Hr as <- <-|].
  destruct (ready su) eqn:Erd; injection Hr as <- <-; [done|].
  intros v sv. cbn. rewrite (lookup_alter_upd _ _ _ _ Hu). destruct (decide (v = u)) as [->|].
  - intros. by left.
  - rewrite lookup_insert_ne by done. intros Hv Hrv. right. by eapply Hd.
Qed.

Lemma step_dialed_inv s u su res r s' :
  full_inv s → ups s !! u = Some su → ready su = true → getOrCreate_dialed u su res s = (r, s') →
  full_inv (match r with DialUp => s' | _ => set_tokens (drop_token u) s' end).
Proof.
  intros [Hinv Hd] Hu Hr Hres. split; [by eapply dialed_inv|].
  assert (∀ su' s1, ready su' = false → ups s1 = <[u := su']> (ups s) →
    (∀ v, v ≠ u → v ∈ tokens s → v ∈ tokens s1) → dialers_hold s1) as Hgen.
  { intros su' s1 Hr' Hups Ht. apply (dialers_hold_step s); [done|]. intros v sv. rewrite Hups.
    destruct (decide (v = u)) as [->|]; [rewrite lookup_insert_eq; intros [= <-]; congruence|].
    rewrite lookup_insert_ne by done. intros Hv Hrv. right. exists sv. auto. }
  unfold getOrCreate_dialed in Hres. destruct res as [[e canceled]|].
  - injection Hres as <- <-.
    destruct (unlink_fields u su (set_ups (<[u := u_close (u_dialed false (Some (e, canceled)) su)]>) s))
      as (Hf1 & _ & Hf3 & _).
    eapply (Hgen (u_close (u_dialed false (Some (e, canceled)) su))); [done|cbn; by rewrite Hf1|].
    cbn. rewrite Hf3. intros. by apply elem_of_drop_token.
  - destruct (closed su); injection Hres as <- <-.
    + eapply Hgen; [|reflexivity|]; [done|]. intros. by apply elem_of_drop_token.
    + eapply Hgen; [|reflexivity|]; done.
Qed.

Lemma release_fields u su s :
  ∃ su', ups (releaseUpstream u su s) = <[u := su']> (ups s) ∧ ready su' = ready su ∧
    tokens (releaseUpstream u su s) = tokens s.
Proof. unfold releaseUpstream. destruct (_ || _); by eexists. Qed.

Lemma idle_fields u su s :
  ups s !! u = Some su →
  ∃ su', ups (idleCloseUpstream u su s) = <[u := su']> (ups s) ∧ ready su' = ready su ∧
    tokens (idleCloseUpstream u su s) = tokens s.
Proof.
  intros Hu. unfold idleCloseUpstream. destruct (_ || _).
  - exists su. by rewrite insert_id.
  - destruct (unlink_fields u su (set_ups (<[u := u_close su]>) s)) as (Hf1 & _ & Hf3 & _).
    eexists. cbn. rewrite Hf1, Hf3. by split_and!.
Qed.

Lemma evict_fields u su s :
  ups s !! u = Some su →
  ∃ su', ups (evictUpstream u su s) = <[u := su']> (ups s) ∧ ready su' = ready su ∧
    tokens (evictUpstream u su s) = tokens s.
Proof.
  intros Hu. unfold evictUpstream. destruct (closed su).
  - exists su. by rewrite insert_id.
  - destruct (unlink_fields u su (set_ups (<[u := u_timer false (u_close su)]>) s)) as (Hf1 & _ & Hf3 & _).
    eexists. cbn. rewrite Hf1, Hf3. by split_and!.
Qed.

Lemma pool_step_inv `{BulkLaws} s s' : full_inv s → pool_step s s' → full_inv s'.
Proof.
  intros Hfull Hstep. pose proof Hfull as [Hinv Hd].
  destruct Hstep as [s k fresh r s' Hf Hr|s u su res r s' Hu Hr Hres|s u su t Ht He Hb|s u su Ht He
    |s u su b s' He Hr|s u su He|s u su He|s t bt o s' Hb Hc|s t bt dead fresh su u s' Hb Hf He Hs|s|s Hdr].
  - by eapply step_get_inv.
  - by eapply step_dialed_inv.
  - split; [by apply (pool_inv_holders s); [..|apply bind_holders]|].
    eapply (dialers_hold_use s _ u su su); [done..|exact (established_id s u su He)|done|].
    intros. by apply elem_of_drop_token.
  - split; [by apply release_inv|]. destruct (release_fields u su s) as (su' & Hu' & Hr' & Ht').
    eapply (dialers_hold_use s _ u su su'); [done..|]. cbn. rewrite Ht'. intros. by apply elem_of_drop_token.
  - unfold tryAcquireUpstream in Hr. destruct (closed su) eqn:Ec; injection Hr as <- <-; [done|].
    split; [by apply (acquire_inv s u su)|].
    eapply (dialers_hold_use s _ u su (u_timer false (u_refs 1 su))); [done..| |done|].
    + cbn. destruct He as [Hu _]. by rewrite (lookup_alter_upd _ _ _ _ Hu).
    + intros. by right.
  - split; [by apply idle_inv|]. destruct (idle_fields u su s) as (su' & Hu' & Hr' & Ht'); [apply He|].
    eapply (dialers_hold_use s _ u su su'); [done..|]. by rewrite Ht'.
  - split; [by apply evict_inv|]. destruct (evict_fields u su s) as (su' & Hu' & Hr' & Ht'); [apply He|].
    eapply (dialers_hold_use s _ u su su'); [done..|]. by rewrite Ht'.
  - split.
    + pose proof (close_holders s t bt o s' Hb Hc) as Hh. injection Hc as <- <-.
      apply (pool_inv_holders s); [done|..|exact Hh]; by destruct (at_closed bt).
    + injection Hc as <- <-. intros v sv Hv Hrv.
      assert (v ∈ tokens s) as Hin by (destruct (at_closed bt); by eapply Hd).
      destruct (at_closed bt); cbn; [done|]. by right.
  - split.
    + pose proof (heal_holders s t bt dead fresh u s' Hb Hf Hs) as Hh. unfold heal_swap in Hs.
      apply (pool_inv_holders s); [done|..|exact Hh]; destruct (_ || _); by injection Hs as <- <-.
    + assert (ups s' = ups s ∧ tokens s' = tokens s) as [Hu' Ht']
        by (unfold heal_swap in Hs; destruct (_ || _); by injection Hs as <- <-).
      eapply (dialers_hold_use s _ fresh su su); [done..|cbn; rewrite Hu'; by apply established_id|done|].
      cbn. rewrite Ht'. intros x Hx Hne. right. by apply elem_of_drop_token.
  - split; [by apply (pool_inv_holders s)|done].
  - destruct (drainUpstreams_inv s Hinv) as (Hi & Ht & _ & _ & Hr & _). split; [done|].
    intros v sv Hv Hrv. rewrite Ht. destruct (Hr v sv Hv) as (sv0 & Hv0 & Hr0). eapply Hd; [done|congruence].
Qed.

Lemma reachable_full_inv `{BulkLaws} s : rtc pool_step pool0 s → full_inv s.
Proof.
  intros Hr. assert (full_inv pool0) as Hp0.
  { split; [apply pool_inv0|]. intros u su. cbn. by rewrite lookup_empty. }
  revert Hp0. induction Hr as [|s1 s2 s3 Hs _ IH]; [done|]. intros Hf. apply IH. by eapply pool_step_inv.
Qed.

(** After the drain nothing enters the pool again. *)
Lemma drained_step `{BulkLaws} s s' :
  full_inv s → pool_step s s' → draining s = true → upstreams s = ∅ →
  draining s' = true ∧ upstreams s' = ∅.
Proof.
  intros [Hinv _] Hstep Hd He.
  assert (∀ u su s1, upstreams s1 = ∅ → draining s1 = true →
    draining (unlink u su s1) = true ∧ upstreams (unlink u su s1) = ∅) as Hun.
  { intros u su s1 He1 Hd1. unfold unlink. case_bool_decide as Hb; [|done].
    by rewrite He1, lookup_empty in Hb. }
  destruct Hstep as [s k fresh r s' Hf Hr|s u su res r s' Hu Hr Hres|s u su t Ht Hes Hb|s u su Ht Hes
    |s u su b s' Hes Hr|s u su Hes|s u su Hes|s t bt o s' Hb Hc|s t bt dead fresh su u s' Hb Hf Hes Hs|s|s Hdr].
  - unfold getOrCreate_enter in Hr. rewrite Hd in Hr. by injection Hr as <- <-.
  - unfold getOrCreate_dialed in Hres. destruct res as [[e c]|].
    + injection Hres as <- <-. cbn. by apply Hun.
    + destruct (closed su); by injection Hres as <- <-.
  - done.
  - unfold releaseUpstream. cbn. by destruct (_ || _).
  - unfold tryAcquireUpstream in Hr. destruct (closed su); by injection Hr as <- <-.
  - unfold idleCloseUpstream. destruct (_ || _); [done|]. cbn. by apply Hun.
  - unfold evictUpstream. destruct (closed su); [done|]. cbn. by apply Hun.
  - injection Hc as <- <-. by destruct (at_closed bt).
  - unfold heal_swap in Hs. destruct (_ || _); by injection Hs as <- <-.
  - done.
  - destruct (drainUpstreams_inv s Hinv) as (_ & _ & _ & Hd' & _ & He'). by rewrite Hd'.
Qed.

Lemma drained_reach `{BulkLaws} s s' :
  rtc pool_step s s' → full_inv s → draining s = true → upstreams s = ∅ →
  full_inv s' ∧ draining s' = true ∧ upstreams s' = ∅.
Proof.
  induction 1 as [|s1 s2 s3 Hs _ IH]; intros Hf Hd He; [done|].
  destruct (drained_step s1 s2 Hf Hs Hd He). apply IH; [|done..]. by eapply pool_step_inv.
Qed.
End pool.

(** ** Properties *)

(** C15: reference counting of the pool, for every interleaving of dials, waits,
    acquisitions, releases, idle timers, evictions, heals, teardowns and the
    drain. At most one upstream per key is open or being dialed; the count of an
    open upstream is the number of open tunnels bound to it and of goroutines
    holding it, so an idle timer never closes a connection in use; an open
    upstream nobody holds has its idle timer armed, so none is leaked; and a
    connection is closed at most once, and has been once its upstream is closed. *)
Theorem pool_refcounts `{MachineKeys} `{BulkLaws} (s : pool) :
  rtc pool_step pool0 s →
  (∀ u v su sv, ups s !! u = Some su → ups s !! v = Some sv → key su = key sv →
     closed su = false → closed sv = false → u = v) ∧
  (∀ u su, established s u su →
     refs su = holders s u ∧
     (closed su = false → holders s u = 0 → idleTimer su = true) ∧
     (closed su = false → 0 < holders s u → idleTimer su = false ∧ idleCloseUpstream u su s = s)) ∧
  NoDup (closed_uc s) ∧
  (∀ u su, ups s !! u = Some su → ready su = false → dialErr su = None →
     closed su = true ↔ u ∈ closed_uc s).
Proof.
  intros Hr. destruct (reachable_full_inv s Hr) as [Hinv _]. split_and!.
  - intros u v su sv Hu Hv Hk Hcu Hcv.
    destruct (ok_linked _ _ _ _ (pi_up _ Hinv _ _ Hu) Hcu) as [Hlu _].
    destruct (ok_linked _ _ _ _ (pi_up _ Hinv _ _ Hv) Hcv) as [Hlv _]. congruence.
  - intros u su [Hu Huc]. destruct (ok_live _ _ _ _ (pi_up _ Hinv _ _ Hu) Huc) as (_ & _ & Hrf & Hid).
    split_and!; [done| |].
    + intros Hc Hh. apply Hid; [done|]. congruence.
    + intros Hc Hh. split.
      * destruct (idleTimer su); [|done]. assert (refs su = 0) by by apply Hid. lia.
      * unfold idleCloseUpstream. rewrite Hc. destruct (Z.ltb_spec 0 (refs su)); [done|lia].
  - apply Hinv.
  - intros u su Hu Hrd Hde. pose proof (pi_up _ Hinv _ _ Hu) as Hok. split.
    + intros Hc. by apply (ok_gone _ _ _ _ Hok).
    + intros Hg. destruct (closed su) eqn:Ec; [done|].
      by destruct (ok_linked _ _ _ _ Hok Ec).
Qed.

(** One dial: bound to a tunnel, evicted under it, and released at teardown. *)
Definition toy_key1 : poolKey := mkPoolKey (toy_key x01) "control.example" 113 "".

Definition toy_up1 (refs : Z) (closed : bool) : sharedUpstream :=
  mkShared toy_key1 true refs false closed false None.

Definition toy_dialing : pool := set_tokens (cons 0%nat) (snd (getOrCreate_enter toy_key1 0 pool0)).
Definition toy_established : pool :=
  snd (getOrCreate_dialed 0 (mkShared toy_key1 false 1 false false true None) None toy_dialing).
Definition toy_bound : pool :=
  set_bound (<[7%nat := mkBound 0 false]>) (set_tokens (drop_token 0) toy_established).
Definition toy_evicted : pool := evictUpstream 0 (toy_up1 1 false) toy_bound.

Lemma toy_dialing_reachable : rtc pool_step pool0 toy_dialing.
Proof. apply rtc_once. exact (step_get pool0 toy_key1 0 _ _ eq_refl eq_refl). Qed.

Lemma toy_evicted_reachable : rtc pool_step pool0 toy_evicted.
Proof.
  transitivity toy_dialing; [apply toy_dialing_reachable|].
  eapply rtc_l; [exact (step_dialed toy_dialing 0 _ None _ _ eq_refl eq_refl eq_refl)|].
  eapply rtc_l; [eapply (step_bind _ 0 (toy_up1 1 false) 7); [left|split; reflexivity|reflexivity]|].
  apply rtc_once. apply (step_evict _ 0 (toy_up1 1 false)). split; reflexivity.
Qed.

Lemma evict_up `{MachineKeys} u su s :
  closed su = false → ups (evictUpstream u su s) !! u = Some (u_timer false (u_close su)).
Proof.
  intros Hc. unfold evictUpstream. rewrite Hc. unfold close_uc. cbn [ups].
  rewrite (proj1 (unlink_fields _ _ _)). unfold set_ups. cbn [ups]. by rewrite lookup_insert_eq.
Qed.

Lemma toy_evicted_up : ups toy_evicted !! 0%nat = Some (u_timer false (u_close (toy_up1 1 false))).
Proof. exact (evict_up 0 (toy_up1 1 false) toy_bound eq_refl). Qed.

Lemma pool_refcounts_witness :
  0%nat ∈ closed_uc toy_evicted ∧ holders toy_evicted 0 = 1.
Proof.
  destruct (pool_refcounts _ toy_evicted_reachable) as (_ & Hr & _ & Hc). split.
  - apply (Hc 0%nat _ toy_evicted_up); reflexivity.
  - symmetry. exact (proj1 (Hr 0%nat _ (conj toy_evicted_up eq_refl))).
Defined.

(** C38: the drain of the pool. Once it has run, in every later interleaving (the
    dials that were in flight included) every upstream is closed, no upstream is
    handed out or dialed, a dial that succeeds is discarded, and every connection
    that was ever established has been closed. *)
Theorem pool_drained `{MachineKeys} `{BulkLaws} (s0 s : pool) :
  rtc pool_step pool0 s0 → draining s0 = true → rtc pool_step (drainUpstreams s0) s →
  (∀ u su, ups s !! u = Some su → closed su = true) ∧
  (∀ u su, ups s !! u = Some su → ready su = false → dialErr su = None → u ∈ closed_uc s) ∧
  (∀ k fresh, getOrCreate_enter k fresh s = (Refused, s)) ∧
  (∀ u su, ups s !! u = Some su → tryAcquireUpstream u su s = (false, s) ∧
     fst (getOrCreate_dialed u su None s) = DialDrained).
Proof.
  intros Hr0 Hd0 Hr. pose proof (reachable_full_inv s0 Hr0) as Hf0.
  assert (full_inv (drainUpstreams s0)) as Hf1 by (by eapply pool_step_inv, step_drain).
  destruct (drainUpstreams_inv s0 (proj1 Hf0)) as (_ & _ & _ & Hdr & _ & He).
  assert (full_inv s ∧ draining s = true ∧ upstreams s = ∅) as ([Hinv _] & Hd & Hem).
  { apply (drained_reach _ _ Hr); congruence. }
  assert (∀ u su, ups s !! u = Some su → closed su = true) as Hcl.
  { intros u su Hu. destruct (closed su) eqn:Ec; [done|].
    destruct (ok_linked _ _ _ _ (pi_up _ Hinv _ _ Hu) Ec) as [Hl _]. by rewrite Hem, lookup_empty in Hl. }
  split_and!; [done| | |].
  - intros u su Hu Hrd Hde. apply (ok_gone _ _ _ _ (pi_up _ Hinv _ _ Hu)); eauto.
  - intros k fresh. unfold getOrCreate_enter. by rewrite Hd.
  - intros u su Hu. unfold tryAcquireUpstream, getOrCreate_dialed. by rewrite (Hcl _ _ Hu).
Qed.

(** A dial in flight when the drain runs is discarded when it lands. *)
Lemma pool_drained_witness :
  getOrCreate_enter toy_key1 1 (drainUpstreams (beginDrain toy_dialing))
  = (Refused, drainUpstreams (beginDrain toy_dialing)).
Proof.
  destruct (pool_drained (beginDrain toy_dialing) (drainUpstreams (beginDrain toy_dialing)))
    as (_ & _ & Hr & _).
  - eapply rtc_r; [apply toy_dialing_reachable|apply step_begin_drain].
  - reflexivity.
  - apply rtc_refl.
  - apply Hr.
Defined.
