(* ===== verification/TunnelConc.v ===== *)
(** * Goroutines over the pool: the requests of one or many tunnels in flight
    together ([current], [forwardTunnel], [healUpstream] and [closeTunnel] of
    [noise/tunnel.go] over [getOrCreateUpstream] of [noise/upstreampool.go])

    Every goroutine has a program counter, which stands between two critical
    sections of [h.mu] or of a tunnel's leaf lock; [advance] runs the next one. The
    tokens of the pool, which [UpstreamPool.pool_step] hands out and takes back, are
    here the references that the program counters hold. [t_past] and [t_warned]
    are history: the upstreams a tunnel was healed off, and the failed heals it
    has logged. *)

From Stdlib Require Import Lia ZArith Ascii String.
From stdpp Require Import base option list fin_maps gmap sets strings.
From S2P Require Import Prelude GoStd External Instances Adapter UpstreamPool.
Open Scope Z_scope.

Section conc.
Context `{MachineKeys}.

(** Who called [getOrCreateUpstream]: [runTunnel] or [openFreshTunnel] for a tunnel
    to be, or a heal of tunnel [t] off [dead]. *)
Inductive purpose := ForBind (t : nat) (k : poolKey) | ForHeal (t dead : nat).

Inductive pc :=
  (** [getOrCreateUpstream]: the head of its loop, the wait for a dial in flight,
      the dial, and its two returns *)
  | Getting (k : poolKey) (p : purpose)
  | Waiting (u : nat) (k : poolKey) (p : purpose)
  | Dialing (u : nat) (p : purpose)
  | Got (u : nat) (p : purpose)
  | Failed (p : purpose)
  (** [forwardTunnel]: before [current], the round trip, [healUpstream] before its
      check and before the eviction *)
  | Requesting (t : nat)
  | Forwarding (t u : nat)
  | Healing (t dead : nat)
  | Evicting (t dead : nat)
  (** a replay or an injection over a live tunnel: before [current], and before
      [tryAcquireUpstream] *)
  | Selecting (t : nat)
  | Borrowing (u : nat)
  (** before [releaseUpstream], and before [closeTunnel] *)
  | Releasing (u : nat)
  | Closing (t : nat)
  | Done.

Record tunnel := mkTun {
  t_key : poolKey;
  t_healFailed : bool;
  t_past : list nat;
  t_warned : nat
}.

(** [tun] holds the tunnels that [bound] of the pool holds. *)
Record sys := mkSys {
  sp : pool;
  go : gmap nat pc;
  tun : gmap nat tunnel
}.

Definition sys0 : sys := mkSys pool0 ∅ ∅.

(** What the outside decides for one step: the name of a new object, the state of
    the goroutine's context, the outcome of its dial (with whether its context was
    canceled), and whether its round trip or its envelope failed. *)
Record answer := mkAnswer {
  a_fresh : nat;
  a_live : bool;
  a_dial : option (error * bool);
  a_fails : bool
}.

Definition goto (g : nat) (p : pc) (P : pool) (s : sys) : sys := mkSys P (<[g := p]> (go s)) (tun s).

(** [getOrCreateUpstream], up to its next blocking point. *)
Definition get_upstream (a : answer) (g : nat) (k : poolKey) (p : purpose) (s : sys) : option sys :=
  if bool_decide (ups (sp s) !! a_fresh a = None) then
    let '(r, P) := getOrCreate_enter k (a_fresh a) (sp s) in
    Some (match r with
          | Refused => goto g (Failed p) P s
          | Acquired u => goto g (Got u p) (set_tokens (cons u) P) s
          | WaitFor u => goto g (Waiting u k p) P s
          | Dial u => goto g (Dialing u p) (set_tokens (cons u) P) s
          end)
  else None.

(** The [select] on the dial and the goroutine's own context, of which a context
    that has ended may be taken ([a_fails]) even when both are ready; [None] blocks. *)
Definition wait_dial (a : answer) (g u : nat) (k : poolKey) (p : purpose) (s : sys) : option sys :=
  su ← ups (sp s) !! u;
  if negb (a_live a) && a_fails a then Some (goto g (Failed p) (sp s) s)
  else if ready su then None
  else Some (goto g (match getOrCreate_woken u (a_live a) (sp s) with
                     | Some _ => Failed p
                     | None => Getting k p
                     end) (sp s) s).

Definition finish_dial (a : answer) (g u : nat) (p : purpose) (s : sys) : option sys :=
  su ← ups (sp s) !! u;
  let '(r, P) := getOrCreate_dialed u su (a_dial a) (sp s) in
  Some (match r with
        | DialUp => goto g (Got u p) P s
        | _ => goto g (Failed p) (set_tokens (drop_token u) P) s
        end).

(** The tunnel of a fresh upstream, unless its envelope fails first. *)
Definition bind_tunnel (a : answer) (g u t : nat) (k : poolKey) (s : sys) : option sys :=
  if a_fails a then Some (goto g (Releasing u) (sp s) s)
  else if bool_decide (bound (sp s) !! t = None) then
    Some (mkSys (set_bound (<[t := mkBound u false]>) (set_tokens (drop_token u) (sp s)))
            (<[g := Done]> (go s)) (<[t := mkTun k false [] 0]> (tun s)))
  else None.

(** The last critical section of [healUpstream] with a fresh upstream in hand, and
    what is left to release. *)
Definition heal_onto (g fresh t dead : nat) (s : sys) : option sys :=
  bt ← bound (sp s) !! t;
  ti ← tun s !! t;
  let '(r, P) := heal_swap bt t dead fresh (sp s) in
  let swapped := negb (at_closed bt) && bool_decide (up bt = dead) in
  Some (mkSys (set_tokens (λ l, r :: drop_token fresh l) P) (<[g := Releasing r]> (go s))
          (if swapped then <[t := mkTun (t_key ti) false (dead :: t_past ti) (t_warned ti)]> (tun s) else tun s)).

(** [at.healFailed] is set, and logged the first time. *)
Definition heal_dial_failed (g t : nat) (s : sys) : option sys :=
  ti ← tun s !! t;
  Some (mkSys (sp s) (<[g := Done]> (go s))
          (<[t := mkTun (t_key ti) true (t_past ti)
                    (if t_healFailed ti then t_warned ti else S (t_warned ti))]> (tun s))).

Definition advance (a : answer) (g : nat) (s : sys) : option sys :=
  match go s !! g with
  | None | Some Done => None
  | Some (Getting k p) => get_upstream a g k p s
  | Some (Waiting u k p) => wait_dial a g u k p s
  | Some (Dialing u p) => finish_dial a g u p s
  | Some (Got u (ForBind t k)) => bind_tunnel a g u t k s
  | Some (Got u (ForHeal t dead)) => heal_onto g u t dead s
  | Some (Failed (ForBind t k)) => Some (goto g Done (sp s) s)
  | Some (Failed (ForHeal t dead)) => heal_dial_failed g t s
  | Some (Requesting t) => bt ← bound (sp s) !! t; Some (goto g (Forwarding t (up bt)) (sp s) s)
  | Some (Forwarding t u) => Some (goto g (if a_fails a then Healing t u else Done) (sp s) s)
  | Some (Healing t dead) =>
      bt ← bound (sp s) !! t;
      Some (goto g (if at_closed bt || negb (bool_decide (up bt = dead)) then Done else Evicting t dead) (sp s) s)
  | Some (Evicting t dead) =>
      su ← ups (sp s) !! dead;
      ti ← tun s !! t;
      Some (goto g (Getting (t_key ti) (ForHeal t dead)) (evictUpstream dead su (sp s)) s)
  | Some (Selecting t) => bt ← bound (sp s) !! t; Some (goto g (Borrowing (up bt)) (sp s) s)
  | Some (Borrowing u) =>
      su ← ups (sp s) !! u;
      let '(ok, P) := tryAcquireUpstream u su (sp s) in
      Some (if ok : bool then goto g (Releasing u) (set_tokens (cons u) P) s else goto g Done P s)
  | Some (Releasing u) =>
      su ← ups (sp s) !! u;
      Some (goto g Done (set_tokens (drop_token u) (releaseUpstream u su (sp s))) s)
  | Some (Closing t) =>
      bt ← bound (sp s) !! t;
      let '(o, P) := closeTunnel bt t (sp s) in
      Some (match o with
            | Some u => goto g (Releasing u) (set_tokens (cons u) P) s
            | None => goto g Done P s
            end)
  end.

(** Where a goroutine may start: a client's stream or a fresh tunnel for a send, a
    request, a borrow or the teardown on a tunnel there is. *)
Definition may_start (P : pool) (p : pc) : bool :=
  match p with
  | Getting k (ForBind _ k') => bool_decide (k' = k)
  | Requesting t | Selecting t | Closing t => bool_decide (is_Some (bound P !! t))
  | _ => false
  end.

Inductive sys_step `{Bulk} : sys → sys → Prop :=
  | sys_go a g s s' : advance a g s = Some s' → sys_step s s'
  | sys_start g p s : go s !! g = None → may_start (sp s) p = true → sys_step s (goto g p (sp s) s)
  | sys_idle u su s : established (sp s) u su → sys_step s (mkSys (idleCloseUpstream u su (sp s)) (go s) (tun s))
  | sys_begin_drain s : sys_step s (mkSys (beginDrain (sp s)) (go s) (tun s))
  | sys_drain s : draining (sp s) = true → sys_step s (mkSys (drainUpstreams (sp s)) (go s) (tun s)).

(** A run given by the choices it makes. *)
Inductive choice := Go (g : nat) (a : answer) | Start (g : nat) (p : pc).

Definition choose (c : choice) (s : sys) : option sys :=
  match c with
  | Go g a => advance a g s
  | Start g p =>
      if bool_decide (go s !! g = None) && may_start (sp s) p then Some (goto g p (sp s) s) else None
  end.

Fixpoint run_choices (cs : list choice) (s : sys) : option sys :=
  match cs with [] => Some s | c :: cs => s ← choose c s; run_choices cs s end.

(** The references a program counter holds. *)
Definition held (p : pc) : list nat :=
  match p with Dialing u _ | Got u _ | Releasing u => [u] | _ => [] end.

Definition holding (m : gmap nat pc) : list nat := concat (map (held ∘ snd) (map_to_list m)).
End conc.
