(* ===== verification/TunnelConcSpec.v ===== *)
(** * Requests in flight together: what holds in every interleaving of
    [TunnelConc]

    Each step of the goroutines is a step of [UpstreamPool.pool_step] or none of the
    pool's, with the references that the program counters hold as its tokens; so
    what holds of every reachable pool holds here, of references that goroutines
    really hold. *)

From Stdlib Require Import Lia ZArith Ascii String.
From stdpp Require Import base option list fin_maps gmap sets strings.
From S2P Require Import Prelude GoStd External Instances Adapter UpstreamPool UpstreamPoolSpec TunnelConc.
Open Scope Z_scope.

Section conc.
Context `{MachineKeys} `{BulkLaws}.

(** ** The held references *)

Lemma holding_perm m m' : map_to_list m ≡ₚ m' → holding m ≡ₚ concat (map (held ∘ snd) m').
Proof. unfold holding. by intros ->. Qed.

Lemma holding_insert m g p : m !! g = None → holding (<[g := p]> m) ≡ₚ held p ++ holding m.
Proof. intros Hg. by rewrite (holding_perm _ ((g, p) :: map_to_list m)) by by apply map_to_list_insert. Qed.

Lemma holding_delete m g p : m !! g = Some p → holding m ≡ₚ held p ++ holding (delete g m).
Proof.
  intros Hg. rewrite <-(insert_delete_id m g p) at 1 by done.
  by rewrite holding_insert by apply lookup_delete_eq.
Qed.

Lemma holding_update m g p : holding (<[g := p]> m) ≡ₚ held p ++ holding (delete g m).
Proof. by rewrite <-insert_delete_eq, holding_insert by apply lookup_delete_eq. Qed.

Lemma drop_token_perm u l : u ∈ l → l ≡ₚ u :: drop_token u l.
Proof.
  induction l as [|x l IH]; [by intros ?%not_elem_of_nil|]. cbn. case_decide as Hx; [by subst|].
  intros [->|Hu]%elem_of_cons; [done|]. by rewrite Permutation_swap, <-IH.
Qed.

#[export] Instance token_count_Proper u : Proper ((≡ₚ) ==> (=)) (token_count u).
Proof. intros l l' Hl. unfold token_count. by rewrite Hl. Qed.

(** ** What every critical section keeps of the upstreams

    Only the dialer of [ex] resolves it. *)
Definition pool_le (ex : option nat) (P P' : pool) : Prop :=
  ∀ v sv, ups P !! v = Some sv → ∃ sv', ups P' !! v = Some sv' ∧ key sv' = key sv ∧
    (uc sv = true → uc sv' = true) ∧ (closed sv = true → closed sv' = true) ∧
    (ex ≠ Some v → ready sv' = ready sv).

Lemma pool_le_refl ex P P' : ups P' = ups P → pool_le ex P P'.
Proof. intros E v sv Hv. rewrite E. eauto 10. Qed.

Lemma pool_le_trans P1 P2 P3 : pool_le None P1 P2 → pool_le None P2 P3 → pool_le None P1 P3.
Proof.
  intros Q1 Q2 v sv Hv. destruct (Q1 v sv Hv) as (s2 & Hs2 & K2 & U2 & C2 & R2).
  destruct (Q2 v s2 Hs2) as (s3 & Hs3 & K3 & U3 & C3 & R3). exists s3. split_and!; auto; [congruence|].
  intros He. rewrite R3, R2; done.
Qed.

Lemma pool_le_upd ex P P' u su su' :
  ups P !! u = Some su → ups P' = <[u := su']> (ups P) → key su' = key su →
  (uc su = true → uc su' = true) → (closed su = true → closed su' = true) →
  (ex ≠ Some u → ready su' = ready su) → pool_le ex P P'.
Proof.
  intros Hu E Hk Huc Hc Hr v sv Hv. rewrite E. destruct (decide (v = u)) as [->|Hne].
  - rewrite lookup_insert_eq. replace sv with su by congruence. eauto 10.
  - rewrite lookup_insert_ne by done. eauto 10.
Qed.

Lemma unlink_same u su P :
  ups (unlink u su P) = ups P ∧ bound (unlink u su P) = bound P.
Proof. unfold unlink. by case_bool_decide. Qed.

Lemma enter_le k fresh P r P' :
  ups P !! fresh = None → getOrCreate_enter k fresh P = (r, P') → pool_le None P P' ∧ bound P' = bound P.
Proof.
  intros Hf. unfold getOrCreate_enter.
  set (dial := mkPool _ _ _ _ _ _).
  assert (pool_le None P dial) as Hd.
  { intros v sv Hv. cbn. rewrite lookup_insert_ne by congruence. eauto 10. }
  destruct (draining P); [intros [= <- <-]; split; [by apply pool_le_refl|done]|].
  destruct (upstreams P !! k) as [u|]; [|by intros [= <- <-]].
  destruct (ups P !! u) as [su|] eqn:Hu; [|by intros [= <- <-]].
  destruct (closed su) eqn:Hc; [by intros [= <- <-]|].
  destruct (ready su); intros [= <- <-]; (split; [|done]); [by apply pool_le_refl|].
  eapply pool_le_upd; [done|apply (lookup_alter_upd _ _ _ _ Hu)|..]; cbn; congruence.
Qed.

Lemma dialed_le u su res P r P' :
  ups P !! u = Some su → uc su = false → getOrCreate_dialed u su res P = (r, P') →
  pool_le (Some u) P P' ∧ bound P' = bound P.
Proof.
  intros Hu Huc. unfold getOrCreate_dialed. destruct res as [[e c]|].
  - intros [= <- <-]. destruct (unlink_same u su (set_ups (<[u := u_close (u_dialed false (Some (e, c)) su)]>) P)) as [E1 E2].
    split; [|done]. eapply pool_le_upd; [done|exact E1|..]; cbn; congruence.
  - destruct (closed su) eqn:Hc; intros [= <- <-]; (split; [|done]);
      (eapply pool_le_upd; [done|reflexivity|..]; cbn; congruence).
Qed.

Lemma release_le u su P :
  ups P !! u = Some su → pool_le None P (releaseUpstream u su P) ∧ bound (releaseUpstream u su P) = bound P.
Proof.
  intros Hu. unfold releaseUpstream. destruct (_ || _); (split; [|done]);
    (eapply pool_le_upd; [done|reflexivity|..]; done).
Qed.

Lemma try_le u su P b P' :
  ups P !! u = Some su → tryAcquireUpstream u su P = (b, P') → pool_le None P P' ∧ bound P' = bound P.
Proof.
  intros Hu. unfold tryAcquireUpstream. destruct (closed su); intros [= <- <-]; (split; [|done]).
  - by apply pool_le_refl.
  - eapply pool_le_upd; [done|apply (lookup_alter_upd _ _ _ _ Hu)|..]; done.
Qed.

(** Closing an upstream takes it out of the map and closes its connection. *)
Lemma close_le u su su' P P' :
  ups P !! u = Some su → ups P' = <[u := su']> (ups P) → bound P' = bound P →
  key su' = key su → uc su' = uc su → closed su' = true → ready su' = ready su →
  pool_le None P P' ∧ bound P' = bound P.
Proof. intros Hu Hups Hb Hk Huc Hc Hr. split; [|done]. eapply pool_le_upd; [done..| | |]; congruence. Qed.

Lemma evict_le u su P :
  ups P !! u = Some su → pool_le None P (evictUpstream u su P) ∧ bound (evictUpstream u su P) = bound P.
Proof.
  intros Hu. unfold evictUpstream. destruct (closed su); [by split; [apply pool_le_refl|]|].
  destruct (unlink_same u su (set_ups (<[u := u_timer false (u_close su)]>) P)) as [E1 E2].
  by eapply close_le; [done|exact E1|exact E2|..].
Qed.

Lemma idle_le u su P :
  ups P !! u = Some su → pool_le None P (idleCloseUpstream u su P) ∧ bound (idleCloseUpstream u su P) = bound P.
Proof.
  intros Hu. unfold idleCloseUpstream. destruct (_ || _); [by split; [apply pool_le_refl|]|].
  destruct (unlink_same u su (set_ups (<[u := u_close su]>) P)) as [E1 E2].
  by eapply close_le; [done|exact E1|exact E2|..].
Qed.

Lemma drain_one_le u P : pool_le None P (drain_one u P) ∧ bound (drain_one u P) = bound P.
Proof.
  unfold drain_one. destruct (ups P !! u) as [su|] eqn:Hu; [|by split; [apply pool_le_refl|]].
  by destruct (uc su); (eapply close_le; [done|reflexivity|..]).
Qed.

Lemma drain_le P : pool_le None P (drainUpstreams P) ∧ bound (drainUpstreams P) = bound P.
Proof.
  unfold drainUpstreams. generalize (MapValuesSlice (upstreams P)). intros l. revert P.
  induction l as [|u l IH]; intros P; cbn; [by split; [apply pool_le_refl|]|].
  destruct (drain_one_le u P) as [L1 B1]. destruct (IH (drain_one u P)) as [L2 B2].
  split; [by eapply pool_le_trans|congruence].
Qed.

(** ** The invariant *)

Definition est (P : pool) (u : nat) : Prop := ∃ su, established P u su.
Definition has_key (P : pool) (u : nat) (k : poolKey) : Prop := ∃ su, ups P !! u = Some su ∧ key su = k.
Definition gone (P : pool) (u : nat) : Prop := ∃ su, established P u su ∧ closed su = true.
Definition tun_at (P : pool) (T : gmap nat tunnel) (t : nat) (bt : boundTunnel) (ti : tunnel) : Prop :=
  bound P !! t = Some bt ∧ T !! t = Some ti.

Definition purpose_key (T : gmap nat tunnel) (p : purpose) (k : poolKey) : Prop :=
  match p with ForBind _ k' => k' = k | ForHeal t _ => ∃ ti, T !! t = Some ti ∧ t_key ti = k end.

(** [dead] is what the tunnel is bound to, or was. *)
Definition was_bound (P : pool) (T : gmap nat tunnel) (t dead : nat) : Prop :=
  ∃ bt ti, tun_at P T t bt ti ∧ dead ∈ up bt :: t_past ti.

Definition purpose_ok (P : pool) (T : gmap nat tunnel) (p : purpose) : Prop :=
  match p with ForBind _ _ => True | ForHeal t dead => gone P dead ∧ was_bound P T t dead end.

(** A healer that would still swap holds an upstream the tunnel never had. *)
Definition not_used (P : pool) (T : gmap nat tunnel) (u : nat) (p : purpose) : Prop :=
  match p with
  | ForBind _ _ => True
  | ForHeal t dead => ∀ bt ti, tun_at P T t bt ti → up bt = dead → u ∉ dead :: t_past ti
  end.

Definition pc_ok (P : pool) (T : gmap nat tunnel) (p : pc) : Prop :=
  match p with
  | Getting k p => purpose_ok P T p ∧ purpose_key T p k
  | Waiting u k p => purpose_ok P T p ∧ purpose_key T p k ∧ is_Some (ups P !! u)
  | Dialing u p => purpose_ok P T p ∧ not_used P T u p ∧
      ∃ su, ups P !! u = Some su ∧ ready su = true ∧ purpose_key T p (key su)
  | Got u p => purpose_ok P T p ∧ not_used P T u p ∧ est P u ∧ ∃ k, has_key P u k ∧ purpose_key T p k
  | Failed p => purpose_ok P T p
  | Requesting t | Selecting t | Closing t => ∃ bt ti, tun_at P T t bt ti
  | Forwarding t u | Healing t u | Evicting t u => est P u ∧ was_bound P T t u
  | Borrowing u | Releasing u => est P u
  | Done => True
  end.

Record tunnel_ok (P : pool) (bt : boundTunnel) (ti : tunnel) : Prop := {
  to_est : est P (up bt);
  to_key : has_key P (up bt) (t_key ti);
  to_past : Forall (gone P) (t_past ti);
  to_nodup : NoDup (up bt :: t_past ti);
  to_warned : (t_warned ti + (if t_healFailed ti then 0 else 1) ≤ length (t_past ti) + 1)%nat
}.

Record sys_inv (s : sys) : Prop := {
  si_pool : full_inv (sp s);
  si_tokens : tokens (sp s) ≡ₚ holding (go s);
  si_pc g p : go s !! g = Some p → pc_ok (sp s) (tun s) p;
  si_dom t : is_Some (bound (sp s) !! t) ↔ is_Some (tun s !! t);
  si_tun t bt ti : tun_at (sp s) (tun s) t bt ti → tunnel_ok (sp s) bt ti
}.

(** ** Steps keep what the program counters rely on *)

(** A tunnel keeps its key; it is bound to what it was, or to something new. *)
Definition tun_le (P : pool) (T : gmap nat tunnel) (P' : pool) (T' : gmap nat tunnel) : Prop :=
  ∀ t bt ti, tun_at P T t bt ti → ∃ bt' ti', tun_at P' T' t bt' ti' ∧ t_key ti' = t_key ti ∧
    ((up bt' = up bt ∧ t_past ti' = t_past ti) ∨
     (up bt :: t_past ti = t_past ti' ∧ up bt' ∉ t_past ti')).

Lemma tun_le_same P T P' T' : bound P' = bound P → T' = T → tun_le P T P' T'.
Proof. intros Eb -> t bt ti [Hb Ht]. exists bt, ti. unfold tun_at. rewrite Eb. auto. Qed.

Lemma est_le ex P P' u : pool_le ex P P' → est P u → est P' u.
Proof.
  intros Hle (su & Hu & Huc). destruct (Hle u su Hu) as (su' & Hu' & _ & Hc & _).
  exists su'. split; [done|by apply Hc].
Qed.

Lemma has_key_le ex P P' u k : pool_le ex P P' → has_key P u k → has_key P' u k.
Proof.
  intros Hle (su & Hu & Hk). destruct (Hle u su Hu) as (su' & Hu' & Hk' & _).
  exists su'. split; [done|congruence].
Qed.

Lemma gone_le ex P P' u : pool_le ex P P' → gone P u → gone P' u.
Proof.
  intros Hle (su & [Hu Huc] & Hc). destruct (Hle u su Hu) as (su' & Hu' & _ & Hc1 & Hc2 & _).
  exists su'. unfold established. auto.
Qed.

Lemma was_bound_le P T P' T' t d : tun_le P T P' T' → was_bound P T t d → was_bound P' T' t d.
Proof.
  intros Hle (bt & ti & Ht & Hd). destruct (Hle t bt ti Ht) as (bt' & ti' & Ht' & _ & [[E1 E2]|[E1 E2]]);
    exists bt', ti'; (split; [done|]).
  - by rewrite E1, E2.
  - rewrite <-E1. apply elem_of_cons. by right.
Qed.

Lemma purpose_ok_le ex P T P' T' p :
  pool_le ex P P' → tun_le P T P' T' → purpose_ok P T p → purpose_ok P' T' p.
Proof.
  intros Hp Ht. destruct p; [done|]. intros [Hg Hb]. split; [by eapply gone_le|by eapply was_bound_le].
Qed.

Lemma purpose_key_le P T P' T' p k :
  tun_le P T P' T' → purpose_ok P T p → purpose_key T p k → purpose_key T' p k.
Proof.
  intros Hle. destruct p as [t k'|t dead]; [done|]. intros (_ & bt & ti & Hti & _) (ti0 & Ht0 & <-).
  destruct (Hle t bt ti Hti) as (bt' & ti' & [_ Ht'] & Hk & _). exists ti'. split; [done|].
  rewrite Hk. destruct Hti as [_ Hti]. congruence.
Qed.

Lemma not_used_le P T P' T' u p :
  tun_le P T P' T' → purpose_ok P T p → not_used P T u p → not_used P' T' u p.
Proof.
  intros Hle. destruct p as [t k'|t dead]; [done|]. intros (_ & bt & ti & Hti & Hd) Hnu bt2 ti2 Hti2 Hup.
  destruct (Hle t bt ti Hti) as (bt' & ti' & Hti' & _ & Hcase). destruct Hti2 as [Hb2 Ht2], Hti' as [Hb' Ht'].
  assert (bt2 = bt') as -> by congruence. assert (ti2 = ti') as -> by congruence.
  destruct Hcase as [[E1 E2]|[E1 E2]].
  - rewrite E2. apply (Hnu bt ti Hti). congruence.
  - destruct E2. rewrite <-E1. by rewrite Hup.
Qed.

(** A program counter that does not resolve its dial itself. *)
Lemma pc_ok_le ex P T P' T' p :
  pool_le ex P P' → tun_le P T P' T' → (∀ u q, p = Dialing u q → ex ≠ Some u) →
  pc_ok P T p → pc_ok P' T' p.
Proof.
  intros Hp Ht Hex.
  assert (∀ t, (∃ bt ti, tun_at P T t bt ti) → ∃ bt ti, tun_at P' T' t bt ti) as Hsome.
  { intros t (bt & ti & Hti). destruct (Ht t bt ti Hti) as (bt' & ti' & ? & _). eauto. }
  destruct p as [k p|u k p|u p|u p|p|t|t u|t u|t u|t|u|u|t|]; cbn; try done;
    eauto using est_le, purpose_ok_le.
  - intros [Ho Hk]. eauto using purpose_ok_le, purpose_key_le.
  - intros (Ho & Hk & su & Hu). destruct (Hp u su Hu) as (su' & Hu' & _).
    split_and!; eauto using purpose_ok_le, purpose_key_le.
  - intros (Ho & Hn & su & Hu & Hr & Hk). destruct (Hp u su Hu) as (su' & Hu' & Hk' & _ & _ & Hr').
    split_and!; eauto using purpose_ok_le, not_used_le. exists su'. split_and!; [done| |].
    + rewrite Hr'; [done|by eapply Hex].
    + rewrite Hk'. by eapply purpose_key_le.
  - intros (Ho & Hn & He & k & Hk & Hpk).
    split_and!; eauto using purpose_ok_le, not_used_le, est_le, has_key_le, purpose_key_le.
  - intros [He Hb]. eauto using est_le, was_bound_le.
  - intros [He Hb]. eauto using est_le, was_bound_le.
  - intros [He Hb]. eauto using est_le, was_bound_le.
Qed.

Lemma tunnel_ok_le ex P P' bt ti : pool_le ex P P' → tunnel_ok P bt ti → tunnel_ok P' bt ti.
Proof.
  intros Hle [Q1 Q2 Q3 Q4 Q5]. split; [by eapply est_le|by eapply has_key_le| |done|done].
  eapply Forall_impl; [done|]. intros u. by apply (gone_le ex).
Qed.

Lemma tunnel_ok_ups P P' bt ti : ups P' = ups P → tunnel_ok P bt ti → tunnel_ok P' bt ti.
Proof. intros E. by apply (tunnel_ok_le None), pool_le_refl. Qed.

(** ** Every step keeps the invariant, and is a step of the pool or none *)

Definition good (s s' : sys) : Prop := (sp s' = sp s ∨ pool_step (sp s) (sp s')) ∧ sys_inv s'.

Lemma sim_inv s P' : full_inv (sp s) → P' = sp s ∨ pool_step (sp s) P' → full_inv P'.
Proof. intros Hf [->|Hs]; [done|by eapply pool_step_inv]. Qed.

Lemma held_token s g p u : sys_inv s → go s !! g = Some p → u ∈ held p → u ∈ tokens (sp s).
Proof.
  intros Hi Hg Hu. rewrite (si_tokens _ Hi), (holding_delete _ _ _ Hg). apply elem_of_app. by left.
Qed.

(** Nobody else holds an upstream that is being dialed. *)
Lemma dial_unique s g g' u q p :
  sys_inv s → go s !! g = Some (Dialing u q) → go s !! g' = Some p → u ∈ held p → g' = g.
Proof.
  intros Hi Hg Hg' Hu. destruct (decide (g' = g)) as [|Hne]; [done|exfalso].
  destruct (si_pc _ Hi _ _ Hg) as (_ & _ & su & Hsu & Hr & _).
  destruct (si_pool _ Hi) as [Hinv _].
  destruct (ok_dialing _ _ _ _ (pi_up _ Hinv _ _ Hsu) Hr) as (_ & _ & _ & Hh & _).
  assert (2 ≤ token_count u (tokens (sp s)))%nat; [|unfold holders in Hh; lia].
  rewrite (si_tokens _ Hi), (holding_delete _ _ _ Hg), (holding_delete (delete g (go s)) g' p)
    by by rewrite lookup_delete_ne.
  cbn [held app]. rewrite token_count_cons, decide_True by done.
  assert (0 < token_count u (held p ++ holding (delete g' (delete g (go s)))))%nat; [|lia].
  apply token_count_pos, elem_of_app. by left.
Qed.

Lemma inv_step ex s g p p' P' T' :
  sys_inv s → go s !! g = Some p → P' = sp s ∨ pool_step (sp s) P' →
  pool_le ex (sp s) P' → tun_le (sp s) (tun s) P' T' →
  (∀ u, ex = Some u → ∃ q, p = Dialing u q) →
  (∀ l, tokens (sp s) ≡ₚ held p ++ l → tokens P' ≡ₚ held p' ++ l) →
  pc_ok P' T' p' → (∀ t, is_Some (bound P' !! t) ↔ is_Some (T' !! t)) →
  (∀ t bt ti, tun_at P' T' t bt ti → tunnel_ok P' bt ti) →
  good s (mkSys P' (<[g := p']> (go s)) T').
Proof.
  intros Hi Hg Hsim Hp Ht Hex Htok Hpc Hdom Htun. split; [done|]. split; cbn.
  - eapply sim_inv; [apply Hi|done].
  - rewrite holding_update. apply Htok. by rewrite (si_tokens _ Hi), (holding_delete _ _ _ Hg).
  - intros g' q. destruct (decide (g' = g)) as [->|Hne]; [rewrite lookup_insert_eq; by intros [= <-]|].
    rewrite lookup_insert_ne by done. intros Hq. eapply pc_ok_le; [done|done| |by apply (si_pc _ Hi g')].
    intros u r ->. intros Hu. destruct (Hex u Hu) as [r' ->]. destruct Hne.
    eapply dial_unique; [done..|]. by apply list_elem_of_singleton.
  - done.
  - done.
Qed.

(** Steps that leave the tunnels alone. *)
Lemma inv_plain ex s g p p' P' :
  sys_inv s → go s !! g = Some p → P' = sp s ∨ pool_step (sp s) P' →
  pool_le ex (sp s) P' → bound P' = bound (sp s) →
  (∀ u, ex = Some u → ∃ q, p = Dialing u q) →
  (∀ l, tokens (sp s) ≡ₚ held p ++ l → tokens P' ≡ₚ held p' ++ l) →
  pc_ok P' (tun s) p' → good s (goto g p' P' s).
Proof.
  intros Hi Hg Hsim Hp Hb Hex Htok Hpc. eapply inv_step; try done.
  - by apply tun_le_same.
  - intros t. rewrite Hb. apply Hi.
  - intros t bt ti [Hbt Hti]. rewrite Hb in Hbt. eapply tunnel_ok_le; [done|]. by apply (si_tun _ Hi t).
Qed.

(** Steps that change one tunnel, or make it. *)
Lemma inv_tunnel s g p p' P' t bt' ti' :
  sys_inv s → go s !! g = Some p → P' = sp s ∨ pool_step (sp s) P' →
  ups P' = ups (sp s) → bound P' = <[t := bt']> (bound (sp s)) →
  (∀ bt ti, tun_at (sp s) (tun s) t bt ti → t_key ti' = t_key ti ∧
     ((up bt' = up bt ∧ t_past ti' = t_past ti) ∨ (up bt :: t_past ti = t_past ti' ∧ up bt' ∉ t_past ti'))) →
  (∀ l, tokens (sp s) ≡ₚ held p ++ l → tokens P' ≡ₚ held p' ++ l) →
  pc_ok (sp s) (tun s) p' → (∀ u q, p' ≠ Dialing u q) → tunnel_ok (sp s) bt' ti' →
  good s (mkSys P' (<[g := p']> (go s)) (<[t := ti']> (tun s))).
Proof.
  intros Hi Hg Hsim Hu Hb Hold Htok Hpc Hnd Hok.
  assert (∀ t' b i, tun_at P' (<[t := ti']> (tun s)) t' b i →
    (t' = t ∧ b = bt' ∧ i = ti') ∨ tun_at (sp s) (tun s) t' b i) as Hinv.
  { intros t' b i [Hb' Hi']. rewrite Hb in Hb'. destruct (decide (t' = t)) as [->|Hne].
    - rewrite lookup_insert_eq in Hb'. rewrite lookup_insert_eq in Hi'. left. by simplify_eq.
    - rewrite lookup_insert_ne in Hb' by done. rewrite lookup_insert_ne in Hi' by done. by right. }
  assert (tun_le (sp s) (tun s) P' (<[t := ti']> (tun s))) as Hle.
  { intros t' b i Hti. unfold tun_at. rewrite Hb. destruct (decide (t' = t)) as [->|Hne].
    - rewrite !lookup_insert_eq. exists bt', ti'. split; [done|by apply Hold].
    - rewrite !lookup_insert_ne by done. exists b, i. split; [exact Hti|auto]. }
  eapply (inv_step None); try done.
  - by apply pool_le_refl.
  - eapply (pc_ok_le None); [by apply pool_le_refl|done|done|done].
  - intros t'. rewrite Hb. destruct (decide (t' = t)) as [->|Hne]; [by rewrite !lookup_insert_eq|].
    rewrite !lookup_insert_ne by done. apply Hi.
  - intros t' b i Hti. apply (tunnel_ok_ups (sp s)); [done|].
    destruct (Hinv t' b i Hti) as [(-> & -> & ->)|Hold']; [done|by apply (si_tun _ Hi t')].
Qed.

(** Steps that only move the program counter. *)
Lemma inv_goto s g p p' :
  sys_inv s → go s !! g = Some p → held p = held p' → pc_ok (sp s) (tun s) p' → good s (goto g p' (sp s) s).
Proof.
  intros Hi Hg Hh Hpc. eapply (inv_plain None); try done; [by left|by apply pool_le_refl|].
  intros l. by rewrite Hh.
Qed.

Lemma tokens_drop s u l l' :
  tokens s ≡ₚ u :: l → l' = drop_token u (tokens s) → l' ≡ₚ l.
Proof.
  intros E ->. apply (Permutation_cons_inv (a := u)). rewrite <-E. symmetry. apply drop_token_perm.
  rewrite E. apply elem_of_cons. by left.
Qed.

Lemma est_up s t bt ti : sys_inv s → tun_at (sp s) (tun s) t bt ti → est (sp s) (up bt).
Proof. intros Hi Ht. by apply (to_est _ _ _ (si_tun _ Hi _ _ _ Ht)). Qed.

Lemma bound_tun s t bt : sys_inv s → bound (sp s) !! t = Some bt → ∃ ti, tun_at (sp s) (tun s) t bt ti.
Proof.
  intros Hi Hb. destruct (proj1 (si_dom _ Hi t)) as [ti Ht]; [by rewrite Hb|]. exists ti. by split.
Qed.

(** ** The steps of a goroutine *)

Lemma enter_spec P k fresh r P' :
  full_inv P → ups P !! fresh = None → getOrCreate_enter k fresh P = (r, P') →
  match r with
  | Refused => P' = P
  | Acquired u => est P' u ∧ has_key P' u k ∧ ¬ gone P u ∧ tokens P' = tokens P
  | WaitFor u => P' = P ∧ is_Some (ups P !! u)
  | Dial u => u = fresh ∧ tokens P' = tokens P ∧
      ∃ su, ups P' !! u = Some su ∧ ready su = true ∧ key su = k
  end.
Proof.
  intros [Hinv _] Hf. unfold getOrCreate_enter.
  assert (∀ P1 : pool, ups P1 = <[fresh := mkShared k false 1 false false true None]> (ups P) → tokens P1 = tokens P →
    fresh = fresh ∧ tokens P1 = tokens P ∧ ∃ su, ups P1 !! fresh = Some su ∧ ready su = true ∧ key su = k) as Hdial.
  { intros P1 E Et. split_and!; [done..|]. rewrite E, lookup_insert_eq. eexists. split_and!; done. }
  destruct (draining P); [by intros [= <- <-]|].
  destruct (upstreams P !! k) as [u|] eqn:Hk; [|intros [= <- <-]; by apply Hdial].
  destruct (ups P !! u) as [su|] eqn:Hu; [|intros [= <- <-]; by apply Hdial].
  destruct (closed su) eqn:Hc; [intros [= <- <-]; by apply Hdial|].
  destruct (ready su) eqn:Hr; intros [= <- <-]; [by rewrite Hu|].
  pose proof (pi_up _ Hinv _ _ Hu) as Hok. destruct (uc su) eqn:Huc.
  2: { destruct (ok_dead _ _ _ _ Hok Huc Hr) as [Hcl _]. congruence. }
  assert (ups (acquireLocked u P) !! u = Some (u_timer false (u_refs 1 su))) as Hu'.
  { unfold acquireLocked. cbn. by rewrite (lookup_alter_upd _ _ _ _ Hu), lookup_insert_eq. }
  split_and!; [eexists; by split|eexists; split; [exact Hu'|]| |done].
  - cbn. symmetry. by eapply linked_back.
  - intros (sv & [Hv _] & Hcv). congruence.
Qed.

(** An upstream no tunnel was healed off. *)
Lemma not_gone_unused s p u :
  sys_inv s → purpose_ok (sp s) (tun s) p → ¬ gone (sp s) u → not_used (sp s) (tun s) u p.
Proof.
  intros Hi Hp Hg. destruct p as [|t dead]; [done|]. intros bt ti Hti Hup [->|Hin]%elem_of_cons.
  - by destruct Hp.
  - apply Hg. pose proof (to_past _ _ _ (si_tun _ Hi _ _ _ Hti)) as Hall.
    rewrite Forall_forall in Hall. by apply Hall.
Qed.

Lemma get_step a g k p s s' :
  sys_inv s → go s !! g = Some (Getting k p) → get_upstream a g k p s = Some s' → good s s'.
Proof.
  intros Hi Hg. unfold get_upstream. case_bool_decide as Hf; [|done].
  destruct (getOrCreate_enter k (a_fresh a) (sp s)) as [r P] eqn:Er. intros [= <-].
  destruct (si_pc _ Hi _ _ Hg) as [Hok Hkey].
  destruct (enter_le _ _ _ _ _ Hf Er) as [Hle Hb].
  pose proof (step_get (sp s) k (a_fresh a) r P Hf Er) as Hsim.
  pose proof (enter_spec _ _ _ _ _ (si_pool _ Hi) Hf Er) as Hspec.
  assert (tun_le (sp s) (tun s) P (tun s)) as Htl by by apply tun_le_same.
  destruct r as [|u|u|u].
  - subst P. by eapply inv_goto.
  - destruct Hspec as (He & Hk & Hng & Ht).
    eapply (inv_plain None); [done|done|by right|done|done|done| |].
    + intros l. cbn. rewrite Ht. by intros ->.
    + split_and!; [by eapply purpose_ok_le| |done|by exists k].
      apply (not_used_le (sp s) (tun s)); [done..|]. by apply not_gone_unused.
  - destruct Hspec as [-> Hu]. eapply inv_goto; [done|done|done|]. by split_and!.
  - destruct Hspec as (-> & Ht & su & Hu & Hr & Hk).
    eapply (inv_plain None); [done|done|by right|done|done|done| |].
    + intros l. cbn. rewrite Ht. by intros ->.
    + split_and!; [by eapply purpose_ok_le| |exists su; by rewrite Hk].
      apply (not_used_le (sp s) (tun s)); [done..|]. apply not_gone_unused; [done..|].
      intros (sv & [Hv _] & _). congruence.
Qed.

Lemma wait_step a g u k p s s' :
  sys_inv s → go s !! g = Some (Waiting u k p) → wait_dial a g u k p s = Some s' → good s s'.
Proof.
  intros Hi Hg. unfold wait_dial. destruct (si_pc _ Hi _ _ Hg) as (Hok & Hkey & su & Hu).
  rewrite Hu. cbn. destruct (_ && _); [intros [= <-]; by eapply inv_goto|].
  destruct (ready su); [done|]. intros [= <-]. destruct (getOrCreate_woken _ _ _); by eapply inv_goto.
Qed.

Lemma dial_step a g u p s s' :
  sys_inv s → go s !! g = Some (Dialing u p) → finish_dial a g u p s = Some s' → good s s'.
Proof.
  intros Hi Hg. unfold finish_dial. destruct (si_pc _ Hi _ _ Hg) as (Hok & Hnu & su & Hu & Hr & Hkey).
  rewrite Hu. cbn. destruct (getOrCreate_dialed u su (a_dial a) (sp s)) as [r P] eqn:Er. intros [= <-].
  destruct (si_pool _ Hi) as [Hinv _].
  destruct (ok_dialing _ _ _ _ (pi_up _ Hinv _ _ Hu) Hr) as (Huc & _).
  destruct (dialed_le _ _ _ _ _ _ Hu Huc Er) as [Hle Hb].
  pose proof (step_dialed (sp s) u su (a_dial a) r P Hu Hr Er) as Hsim.
  assert (tun_le (sp s) (tun s) P (tun s)) as Htl by by apply tun_le_same.
  assert (∀ v, Some u = Some v → ∃ q, Dialing u p = Dialing v q) as Hex by (intros v [= <-]; by exists p).
  assert (match r with DialUp => tokens P = tokens (sp s) ∧ est P u | _ => tokens P = tokens (sp s) end) as Ht.
  { revert Er. unfold getOrCreate_dialed. destruct (a_dial a) as [[e c]|].
    - intros [= <- <-]. unfold unlink. by case_bool_decide.
    - destruct (closed su); intros [= <- <-]; [done|]. split; [done|].
      eexists. split; [apply lookup_insert_eq|done]. }
  destruct r as [e| |].
  - eapply (inv_plain (Some u)); [done|done|by right|done|done|done| |by eapply purpose_ok_le].
    intros l Hl. eapply tokens_drop; [exact Hl|]. cbn. by rewrite Ht.
  - eapply (inv_plain (Some u)); [done|done|by right|done|done|done| |by eapply purpose_ok_le].
    intros l Hl. eapply tokens_drop; [exact Hl|]. cbn. by rewrite Ht.
  - destruct Ht as [Ht He].
    eapply (inv_plain (Some u)); [done|done|by right|done|done|done|intros l; by rewrite Ht|].
    split_and!; [by eapply purpose_ok_le|by eapply not_used_le|done|].
    exists (key su). split; [|done]. by apply (has_key_le (Some u) (sp s)); [|exists su].
Qed.

Lemma bind_step a g u t k s s' :
  sys_inv s → go s !! g = Some (Got u (ForBind t k)) → bind_tunnel a g u t k s = Some s' → good s s'.
Proof.
  intros Hi Hg. unfold bind_tunnel. destruct (si_pc _ Hi _ _ Hg) as (_ & _ & [su Hsu] & k' & Hk & Hkk).
  cbn in Hkk. subst k'. destruct (a_fails a); [intros [= <-]; eapply inv_goto; [done..|by exists su]|].
  case_bool_decide as Hb; [|done]. intros [= <-].
  assert (u ∈ tokens (sp s)) as Hin by (eapply held_token; [done..|]; by apply list_elem_of_singleton).
  pose proof (step_bind (sp s) u su t Hin Hsu Hb) as Hsim.
  eapply inv_tunnel; [done|done|by right|done|done| | |done|done|].
  - intros bt ti [Hbt _]. congruence.
  - intros l Hl. eapply tokens_drop; [exact Hl|done].
  - split; cbn; [by exists su|done|by constructor|apply NoDup_singleton|lia].
Qed.

(** The tunnel after a swap. *)
Lemma swap_ok s t bt ti fresh :
  sys_inv s → tun_at (sp s) (tun s) t bt ti → gone (sp s) (up bt) → est (sp s) fresh →
  has_key (sp s) fresh (t_key ti) → fresh ∉ up bt :: t_past ti →
  tunnel_ok (sp s) (mkBound fresh false) (mkTun (t_key ti) false (up bt :: t_past ti) (t_warned ti)).
Proof.
  intros Hi Hti Hg He Hk Hn. destruct (si_tun _ Hi _ _ _ Hti) as [Q1 Q2 Q3 Q4 Q5]. split; cbn.
  - done.
  - done.
  - by constructor.
  - by constructor.
  - destruct (t_healFailed ti); lia.
Qed.

(** The fresh upstream is the one to release. *)
Lemma heal_stale s g u t dead P' :
  sys_inv s → go s !! g = Some (Got u (ForHeal t dead)) → est (sp s) u →
  P' = set_tokens (λ l, u :: drop_token u l) (sp s) → P' = sp s ∨ pool_step (sp s) P' →
  good s (goto g (Releasing u) P' s).
Proof.
  intros Hi Hg He -> Hsim. eapply (inv_plain None); [done|done|done|by apply pool_le_refl|done|done| |done].
  intros l Hl. cbn. constructor. eapply tokens_drop; [exact Hl|done].
Qed.

Lemma heal_step g u t dead s s' :
  sys_inv s → go s !! g = Some (Got u (ForHeal t dead)) → heal_onto g u t dead s = Some s' → good s s'.
Proof.
  intros Hi Hg. unfold heal_onto.
  destruct (si_pc _ Hi _ _ Hg) as ([Hgone (bt & ti & Hti & Hd)] & Hnu & He & k & Hk & ti' & Hti' & Hkk).
  pose proof Hti as [Eb Et]. rewrite Eb, Et. cbn. assert (ti' = ti) as -> by congruence. subst k.
  destruct (heal_swap bt t dead u (sp s)) as [r P] eqn:Er. intros [= <-]. pose proof He as [su Hsu].
  assert (u ∈ tokens (sp s)) as Hin by (eapply held_token; [done..|]; by apply list_elem_of_singleton).
  pose proof (step_heal (sp s) t bt dead u su r P Eb Hin Hsu Er) as Hsim.
  unfold heal_swap in Er. destruct (at_closed bt) eqn:Hcl; cbn [orb negb andb] in *;
    [injection Er as <- <-; eapply heal_stale; [done..|by right]|].
  case_bool_decide as Hup; cbn [negb] in *; injection Er as <- <-; [|eapply heal_stale; [done..|by right]].
  subst dead. pose proof (Hnu bt ti Hti eq_refl) as Hnew.
  eapply inv_tunnel; [done|done|by right|done|done| | | |done|].
  - intros bt' ti' [Hb' Ht']. cbn. assert (bt' = bt) as -> by congruence. assert (ti' = ti) as -> by congruence.
    split; [done|]. right. split; [done|exact Hnew].
  - intros l Hl. cbn. constructor. eapply tokens_drop; [exact Hl|done].
  - destruct Hgone as (sv & Hsv & _). by exists sv.
  - by apply (swap_ok s t).
Qed.

Lemma heal_failed_step g t dead s s' :
  sys_inv s → go s !! g = Some (Failed (ForHeal t dead)) → heal_dial_failed g t s = Some s' → good s s'.
Proof.
  intros Hi Hg. unfold heal_dial_failed. destruct (si_pc _ Hi _ _ Hg) as [_ (bt & ti & Hti & _)].
  pose proof Hti as [Eb Et]. rewrite Et. cbn. intros [= <-].
  eapply (inv_tunnel _ _ _ _ _ _ bt); [done|done|by left|done|by rewrite insert_id| |done|done|done|].
  - intros bt' ti' [Hb' Ht']. assert (bt' = bt) as -> by congruence. assert (ti' = ti) as -> by congruence. auto.
  - destruct (si_tun _ Hi _ _ _ Hti) as [Q1 Q2 Q3 Q4 Q5]. split; cbn; try done. destruct (t_healFailed ti); lia.
Qed.

Lemma evict_step g t dead s s' :
  sys_inv s → go s !! g = Some (Evicting t dead) →
  (su ← ups (sp s) !! dead; ti ← tun s !! t;
   Some (goto g (Getting (t_key ti) (ForHeal t dead)) (evictUpstream dead su (sp s)) s)) = Some s' →
  good s s'.
Proof.
  intros Hi Hg. destruct (si_pc _ Hi _ _ Hg) as [[su Hsu] Hwb]. pose proof Hsu as [Hu _].
  rewrite Hu. cbn. destruct (tun s !! t) as [ti|] eqn:Et; [|done]. cbn. intros [= <-].
  destruct (evict_le dead su (sp s) Hu) as [Hle Hb].
  assert (tokens (evictUpstream dead su (sp s)) = tokens (sp s)) as Htk.
  { destruct (evict_fields dead su (sp s) Hu) as (? & _ & _ & ?). done. }
  eapply (inv_plain None); [done|done|right; by apply (step_evict (sp s) dead su)|done|done|done| |].
  - intros l. by rewrite Htk.
  - cbn. split; [|by exists ti]. split; [|by eapply was_bound_le; [apply tun_le_same|]].
    unfold gone, established. destruct (closed su) eqn:Hc.
    + exists su. destruct Hsu as [_ Huc]. unfold evictUpstream. by rewrite Hc.
    + eexists. rewrite evict_up by done. destruct Hsu as [_ Huc]. by split_and!.
Qed.

Lemma release_step g u s s' :
  sys_inv s → go s !! g = Some (Releasing u) →
  (su ← ups (sp s) !! u; Some (goto g Done (set_tokens (drop_token u) (releaseUpstream u su (sp s))) s)) = Some s' →
  good s s'.
Proof.
  intros Hi Hg. destruct (si_pc _ Hi _ _ Hg) as [su Hsu]. pose proof Hsu as [Hu _].
  rewrite Hu. cbn. intros [= <-]. destruct (release_le u su (sp s) Hu) as [Hle Hb].
  destruct (release_fields u su (sp s)) as (_ & _ & _ & Htk).
  assert (u ∈ tokens (sp s)) as Hin by (eapply held_token; [done..|]; by apply list_elem_of_singleton).
  eapply (inv_plain None); [done|done|right; exact (step_release (sp s) u su Hin Hsu)|done|done|done| |done].
  intros l Hl. eapply tokens_drop; [exact Hl|]. cbn. by rewrite Htk.
Qed.

Lemma borrow_step g u s s' :
  sys_inv s → go s !! g = Some (Borrowing u) →
  (su ← ups (sp s) !! u;
   let '(ok, P) := tryAcquireUpstream u su (sp s) in
   Some (if ok : bool then goto g (Releasing u) (set_tokens (cons u) P) s else goto g Done P s)) = Some s' →
  good s s'.
Proof.
  intros Hi Hg. destruct (si_pc _ Hi _ _ Hg) as [su Hsu]. pose proof Hsu as [Hu _].
  rewrite Hu. cbn. destruct (tryAcquireUpstream u su (sp s)) as [ok P] eqn:Er.
  pose proof (step_try (sp s) u su ok P Hsu Er) as Hsim. destruct (try_le u su (sp s) ok P Hu Er) as [Hle Hb].
  assert (tokens P = tokens (sp s)) as Htk.
  { revert Er. unfold tryAcquireUpstream. by destruct (closed su); intros [= <- <-]. }
  destruct ok; intros [= <-].
  - eapply (inv_plain None); [done|done|by right|done|done|done| |].
    + intros l. cbn. rewrite Htk. by intros ->.
    + cbn. eapply est_le; [done|by exists su].
  - eapply (inv_plain None); [done|done|by right|done|done|done| |done]. intros l. by rewrite Htk.
Qed.

Lemma close_step g t s s' :
  sys_inv s → go s !! g = Some (Closing t) →
  (bt ← bound (sp s) !! t;
   let '(o, P) := closeTunnel bt t (sp s) in
   Some (match o with
         | Some u => goto g (Releasing u) (set_tokens (cons u) P) s
         | None => goto g Done P s
         end)) = Some s' →
  good s s'.
Proof.
  intros Hi Hg. destruct (si_pc _ Hi _ _ Hg) as (bt & ti & Hti). pose proof Hti as [Eb Et].
  rewrite Eb. cbn. pose proof (step_close (sp s) t bt _ _ Eb eq_refl) as Hsim.
  assert (∀ p' P', P' = sp s ∨ pool_step (sp s) P' → ups P' = ups (sp s) →
    bound P' = <[t := mkBound (up bt) true]> (bound (sp s)) → tokens P' = held p' ++ tokens (sp s) →
    (∀ u q, p' ≠ Dialing u q) → pc_ok (sp s) (tun s) p' → good s (goto g p' P' s)) as Hgen.
  { intros p' P' Hsim' Hu Hb Htk Hnd Hpc.
    assert (good s (mkSys P' (<[g := p']> (go s)) (<[t := ti]> (tun s)))) as Hg'; [|rewrite (insert_id (tun s)) in Hg' by done; exact Hg'].
    eapply inv_tunnel; [done|done|done|done|done| | |done|done|].
    - intros bt' ti' [Hb' Ht']. assert (bt' = bt) as -> by congruence. assert (ti' = ti) as -> by congruence. auto.
    - intros l. rewrite Htk. by intros ->.
    - destruct (si_tun _ Hi _ _ _ Hti) as [Q1 Q2 Q3 Q4 Q5]. by split. }
  destruct (at_closed bt); intros [= <-]; apply Hgen; try done; [by right|by right|].
  exact (est_up _ _ _ _ Hi Hti).
Qed.

Lemma advance_good a g s s' : sys_inv s → advance a g s = Some s' → good s s'.
Proof.
  intros Hi. unfold advance. destruct (go s !! g) as [p|] eqn:Hg; [|done].
  pose proof (si_pc _ Hi _ _ Hg) as Hpc. destruct p as [k p|u k p|u p|u p|p|t|t u|t u|t u|t|u|u|t|].
  - by apply get_step.
  - by apply wait_step.
  - by apply dial_step.
  - destruct p; [by apply bind_step|by apply heal_step].
  - destruct p; [intros [= <-]; by eapply inv_goto|by eapply heal_failed_step].
  - destruct Hpc as (bt & ti & Hti). pose proof Hti as [Hb _]. rewrite Hb. cbn. intros [= <-].
    eapply inv_goto; [done..|]. split; [by eapply est_up|]. exists bt, ti. split; [done|]. apply elem_of_cons. by left.
  - intros [= <-]. destruct (a_fails a); by eapply inv_goto.
  - destruct (bound (sp s) !! t); [|done]. cbn. intros [= <-]. destruct (_ || _); by eapply inv_goto.
  - by apply evict_step.
  - destruct Hpc as (bt & ti & Hti). pose proof Hti as [Hb _]. rewrite Hb. cbn. intros [= <-].
    eapply inv_goto; [done..|]. by eapply est_up.
  - by apply borrow_step.
  - by apply release_step.
  - by apply close_step.
  - done.
Qed.

(** ** Every step *)

(** Steps of nobody: the timers and the drain. *)
Lemma inv_env s P' :
  sys_inv s → pool_step (sp s) P' → pool_le None (sp s) P' → bound P' = bound (sp s) →
  tokens P' = tokens (sp s) → good s (mkSys P' (go s) (tun s)).
Proof.
  intros Hi Hsim Hle Hb Ht. split; [by right|]. split; cbn.
  - eapply sim_inv; [apply Hi|by right].
  - rewrite Ht. apply Hi.
  - intros g p Hg. eapply pc_ok_le; [done|by apply tun_le_same|done|by apply (si_pc _ Hi g)].
  - intros t. rewrite Hb. apply Hi.
  - intros t bt ti [Hbt Hti]. rewrite Hb in Hbt. eapply tunnel_ok_le; [done|]. by apply (si_tun _ Hi t).
Qed.

Lemma start_step s g p :
  sys_inv s → go s !! g = None → may_start (sp s) p = true → good s (goto g p (sp s) s).
Proof.
  intros Hi Hg Hs.
  assert (∀ t, bool_decide (is_Some (bound (sp s) !! t)) = true → ∃ bt ti, tun_at (sp s) (tun s) t bt ti) as Ht.
  { intros t [bt Hb]%bool_decide_eq_true. exists bt. by eapply bound_tun. }
  assert (held p = [] ∧ pc_ok (sp s) (tun s) p) as [Hh Hok].
  { destruct p as [k [t k'|]| | | | |t| | | |t| | |t|]; try done; (split; [done|]); try by apply Ht.
    apply bool_decide_eq_true in Hs. by subst. }
  split; [by left|]. split; cbn; try apply Hi.
  - rewrite holding_insert, Hh by done. apply Hi.
  - intros g' q. destruct (decide (g' = g)) as [->|Hne]; [rewrite lookup_insert_eq; by intros [= <-]|].
    rewrite lookup_insert_ne by done. by apply (si_pc _ Hi).
Qed.

Lemma sys_step_good s s' : sys_inv s → sys_step s s' → good s s'.
Proof.
  intros Hi Hs. destruct Hs as [a g s s' Ha|g p s Hg Hp|u su s Hu|s|s Hd].
  - by eapply advance_good.
  - by apply start_step.
  - destruct (idle_le u su (sp s)) as [Hle Hb]; [apply Hu|]. apply inv_env; try done; [by apply (step_idle _ _ su)|].
    destruct (idle_fields u su (sp s)) as (? & _ & _ & ?); [apply Hu|done].
  - apply inv_env; try done; [apply step_begin_drain|by apply pool_le_refl].
  - destruct (drain_le (sp s)) as [Hle Hb]. apply inv_env; try done; [by apply step_drain|].
    by destruct (drainUpstreams_inv (sp s) (proj1 (si_pool _ Hi))) as (_ & ? & _).
Qed.

Lemma sys_inv0 : sys_inv sys0.
Proof.
  split; cbn.
  - split; [apply pool_inv0|]. intros u su. cbn. by rewrite lookup_empty.
  - done.
  - intros g p. by rewrite lookup_empty.
  - intros t. rewrite !lookup_empty. by split; intros [].
  - intros t bt ti [Hb _]. cbn in Hb. by rewrite lookup_empty in Hb.
Qed.

Lemma reach_good s s' : sys_inv s → rtc sys_step s s' → rtc pool_step (sp s) (sp s') ∧ sys_inv s'.
Proof.
  intros Hi Hr. revert Hi. induction Hr as [s|s1 s2 s3 Hs _ IH]; intros Hi; [done|].
  destruct (sys_step_good _ _ Hi Hs) as [Hsim Hi2]. destruct (IH Hi2) as [Hp Hi3]. split; [|done].
  destruct Hsim as [E|Hp1]; [by rewrite <-E|by eapply rtc_l].
Qed.

Lemma run_reach cs s s' : run_choices cs s = Some s' → rtc sys_step s s'.
Proof.
  revert s. induction cs as [|c cs IH]; intros s; cbn; [by intros [= <-]|].
  destruct (choose c s) as [s1|] eqn:Hc; [|done]. cbn. intros Hr. eapply rtc_l; [|by apply IH].
  destruct c as [g a|g p]; cbn in Hc; [by eapply sys_go|].
  destruct (bool_decide _) eqn:Hg; [|done]. apply bool_decide_eq_true in Hg.
  destruct (may_start _ _) eqn:Hm; [|done]. cbn in Hc. injection Hc as <-. by apply sys_start.
Qed.

(** A closed tunnel stays bound to what it was. *)
Lemma closed_frozen_step P P' t bt :
  pool_inv P → pool_step P P' → bound P !! t = Some bt → at_closed bt = true → bound P' !! t = Some bt.
Proof.
  intros Hinv Hs Hb Hc.
  destruct Hs as [s k fresh r s' Hf Hr|s u su res r s' Hu Hr Hres|s u su t' Ht He Hb'|s u su Ht He
    |s u su b s' He Hr|s u su He|s u su He|s t' bt' o s' Hb' Hcl|s t' bt' dead fresh su u s' Hb' Hf He Hsw|s|s Hdr].
  - destruct (enter_le _ _ _ _ _ Hf Hr) as [_ E]. destruct r; cbn; by rewrite E.
  - destruct (ok_dialing _ _ _ _ (pi_up _ Hinv _ _ Hu) Hr) as (Huc & _).
    destruct (dialed_le _ _ _ _ _ _ Hu Huc Hres) as [_ E]. destruct r; cbn; by rewrite E.
  - cbn. rewrite lookup_insert_ne by congruence. done.
  - destruct (release_le u su s) as [_ E]; [apply He|]. cbn. by rewrite E.
  - destruct (try_le u su s b s' (proj1 He) Hr) as [_ E]. destruct b; cbn; by rewrite E.
  - destruct (idle_le u su s) as [_ E]; [apply He|]. by rewrite E.
  - destruct (evict_le u su s) as [_ E]; [apply He|]. by rewrite E.
  - assert (bound s' !! t = Some bt) as E; [|by destruct o].
    injection Hcl as _ <-. cbn. destruct (decide (t' = t)) as [->|]; [|by rewrite lookup_insert_ne].
    rewrite lookup_insert_eq. replace bt' with bt by congruence. destruct bt. cbn in *. by subst.
  - assert (bound s' !! t = Some bt) as E; [|done]. revert Hsw. unfold heal_swap.
    destruct (decide (t' = t)) as [->|]; [replace bt' with bt by congruence; rewrite Hc; by intros [= _ <-]|].
    destruct (_ || _); intros [= _ <-]; [done|]. cbn. by rewrite lookup_insert_ne.
  - done.
  - destruct (drain_le s) as [_ E]. by rewrite E.
Qed.

Lemma closed_frozen P P' t bt :
  full_inv P → rtc pool_step P P' → bound P !! t = Some bt → at_closed bt = true → bound P' !! t = Some bt.
Proof.
  intros Hf Hr. revert Hf. induction Hr as [|P1 P2 P3 Hs _ IH]; [done|]. intros Hf Hb Hc.
  apply IH; [by eapply pool_step_inv|by eapply closed_frozen_step; [apply Hf|..]|done].
Qed.

(** ** What reachable states have *)

Lemma conc_reachable_inv s : rtc sys_step sys0 s → rtc pool_step pool0 (sp s) ∧ sys_inv s.
Proof. apply reach_good, sys_inv0. Qed.

Lemma holding_elem u m : u ∈ holding m → ∃ g p, m !! g = Some p ∧ u ∈ held p.
Proof.
  unfold holding. rewrite list_elem_of_In, in_concat. intros (l & Hl & Hu).
  apply in_map_iff in Hl as ([g p] & <- & Hin). exists g, p.
  apply list_elem_of_In in Hin. apply elem_of_map_to_list in Hin.
  split; [done|]. by apply list_elem_of_In.
Qed.

(** Whoever is being dialed has a dialer. *)
Lemma dialer_exists s u su :
  sys_inv s → ups (sp s) !! u = Some su → ready su = true → ∃ g q, go s !! g = Some (Dialing u q).
Proof.
  intros Hi Hu Hr. destruct (si_pool _ Hi) as [Hinv Hd].
  assert (u ∈ holding (go s)) as Hin by (rewrite <-(si_tokens _ Hi); by eapply Hd).
  destruct (holding_elem _ _ Hin) as (g & p & Hg & Hp). pose proof (si_pc _ Hi _ _ Hg) as Hpc.
  destruct (ok_dialing _ _ _ _ (pi_up _ Hinv _ _ Hu) Hr) as (Huc & _).
  assert (¬ est (sp s) u) as Hne by (intros (sv & Hv & Huv); congruence).
  destruct p; cbn in Hp; try by apply elem_of_nil in Hp.
  - apply list_elem_of_singleton in Hp as ->. eauto.
  - apply list_elem_of_singleton in Hp as ->. by destruct Hpc as (_ & _ & ? & _).
  - by apply list_elem_of_singleton in Hp as ->.
Qed.

(** Nobody is left holding anything. *)
Lemma quiet_holders s u :
  sys_inv s → map_Forall (λ _ p, p = Done) (go s) → map_Forall (λ _ bt, at_closed bt = true) (bound (sp s)) →
  holders (sp s) u = 0.
Proof.
  intros Hi Hq Hc. unfold holders. rewrite (si_tokens _ Hi).
  assert (holding (go s) = []) as ->.
  { destruct (holding (go s)) as [|v l] eqn:E; [done|].
    destruct (holding_elem v (go s)) as (g & p & Hg & Hp); [rewrite E; apply elem_of_cons; by left|].
    rewrite (Hq _ _ Hg) in Hp. by apply elem_of_nil in Hp. }
  unfold bound_count. match goal with |- context [size ?m] => assert (m = ∅) as -> end;
    [|by rewrite map_size_empty].
  apply map_empty. intros t. apply map_lookup_filter_None. right. intros bt Hb. cbn. unfold binds.
  by rewrite (Hc _ _ Hb), andb_false_r.
Qed.

(** How far a goroutine is from its end; only a wait goes back, to the loop's head. *)
Definition rank (p : pc) : nat :=
  match p with
  | Requesting _ => 9 | Forwarding _ _ => 8 | Healing _ _ => 7 | Evicting _ _ => 6
  | Getting _ _ => 5 | Waiting _ _ _ => 4 | Dialing _ _ | Selecting _ => 3
  | Got _ _ | Borrowing _ | Closing _ => 2 | Releasing _ | Failed _ => 1 | Done => 0
  end.

(** What a step does to its own program counter. *)
Definition moves_on (p p' : pc) : Prop :=
  (rank p' < rank p)%nat ∨ ∃ u k q, p = Waiting u k q ∧ p' = Getting k q.

Lemma goto_moves g p p' P s s' :
  Some (goto g p' P s) = Some s' → moves_on p p' → ∃ p', go s' !! g = Some p' ∧ moves_on p p'.
Proof. intros [= <-] Hm. exists p'. cbn. by rewrite lookup_insert_eq. Qed.

Lemma advance_moves a g p s s' :
  go s !! g = Some p → advance a g s = Some s' → ∃ p', go s' !! g = Some p' ∧ moves_on p p'.
Proof.
  intros Hg. unfold advance. rewrite Hg.
  destruct p as [k p|u k p|u p|u p|p|t|t u|t u|t u|t|u|u|t|]; cbn -[getOrCreate_enter].
  - unfold get_upstream. case_bool_decide; [|done]. destruct (getOrCreate_enter _ _ _) as [[|u|u|u] P];
      intros E; (eapply goto_moves; [exact E|left; cbn; lia]).
  - unfold wait_dial. destruct (ups _ !! _); [|done]. cbn. destruct (_ && _).
    { intros E; eapply goto_moves; [exact E|left; cbn; lia]. }
    destruct (ready _); [done|]. intros E. eapply goto_moves; [exact E|].
    destruct (getOrCreate_woken _ _ _); [left; cbn; lia|right; eauto].
  - unfold finish_dial. destruct (ups _ !! _); [|done]. cbn -[getOrCreate_dialed].
    destruct (getOrCreate_dialed _ _ _ _) as [[] P]; intros E; (eapply goto_moves; [exact E|left; cbn; lia]).
  - destruct p as [t k|t dead].
    + unfold bind_tunnel. destruct (a_fails a); [intros E; eapply goto_moves; [exact E|left; cbn; lia]|].
      case_bool_decide; [|done]. intros [= <-]. exists Done. cbn. rewrite lookup_insert_eq. split; [done|left; cbn; lia].
    + unfold heal_onto. destruct (bound _ !! _); [|done]. cbn. destruct (tun _ !! _); [|done]. cbn.
      destruct (heal_swap _ _ _ _ _) as [r P]. intros [= <-]. exists (Releasing r). cbn.
      rewrite lookup_insert_eq. split; [done|left; cbn; lia].
  - destruct p as [t k|t dead]; [intros E; eapply goto_moves; [exact E|left; cbn; lia]|].
    unfold heal_dial_failed. destruct (tun _ !! _); [|done]. cbn. intros [= <-]. exists Done. cbn.
    rewrite lookup_insert_eq. split; [done|left; cbn; lia].
  - destruct (bound _ !! _); [|done]. cbn. intros E; eapply goto_moves; [exact E|left; cbn; lia].
  - intros E; eapply goto_moves; [exact E|]. left. destruct (a_fails a); cbn; lia.
  - destruct (bound _ !! _); [|done]. cbn. intros E; eapply goto_moves; [exact E|]. left. destruct (_ || _); cbn; lia.
  - destruct (ups _ !! _); [|done]. cbn. destruct (tun _ !! _); [|done]. cbn.
    intros E; eapply goto_moves; [exact E|left; cbn; lia].
  - destruct (bound _ !! _); [|done]. cbn. intros E; eapply goto_moves; [exact E|left; cbn; lia].
  - destruct (ups _ !! _); [|done]. cbn. destruct (tryAcquireUpstream _ _ _) as [[] P];
      intros E; (eapply goto_moves; [exact E|left; cbn; lia]).
  - destruct (ups _ !! _); [|done]. cbn. intros E; eapply goto_moves; [exact E|left; cbn; lia].
  - destruct (bound _ !! _); [|done]. cbn. destruct (at_closed _);
      intros E; (eapply goto_moves; [exact E|left; cbn; lia]).
  - done.
Qed.

(** Whoever does not wait for a dial can move. *)
Lemma advance_enabled s g p :
  sys_inv s → go s !! g = Some p → p ≠ Done →
  (∃ a s', a_live a = true ∧ advance a g s = Some s') ∨
  (∃ u k q su, p = Waiting u k q ∧ ups (sp s) !! u = Some su ∧ ready su = true).
Proof.
  intros Hi Hg Hne. pose proof (si_pc _ Hi _ _ Hg) as Hpc. unfold advance. rewrite Hg.
  set (a := mkAnswer (fresh (dom (ups (sp s)))) true None true).
  assert (ups (sp s) !! a_fresh a = None) as Hfr by (apply not_elem_of_dom; apply is_fresh).
  destruct p as [k p|u k p|u p|u p|p|t|t u|t u|t u|t|u|u|t|]; try done.
  - left. exists a. unfold get_upstream. rewrite bool_decide_true by done.
    destruct (getOrCreate_enter _ _ _) as [[|u|u|u] P]; eauto.
  - destruct Hpc as (_ & _ & su & Hu). destruct (ready su) eqn:Hr; [right; eauto 10|].
    left. exists a. unfold wait_dial. rewrite Hu. cbn. rewrite Hr. eauto.
  - left. exists a. destruct Hpc as (_ & _ & su & Hu & _). unfold finish_dial. rewrite Hu. cbn.
    destruct (closed su); eauto.
  - left. exists a. destruct p as [t k|t dead]; [unfold bind_tunnel; cbn; eauto|].
    destruct Hpc as ([_ (bt & ti & [Eb Et] & _)] & _). unfold heal_onto. rewrite Eb, Et. cbn.
    destruct (heal_swap _ _ _ _ _); eauto.
  - left. exists a. destruct p as [t k|t dead]; [eauto|]. destruct Hpc as [_ (bt & ti & [Eb Et] & _)].
    unfold heal_dial_failed. rewrite Et. cbn. eauto.
  - left. exists a. destruct Hpc as (bt & ti & [Eb Et]). rewrite Eb. cbn. eauto.
  - left. exists a. eauto.
  - left. exists a. destruct Hpc as [_ (bt & ti & [Eb Et] & _)]. rewrite Eb. cbn. eauto.
  - left. exists a. destruct Hpc as [(su & Hu & _) (bt & ti & [Eb Et] & _)]. rewrite Hu, Et. cbn. eauto.
  - left. exists a. destruct Hpc as (bt & ti & [Eb Et]). rewrite Eb. cbn. eauto.
  - left. exists a. destruct Hpc as (su & Hu & _). rewrite Hu. cbn. destruct (tryAcquireUpstream _ _ _); eauto.
  - left. exists a. destruct Hpc as (su & Hu & _). rewrite Hu. cbn. eauto.
  - left. exists a. destruct Hpc as (bt & ti & [Eb Et]). rewrite Eb. cbn. destruct (at_closed bt); eauto.
Qed.
End conc.

(** ** Properties *)

(** C14: Goroutines refine the pool. Every run of any number of goroutines (sessions that
    acquire and bind, requests that forward and heal, borrows, teardowns) is, for
    the pool, a run of its own step relation with exactly the references that the
    goroutines hold at that moment as its tokens; so the count of an established
    upstream is the number of goroutines holding it and of open tunnels bound to
    it. Once every goroutine has ended and every tunnel is closed nothing has
    leaked: each upstream is closed, or unreferenced with its idle timer armed. *)
Theorem goroutines_refine_pool `{MachineKeys} `{BulkLaws} (s : sys) :
  rtc sys_step sys0 s →
  rtc pool_step pool0 (sp s) ∧
  tokens (sp s) ≡ₚ holding (go s) ∧
  (∀ u su, established (sp s) u su →
     refs su = Z.of_nat (token_count u (holding (go s)) + bound_count u (bound (sp s)))) ∧
  (map_Forall (λ _ p, p = Done) (go s) → map_Forall (λ _ bt, at_closed bt = true) (bound (sp s)) →
   ∀ u su, ups (sp s) !! u = Some su →
     ready su = false ∧ (closed su = true ∨ refs su = 0 ∧ idleTimer su = true)).
Proof.
  intros Hr. destruct (conc_reachable_inv s Hr) as [Hp Hi]. destruct (si_pool _ Hi) as [Hinv _].
  split_and!; [done|apply Hi| |].
  - intros u su [Hu Huc]. destruct (ok_live _ _ _ _ (pi_up _ Hinv _ _ Hu) Huc) as (_ & _ & -> & _).
    unfold holders. by rewrite (si_tokens _ Hi).
  - intros Hq Hc u su Hu. pose proof (quiet_holders s u Hi Hq Hc) as Hh.
    pose proof (pi_up _ Hinv _ _ Hu) as Hok. assert (ready su = false) as Hrd.
    { destruct (ready su) eqn:Hrd; [|done]. destruct (ok_dialing _ _ _ _ Hok Hrd) as (_ & _ & _ & ? & _). lia. }
    split; [done|]. destruct (closed su) eqn:Hcl; [by left|right]. destruct (uc su) eqn:Huc.
    + destruct (ok_live _ _ _ _ Hok Huc) as (_ & _ & Hrf & Hid). split; [lia|]. apply Hid; [done|lia].
    + destruct (ok_dead _ _ _ _ Hok Huc Hrd) as [? _]. congruence.
Qed.

(** C13: Concurrent heals. However many requests fail on a tunnel together, and whatever
    heals, evictions and teardowns interleave: the tunnel is always bound to an
    established upstream of the pool key it was opened with; it is never bound to
    one twice, so a dead upstream is replaced once and never taken back, and every
    one it left is closed; a failing heal is logged once between two swaps; a closed
    tunnel is never rebound; and a healer swaps exactly when the tunnel is open and
    still on the upstream that failed, and then returns that one's reference,
    otherwise that of the fresh one. *)
Theorem concurrent_heals `{MachineKeys} `{BulkLaws} (s : sys) (t : nat) (bt : boundTunnel) (ti : tunnel) :
  rtc sys_step sys0 s → bound (sp s) !! t = Some bt → tun s !! t = Some ti →
  (∃ su, established (sp s) (up bt) su ∧ key su = t_key ti) ∧
  NoDup (up bt :: t_past ti) ∧
  Forall (λ u, ∃ su, established (sp s) u su ∧ closed su = true) (t_past ti) ∧
  (t_warned ti ≤ length (t_past ti) + 1)%nat ∧
  (at_closed bt = true → ∀ s', rtc sys_step s s' → bound (sp s') !! t = Some bt) ∧
  (∀ g u dead a s', go s !! g = Some (Got u (ForHeal t dead)) → advance a g s = Some s' →
     if negb (at_closed bt) && bool_decide (up bt = dead)
     then bound (sp s') !! t = Some (mkBound u false) ∧ go s' !! g = Some (Releasing dead)
     else bound (sp s') !! t = Some bt ∧ go s' !! g = Some (Releasing u)).
Proof.
  intros Hr Hb Ht. destruct (conc_reachable_inv s Hr) as [_ Hi].
  destruct (si_tun _ Hi t bt ti (conj Hb Ht)) as [(su & Hsu) Hk Hpast Hnd Hw]. split_and!; [|done..|lia| |].
  - exists su. split; [done|]. destruct Hk as (sv & Hv & <-). destruct Hsu as [Hu _]. congruence.
  - intros Hc s' Hr'. destruct (reach_good s s' Hi Hr') as [Hp _]. by eapply closed_frozen; [apply Hi|..].
  - intros g u dead a s' Hg. unfold advance. rewrite Hg. unfold heal_onto. rewrite Hb, Ht. cbn.
    unfold heal_swap. destruct (at_closed bt); cbn; [intros [= <-]; cbn; by rewrite lookup_insert_eq|].
    case_bool_decide; cbn; intros [= <-]; cbn; by rewrite !lookup_insert_eq.
Qed.

(** C16: Progress. A goroutine that cannot take its next step even though its context is
    alive waits for a dial that another goroutine is running; and every step brings
    a goroutine nearer to its end, except that one woken by a dial looks the pool up
    again: nobody waits for a dial that nobody runs, and nobody spins. *)
Theorem goroutines_progress `{MachineKeys} `{BulkLaws} (s : sys) (g : nat) (p : pc) :
  rtc sys_step sys0 s → go s !! g = Some p → p ≠ Done →
  ((∃ a s', a_live a = true ∧ advance a g s = Some s') ∨
   (∃ u k q g' q', p = Waiting u k q ∧ go s !! g' = Some (Dialing u q'))) ∧
  (∀ a s', advance a g s = Some s' → ∃ p', go s' !! g = Some p' ∧
     ((rank p' < rank p)%nat ∨ ∃ u k q, p = Waiting u k q ∧ p' = Getting k q)).
Proof.
  intros Hr Hg Hne. destruct (conc_reachable_inv s Hr) as [_ Hi]. split.
  - destruct (advance_enabled s g p Hi Hg Hne) as [Ha|(u & k & q & su & -> & Hu & Hrd)]; [by left|right].
    destruct (dialer_exists s u su Hi Hu Hrd) as (g' & q' & Hg'). eauto 10.
  - intros a s'. by apply advance_moves.
Qed.

(** Two requests fail on upstream 0 together: both evict it, one dials upstream 1 and
    the other waits for that dial, and the second finds the tunnel healed. *)
Definition up_ok : answer := mkAnswer 0 true None false.
Definition fails : answer := mkAnswer 0 true None true.
Definition fresh_name (n : nat) : answer := mkAnswer n true None false.

Definition opening : list choice :=
  [Start 0 (Getting toy_key1 (ForBind 7 toy_key1)); Go 0 (fresh_name 0); Go 0 up_ok; Go 0 up_ok].
Definition failing (g : nat) : list choice := [Start g (Requesting 7); Go g up_ok; Go g fails; Go g up_ok; Go g up_ok].
Definition waiting_run : list choice :=
  opening ++ failing 1 ++ failing 2 ++ [Go 1 (fresh_name 1); Go 2 (fresh_name 2)].
Definition healing_run : list choice :=
  waiting_run ++ [Go 1 up_ok; Go 2 up_ok; Go 2 (fresh_name 2); Go 1 up_ok; Go 2 up_ok; Go 1 up_ok; Go 2 up_ok;
                  Start 3 (Closing 7); Go 3 up_ok; Go 3 up_ok].

Definition toy_run (cs : list choice) : sys := default sys0 (run_choices cs sys0).

Definition runs (cs : list choice) : bool := match run_choices cs sys0 with Some _ => true | None => false end.

Lemma toy_run_reach cs : runs cs = true → rtc sys_step sys0 (toy_run cs).
Proof. unfold runs, toy_run. destruct (run_choices cs sys0) as [s|] eqn:Hs; [|done]. intros _. by eapply run_reach. Qed.

Definition quiet `{MachineKeys} (s : sys) : bool :=
  forallb (λ '(_, p), Nat.eqb (rank p) 0) (map_to_list (go s)) &&
  forallb (λ '(_, bt), at_closed bt) (map_to_list (bound (sp s))).

Lemma quiet_spec `{MachineKeys} s :
  quiet s = true →
  map_Forall (λ _ p, p = Done) (go s) ∧ map_Forall (λ _ bt, at_closed bt = true) (bound (sp s)).
Proof.
  intros [Hp Hb]%andb_true_iff. rewrite !forallb_forall in *. split.
  - intros g p Hg. assert (Nat.eqb (rank p) 0 = true) as Hr.
    { apply (Hp (g, p)), list_elem_of_In. by apply elem_of_map_to_list. }
    by destruct p.
  - intros t bt Ht. apply (Hb (t, bt)), list_elem_of_In. by apply elem_of_map_to_list.
Qed.

Lemma goroutines_refine_pool_witness :
  ∃ su, ups (sp (toy_run healing_run)) !! 0%nat = Some su ∧
    ready su = false ∧ (closed su = true ∨ refs su = 0 ∧ idleTimer su = true).
Proof.
  assert (quiet (toy_run healing_run) = true) as [Hd Hc]%quiet_spec by (vm_compute; reflexivity).
  assert (is_Some (ups (sp (toy_run healing_run)) !! 0%nat)) as [su Hu] by (vm_compute; by eexists).
  destruct (goroutines_refine_pool (toy_run healing_run)) as (_ & _ & _ & Hq).
  - apply toy_run_reach. vm_compute. reflexivity.
  - exists su. split; [exact Hu|]. exact (Hq Hd Hc 0%nat su Hu).
Defined.

Lemma concurrent_heals_witness : NoDup [1%nat; 0%nat].
Proof.
  destruct (concurrent_heals (toy_run healing_run) 7 (mkBound 1 true) (mkTun toy_key1 false [0%nat] 0))
    as (_ & Hnd & _).
  - apply toy_run_reach. vm_compute. reflexivity.
  - vm_compute. reflexivity.
  - vm_compute. reflexivity.
  - exact Hnd.
Defined.

Lemma goroutines_progress_witness :
  (∃ a s', a_live a = true ∧ advance a 2 (toy_run waiting_run) = Some s') ∨
  (∃ u k q g' q', Waiting 1 toy_key1 (ForHeal 7 0) = Waiting u k q ∧
     go (toy_run waiting_run) !! g' = Some (Dialing u q')).
Proof.
  apply (goroutines_progress (toy_run waiting_run) 2 (Waiting 1 toy_key1 (ForHeal 7 0))).
  - apply toy_run_reach. vm_compute. reflexivity.
  - vm_compute. reflexivity.
  - discriminate.
Defined.
