(* ===== verification/H2Serve.v ===== *)
(** * Serving one connection: [ServeH2Conn] with [singleConnListener] and
    [closeNotifyConn] of [sidescale/tsproto/http2tunnel.go]

    Three goroutines share the listener: the caller of [ServeH2Conn], the accept
    loop of [http.Server.Serve], and the goroutine that [Serve] starts for an
    accepted connection. Of [net/http] the model uses what its documentation says:
    [Serve] accepts until [Accept] fails and returns that error, or fails before it
    accepts anything; a served connection is closed (by several callers, it may be
    more than once) when it ends, and ends when it is closed. *)

From Stdlib Require Import Lia ZArith Ascii String Wellfounded.
From stdpp Require Import base option list strings relations.
From S2P Require Import Prelude.
Open Scope nat_scope.

Definition errConnServed : error := ErrNew "tsproto: conn finished serving".

(** ** The listener *)

(** [closes] counts the closes of the wrapped connection. *)
Record singleConnListener := mkListener {
  used : bool;
  done : bool;
  fired : bool;
  closes : nat
}.

Definition newSingleConnListener : singleConnListener := mkListener false false false 0.

Inductive accepted := AcceptConn | AcceptErr (e : error) | AcceptBlocks.

Definition Accept (l : singleConnListener) : accepted * singleConnListener :=
  if used l then (if done l then AcceptErr errConnServed else AcceptBlocks, l)
  else (AcceptConn, mkListener true (done l) (fired l) (closes l)).

(** [close(l.done)]: closing a closed channel panics. *)
Definition close_done (l : singleConnListener) : option singleConnListener :=
  if done l then None else Some (mkListener (used l) true (fired l) (closes l)).

(** [sync.OnceFunc] around it. *)
Definition onClose (l : singleConnListener) : option singleConnListener :=
  if fired l then Some l else close_done (mkListener (used l) (done l) true (closes l)).

(** [closeNotifyConn.Close] *)
Definition Close (l : singleConnListener) : option singleConnListener :=
  l ← onClose l; Some (mkListener (used l) (done l) (fired l) (S (closes l))).

(** ** The goroutines *)

(** [Serve]: before its loop, in [Accept], and with its error in the channel
    [served] or taken out of it. *)
Inductive serving := Starting | Accepting | Sent (e : error) | Received.

(** The goroutine of the accepted connection; [n] more closes are to come. *)
Inductive handling := NotStarted | Handling | Ending (n : nat) | Ended.

(** The caller: in its [select], after the context's end, waiting for [Serve]
    behind the close, or returned. *)
Inductive calling := Selecting | Canceling | Joining | Returned (r : option error).

Record sys := mkSys {
  lst : singleConnListener;
  srv : serving;
  hdl : handling;
  cll : calling;
  ctx_done : bool
}.

Definition init : sys := mkSys newSingleConnListener Starting NotStarted Selecting false.

(** What [ServeH2Conn] makes of the error of [Serve]. *)
Definition served_result (e : error) : option error :=
  if errors_Is e errConnServed then None else Some e.

Section step.
Context (ctxErr : error).

(** [env] marks the steps of the outside: the context ends, and the client (or the
    protocol) ends a connection that is still open. *)
Inductive step : bool → sys → sys → Prop :=
  | st_cancel l sv h c : step true (mkSys l sv h c false) (mkSys l sv h c true)
  | st_hangup l sv c x n : step true (mkSys l sv Handling c x) (mkSys l sv (Ending (S n)) c x)
  (** [Serve] *)
  | st_fail l c x e : errors_Is e errConnServed = false →
      step false (mkSys l Starting NotStarted c x) (mkSys l (Sent e) NotStarted c x)
  | st_loop l c x : step false (mkSys l Starting NotStarted c x) (mkSys l Accepting NotStarted c x)
  | st_accept l l' h c x : Accept l = (AcceptConn, l') →
      step false (mkSys l Accepting h c x) (mkSys l' Accepting Handling c x)
  | st_accept_err l l' h c x e : Accept l = (AcceptErr e, l') →
      step false (mkSys l Accepting h c x) (mkSys l' (Sent e) h c x)
  (** the accepted connection *)
  | st_closed l sv c x n : closes l ≠ 0 →
      step false (mkSys l sv Handling c x) (mkSys l sv (Ending (S n)) c x)
  | st_close l l' sv c x n : Close l = Some l' →
      step false (mkSys l sv (Ending (S n)) c x) (mkSys l' sv (Ending n) c x)
  | st_end l sv c x : step false (mkSys l sv (Ending 0) c x) (mkSys l sv Ended c x)
  (** [ServeH2Conn]'s [select], either way when both are ready *)
  | st_served l h e x :
      step false (mkSys l (Sent e) h Selecting x) (mkSys l Received h (Returned (served_result e)) x)
  | st_ctx l sv h : step false (mkSys l sv h Selecting true) (mkSys l sv h Canceling true)
  | st_shut l l' sv h x : Close l = Some l' →
      step false (mkSys l sv h Canceling x) (mkSys l' sv h Joining x)
  | st_join l h e x :
      step false (mkSys l (Sent e) h Joining x) (mkSys l Received h (Returned (Some ctxErr)) x).

Definition any_step (s s' : sys) : Prop := ∃ b, step b s s'.

(** ** What every reachable state has *)

Record sys_inv (s : sys) : Prop := {
  (** the channel [done] is closed exactly when the connection has been *)
  iv_once : fired (lst s) = done (lst s);
  iv_done : done (lst s) = negb (Nat.eqb (closes (lst s)) 0);
  (** the connection is handed out to the goroutine that serves it *)
  iv_used : used (lst s) = match hdl s with NotStarted => false | _ => true end;
  iv_start : srv s = Starting → hdl s = NotStarted;
  iv_ended : match hdl s with Ended | Ending 0 => done (lst s) = true | _ => True end;
  (** [Serve] returns behind the connection's close, or without having served it *)
  iv_sent e : srv s = Sent e →
    if errors_Is e errConnServed then done (lst s) = true ∧ used (lst s) = true else hdl s = NotStarted;
  iv_main : match cll s with
    | Selecting => srv s ≠ Received
    | Canceling => srv s ≠ Received ∧ ctx_done s = true
    | Joining => srv s ≠ Received ∧ ctx_done s = true ∧ done (lst s) = true
    | Returned None => srv s = Received ∧ done (lst s) = true ∧ used (lst s) = true
    | Returned (Some e) => srv s = Received ∧
        (e = ctxErr ∧ ctx_done s = true ∧ done (lst s) = true ∨
         hdl s = NotStarted ∧ errors_Is e errConnServed = false)
    end
}.

Lemma Close_spec l :
  fired l = done l → Close l = Some (mkListener (used l) true true (S (closes l))).
Proof.
  intros Ho. unfold Close, onClose, close_done. destruct (fired l) eqn:Hf; cbn; [|by rewrite <-Ho].
  by rewrite <-Ho, Hf.
Qed.

Lemma inv_init : sys_inv init.
Proof. split; cbn; try done; split; intros; congruence. Qed.

(** [Accept], given what it returned. *)
Lemma Accept_conn l l' :
  Accept l = (AcceptConn, l') → used l = false ∧ l' = mkListener true (done l) (fired l) (closes l).
Proof. unfold Accept. destruct (used l); [by destruct (done l)|]. by intros [= <-]. Qed.

Lemma Accept_err l l' e :
  Accept l = (AcceptErr e, l') → used l = true ∧ done l = true ∧ e = errConnServed ∧ l' = l.
Proof. unfold Accept. destruct (used l); [|done]. destruct (done l); [|done]. by intros [= <- <-]. Qed.

Ltac step_solver :=
  unfold served_result in *; split; cbn in *; intros; simplify_eq; try done;
  try match goal with Hse : ∀ e, Sent _ = Sent e → _ |- _ => specialize (Hse _ eq_refl) end;
  repeat case_match; simplify_eq; try done; intuition (try congruence).

Lemma listener_inv_step b s s' : sys_inv s → step b s s' → sys_inv s'.
Proof.
  intros Hi Hs. pose proof Hi as [Ho Hd Hu Hst He Hse Hm].
  destruct Hs as [l sv h c|l sv c x n|l c x e Hx|l c x|l l' h c x Ha|l l' h c x e Ha|l sv c x n Hc
    |l l' sv c x n Hc|l sv c x|l h e x|l sv h|l l' sv h x Hc|l h e x]; cbn in *.
  - step_solver.
  - step_solver.
  - step_solver.
  - step_solver.
  - apply Accept_conn in Ha as [Hn ->]. step_solver.
  - apply Accept_err in Ha as (Hus & Hdo & -> & ->). step_solver.
  - step_solver.
  - rewrite Close_spec in Hc by done. injection Hc as <-. step_solver.
  - step_solver.
  - step_solver.
  - step_solver.
  - rewrite Close_spec in Hc by done. injection Hc as <-. step_solver.
  - step_solver.
Qed.

Lemma inv_reach s s' : sys_inv s → rtc any_step s s' → sys_inv s'.
Proof. intros Hi Hr. induction Hr as [|s1 s2 s3 [b Hs] _ IH]; [done|]. apply IH. by eapply listener_inv_step. Qed.

(** ** Every run ends *)

Definition srv_rank (x : serving) : nat := match x with Starting => 3 | Accepting => 2 | Sent _ => 1 | Received => 0 end.
Definition hdl_rank (x : handling) : nat := match x with NotStarted => 3 | Handling => 2 | Ending _ => 1 | Ended => 0 end.
Definition cll_rank (x : calling) : nat := match x with Selecting => 3 | Canceling => 2 | Joining => 1 | Returned _ => 0 end.

Definition phases (s : sys) : nat :=
  (if ctx_done s then 0 else 1) + srv_rank (srv s) + hdl_rank (hdl s) + cll_rank (cll s).
Definition pending (s : sys) : nat := match hdl s with Ending n => n | _ => 0 end.

(** Every step ends a phase, or performs one of the closes of the phase. *)
Lemma step_decreases b s s' :
  sys_inv s → step b s s' → phases s' < phases s ∨ phases s' = phases s ∧ pending s' < pending s.
Proof.
  intros [_ _ Hu _ _ _ _] Hs.
  destruct Hs as [l sv h c|l sv c x n|l c x e Hx|l c x|l l' h c x Ha|l l' h c x e Ha|l sv c x n Hc
    |l l' sv c x n Hc|l sv c x|l h e x|l sv h|l l' sv h x Hc|l h e x]; unfold phases, pending; cbn in *; try lia.
  apply Accept_conn in Ha as [Hn _]. rewrite Hn in Hu. destruct h; [cbn; lia|done..].
Qed.

Lemma runs_end s : sys_inv s → Acc (λ s' s, any_step s s') s.
Proof.
  remember (phases s) as a eqn:Ha. revert s Ha.
  induction (lt_wf a) as [a _ IHa]. intros s Ha. remember (pending s) as n eqn:Hn. revert s Ha Hn.
  induction (lt_wf n) as [n _ IHn]. intros s -> -> Hi. constructor. intros s' [b Hs].
  pose proof (listener_inv_step _ _ _ Hi Hs) as Hi'. destruct (step_decreases _ _ _ Hi Hs) as [Hlt|[Heq Hlt]].
  - by eapply (IHa _ Hlt).
  - by eapply (IHn _ Hlt).
Qed.

(** Without the outside only a connection in use under a live context waits. *)
Lemma own_step s :
  sys_inv s → (∀ r, cll s ≠ Returned r) →
  (∃ s', step false s s') ∨
  (hdl s = Handling ∧ srv s = Accepting ∧ cll s = Selecting ∧ ctx_done s = false ∧ closes (lst s) = 0).
Proof.
  intros Hi Hc. pose proof Hi as [Ho Hd Hu Hst He Hse Hm]. destruct s as [l sv h c x]. cbn in *.
  destruct c as [| | |r]; [| | |by destruct (Hc r)].
  2: { left. eexists. eapply st_shut. by apply Close_spec. }
  - destruct x; [left; eexists; apply st_ctx|]. destruct sv as [| |e|]; [rewrite (Hst eq_refl); left; eexists; apply st_loop| | |done].
    2: { left. eexists. apply st_served. }
    destruct h as [| |[|n]|].
    + left. eexists. apply st_accept. unfold Accept. by rewrite Hu.
    + destruct (closes l) as [|k] eqn:Hk; [by right|]. left. eexists. eapply (st_closed _ _ _ _ 0). by rewrite Hk.
    + left. eexists. apply st_end.
    + left. eexists. eapply st_close. by apply Close_spec.
    + left. eexists. apply (st_accept_err l l _ _ _ errConnServed). unfold Accept. by rewrite Hu, He.
  - left. destruct Hm as (Hsr & -> & Hdn). destruct sv as [| |e|]; [rewrite (Hst eq_refl); eexists; apply st_loop| | |done].
    2: { eexists. apply st_join. }
    destruct h.
    + eexists. apply st_accept. unfold Accept. by rewrite Hu.
    + eexists. apply (st_accept_err l l _ _ _ errConnServed). unfold Accept. by rewrite Hu, Hdn.
    + eexists. apply (st_accept_err l l _ _ _ errConnServed). unfold Accept. by rewrite Hu, Hdn.
    + eexists. apply (st_accept_err l l _ _ _ errConnServed). unfold Accept. by rewrite Hu, Hdn.
Qed.
End step.

(** ** Properties *)

(** C17: [ServeH2Conn], whatever the interleaving. Closing the connection never panics,
    however many goroutines close it. When the call returns the accept loop has
    ended; it returns nil only once the connection was served and closed, the
    context's error only after the context ended and the connection was closed,
    and any other error only from a [Serve] that never took the connection; so it
    does not return while the connection is open and the context alive. Every run is finite, and unless the call
    has returned some goroutine can step by itself, except while the connection is
    being served under a live context: the call always returns once either ends. *)
Theorem serve_h2_conn (ctxErr : error) (s : sys) :
  rtc (any_step ctxErr) init s →
  is_Some (Close (lst s)) ∧
  (∀ r, cll s = Returned r → srv s = Received ∧
     match r with
     | None => closes (lst s) ≠ 0 ∧ used (lst s) = true
     | Some e => (e = ctxErr ∧ ctx_done s = true ∧ closes (lst s) ≠ 0) ∨
                 (hdl s = NotStarted ∧ used (lst s) = false ∧ errors_Is e errConnServed = false)
     end) ∧
  (hdl s = Handling → closes (lst s) = 0 → ctx_done s = false → cll s = Selecting) ∧
  Acc (λ s' s, any_step ctxErr s s') s ∧
  ((∀ r, cll s ≠ Returned r) → (∃ s', step ctxErr false s s') ∨
     (hdl s = Handling ∧ ctx_done s = false ∧ closes (lst s) = 0)).
Proof.
  intros Hr. pose proof (inv_reach ctxErr init s (inv_init ctxErr) Hr) as Hi.
  pose proof Hi as [Ho Hd Hu Hst He Hse Hm].
  assert (done (lst s) = true → closes (lst s) ≠ 0) as Hcl by (rewrite Hd; by destruct (closes (lst s))).
  split_and!.
  - rewrite Close_spec by done. by eexists.
  - intros r Hc. rewrite Hc in Hm. destruct r as [e|].
    + destruct Hm as [Hs [(? & ? & ?)|[Hn Hx]]]; (split; [done|]); [left; auto|right]. by rewrite Hu, Hn.
    + destruct Hm as (Hs & Hdn & Hus). auto.
  - intros Hh Hc Hx. rewrite Hc in Hd. rewrite Hd, Hx, Hh in Hm. destruct (cll s) as [| | |[e|]]; naive_solver.
  - by apply runs_end.
  - intros Hc. destruct (own_step ctxErr s Hi Hc) as [|(? & ? & ? & ? & ?)]; [by left|by right].
Qed.

(** A connection served to its end: its goroutine closes it twice. *)
Definition toy_err : error := ErrNew "context canceled".
Definition served_state : sys :=
  mkSys (mkListener true true true 2) Received Ended (Returned None) false.

Lemma served_reachable : rtc (any_step toy_err) init served_state.
Proof.
  eapply rtc_l; [eexists; apply st_loop|]. eapply rtc_l; [eexists; by apply st_accept|].
  eapply rtc_l; [eexists; apply (st_hangup _ _ _ _ _ 1)|].
  eapply rtc_l; [eexists; by apply st_close|]. eapply rtc_l; [eexists; by apply st_close|].
  eapply rtc_l; [eexists; apply st_end|]. eapply rtc_l; [eexists; by apply st_accept_err|].
  apply rtc_once. eexists. apply st_served.
Qed.

Lemma serve_h2_conn_witness : closes (lst served_state) ≠ 0 ∧ used (lst served_state) = true.
Proof.
  destruct (serve_h2_conn toy_err served_state served_reachable) as (_ & Hr & _).
  exact (proj2 (Hr None eq_refl)).
Defined.
