(* ===== verification/Trace.v ===== *)
(** * Reasoning about the events of a computation

    [outcome P m tr]: what [m] adds to the history and returns satisfies [P].
    [ends P m tr]: with enough fuel [m] returns, and the same for [P].
    [emits P m]: every event of [m] satisfies [P]. *)

From Stdlib Require Import Lia ZArith.
From stdpp Require Import base option list.
From S2P Require Import Prelude External.
Open Scope go_scope.

(** ** Every event *)

Definition emits (P : event → Prop) {A} (m : eff A) : Prop :=
  ∀ tr, ∃ evs, snd (m tr) = tr ++ evs ∧ Forall P evs.

Section emits.
Context (P : event → Prop).

Lemma emits_ret {A} (a : A) : emits P (mret a : eff A).
Proof. intros tr. exists []. by rewrite app_nil_r. Qed.

Lemma emits_read {A} (f : list event → A) : emits P (λ tr, (f tr, tr)).
Proof. intros tr. exists []. by rewrite app_nil_r. Qed.

Lemma emits_write {A} (f : list event → A) (e : list event → event) :
  (∀ tr, P (e tr)) → emits P (λ tr, (f tr, tr ++ [e tr])).
Proof. intros He tr. exists [e tr]. split; [done|]. by constructor. Qed.

Lemma emits_emit e : P e → emits P (emit e).
Proof. intros He. by apply (emits_write (λ _, tt) (λ _, e)). Qed.

Lemma emits_bind {A B} (m : eff A) (k : A → eff B) :
  emits P m → (∀ a, emits P (k a)) → emits P (m ≫= k).
Proof.
  intros Hm Hk tr. unfold mbind, eff_bind. destruct (Hm tr) as (e1 & E1 & H1).
  destruct (m tr) as [a tr1]. simpl in E1. subst. destruct (Hk a (tr ++ e1)) as (e2 & E2 & H2).
  exists (e1 ++ e2). split; [by rewrite E2, app_assoc|]. by apply Forall_app.
Qed.

Lemma emits_ebind {A B} (m : eff (result A)) (k : A → eff (result B)) :
  emits P m → (∀ a, emits P (k a)) → emits P (ebind m k).
Proof. intros Hm Hk. apply emits_bind; [done|]. intros [a|e]; [apply Hk|apply emits_ret]. Qed.

Lemma emits_deferred {A} (c : eff unit) (m : eff A) : emits P c → emits P m → emits P (deferred c m).
Proof.
  intros Hc Hm tr. unfold deferred. destruct (Hm tr) as (e1 & E1 & H1).
  destruct (m tr) as [a tr1]. simpl in E1. subst. destruct (Hc (tr ++ e1)) as (e2 & E2 & H2).
  destruct (c (tr ++ e1)) as [[] tr2]. simpl in E2. subst.
  exists (e1 ++ e2). split; [by rewrite app_assoc|]. by apply Forall_app.
Qed.
End emits.

(** ** Outcomes *)

Definition outcome {A} (P : list event → A → Prop) (m : eff A) (tr : list event) : Prop :=
  ∃ a evs, m tr = (a, tr ++ evs) ∧ P evs a.

Definition ends {A} (P : list event → A → Prop) (m : nat → eff (option A)) (tr : list event) : Prop :=
  ∃ n a evs, (∀ k, m (n + k)%nat tr = (Some a, tr ++ evs)) ∧ P evs a.

Lemma out_ret {A} (P : list event → A → Prop) a tr : P [] a → outcome P (mret a) tr.
Proof. intros. exists a, []. by rewrite app_nil_r. Qed.

Lemma out_read {A} (P : list event → A → Prop) f tr : P [] (f tr) → outcome P (λ tr, (f tr, tr)) tr.
Proof. intros. exists (f tr), []. by rewrite app_nil_r. Qed.

(** A computation without events. *)
Lemma out_pure {A} (P : list event → A → Prop) (m : eff A) tr :
  snd (m tr) = tr → P [] (fst (m tr)) → outcome P m tr.
Proof. intros E HP. exists (fst (m tr)), []. rewrite app_nil_r. split; [|done]. destruct (m tr). simpl in *. by subst. Qed.

Lemma out_emit (P : list event → unit → Prop) e tr : P [e] tt → outcome P (emit e) tr.
Proof. intros. by exists tt, [e]. Qed.

Lemma out_bind {A B} (Q : list event → B → Prop) (m : eff A) (k : A → eff B) tr :
  outcome (λ evs a, outcome (λ evs2 b, Q (evs ++ evs2) b) (k a) (tr ++ evs)) m tr →
  outcome Q (m ≫= k) tr.
Proof.
  intros (a & evs & E & b & evs2 & E2 & HQ). exists b, (evs ++ evs2). split; [|done].
  unfold mbind, eff_bind. by rewrite E, E2, app_assoc.
Qed.

Lemma out_ebind {A B} (Q : list event → result B → Prop) (m : eff (result A)) (k : A → eff (result B)) tr :
  outcome (λ evs r, match r with
                    | Ok a => outcome (λ evs2 b, Q (evs ++ evs2) b) (k a) (tr ++ evs)
                    | Err e => Q evs (Err e)
                    end) m tr →
  outcome Q (ebind m k) tr.
Proof.
  intros (r & evs & E & HQ). apply out_bind. exists r, evs. split; [done|].
  destruct r; [done|]. apply out_ret. by rewrite app_nil_r.
Qed.

Lemma out_weaken {A} (P Q : list event → A → Prop) (m : eff A) tr :
  outcome P m tr → (∀ evs a, P evs a → Q evs a) → outcome Q m tr.
Proof. intros (a & evs & E & HP) HPQ. exists a, evs. auto. Qed.

Lemma out_emits {A} (P : event → Prop) (m : eff A) tr :
  emits P m → outcome (λ evs _, Forall P evs) m tr.
Proof.
  intros Hm. destruct (Hm tr) as (evs & E & HP). exists (fst (m tr)), evs. split; [|done].
  rewrite <-E. apply surjective_pairing.
Qed.

Lemma out_deferred {A} (P : list event → A → Prop) (c : eff unit) (m : eff A) tr :
  outcome (λ evs a, outcome (λ evs2 _, P (evs ++ evs2) a) c (tr ++ evs)) m tr → outcome P (deferred c m) tr.
Proof.
  intros (a & evs & E & [] & evs2 & E2 & HP). exists a, (evs ++ evs2). split; [|done].
  unfold deferred. by rewrite E, E2, app_assoc.
Qed.

(** ** With fuel *)

Lemma ends_weaken {A} (P Q : list event → A → Prop) m tr :
  ends P m tr → (∀ evs a, P evs a → Q evs a) → ends Q m tr.
Proof. intros (n & a & evs & E & HP) HPQ. exists n, a, evs. auto. Qed.

(** A computation that needs no fuel. *)
Lemma ends_some {A} (P : list event → A → Prop) (m : eff A) tr :
  outcome P m tr → ends P (λ _, a ← m; mret (Some a)) tr.
Proof.
  intros (a & evs & E & HP). exists 0%nat, a, evs. split; [|done]. intros k. unfold mbind, eff_bind. by rewrite E.
Qed.

Lemma ends_bind {A B} (Q : list event → B → Prop) (m : eff A) (k : nat → A → eff (option B)) tr :
  outcome (λ evs a, ends (λ evs2 b, Q (evs ++ evs2) b) (λ n, k n a) (tr ++ evs)) m tr →
  ends Q (λ n, m ≫= k n) tr.
Proof.
  intros (a & evs & E & n & b & evs2 & E2 & HQ). exists n, b, (evs ++ evs2). split; [|done]. intros j.
  unfold mbind, eff_bind. by rewrite E, E2, app_assoc.
Qed.

Lemma ends_ret {A} (P : list event → A → Prop) a tr : P [] a → ends P (λ _, mret (Some a)) tr.
Proof. intros. exists 0%nat, a, []. by rewrite app_nil_r. Qed.

Lemma ends_obind {A B} (Q : list event → B → Prop) (m : nat → eff (option A)) (k : nat → A → eff (option B)) tr :
  ends (λ evs a, ends (λ evs2 b, Q (evs ++ evs2) b) (λ n, k n a) (tr ++ evs)) m tr →
  ends Q (λ n, obind (m n) (k n)) tr.
Proof.
  intros (n1 & a & evs & E & n2 & b & evs2 & E2 & HQ). exists (n1 + n2)%nat, b, (evs ++ evs2). split; [|done].
  intros j. unfold obind, mbind, eff_bind. rewrite <-Nat.add_assoc, E.
  replace (n1 + (n2 + j))%nat with (n2 + (n1 + j))%nat by lia. by rewrite E2, app_assoc.
Qed.

Lemma ends_deferring {A} (P : list event → A → Prop) (c : eff unit) (m : nat → eff (option A)) tr :
  ends (λ evs a, outcome (λ evs2 _, P (evs ++ evs2) a) c (tr ++ evs)) m tr →
  ends P (λ n, deferring c (m n)) tr.
Proof.
  intros Hm. apply ends_obind. apply (ends_weaken _ _ _ _ Hm). intros evs a Hc.
  apply (ends_bind _ c (λ _ _, mret (Some a))). apply (out_weaken _ _ _ _ Hc). intros evs2 [] HP.
  apply ends_ret. by rewrite app_nil_r.
Qed.

(** Structural proofs of [emits]; the leaves are in the database. *)
Create HintDb emits.
#[export] Hint Resolve emits_ret emits_read : emits.

Ltac emits_step :=
  cbv beta zeta;
  lazymatch goal with
  | |- ∀ _, _ => intros
  | |- emits _ (_ ≫= _) => apply emits_bind
  | |- emits _ (ebind _ _) => apply emits_ebind
  | |- emits _ (deferred _ _) => apply emits_deferred
  | |- emits _ (match ?x with _ => _ end) => destruct x
  | |- emits _ (emit _) => apply emits_emit; done
  | |- emits _ (λ _, (_, _ ++ [_])) => apply emits_write; done
  | |- emits _ _ => solve [auto with emits nocore]
  end.
Ltac solve_emits := repeat emits_step.
