(* ===== verification/NoiseConfig.v ===== *)
(** * Control configuration: [sidescale/noise/config.go] and [keys.go] *)

From Stdlib Require Import Init.Byte Strings.Byte Lia ZArith Ascii String.
From stdpp Require Import base option list gmap sets strings.
From S2P Require Import Prelude GoStd External Instances Adapter Persist.
From S2P Require DerpConfig.
Open Scope Z_scope.

Definition KeyStrategySubstitute : string := "substitute".
Definition KeyStrategyBorrow : string := "borrow".
Definition KeySubResponder : string := "responder".
Definition KeySubSidecarTLS : string := "sidecar_tls".
Definition UpstreamSchemeAuto : string := "auto".
Definition UpstreamSchemeHTTPS : string := "https".
Definition UpstreamSchemeHTTP : string := "http".
Definition PoolModeShared : string := "shared".
Definition PoolModePerClient : string := "per_client".
Definition EarlyNoiseForward : string := "forward".
Definition EarlyNoiseSuppress : string := "suppress".
Definition EarlyNoiseReplace : string := "replace".
Definition defaultControlHost : string := "controlplane.tailscale.com".

Record ControlConfig := mkControlConfig {
  ControlHosts : list string;
  UpstreamOverrides : gmap string string;
  KeyStrategy : string;
  KeySubstitution : string;
  NoiseKeypairPath : string;
  DeviceCertPath : string;
  DeviceKeyPath : string;
  HWKeyPath : string;
  MachineIdentity : string;
  UpstreamScheme : string;
  UpstreamPoolMode : string;
  EarlyNoise : string
}.

(** [&ControlConfig{}] *)
Definition control_zero : ControlConfig :=
  mkControlConfig [] ∅ "" "" "" "" "" "" "" "" "" "".

Definition ApplyDefaults (c : ControlConfig) : ControlConfig :=
  mkControlConfig
    (if (length (ControlHosts c) =? 0)%nat then [defaultControlHost] else ControlHosts c)
    (UpstreamOverrides c)
    (DerpConfig.or_default (KeyStrategy c) KeyStrategySubstitute)
    (DerpConfig.or_default (KeySubstitution c) KeySubResponder)
    (NoiseKeypairPath c) (DeviceCertPath c) (DeviceKeyPath c) (HWKeyPath c)
    (DerpConfig.or_default (MachineIdentity c) IdentityPerClient)
    (DerpConfig.or_default (UpstreamScheme c) UpstreamSchemeAuto)
    (DerpConfig.or_default (UpstreamPoolMode c) PoolModeShared)
    (DerpConfig.or_default (EarlyNoise c) EarlyNoiseForward).

Section validate.
Context `{Addr}.

Definition Validate (c : ControlConfig) : option error :=
  if negb (DerpConfig.Contains_str [KeyStrategySubstitute; KeyStrategyBorrow] (KeyStrategy c)) then
    Some (ErrFmt "sidescale: invalid key_strategy %q" [KeyStrategy c])
  else if bool_decide (KeyStrategy c = KeyStrategyBorrow) && bool_decide (NoiseKeypairPath c = EmptyString) then
    Some (ErrNew "sidescale: key_strategy=borrow requires noise_keypair_path")
  else if bool_decide (KeyStrategy c = KeyStrategySubstitute) &&
          negb (DerpConfig.Contains_str [KeySubResponder; KeySubSidecarTLS] (KeySubstitution c)) then
    Some (ErrFmt "sidescale: invalid key_substitution %q" [KeySubstitution c])
  else if existsb (λ h, bool_decide (fst (addr_Parse h "https") = EmptyString)) (ControlHosts c) then
    Some (ErrNew "sidescale: control_hosts entries must name a host")
  else if negb (DerpConfig.Contains_str [UpstreamSchemeAuto; UpstreamSchemeHTTPS; UpstreamSchemeHTTP]
                  (UpstreamScheme c)) then
    Some (ErrFmt "sidescale: invalid upstream_scheme %q" [UpstreamScheme c])
  else if negb (DerpConfig.Contains_str [PoolModeShared; PoolModePerClient] (UpstreamPoolMode c)) then
    Some (ErrFmt "sidescale: invalid upstream_pool_mode %q" [UpstreamPoolMode c])
  else if negb (ValidIdentity (MachineIdentity c)) then
    Some (ErrFmt "sidescale: invalid machine_identity %q" [MachineIdentity c])
  else if negb (DerpConfig.Contains_str [EarlyNoiseForward; EarlyNoiseSuppress; EarlyNoiseReplace]
                  (EarlyNoise c)) then
    Some (ErrFmt "sidescale: invalid early_noise %q" [EarlyNoise c])
  else None.
End validate.

Section keys.
Context `{OS} {K : Type} `{PrivKey K}.

Definition NewMachineKeyProvider (readDir : string → result (list (string * bool))) (c : ControlConfig)
    (newKey : nat → K) : fsM (result (provider (K := K))) :=
  NewProvider readDir (MachineIdentity c) "machine_identity" "noise key" newKey.
End keys.

(** ** What validation establishes *)

Record control_ok `{Addr} (c : ControlConfig) : Prop := {
  ok_strategy : KeyStrategy c = KeyStrategySubstitute ∨
    (KeyStrategy c = KeyStrategyBorrow ∧ NoiseKeypairPath c ≠ EmptyString);
  ok_substitution : KeyStrategy c = KeyStrategySubstitute →
    KeySubstitution c = KeySubResponder ∨ KeySubstitution c = KeySubSidecarTLS;
  ok_hosts : Forall (λ h, fst (addr_Parse h "https") ≠ EmptyString) (ControlHosts c);
  ok_identity : ValidIdentity (MachineIdentity c) = true;
  ok_pool : UpstreamPoolMode c = PoolModeShared ∨ UpstreamPoolMode c = PoolModePerClient;
  ok_scheme : UpstreamScheme c ∈ [UpstreamSchemeAuto; UpstreamSchemeHTTPS; UpstreamSchemeHTTP];
  ok_early : EarlyNoise c ∈ [EarlyNoiseForward; EarlyNoiseSuppress; EarlyNoiseReplace]
}.

Lemma Contains_str_true l s : negb (DerpConfig.Contains_str l s) = false ↔ s ∈ l.
Proof. unfold DerpConfig.Contains_str. rewrite negb_false_iff. apply bool_decide_eq_true. Qed.

Lemma existsb_host `{Addr} l :
  existsb (λ h, bool_decide (fst (addr_Parse h "https") = EmptyString)) l = false ↔
  Forall (λ h, fst (addr_Parse h "https") ≠ EmptyString) l.
Proof.
  induction l as [|h l IH]; [by split|]. cbn [existsb].
  rewrite orb_false_iff, IH, Forall_cons, bool_decide_eq_false. done.
Qed.

Lemma Validate_ok `{Addr} c : Validate c = None ↔ control_ok c.
Proof.
  unfold Validate. split.
  - guard_case E1. guard_case E2. guard_case E3. guard_case E4. guard_case E5. guard_case E6.
    guard_case E7. guard_case E8. intros _.
    apply Contains_str_true in E1, E5, E6, E8. apply existsb_host in E4. apply negb_false_iff in E7.
    apply andb_false_iff in E2, E3. rewrite !bool_decide_eq_false in E2. rewrite bool_decide_eq_false, Contains_str_true in E3.
    split; try done; set_solver.
  - intros [Hs Hsub Hh Hi Hp Hsc He].
    assert (negb (DerpConfig.Contains_str [KeyStrategySubstitute; KeyStrategyBorrow] (KeyStrategy c)) = false) as ->.
    { apply Contains_str_true. destruct Hs as [->|[-> _]]; set_solver. }
    assert (bool_decide (KeyStrategy c = KeyStrategyBorrow) && bool_decide (NoiseKeypairPath c = EmptyString) = false) as ->.
    { apply andb_false_iff. rewrite !bool_decide_eq_false. destruct Hs as [->|[_ ?]]; [by left|by right]. }
    assert (bool_decide (KeyStrategy c = KeyStrategySubstitute) &&
          negb (DerpConfig.Contains_str [KeySubResponder; KeySubSidecarTLS] (KeySubstitution c)) = false) as ->.
    { apply andb_false_iff. rewrite bool_decide_eq_false, Contains_str_true.
      destruct (decide (KeyStrategy c = KeyStrategySubstitute)) as [E|]; [|by left].
      right. destruct (Hsub E) as [->| ->]; set_solver. }
    apply existsb_host in Hh as ->. rewrite Hi. apply Contains_str_true in Hsc as ->, He as ->.
    assert (negb (DerpConfig.Contains_str [PoolModeShared; PoolModePerClient] (UpstreamPoolMode c)) = false) as ->.
    { apply Contains_str_true. destruct Hp as [->| ->]; set_solver. }
    done.
Qed.
