(* ===== verification/ExternalControl.v ===== *)
(** * Interfaces of the control surface

    What the Noise surface uses of [encoding/json], [tailcfg], [crypto],
    [net/http]'s HTTP/2 client, [controlbase] and the core tools of sectool. As in
    [External], the laws of an interface are a separate class. *)

From Stdlib Require Import Init.Byte Strings.Byte Lia ZArith Ascii String.
From stdpp Require Import base option list gmap sets strings.
From S2P Require Import Prelude GoStd External.
Open Scope Z_scope.

(** ** [encoding/json] on untyped values *)

(** A JSON value decoded into an [any], as far as the code looks into it. *)
Inductive json_any := JNull | JString (s : string) | JOther.

Class JSON := {
  (** a [map[string]json.RawMessage]; the value [null] decodes to a nil map *)
  unmarshal_obj : bytes → result (option (gmap string bytes));
  marshal_obj : gmap string bytes → result bytes;
  unmarshal_any : bytes → result json_any;
  marshal_string : string → result bytes;
  (** the form in which [Marshal] writes a [RawMessage] *)
  json_compact : bytes → bytes;
  (** the anonymous structs the code probes a body with: one field each *)
  probe_Stream : bytes → result bool;
  probe_Version : bytes → result Z;
  probe_frame : bytes → result string
}.

(** A string that JSON text carries unchanged. *)
Fixpoint ascii_only (s : string) : bool :=
  match s with
  | EmptyString => true
  | String a s => (N_of_ascii a <? 128)%N && ascii_only s
  end.

Class JSONLaws `{JSON} := {
  (** valid UTF-8 *)
  json_key : string → Prop;
  json_key_ascii s : ascii_only s = true → json_key s;
  unmarshal_obj_keys b m : unmarshal_obj b = Ok (Some m) → map_Forall (λ k _, json_key k) m;
  marshal_obj_spec m b :
    map_Forall (λ k _, json_key k) m → marshal_obj m = Ok b →
    unmarshal_obj b = Ok (Some (json_compact <$> m));
  marshal_string_any s b :
    ascii_only s = true → marshal_string s = Ok b → unmarshal_any (json_compact b) = Ok (JString s)
}.

(** ** [tailcfg]: the fields the code reads and writes, and the rest *)

Class HWKeys := {
  (** [key.HardwareAttestationPublic] *)
  HWPublic : Type;
  HWPublic_zero : HWPublic;
  HWPublic_IsZero : HWPublic → bool;
  HWPublic_UnmarshalText : string → result HWPublic;
  (** the fields of the two requests that are left alone *)
  rr_other : Type;
  mr_other : Type;
  (** [NodeKey.String()] *)
  mr_NodeKey : mr_other → string
}.

(** [tailcfg.SignatureType] *)
Definition SignatureNone : Z := 0.
Definition SignatureV2 : Z := 3.

(** Times are nanoseconds since the Unix epoch; [None] is a nil pointer, or the
    zero time. *)
Record RegisterRequest `{HWKeys} := mkRegisterRequest {
  Signature : option bytes;
  SignatureType : Z;
  DeviceCert : option bytes;
  Timestamp : option Z;
  rr_rest : rr_other
}.

Record MapRequest `{HWKeys} := mkMapRequest {
  HardwareAttestationKey : HWPublic;
  HardwareAttestationKeySignature : option bytes;
  HardwareAttestationKeySignatureTimestamp : option Z;
  MapSessionHandle : string;
  MapSessionSeq : Z;
  mr_rest : mr_other
}.

(** [tailcfg.OverTLSPublicKeyResponse] *)
Record OverTLSPublicKeyResponse `{MachineKeys} := mkKeyResponse {
  LegacyPublicKey : MachinePublic;
  PublicKey : MachinePublic
}.

Arguments mkRegisterRequest {_}.
Arguments mkMapRequest {_}.
Arguments mkKeyResponse {_}.

Class TailcfgJSON `{HWKeys} `{MachineKeys} := {
  marshal_rr : RegisterRequest → result bytes;
  unmarshal_rr : bytes → result RegisterRequest;
  marshal_mr : MapRequest → result bytes;
  unmarshal_mr : bytes → result MapRequest;
  unmarshal_keyresp : bytes → result OverTLSPublicKeyResponse
}.

(** ** [crypto], [crypto/x509] and [encoding/pem] *)

Class Signing := {
  RSAPrivate : Type;
  ECDSAPrivate : Type;
  sha256 : bytes → bytes;
  (** the randomness of a signature is the history's *)
  rsa_SignPSS : list event → RSAPrivate → bytes → result bytes;
  rsa_VerifyPSS : RSAPrivate → bytes → bytes → bool;
  ecdsa_SignASN1 : list event → ECDSAPrivate → bytes → result bytes;
  ecdsa_VerifyASN1 : ECDSAPrivate → bytes → bytes → bool;
  ecdsa_P256 : ECDSAPrivate → bool;
  (** [k.ECDH()] and the bytes of its public key *)
  ecdsa_ECDH : ECDSAPrivate → result bytes
}.

(** A signature verifies under the public half of the key that made it. *)
Class SigningLaws `{Signing} : Prop := {
  rsa_sign_verify tr k d s : rsa_SignPSS tr k d = Ok s → rsa_VerifyPSS k d s = true;
  ecdsa_sign_verify tr k d s : ecdsa_SignASN1 tr k d = Ok s → ecdsa_VerifyASN1 k d s = true
}.

Inductive pkcs8 `{Signing} := PKCS8_RSA (k : RSAPrivate) | PKCS8_ECDSA (k : ECDSAPrivate) | PKCS8_Other.

Class X509 `{Signing} := {
  (** the type and bytes of the first block, and what follows it *)
  pem_Decode : bytes → option (string * bytes * bytes);
  x509_PKCS1 : bytes → result RSAPrivate;
  x509_PKCS8 : bytes → result pkcs8;
  x509_EC : bytes → result ECDSAPrivate
}.

(** A block is not empty. *)
Class X509Laws `{X509} : Prop := {
  pem_Decode_shorter b t d rest : pem_Decode b = Some (t, d, rest) → (length rest < length b)%nat
}.

(** ** [control/controlbase]: the Noise handshakes *)

(** A decrypted connection: its id, the peer's key, the handshake hash and what
    the peer will send. *)
Record NoiseConn `{MachineKeys} := mkNoiseConn {
  nc_conn : connid;
  nc_Peer : MachinePublic;
  nc_HandshakeHash : bytes;
  nc_input : script
}.
Arguments mkNoiseConn {_}.

(** [tailcfg.CurrentCapabilityVersion] *)
Class CapVersion := { CurrentCapabilityVersion : Z }.

Class ControlBase `{MachineKeys} := {
  HandshakeContinuation : Type;
  (** [controlbase.Server] on the client's stream *)
  cb_Server : list event → connid → MachinePrivate → bytes → result NoiseConn;
  (** [controlbase.ClientDeferred]: the initiation and what completes it *)
  cb_ClientDeferred : list event → MachinePrivate → MachinePublic → Z → result (bytes * HandshakeContinuation);
  (** the continuation on the buffered bytes and the rest of the stream *)
  cb_Continue : list event → HandshakeContinuation → connid → bytes → script → result NoiseConn;
  (** [key.NewMachine()] and [UnmarshalText] *)
  key_NewMachine : list event → MachinePrivate;
  MachinePrivate_UnmarshalText : string → result MachinePrivate
}.

(** ** [net/http] *)

(** An [http.Header]: distinct keys with their values. Ranging over a map visits
    it in an order of its own. *)
Abbreviation header := (list (string * list string)).

Record HttpRequest := mkHttpRequest {
  rq_Method : string;
  rq_RequestURI : string;
  rq_Path : string;
  rq_Host : string;
  rq_Header : header;
  rq_Body : script
}.

Record HttpResponse := mkHttpResponse {
  rs_StatusCode : Z;
  rs_Header : header;
  rs_body : connid;
  rs_Body : script
}.

(** A request to send upstream. *)
Record OutRequest := mkOutRequest {
  or_Method : string;
  or_URL : string;
  or_Header : header;
  or_Body : bytes
}.

Class HTTP := {
  range_header : list event → header → header;
  (** the error of [http.NewRequestWithContext(method, url)] *)
  http_NewRequest : string → string → option error;
  (** [RoundTrip] on an HTTP/2 client connection, and whether it is still usable *)
  h2_RoundTrip : list event → connid → OutRequest → result HttpResponse;
  h2_Usable : list event → connid → bool;
  http_StatusText : Z → string;
  (** method and path of a request read off a connection *)
  http_ReadRequestLine : script → result (string * string);
  (** the requests an HTTP/2 client sends inside a tunnel, with their response writers *)
  h2_Requests : list event → connid → list (HttpRequest * connid);
  (** the error of [Transport.NewClientConn] over a connection, or the id of the client *)
  h2_NewClientConn : list event → connid → result connid
}.

Class HTTPLaws `{HTTP} : Prop := {
  range_header_perm tr h : range_header tr h ≡ₚ h
}.

(** [io.ReadAll] of a body. *)
Fixpoint ReadAll (s : script) : result bytes :=
  match s with
  | [] => Ok []
  | (b, None) :: s => match ReadAll s with Ok r => Ok (b ++ r) | Err e => Err e end
  | (b, Some e) :: _ => if bool_decide (e = io_EOF) then Ok b else Err e
  end.

(** [go-analyze/bulk]'s [SliceSplit]: the elements that satisfy the predicate and
    those that do not, in order. *)
Class Slices := { SliceSplit : ∀ {A}, (A → bool) → list A → list A * list A }.
Class SlicesLaws `{Slices} : Prop := {
  SliceSplit_spec {A} (f : A → bool) l :
    SliceSplit f l = (List.filter f l, List.filter (λ x, negb (f x)) l)
}.

(** ** The core tools of sectool *)

Class Core := {
  (** [CoreInvoke]: the content and whether it is an error result *)
  core_Invoke : list event → string → list (string * string) → result (string * bool);
  (** [InvokeAdapter] on the native proxy: the response body, if any *)
  core_Fetch : list event → string → result (option bytes)
}.
