(* ===== verification/ControlInstances.v ===== *)
(** * Concrete instances of the control-surface interfaces

    As in [Instances]: small executable instances for the witnesses. *)

From Stdlib Require Import Init.Byte Strings.Byte Lia ZArith Ascii String.
From stdpp Require Import base option list fin_maps gmap sets strings.
From S2P Require Import Prelude GoStd External Instances ExternalControl.
Open Scope Z_scope.

#[export] Instance toy_hw : HWKeys := {|
  HWPublic := string;
  HWPublic_zero := EmptyString;
  HWPublic_IsZero s := bool_decide (s = EmptyString);
  HWPublic_UnmarshalText s := Ok s;
  rr_other := bytes;
  mr_other := string;
  mr_NodeKey s := s
|}.

(** A register request is a byte, which stands for its signature and certificate,
    and the rest; a map request is its node key, with a session. *)
#[export] Instance toy_tailcfg : TailcfgJSON := {|
  marshal_rr r := Ok (default [] (Signature r) ++ default [] (DeviceCert r) ++ rr_rest r);
  unmarshal_rr js := match js with
    | x :: rest => Ok (mkRegisterRequest (Some [x]) SignatureV2 (Some [x]) None rest)
    | [] => Err (ErrNew "json")
    end;
  marshal_mr r := Ok (to_bytes (MapSessionHandle r ++ mr_rest r)%string);
  unmarshal_mr js := Ok (mkMapRequest "k" (Some js) None "handle" 7 (of_bytes js));
  unmarshal_keyresp js := match js with
    | [a; b] => Ok (mkKeyResponse (toy_key a) (toy_key b))
    | _ => Err (ErrNew "json")
    end
|}.

#[export] Instance toy_signing : Signing := {|
  RSAPrivate := Byte.byte;
  ECDSAPrivate := Byte.byte;
  sha256 b := b;
  rsa_SignPSS _ k d := Ok (k :: d);
  rsa_VerifyPSS k d s := bool_decide (s = k :: d);
  ecdsa_SignASN1 _ k d := Ok (k :: d);
  ecdsa_VerifyASN1 k d s := bool_decide (s = k :: d);
  ecdsa_P256 k := bool_decide (k ≠ x00);
  ecdsa_ECDH k := Ok [k]
|}.

#[export] Instance toy_signing_laws : SigningLaws.
Proof. split; cbn; intros _ k d s [= <-]; by apply bool_decide_eq_true. Qed.

(** Every byte of a file is a block. *)
#[export] Instance toy_x509 : X509 := {|
  pem_Decode b := match b with x :: rest => Some ("CERTIFICATE"%string, [x], rest) | [] => None end;
  x509_PKCS1 b := match b with [x] => Ok x | _ => Err (ErrNew "pkcs1") end;
  x509_PKCS8 _ := Ok PKCS8_Other;
  x509_EC b := match b with [x] => Ok x | _ => Err (ErrNew "ec") end
|}.

#[export] Instance toy_x509_laws : X509Laws.
Proof. split. cbn. intros [|x b] t d rest [= <- <- <-]. cbn. lia. Qed.

(** An object is written as its values; only a few bodies parse. *)
#[export] Instance toy_http : HTTP := {|
  range_header _ h := h;
  http_NewRequest _ _ := None;
  h2_RoundTrip _ _ _ := Ok (mkHttpResponse 200 [("X-Reply"%string, ["1"%string])] 50%nat [([x7b; x7d], None)]);
  h2_Usable _ _ := true;
  http_StatusText _ := "OK"%string;
  http_ReadRequestLine _ := Ok ("GET"%string, "/key"%string);
  h2_Requests _ _ := [(mkHttpRequest "POST" "/machine/map" "/machine/map" "c.example" [("Host"%string, ["c.example"%string])]
                         [([x53], None)], 60%nat)];
  h2_NewClientConn _ c := Ok (S c)
|}.

#[export] Instance toy_http_laws : HTTPLaws.
Proof. by split. Qed.

#[export] Instance toy_core : Core := {|
  core_Invoke _ _ _ := Ok ("ok"%string, false);
  core_Fetch _ _ := Ok (Some [x01; x02])
|}.

#[export] Instance toy_slices : Slices := {|
  SliceSplit A f l := (List.filter f l, List.filter (λ x, negb (f x)) l)
|}.

#[export] Instance toy_slices_laws : SlicesLaws.
Proof. by split. Qed.

(** Handshakes that always succeed, on connections 30 and 40. *)
#[export] Instance toy_controlbase : ControlBase := {|
  HandshakeContinuation := unit;
  cb_Server _ _ _ init := Ok (mkNoiseConn 30%nat (toy_key x0c : @MachinePublic toy_machines) init []);
  cb_ClientDeferred _ _ _ _ := Ok ([x01], tt);
  cb_Continue _ _ _ b _ := Ok (mkNoiseConn 40%nat (toy_key x0d : @MachinePublic toy_machines) b []);
  key_NewMachine _ := (toy_key x0e : @MachinePrivate toy_machines);
  MachinePrivate_UnmarshalText s := Err (ErrNew "key")
|}.

#[export] Instance toy_capver : CapVersion := {| CurrentCapabilityVersion := 130 |}.

(** Objects with the one field [publicKey], written as its value; the empty body
    is null. *)
Definition toy_field : string := "publicKey".

#[export] Instance toy_objects : JSON := {|
  unmarshal_obj b := match b with [] => Ok None | _ => Ok (Some {[ toy_field := b ]}) end;
  marshal_obj m := match m !! toy_field with
    | Some (x :: v) => if bool_decide (m = {[ toy_field := x :: v ]}) then Ok (x :: v) else Err (ErrNew "json")
    | _ => Err (ErrNew "json")
    end;
  unmarshal_any b := match b with x22 :: r => Ok (JString (of_bytes r)) | _ => Ok JOther end;
  marshal_string s := Ok (x22 :: to_bytes s);
  json_compact b := b;
  probe_Stream b := Ok (bool_decide (b = [x53]));
  probe_Version _ := Err (ErrNew "json");
  probe_frame b := match b with x66 :: r => Ok (of_bytes r) | _ => Err (ErrNew "json") end
|}.

#[export] Instance toy_objects_laws : JSONLaws.
Proof.
  refine {| json_key := λ _, True |}; try done.
  - intros m b _. cbn -[toy_field]. destruct (m !! toy_field) as [[|x v]|] eqn:E; try done.
    case_bool_decide as Em; [|done]. intros [= <-]. rewrite Em, map_fmap_singleton. done.
  - intros s b _ [= <-]. cbn. by rewrite of_to_bytes.
Defined.
