(* ===== verification/Bindings.v ===== *)
(** * Replay bindings: [sidescale/noise/bindings/bindings.go] and the key
    material of [noise/bindingkeys.go]

    A replayed request carries signatures over data that the replay changes. They
    are computed again with configured keys, or stripped and reported. *)

From Stdlib Require Import Init.Byte Strings.Byte Lia ZArith Ascii String.
From stdpp Require Import base option list gmap sets strings.
From S2P Require Import Prelude GoStd External Instances Persist NoiseConfig ExternalControl ControlInstances.
Open Scope Z_scope.
Open Scope go_scope.

Definition AnnStrippedFields : string := "stripped_fields".
Definition AnnBinding : string := "binding".
Definition AnnReason : string := "reason".
Definition bindingRegisterSignature : string := "register_signature".
Definition bindingHardwareAttest : string := "hardware_attestation".
Definition reasonNoCert : string := "no_operator_cert_configured".
Definition reasonNoHWKey : string := "no_hardware_key_configured".

(** ** Times: [time.Time] in UTC *)

Definition second : Z := 10 ^ 9.

(** [t.Round(time.Second)] and [t.Truncate(time.Second)] *)
Definition time_Round (t : Z) : Z :=
  let r := t `mod` second in if r + r <? second then t - r else t + (second - r).
Definition time_Truncate (t : Z) : Z := t - t `mod` second.

(** The proleptic Gregorian date of a day count from the Unix epoch. *)
Definition civil (days : Z) : Z * Z * Z :=
  let z := days + 719468 in
  let era := z `div` 146097 in
  let doe := z `mod` 146097 in
  let yoe := (doe - doe `div` 1460 + doe `div` 36524 - doe `div` 146096) `div` 365 in
  let doy := doe - (365 * yoe + yoe `div` 4 - yoe `div` 100) in
  let mp := (5 * doy + 2) `div` 153 in
  let m := if mp <? 10 then mp + 3 else mp - 9 in
  (yoe + era * 400 + (if m <=? 2 then 1 else 0), m, doy - (153 * mp + 2) `div` 5 + 1).

Fixpoint zeros (n : nat) : string := match n with O => "" | S n => String "0" (zeros n) end.

(** [appendInt(b, x, width)] *)
Definition pad (width : nat) (x : Z) : string :=
  let d := FormatUint (Z.abs x) in
  ((if (x <? 0)%Z then "-" else "") ++ zeros (width - String.length d) ++ d)%string.

(** [t.UTC().Format(time.RFC3339)] *)
Definition RFC3339 (t : Z) : string :=
  let s := t `div` second in
  let '(y, m, d) := civil (s `div` 86400) in
  let r := s `mod` 86400 in
  (pad 4 y ++ "-" ++ pad 2 m ++ "-" ++ pad 2 d ++ "T" ++ pad 2 (r `div` 3600) ++ ":" ++
   pad 2 (r `mod` 3600 `div` 60) ++ ":" ++ pad 2 (r `mod` 60) ++ "Z")%string.

(** ** Signatures *)

Definition ann_strip (binding : string) (fields : list string) (reason : string)
    : list (string * wire.any) :=
  [(AnnBinding, wire.AnyString binding); (AnnStrippedFields, wire.AnyStrings fields);
   (AnnReason, wire.AnyString reason)].

(** [Result]; no annotations stand for a nil map. *)
Record Result := mkResult { r_Body : bytes; r_Annotations : list (string * wire.any) }.

Definition marshalResult (out : result bytes) : result Result :=
  match out with
  | Err e => Err (ErrWrap "bindings: marshal: %w" [] e)
  | Ok b => Ok (mkResult b [])
  end.

Definition marshalStripped (out : result bytes) (binding : string) (fields : list string)
    (reason : string) : result Result :=
  match out with
  | Err e => Err (ErrWrap "bindings: marshal: %w" [] e)
  | Ok b => Ok (mkResult b (if (length fields =? 0)%nat then [] else ann_strip binding fields reason))
  end.

Section bindings.
Context `{HWKeys} `{MachineKeys} `{!TailcfgJSON} `{Signing} `{Env}.

(** [Key] nil is the absence of a signer, as for a nil [RegisterSigner]. *)
Record RegisterSigner := mkRegisterSigner { Key : option RSAPrivate; CertChain : list bytes }.

Definition hashRegisterV2 (ts : Z) (serverURL : string) (deviceCert : bytes)
    (serverLegacyPub machinePub : MachinePublic) : bytes :=
  sha256 (to_bytes (RFC3339 ts ++ serverURL)%string ++ deviceCert ++
          to_bytes (MachinePublic_String serverLegacyPub ++ MachinePublic_String machinePub)%string).

(** [slices.Concat] of nothing is nil. *)
Definition slices_Concat (l : list bytes) : option bytes :=
  match concat l with [] => None | b => Some b end.

Definition signer_key (s : option RegisterSigner) : option (RSAPrivate * list bytes) :=
  match s with
  | Some (mkRegisterSigner (Some k) chain) => Some (k, chain)
  | _ => None
  end.

Definition SignPSS (k : RSAPrivate) (digest : bytes) : eff (result bytes) := λ tr, (rsa_SignPSS tr k digest, tr).
Definition SignASN1 (k : ECDSAPrivate) (digest : bytes) : eff (result bytes) :=
  λ tr, (ecdsa_SignASN1 tr k digest, tr).

(** The fields present in the request, in the order they are reported. *)
Definition register_stripped (req : RegisterRequest) : list string :=
  (match Signature req with Some _ => ["Signature"%string] | None => [] end ++
   (if negb (SignatureType req =? SignatureNone)%Z then ["SignatureType"%string] else []) ++
   match DeviceCert req with Some _ => ["DeviceCert"%string] | None => [] end).

Definition ResignRegisterRequest (body : bytes) (now : Z) (serverURL : string)
    (serverLegacyPub machinePub : MachinePublic) (signer : option RegisterSigner) : eff (result Result) :=
  match unmarshal_rr body with
  | Err e => mret (Err (ErrWrap "bindings: register unmarshal: %w" [] e))
  | Ok req =>
      match signer_key signer with
      | None =>
          mret (marshalStripped (marshal_rr (mkRegisterRequest None SignatureNone None (Timestamp req) (rr_rest req)))
            bindingRegisterSignature (register_stripped req) reasonNoCert)
      | Some (k, chain) =>
          let cert := concat chain in
          let ts := match Timestamp req with Some ts => ts | None => time_Round now end in
          let digest := hashRegisterV2 ts serverURL cert serverLegacyPub machinePub in
          sig ← SignPSS k digest;
          mret (match sig with
                | Err e => Err (ErrWrap "bindings: register sign: %w" [] e)
                | Ok sig => marshalResult (marshal_rr
                    (mkRegisterRequest (Some sig) SignatureV2 (slices_Concat chain) (Some ts) (rr_rest req)))
                end)
      end
  end.

Definition hardwareAttestationPublic (k : ECDSAPrivate) : result HWPublic :=
  if negb (ecdsa_P256 k) then Err (ErrNew "bindings: hardware attestation key must be P-256")
  else match ecdsa_ECDH k with
  | Err e => Err (ErrWrap "bindings: hardware attestation key: %w" [] e)
  | Ok pub =>
      match HWPublic_UnmarshalText ("hwattestpub:" ++ hex_EncodeToString pub)%string with
      | Err e => Err (ErrWrap "bindings: hardware attestation public: %w" [] e)
      | Ok p => Ok p
      end
  end.

Definition map_stripped (req : MapRequest) : list string :=
  (match HardwareAttestationKeySignature req with Some _ => ["HardwareAttestationKeySignature"%string] | None => [] end ++
   match HardwareAttestationKeySignatureTimestamp req with
   | Some _ => ["HardwareAttestationKeySignatureTimestamp"%string] | None => [] end ++
   (if negb (HWPublic_IsZero (HardwareAttestationKey req)) then ["HardwareAttestationKey"%string] else [])).

Definition set_attestation (k : HWPublic) (sig : option bytes) (ts : option Z) (req : MapRequest) : MapRequest :=
  mkMapRequest k sig ts (MapSessionHandle req) (MapSessionSeq req) (mr_rest req).

(** The message the attestation key signs. *)
Definition attestation_digest (ts : Z) (req : MapRequest) : bytes :=
  sha256 (to_bytes (Itoa (ts `div` second) ++ "|" ++ mr_NodeKey (mr_rest req))%string).

Definition ResignHardwareAttestation (body : bytes) (now : Z) (hwKey : option ECDSAPrivate)
    : eff (result Result) :=
  match unmarshal_mr body with
  | Err e => mret (Err (ErrWrap "bindings: map unmarshal: %w" [] e))
  | Ok req =>
      match hwKey with
      | None =>
          mret (marshalStripped (marshal_mr (set_attestation HWPublic_zero None None req))
            bindingHardwareAttest (map_stripped req) reasonNoHWKey)
      | Some k =>
          match hardwareAttestationPublic k with
          | Err e => mret (Err e)
          | Ok pub =>
              let ts := time_Truncate now in
              sig ← SignASN1 k (attestation_digest ts req);
              mret (match sig with
                    | Err e => Err (ErrWrap "bindings: hardware attestation sign: %w" [] e)
                    | Ok sig => marshalResult (marshal_mr (set_attestation pub (Some sig) (Some ts) req))
                    end)
          end
      end
  end.

Definition ResetMapSession (body : bytes) : result Result :=
  match unmarshal_mr body with
  | Err e => Err (ErrWrap "bindings: map unmarshal: %w" [] e)
  | Ok req => marshalResult (marshal_mr (mkMapRequest (HardwareAttestationKey req)
      (HardwareAttestationKeySignature req) (HardwareAttestationKeySignatureTimestamp req) "" 0 (mr_rest req)))
  end.
End bindings.
Arguments RegisterSigner {_}.

(** ** Key material: [LoadBindingKeys] *)

Section bindingkeys.
Context `{Signing} `{!X509} `{OS}.

Definition parseRSAPrivateKey (pemData : bytes) : result RSAPrivate :=
  match pem_Decode pemData with
  | None => Err (ErrNew "sidescale: device key: no PEM block")
  | Some (_, block, _) =>
      match x509_PKCS1 block with
      | Ok k => Ok k
      | Err _ =>
          match x509_PKCS8 block with
          | Err e => Err (ErrWrap "sidescale: parse device key: %w" [] e)
          | Ok (PKCS8_RSA k) => Ok k
          | Ok _ => Err (ErrNew "sidescale: device key is not RSA")
          end
      end
  end.

Definition parseECPrivateKey (pemData : bytes) : result ECDSAPrivate :=
  match pem_Decode pemData with
  | None => Err (ErrNew "sidescale: hw key: no PEM block")
  | Some (_, block, _) =>
      k ← (match x509_EC block with
           | Ok k => Ok k
           | Err _ =>
               match x509_PKCS8 block with
               | Err e => Err (ErrWrap "sidescale: parse hw key: %w" [] e)
               | Ok (PKCS8_ECDSA k) => Ok k
               | Ok _ => Err (ErrNew "sidescale: hw key is not ECDSA")
               end
           end);
      if negb (ecdsa_P256 k) then Err (ErrNew "sidescale: hw key must be P-256") else Ok k
  end.

(** The loop of [parseCertChain]; [None] is running out of fuel. *)
Fixpoint certs (fuel : nat) (rest : bytes) : option (list bytes) :=
  match fuel with
  | O => None
  | S fuel =>
      match pem_Decode rest with
      | None => Some []
      | Some (t, block, rest) =>
          match certs fuel rest with
          | None => None
          | Some l => Some (if bool_decide (t = "CERTIFICATE"%string) then block :: l else l)
          end
      end
  end.

Definition parseCertChain (pemData : bytes) : option (result (list bytes)) :=
  match certs (S (length pemData)) pemData with
  | None => None
  | Some [] => Some (Err (ErrNew "sidescale: device cert: no certificates in PEM"))
  | Some chain => Some (Ok chain)
  end.

(** The device identity: the first block of [LoadBindingKeys]. *)
Definition loadSigner (c : ControlConfig) : fsM (result (option RegisterSigner)) :=
  if negb (bool_decide (DeviceCertPath c = EmptyString)) &&
     negb (bool_decide (DeviceKeyPath c = EmptyString)) then
    keyPEM ← ReadFile (DeviceKeyPath c);
    match keyPEM with
    | Err e => mret (Err (ErrWrap "sidescale: read device key: %w" [] e))
    | Ok keyPEM =>
        match parseRSAPrivateKey keyPEM with
        | Err e => mret (Err e)
        | Ok rsaKey =>
            certPEM ← ReadFile (DeviceCertPath c);
            mret (match certPEM with
                  | Err e => Err (ErrWrap "sidescale: read device cert: %w" [] e)
                  | Ok certPEM =>
                      match default (Err (ErrNew "fuel")) (parseCertChain certPEM) with
                      | Err e => Err e
                      | Ok chain => Ok (Some (mkRegisterSigner (Some rsaKey) chain))
                      end
                  end)
        end
    end
  else mret (Ok None).

Definition loadHWKey (c : ControlConfig) : fsM (result (option ECDSAPrivate)) :=
  if negb (bool_decide (HWKeyPath c = EmptyString)) then
    keyPEM ← ReadFile (HWKeyPath c);
    mret (match keyPEM with
          | Err e => Err (ErrWrap "sidescale: read hw key: %w" [] e)
          | Ok keyPEM =>
              match parseECPrivateKey keyPEM with
              | Err e => Err e
              | Ok k => Ok (Some k)
              end
          end)
  else mret (Ok None).

Definition LoadBindingKeys (c : ControlConfig)
    : fsM (result (option RegisterSigner * option ECDSAPrivate)) :=
  signer ← loadSigner c;
  match signer with
  | Err e => mret (Err e)
  | Ok signer =>
      hw ← loadHWKey c;
      mret (match hw with Err e => Err e | Ok hw => Ok (signer, hw) end)
  end.
End bindingkeys.

Example RFC3339_epoch : RFC3339 0 = "1970-01-01T00:00:00Z"%string.
Proof. reflexivity. Qed.
Example RFC3339_leap : RFC3339 (1709210096 * 10 ^ 9 + 5) = "2024-02-29T12:34:56Z"%string.
Proof. reflexivity. Qed.

(** ** Lemmas *)

Lemma time_Round_spec t :
  time_Round t `mod` second = 0 ∧ 2 * Z.abs (time_Round t - t) ≤ second.
Proof.
  unfold time_Round. pose proof (Z.mod_pos_bound t second) as Hb. unfold second in *.
  destruct (Z.ltb_spec (t `mod` 10 ^ 9 + t `mod` 10 ^ 9) (10 ^ 9)); split; try lia;
    Z.to_euclidean_division_equations; lia.
Qed.

Lemma time_Truncate_spec t : time_Truncate t `mod` second = 0 ∧ 0 ≤ t - time_Truncate t < second.
Proof.
  unfold time_Truncate, second. split; Z.to_euclidean_division_equations; lia.
Qed.

Lemma slices_Concat_bytes l : default [] (slices_Concat l) = concat l.
Proof. unfold slices_Concat. by destruct (concat l). Qed.

Lemma register_stripped_nil `{HWKeys} req :
  register_stripped req = [] ↔
  Signature req = None ∧ SignatureType req = SignatureNone ∧ DeviceCert req = None.
Proof.
  unfold register_stripped. destruct (Signature req), (DeviceCert req), (Z.eqb_spec (SignatureType req) SignatureNone);
    cbn; naive_solver.
Qed.

Lemma marshalResult_inv out res :
  marshalResult out = Ok res → ∃ js, out = Ok js ∧ res = mkResult js [].
Proof. destruct out; [|done]. cbn. intros [= <-]. by eexists. Qed.

Lemma marshalStripped_inv out binding fields reason res :
  marshalStripped out binding fields reason = Ok res →
  ∃ js, out = Ok js ∧ r_Body res = js ∧
    r_Annotations res = if (length fields =? 0)%nat then [] else ann_strip binding fields reason.
Proof. destruct out; [|done]. cbn. intros [= <-]. by eexists. Qed.

Section props.
Context `{HWKeys} `{MachineKeys} `{!TailcfgJSON} `{SigningLaws}.

(** The messages that are signed, as the server puts them together: the fields
    one after the other, and the seconds and the node key around a bar. *)
Definition register_message (ts : Z) (serverURL : string) (deviceCert : bytes) (legacy machine : MachinePublic) : bytes :=
  to_bytes (RFC3339 ts) ++ to_bytes serverURL ++ deviceCert ++
  to_bytes (MachinePublic_String legacy) ++ to_bytes (MachinePublic_String machine).

Definition attestation_message (ts : Z) (req : MapRequest) : bytes :=
  to_bytes (Itoa (ts `div` second)) ++ to_bytes "|" ++ to_bytes (mr_NodeKey (mr_rest req)).

Lemma to_bytes_app (s t : string) : to_bytes (s ++ t)%string = to_bytes s ++ to_bytes t.
Proof.
  unfold String.list_byte_of_string. rewrite <-map_app. f_equal.
  induction s as [|a s IH]; [done|]. change (a :: String.list_ascii_of_string (s ++ t)%string = a :: (String.list_ascii_of_string s ++ String.list_ascii_of_string t)).
  by rewrite IH.
Qed.

Lemma hashRegisterV2_message ts url cert legacy machine :
  hashRegisterV2 ts url cert legacy machine = sha256 (register_message ts url cert legacy machine).
Proof. unfold hashRegisterV2, register_message. by rewrite !to_bytes_app, <-!app_assoc. Qed.

Lemma attestation_digest_message ts req : attestation_digest ts req = sha256 (attestation_message ts req).
Proof. unfold attestation_digest, attestation_message. by rewrite !to_bytes_app. Qed.

(** The server's check of a register request under the operator's certificate. *)
Definition register_verifies (k : RSAPrivate) (serverURL : string) (legacy machine : MachinePublic)
    (req : RegisterRequest) : Prop :=
  match Signature req, Timestamp req with
  | Some sig, Some ts =>
      rsa_VerifyPSS k (sha256 (register_message ts serverURL (default [] (DeviceCert req)) legacy machine)) sig = true
  | _, _ => False
  end.

(** The server's check of an attestation. *)
Definition attestation_verifies (k : ECDSAPrivate) (req : MapRequest) : Prop :=
  hardwareAttestationPublic k = Ok (HardwareAttestationKey req) ∧
  match HardwareAttestationKeySignature req, HardwareAttestationKeySignatureTimestamp req with
  | Some sig, Some ts => ts `mod` second = 0 ∧ ecdsa_VerifyASN1 k (sha256 (attestation_message ts req)) sig = true
  | _, _ => False
  end.

Lemma resign_register_inv body now url legacy machine k chain tr res :
  fst (ResignRegisterRequest body now url legacy machine (Some (mkRegisterSigner (Some k) chain)) tr) = Ok res →
  ∃ req req', unmarshal_rr body = Ok req ∧ marshal_rr req' = Ok (r_Body res) ∧ r_Annotations res = [] ∧
    rr_rest req' = rr_rest req ∧ SignatureType req' = SignatureV2 ∧ DeviceCert req' = slices_Concat chain ∧
    Timestamp req' = Some (default (time_Round now) (Timestamp req)) ∧
    register_verifies k url legacy machine req'.
Proof.
  unfold ResignRegisterRequest. destruct (unmarshal_rr body) as [req|]; [|done]. cbn [signer_key].
  unfold mbind, eff_bind, SignPSS.
  destruct (rsa_SignPSS tr k _) as [sig|] eqn:Es; [|done]. cbn [fst mret eff_ret].
  intros (js & Hjs & ->)%marshalResult_inv. eexists req, _. split_and!; [done|exact Hjs|done..| |].
  - cbn. by destruct (Timestamp req).
  - unfold register_verifies. cbn -[register_message]. rewrite <-hashRegisterV2_message, slices_Concat_bytes. by eapply rsa_sign_verify.
Qed.

Lemma resign_attestation_inv body now k tr res :
  fst (ResignHardwareAttestation body now (Some k) tr) = Ok res →
  ∃ req req', unmarshal_mr body = Ok req ∧ marshal_mr req' = Ok (r_Body res) ∧ r_Annotations res = [] ∧
    mr_rest req' = mr_rest req ∧ MapSessionHandle req' = MapSessionHandle req ∧
    MapSessionSeq req' = MapSessionSeq req ∧ attestation_verifies k req'.
Proof.
  unfold ResignHardwareAttestation. destruct (unmarshal_mr body) as [req|]; [|done].
  destruct (hardwareAttestationPublic k) as [pub|] eqn:Ep; [|done].
  unfold mbind, eff_bind, SignASN1. destruct (ecdsa_SignASN1 tr k _) as [sig|] eqn:Es; [|done].
  cbn [fst mret eff_ret]. intros (js & Hjs & ->)%marshalResult_inv.
  eexists req, _. split_and!; [done|exact Hjs|done..|]. split; [done|].
  cbn -[attestation_message]. split.
  - apply time_Truncate_spec.
  - rewrite <-attestation_digest_message. by eapply ecdsa_sign_verify.
Qed.
End props.

(** ** Certificates and loaded keys *)

Lemma certs_total `{X509Laws} fuel b : (length b < fuel)%nat → is_Some (certs fuel b).
Proof.
  revert b. induction fuel as [|fuel IH]; intros b Hb; [lia|]. cbn [certs].
  destruct (pem_Decode b) as [[[t d] rest]|] eqn:Ep; [|by eexists].
  apply pem_Decode_shorter in Ep. destruct (IH rest) as [l ->]; [lia|]. by eexists.
Qed.

Lemma parseCertChain_total `{X509Laws} b : is_Some (parseCertChain b).
Proof.
  unfold parseCertChain. destruct (certs_total (S (length b)) b) as [l ->]; [lia|].
  destruct l; by eexists.
Qed.

Lemma parseEC_P256 `{X509} b k : parseECPrivateKey b = Ok k → ecdsa_P256 k = true.
Proof.
  unfold parseECPrivateKey, mbind, result_bind. destruct (pem_Decode b) as [[[t d] rest]|]; [|done].
  destruct (x509_EC d) as [k'|].
  - destruct (ecdsa_P256 k') eqn:E; [|done]. by intros [= <-].
  - destruct (x509_PKCS8 d) as [[| |]|]; try done.
    destruct (ecdsa_P256 _) eqn:E; [|done]. by intros [= <-].
Qed.

Lemma loadSigner_key `{X509} `{OS} c fs signer fs' :
  loadSigner c fs = (Ok signer, fs') →
  (is_Some (signer_key signer) ↔ DeviceCertPath c ≠ EmptyString ∧ DeviceKeyPath c ≠ EmptyString).
Proof.
  unfold loadSigner. destruct (bool_decide_reflect (DeviceCertPath c = EmptyString)) as [E1|E1]; cbn [negb andb].
  { intros [= <- _]. cbn. split; [by intros []|by intros []]. }
  destruct (bool_decide_reflect (DeviceKeyPath c = EmptyString)) as [E2|E2]; cbn [negb andb].
  { intros [= <- _]. cbn. split; [by intros []|by intros []]. }
  unfold mbind, fs_bind. destruct (ReadFile _ fs) as [[kp|] fs1]; [|done].
  destruct (parseRSAPrivateKey kp) as [k|]; [|done].
  destruct (ReadFile _ fs1) as [[cp|] fs2]; [|done]. cbn.
  destruct (default _ (parseCertChain cp)) as [chain|]; [|done]. intros [= <- _]. cbn. by split.
Qed.

Lemma loadHWKey_key `{X509} `{OS} c fs hw fs' :
  loadHWKey c fs = (Ok hw, fs') →
  (is_Some hw ↔ HWKeyPath c ≠ EmptyString) ∧ (∀ k, hw = Some k → ecdsa_P256 k = true).
Proof.
  unfold loadHWKey. destruct (bool_decide_reflect (HWKeyPath c = EmptyString)) as [E|E]; cbn [negb].
  { intros [= <- _]. split; [split; [by intros []|done]|done]. }
  unfold mbind, fs_bind. destruct (ReadFile _ fs) as [[kp|] fs1]; [|done]. cbn.
  destruct (parseECPrivateKey kp) as [k|] eqn:Ek; [|done]. intros [= <- _]. split; [done|].
  intros k' [= <-]. by eapply parseEC_P256.
Qed.

(** ** Properties *)

(** C7: Re-signed requests verify. A register request that is signed again keeps
    every field but the signature, its type, the certificate and an absent
    timestamp, and the server's own check of it succeeds: the signature is over
    the timestamp the body carries, the server URL, the certificate chain in the
    body and the two machine keys. A map request whose attestation is signed again
    keeps its other fields, carries the public half of the signing key and a
    whole-second timestamp, and its signature is over that timestamp and its node
    key. Neither reports a stripped field. *)
Theorem resigned_requests_verify `{HWKeys} `{MachineKeys} `{!TailcfgJSON} `{SigningLaws} :
  (∀ body now url legacy machine k chain tr res,
     fst (ResignRegisterRequest body now url legacy machine (Some (mkRegisterSigner (Some k) chain)) tr) = Ok res →
     ∃ req req', unmarshal_rr body = Ok req ∧ marshal_rr req' = Ok (r_Body res) ∧ r_Annotations res = [] ∧
       rr_rest req' = rr_rest req ∧ SignatureType req' = SignatureV2 ∧ DeviceCert req' = slices_Concat chain ∧
       (∃ ts, Timestamp req' = Some ts ∧
          match Timestamp req with
          | Some t => ts = t
          | None => ts `mod` second = 0 ∧ 2 * Z.abs (ts - now) ≤ second
          end) ∧
       register_verifies k url legacy machine req') ∧
  (∀ body now k tr res,
     fst (ResignHardwareAttestation body now (Some k) tr) = Ok res →
     ∃ req req', unmarshal_mr body = Ok req ∧ marshal_mr req' = Ok (r_Body res) ∧ r_Annotations res = [] ∧
       mr_rest req' = mr_rest req ∧ MapSessionHandle req' = MapSessionHandle req ∧
       MapSessionSeq req' = MapSessionSeq req ∧ attestation_verifies k req').
Proof.
  split.
  - intros * (req & req' & Hu & Hm & Ha & Hr & Ht & Hd & Hts & Hv)%resign_register_inv.
    exists req, req'. split_and!; try done. eexists. split; [exact Hts|].
    destruct (Timestamp req); [done|]. apply time_Round_spec.
  - intros * Hr. by apply resign_attestation_inv in Hr.
Qed.

(** A machine key of the concrete instance. *)
Definition toy_mkey (b : Byte.byte) : @MachinePublic toy_machines := toy_key b.

Lemma resigned_requests_verify_witness :
  ∃ req', @register_verifies toy_hw toy_machines toy_signing x09 "https://c" (toy_mkey x03) (toy_mkey x04) req' ∧
    Timestamp req' = Some (2 * 10 ^ 9).
Proof.
  destruct (proj1 (@resigned_requests_verify toy_hw toy_machines toy_tailcfg toy_signing toy_signing_laws)
    [x7b; x7d] (1600 * 10 ^ 6) "https://c" (toy_mkey x03) (toy_mkey x04)
    x09 [[x01]; [x02]] [] (mkResult _ []) eq_refl) as (req & req' & Hu & Hm & _ & _ & _ & _ & (ts & Hts & Hround) & Hv).
  exists req'. split; [exact Hv|]. rewrite Hts. f_equal.
  injection Hu as <-. cbn in Hround. unfold second in Hround. destruct Hround as [H1 H2].
  Z.to_euclidean_division_equations. lia.
Defined.

(** Stripping is complete and reported. Without a signing key the emitted
    register request carries no signature, signature type or certificate (the map
    request no attestation), every other field is kept, and the annotation names
    exactly the fields that were present, with the binding and the reason; there
    is no annotation when nothing was removed. A session reset clears the handle
    and the sequence and nothing else. *)
Theorem stripped_requests_reported `{HWKeys} `{MachineKeys} `{!TailcfgJSON} `{Signing} :
  (∀ body now url legacy machine signer tr res req,
     signer_key signer = None → unmarshal_rr body = Ok req →
     fst (ResignRegisterRequest body now url legacy machine signer tr) = Ok res →
     marshal_rr (mkRegisterRequest None SignatureNone None (Timestamp req) (rr_rest req)) = Ok (r_Body res) ∧
     (r_Annotations res = [] ↔
        Signature req = None ∧ SignatureType req = SignatureNone ∧ DeviceCert req = None) ∧
     (r_Annotations res ≠ [] →
        r_Annotations res = ann_strip bindingRegisterSignature (register_stripped req) reasonNoCert)) ∧
  (∀ body now tr res req,
     unmarshal_mr body = Ok req → fst (ResignHardwareAttestation body now None tr) = Ok res →
     marshal_mr (mkMapRequest HWPublic_zero None None (MapSessionHandle req) (MapSessionSeq req) (mr_rest req))
       = Ok (r_Body res) ∧
     (r_Annotations res ≠ [] →
        r_Annotations res = ann_strip bindingHardwareAttest (map_stripped req) reasonNoHWKey) ∧
     (r_Annotations res = [] ↔ map_stripped req = [])) ∧
  (∀ body res req,
     unmarshal_mr body = Ok req → ResetMapSession body = Ok res →
     marshal_mr (mkMapRequest (HardwareAttestationKey req) (HardwareAttestationKeySignature req)
       (HardwareAttestationKeySignatureTimestamp req) "" 0 (mr_rest req)) = Ok (r_Body res)).
Proof.
  split_and!.
  - intros * Hk Hu. unfold ResignRegisterRequest. rewrite Hu, Hk. cbn [fst mret eff_ret].
    intros (js & Hjs & Hb & Ha)%marshalStripped_inv. rewrite <-register_stripped_nil, Ha. subst js.
    destruct (register_stripped req); by split_and!.
  - intros * Hu. unfold ResignHardwareAttestation. rewrite Hu. cbn [fst mret eff_ret].
    intros (js & Hjs & Hb & Ha)%marshalStripped_inv. rewrite Ha. subst js.
    destruct (map_stripped req); by split_and!.
  - intros * Hu. unfold ResetMapSession. rewrite Hu.
    by intros (js & Hjs & ->)%marshalResult_inv.
Qed.

Lemma stripped_requests_reported_witness :
  r_Annotations (mkResult [x7d] (ann_strip bindingRegisterSignature ["Signature"; "SignatureType"; "DeviceCert"]%string
    reasonNoCert)) ≠ [].
Proof.
  pose proof (proj1 (@stripped_requests_reported toy_hw toy_machines toy_tailcfg toy_signing)
    [x7b; x7d] 0 "https://c" (toy_mkey x03) (toy_mkey x04) None []
    _ _ eq_refl eq_refl eq_refl) as (_ & [Hn _] & _). cbn in Hn |- *. intros E. by destruct (Hn E).
Defined.

(** Loaded key material. Parsing a certificate chain terminates on every file;
    when the material loads, a configured device certificate gives a signer with a
    key, and an attestation key is on P-256, so that re-signing never refuses its
    curve; a path that is not configured gives no key. *)
Theorem LoadBindingKeys_spec `{X509Laws} `{OS} (c : ControlConfig) (fs : FS) :
  (∀ b, is_Some (parseCertChain b)) ∧
  (∀ signer hw, fst (LoadBindingKeys c fs) = Ok (signer, hw) →
     (is_Some (signer_key signer) ↔ DeviceCertPath c ≠ EmptyString ∧ DeviceKeyPath c ≠ EmptyString) ∧
     (is_Some hw ↔ HWKeyPath c ≠ EmptyString) ∧
     (∀ k, hw = Some k → ecdsa_P256 k = true)).
Proof.
  split; [apply parseCertChain_total|]. intros signer hw.
  unfold LoadBindingKeys, mbind, fs_bind. destruct (loadSigner c fs) as [[s|] fs1] eqn:Es; [|done].
  destruct (loadHWKey c fs1) as [[k|] fs2] eqn:Ek; [|done]. cbn. intros [= <- <-].
  split; [by eapply loadSigner_key|by eapply loadHWKey_key].
Qed.

Lemma LoadBindingKeys_spec_witness : is_Some (parseCertChain [x01; x02]).
Proof.
  pose (os := {| os_fault := λ _, None; os_partial := λ _, None; os_suffix := λ _, "x"%string |}).
  exact (proj1 (@LoadBindingKeys_spec _ _ toy_x509_laws os control_zero (mkFS ∅ 0)) [x01; x02]).
Defined.
