(* ===== verification/NoiseCapture.v ===== *)
(** * Capture of the inner HTTP/2 exchange: [sidescale/noise/capture.go]

    Each request of a client inside a Noise tunnel is recorded, passed through the
    operator's rules, forwarded upstream, and its response recorded and relayed.
    The forwarding itself is an argument ([forwardTunnel] of [noise/tunnel.go]). *)

From Stdlib Require Import Init.Byte Strings.Byte Lia ZArith Ascii String.
From stdpp Require Import base option list gmap sets strings.
From S2P Require Import Prelude GoStd External Instances Adapter ExternalControl ControlInstances TsProto MapStream.
Open Scope Z_scope.
Open Scope go_scope.

Abbreviation hdr := wire.mkHeader (only parsing).

Definition mapEndpoint : string := "/machine/map".
Definition controlProtocolTag : string := "tailscale.control".
Definition tunnelProtocolTag : string := "tailscale.tunnel".
Definition HdrMethod : string := ":method".
Definition HdrPath : string := ":path".
Definition HdrAuthority : string := ":authority".
Definition HdrScheme : string := ":scheme".
Definition HdrStatus : string := ":status".

(** ** [http.Header] *)

Definition is_upper (c : Z) : bool := (65 <=? c) && (c <=? 90).
Definition is_lower (c : Z) : bool := (97 <=? c) && (c <=? 122).

(** The token characters of RFC 7230. *)
Definition validHeaderFieldByte (a : ascii) : bool :=
  let c := char_Z a in
  is_upper c || is_lower c || ((48 <=? c) && (c <=? 57)) ||
  bool_decide (a ∈ String.list_ascii_of_string "!#$%&'*+-.^_`|~").

Fixpoint capitalize (upper : bool) (s : string) : string :=
  match s with
  | EmptyString => EmptyString
  | String a s =>
      let c := char_Z a in
      let c := if upper && is_lower c then c - 32 else if negb upper && is_upper c then c + 32 else c in
      String (byte_char c) (capitalize (c =? 45) s)
  end.

Definition CanonicalMIMEHeaderKey (s : string) : string :=
  if forallb validHeaderFieldByte (String.list_ascii_of_string s) then capitalize true s else s.

Fixpoint add_value (k v : string) (h : header) : header :=
  match h with
  | [] => [(k, [v])]
  | (k', vs) :: h => if bool_decide (k' = k) then (k', vs ++ [v]) :: h else (k', vs) :: add_value k v h
  end.

(** [hdr.Add(name, value)] *)
Definition header_Add (h : header) (x : wire.Header) : header :=
  add_value (CanonicalMIMEHeaderKey (wire.Name x)) (wire.Value x) h.

(** ** Headers *)

Definition isPseudoHeader (h : wire.Header) : bool := HasPrefix (wire.Name h) ":".

Definition hopHeaders : list string :=
  ["connection"; "keep-alive"; "proxy-connection"; "transfer-encoding"; "upgrade"; "content-length"; "host"]%string.

Definition isHopHeader (name : string) : bool := bool_decide (ToLower name ∈ hopHeaders).

Section capture.
Context `{HTTP} `{JSON} `{!Slices} `{Env}.

Definition flat_header (h : header) : list wire.Header :=
  concat (map (λ kv, map (hdr (fst kv)) (snd kv)) h).

Definition appendHTTPHeaders (out : list wire.Header) (h : header) : eff (list wire.Header) :=
  λ tr, (out ++ flat_header (range_header tr h), tr).

Definition requestHeaders (req : HttpRequest) : eff (list wire.Header) :=
  appendHTTPHeaders [hdr HdrMethod (rq_Method req); hdr HdrPath (rq_RequestURI req);
                     hdr HdrAuthority (rq_Host req); hdr HdrScheme "https"] (rq_Header req).

Definition responseHeaders (resp : HttpResponse) : eff (list wire.Header) :=
  appendHTTPHeaders [hdr HdrStatus (Itoa (rs_StatusCode resp))] (rs_Header resp).

Definition setResponseHeaders (resp : HttpResponse) (headers : list wire.Header) : HttpResponse :=
  mkHttpResponse (rs_StatusCode resp)
    (fold_left (λ h x, if isPseudoHeader x then h else header_Add h x) headers [])
    (rs_body resp) (rs_Body resp).

(** The loop of [buildUpstreamRequest]. *)
Definition upstream_header (acc : string * string * header) (h : wire.Header) : string * string * header :=
  let '(method, path, out) := acc in
  if bool_decide (wire.Name h = HdrMethod) then (wire.Value h, path, out)
  else if bool_decide (wire.Name h = HdrPath) then (method, wire.Value h, out)
  else if HasPrefix (wire.Name h) ":" then (method, path, out)
  else if isHopHeader (wire.Name h) then (method, path, out)
  else (method, path, header_Add out h).

Definition buildUpstreamRequest (controlHost : string) (headers : list wire.Header) (body : bytes)
    : result OutRequest :=
  let '(method, path, out) := fold_left upstream_header headers ("GET", "/", [])%string in
  let url := ("https://" ++ controlHost ++ path)%string in
  match http_NewRequest method url with
  | Some e => Err e
  | None => Ok (mkOutRequest (if bool_decide (method = EmptyString) then "GET" else method)%string url out body)
  end.

(** What the client is answered: a buffered body, or the map stream. *)
Inductive ClientResponse `{Reassembler} :=
  | Buffered (code : Z) (h : header) (body : bytes)
  | Streaming (code : Z) (h : header) (r : mapStreamReader).

Context `{Reassembler}.

Definition clientResponse (upstream : HttpResponse) (headers : list wire.Header) (body : bytes)
    : ClientResponse :=
  Buffered (rs_StatusCode upstream)
    (fold_left (λ out h, if HasPrefix (wire.Name h) ":" || isHopHeader (wire.Name h) then out
                         else header_Add out h) headers []) body.

Definition isStreamingMap (path : string) (body : bytes) : bool :=
  if negb (bool_decide (path = mapEndpoint)) then false
  else match probe_Stream body with Ok s => s | Err _ => false end.

Definition isStreamStatus (code : Z) : bool := (200 <=? code) && (code <? 300).

(** ** [captureRequest], [captureResponse] *)

Definition request_msg (req : HttpRequest) (headers : list wire.Header) (body : bytes) : wire.FlowMessage :=
  wire.mkFlowMessage (rq_Method req) (rq_Path req) "" 0 headers body None None.

Definition response_msg (code : Z) (headers : list wire.Header) (body : bytes) : wire.FlowMessage :=
  wire.mkFlowMessage "" "" "" code headers body None None.

Definition requestFlow (tunnelID : string) (now : Z) (m : wire.FlowMessage) : wire.Flow :=
  wire.mkFlow controlProtocolTag DirClientToServer tunnelID (Some m) None [] now (Some now).

Definition responseFlow (tunnelID : string) (now : Z) (m : wire.FlowMessage) : wire.Flow :=
  wire.mkFlow controlProtocolTag DirServerToClient tunnelID None (Some m) [] now (Some now).

(** The rules of a direction on a message: body and headers, or the same when
    none fires; pseudo-headers are kept out of their reach. *)
Definition apply_rules (body : bytes) (headers : list wire.Header) (bodyRule headerRule : wire.RuleType)
    : eff (bytes * list wire.Header) :=
  '(mutBody, firedBody) ← ApplyBody body bodyRule;
  let '(pseudo, regular) := SliceSplit isPseudoHeader headers in
  '(mutRegular, firedHdr) ← ApplyHeaders regular headerRule;
  mret (if (length (firedBody ++ firedHdr) =? 0)%nat then (body, headers)
        else (mutBody, mutRegular ++ pseudo)).

Definition captureRequest (tunnelID : string) (req : HttpRequest) (headers : list wire.Header) (body : bytes)
    : eff (result (bytes * list wire.Header)) :=
  '(body, headers) ← apply_rules body headers wire.RuleTypeRequestBody wire.RuleTypeRequestHeader;
  now ← Now;
  _ ←? PushFlow (requestFlow tunnelID now (request_msg req headers body));
  mret (Ok (body, headers)).

Definition captureResponse (tunnelID : string) (resp : HttpResponse) : eff (result ClientResponse) :=
  _ ← ConnClose (rs_body resp);
  match ReadAll (rs_Body resp) with
  | Err e => mret (Err e)
  | Ok body =>
      headers ← responseHeaders resp;
      '(body, headers) ← apply_rules body headers wire.RuleTypeResponseBody wire.RuleTypeResponseHeader;
      now ← Now;
      _ ←? PushFlow (responseFlow tunnelID now (response_msg (rs_StatusCode resp) headers body));
      mret (Ok (clientResponse resp headers body))
  end.

(** ** [captureInner] *)

(** [captureError]: the log line is its only effect. *)
Definition captureError {A} (stage : string) (r : result A) : eff (result A) :=
  match r with
  | Ok a => mret (Ok a)
  | Err e => _ ← Log "error" ("inner capture failed: " ++ stage)%string; mret (Err e)
  end.

(** The stream parent of a streaming map, and the reader under it. *)
Definition streamParent (tunnelID : string) (resp : HttpResponse) (headers : list wire.Header)
    : eff (result ClientResponse) :=
  now ← Now;
  r ← PushFlow (wire.mkFlow streamProtocolTag DirServerToClient tunnelID None
        (Some (response_msg (rs_StatusCode resp) headers [])) [] now None);
  match r with
  | Err e => _ ← ConnClose (rs_body resp); captureError "stream parent" (Err e)
  | Ok (parentID, _) =>
      mret (Ok (Streaming (rs_StatusCode resp) (rs_Header resp)
                  (newMapStreamReader (rs_body resp) (rs_Body resp) parentID)))
  end.

Definition captureStream (tunnelID : string) (resp : HttpResponse) : eff (result ClientResponse) :=
  headers ← responseHeaders resp;
  let '(pseudo, regular) := SliceSplit isPseudoHeader headers in
  '(mutRegular, fired) ← ApplyHeaders regular wire.RuleTypeResponseHeader;
  if (length fired =? 0)%nat then streamParent tunnelID resp (regular ++ pseudo)
  else streamParent tunnelID (setResponseHeaders resp mutRegular) (mutRegular ++ pseudo).

(** Up to the forward: the body and the request to send. *)
Definition captureOutgoing (controlHost tunnelID : string) (req : HttpRequest)
    : eff (result (bytes * OutRequest)) :=
  match ReadAll (rq_Body req) with
  | Err e => mret (Err e)
  | Ok reqBody =>
      headers ← requestHeaders req;
      r ← captureRequest tunnelID req headers reqBody;
      '(fwdBody, fwdHeaders) ←? captureError "capture request" r;
      outReq ←? captureError "build upstream request" (buildUpstreamRequest controlHost fwdHeaders fwdBody);
      mret (Ok (fwdBody, outReq))
  end.

(** From the outcome of the forward on. *)
Definition captureIncoming (tunnelID : string) (req : HttpRequest) (fwdBody : bytes)
    (r : result HttpResponse) : eff (result ClientResponse) :=
  resp ←? captureError "forward upstream" r;
  _ ← Log "info" "control request";
  if isStreamingMap (rq_Path req) fwdBody && isStreamStatus (rs_StatusCode resp)
  then captureStream tunnelID resp
  else
    out ← captureResponse tunnelID resp;
    captureError "capture response" out.

(** The seam with its forward as an argument. *)
Definition captureInner (forward : OutRequest → eff (result HttpResponse)) (controlHost tunnelID : string)
    (req : HttpRequest) : eff (result ClientResponse) :=
  '(fwdBody, outReq) ←? captureOutgoing controlHost tunnelID req;
  r ← forward outReq;
  captureIncoming tunnelID req fwdBody r.

(** [H2Bridge.Forward] *)
Definition Forward (bridge : connid) (req : OutRequest) : eff (result HttpResponse) :=
  λ tr, (h2_RoundTrip tr bridge req,
         tr ++ [EvForward bridge (or_Method req) (or_URL req) (or_Header req) (or_Body req)]).
End capture.
Arguments ClientResponse {_}.

(** ** Lemmas *)

Section lemmas.
Context `{HTTPLaws} `{JSON} `{SlicesLaws} `{Reassembler} `{Env}.

(** The regular headers that go upstream. *)
Definition keep (h : wire.Header) : bool := negb (HasPrefix (wire.Name h) ":") && negb (isHopHeader (wire.Name h)).

Lemma upstream_header_pseudo acc h :
  HasPrefix (wire.Name h) ":" = false →
  upstream_header acc h = (fst acc, if keep h then header_Add (snd acc) h else snd acc).
Proof.
  intros Hp. unfold upstream_header, keep. rewrite Hp. destruct acc as [[m p] out]. cbn [fst snd negb andb].
  rewrite bool_decide_false by (intros E; rewrite E in Hp; discriminate).
  rewrite bool_decide_false by (intros E; rewrite E in Hp; discriminate).
  by destruct (isHopHeader _).
Qed.

(** The header of the upstream request is the kept headers, added in order. *)
Lemma upstream_fold_header l acc :
  snd (fold_left upstream_header l acc) = fold_left header_Add (List.filter keep l) (snd acc).
Proof.
  revert acc. induction l as [|h l IH]; intros acc; [done|]. cbn [fold_left List.filter]. rewrite IH.
  unfold keep at 2, upstream_header. destruct acc as [[m p] out]. cbn [snd].
  case_bool_decide as E1.
  { rewrite E1. cbn [negb andb HasPrefix]. done. }
  case_bool_decide as E2.
  { rewrite E2. done. }
  destruct (HasPrefix (wire.Name h) ":"); [done|]. cbn [negb andb].
  by destruct (isHopHeader _).
Qed.

Lemma upstream_fold_regular l acc :
  Forall (λ h, isPseudoHeader h = false) l → fst (fold_left upstream_header l acc) = fst acc.
Proof.
  revert acc. induction l as [|h l IH]; intros acc Hl; [done|].
  apply Forall_cons in Hl as [Hh Hl]. cbn [fold_left]. rewrite IH by done.
  by rewrite upstream_header_pseudo.
Qed.

Definition pseudo4 (req : HttpRequest) : list wire.Header :=
  [hdr HdrMethod (rq_Method req); hdr HdrPath (rq_RequestURI req);
   hdr HdrAuthority (rq_Host req); hdr HdrScheme "https"].

Lemma upstream_fold_pseudo4 req acc :
  fst (fold_left upstream_header (pseudo4 req) acc) = (rq_Method req, rq_RequestURI req).
Proof. by destruct acc as [[m p] out]. Qed.

(** A header map as [net/http] builds it: no pseudo-header among its names. *)
Definition regular_header (h : header) : Prop := Forall (λ kv, HasPrefix (fst kv) ":" = false) h.

Lemma flat_header_regular h : regular_header h → Forall (λ x, isPseudoHeader x = false) (flat_header h).
Proof.
  unfold flat_header. induction 1 as [|[k vs] h Hk _ IH]; [done|]. cbn [map concat].
  apply Forall_app. split; [|done]. apply Forall_map. by apply Forall_true.
Qed.

Lemma regular_range tr h : regular_header h → regular_header (range_header tr h).
Proof. unfold regular_header. by rewrite range_header_perm. Qed.

Lemma filter_none {A} (f : A → bool) l : Forall (λ x, f x = false) l → List.filter f l = [].
Proof. induction 1 as [|x l Hx _ IH]; [done|]. cbn. by rewrite Hx. Qed.

Lemma apply_rules_spec body headers rb rh tr :
  ∃ body' headers', apply_rules body headers rb rh tr = ((body', headers'), tr) ∧
    (headers' = headers ∨ ∃ l, headers' = l ++ List.filter isPseudoHeader headers) ∧
    ((∀ tr b rt, snd (env_ApplyBody tr b rt) = []) → (∀ tr l rt, snd (env_ApplyHeaders tr l rt) = []) →
     body' = body ∧ headers' = headers).
Proof.
  unfold apply_rules, mbind, eff_bind, ApplyBody, ApplyHeaders. rewrite SliceSplit_spec.
  destruct (env_ApplyBody tr body rb) as [mb fb] eqn:Eb.
  destruct (env_ApplyHeaders tr _ rh) as [mh fh] eqn:Eh.
  destruct (length (fb ++ fh) =? 0)%nat eqn:El.
  - exists body, headers. split; [done|]. auto.
  - exists mb, (mh ++ List.filter isPseudoHeader headers). split; [done|]. split; [by right; eexists|].
    intros Hb Hh. specialize (Hb tr body rb). rewrite Eb in Hb. simpl in Hb. subst fb.
    specialize (Hh tr (List.filter (λ x, negb (isPseudoHeader x)) headers) rh). rewrite Eh in Hh. simpl in Hh. by subst.
Qed.

(** Whatever the header rules do, the request line that goes upstream is the
    client's. *)
Lemma upstream_request_line req tr headers' :
  regular_header (rq_Header req) →
  let headers := pseudo4 req ++ flat_header (range_header tr (rq_Header req)) in
  (headers' = headers ∨ ∃ l, headers' = l ++ List.filter isPseudoHeader headers) →
  ∀ acc, fst (fold_left upstream_header headers' acc) = (rq_Method req, rq_RequestURI req).
Proof.
  intros Hreg headers Hh acc.
  assert (Forall (λ x, isPseudoHeader x = false) (flat_header (range_header tr (rq_Header req)))) as Hr
    by by apply flat_header_regular, regular_range.
  destruct Hh as [->|[l ->]]; unfold headers.
  - by rewrite fold_left_app, upstream_fold_regular, upstream_fold_pseudo4.
  - rewrite List.filter_app, (filter_none _ _ Hr), app_nil_r, fold_left_app.
    apply upstream_fold_pseudo4.
Qed.

(** The request side: what is recorded is what is built. *)
Lemma captureRequest_spec tid req tr0 tr r tr' :
  let headers := pseudo4 req ++ flat_header (range_header tr0 (rq_Header req)) in
  ∀ body, captureRequest tid req headers body tr = (r, tr') →
  ∃ body' headers',
    tr' = tr ++ [EvPush (requestFlow tid (env_Now tr) (request_msg req headers' body'))] ∧
    (r = Ok (body', headers') ∨ ∃ e, r = Err e) ∧
    (headers' = headers ∨ ∃ l, headers' = l ++ List.filter isPseudoHeader headers) ∧
    ((∀ tr b rt, snd (env_ApplyBody tr b rt) = []) → (∀ tr l rt, snd (env_ApplyHeaders tr l rt) = []) →
     body' = body ∧ headers' = headers).
Proof.
  intros headers body. unfold captureRequest, mbind, eff_bind.
  destruct (apply_rules_spec body headers wire.RuleTypeRequestBody wire.RuleTypeRequestHeader tr)
    as (b' & h' & -> & Hh & Hn).
  unfold Now, ebind, mbind, eff_bind, PushFlow.
  destruct (env_PushFlow tr _) as [id|e]; intros [= <- <-]; exists b', h'; eauto 6.
Qed.

Definition no_rules : Prop :=
  (∀ tr b rt, snd (env_ApplyBody tr b rt) = []) ∧ (∀ tr l rt, snd (env_ApplyHeaders tr l rt) = []).

Lemma buildUpstreamRequest_spec host headers body out :
  buildUpstreamRequest host headers body = Ok out →
  or_Body out = body ∧ or_Header out = fold_left header_Add (List.filter keep headers) [] ∧
  or_URL out = ("https://" ++ host ++ snd (fst (fold_left upstream_header headers ("GET", "/", [])%string)))%string ∧
  or_Method out = (let m := fst (fst (fold_left upstream_header headers ("GET", "/", [])%string)) in
                   if bool_decide (m = EmptyString) then "GET" else m)%string.
Proof.
  unfold buildUpstreamRequest. pose proof (upstream_fold_header headers ("GET", "/", [])%string) as Hh.
  destruct (fold_left upstream_header headers _) as [[me p] o]. cbn [snd fst] in *.
  destruct (http_NewRequest _ _); [done|]. intros [= <-]. by rewrite <-Hh.
Qed.

(** What the client is answered is what was recorded. *)
Definition answer_recorded (tid : string) (resp : HttpResponse) (answer : ClientResponse)
    (tail : list event) : Prop :=
  match answer with
  | Buffered code h body =>
      ∃ now m, tail = [EvClose (rs_body resp); EvPush (responseFlow tid now m)] ∧
        wire.StatusCode m = rs_StatusCode resp ∧
        answer = clientResponse resp (wire.Headers m) (wire.Body m) ∧
        (no_rules → ∃ tr, Ok (wire.Body m) = ReadAll (rs_Body resp) ∧
           wire.Headers m = hdr HdrStatus (Itoa (rs_StatusCode resp)) :: flat_header (range_header tr (rs_Header resp)))
  | Streaming code h r =>
      ∃ now headers id, tail = [EvPush (wire.mkFlow streamProtocolTag DirServerToClient tid None
          (Some (response_msg (rs_StatusCode resp) headers [])) [] now None)] ∧
        code = rs_StatusCode resp ∧ r = newMapStreamReader (rs_body resp) (rs_Body resp) id ∧
        (no_rules → h = rs_Header resp)
  end.

Lemma captureResponse_spec tid resp tr r tr' :
  captureResponse tid resp tr = (r, tr') →
  ∃ l, tr' = tr ++ EvClose (rs_body resp) :: l ∧
    match r with Ok a => answer_recorded tid resp a (EvClose (rs_body resp) :: l) | Err _ => True end.
Proof.
  unfold captureResponse, ConnClose, emit, mbind, eff_bind.
  destruct (ReadAll (rs_Body resp)) as [body|e] eqn:Eb; [|intros [= <- <-]; by exists []].
  unfold responseHeaders, appendHTTPHeaders. set (tr1 := tr ++ [EvClose (rs_body resp)]).
  destruct (apply_rules_spec body ([hdr HdrStatus (Itoa (rs_StatusCode resp))] ++
      flat_header (range_header tr1 (rs_Header resp)))
      wire.RuleTypeResponseBody wire.RuleTypeResponseHeader tr1) as (b' & h' & -> & _ & Hn).
  unfold Now, ebind, mbind, eff_bind, PushFlow.
  destruct (env_PushFlow tr1 _) as [id|e]; intros [= <- <-].
  - eexists [_]. split; [unfold tr1; by rewrite <-app_assoc|]. cbn. eexists _, _. split; [reflexivity|].
    split; [done|]. split; [done|]. intros [Hb Hh]. exists tr1. destruct (Hn Hb Hh) as [-> ->]. by rewrite Eb.
  - eexists [_]. split; [unfold tr1; by rewrite <-app_assoc|done].
Qed.

Lemma streamParent_spec tid resp resp' headers tr r tr' :
  rs_body resp' = rs_body resp → rs_Body resp' = rs_Body resp →
  rs_StatusCode resp' = rs_StatusCode resp → (no_rules → rs_Header resp' = rs_Header resp) →
  streamParent tid resp' headers tr = (r, tr') →
  ∃ l, tr' = tr ++ l ∧
    match r with Ok a => answer_recorded tid resp a l | Err _ => EvClose (rs_body resp) ∈ l end.
Proof.
  intros E1 E2 E3 E4. unfold streamParent, mbind, eff_bind, Now, PushFlow.
  destruct (env_PushFlow tr _) as [[id ok]|e].
  - intros [= <- <-]. eexists [_]. split; [done|]. cbn. eexists _, _, _. rewrite E1, E2, E3. by split_and!.
  - unfold captureError, Log, ConnClose, emit, mbind, eff_bind. intros [= <- <-].
    rewrite <-!app_assoc. eexists. split; [reflexivity|]. rewrite E1. set_solver.
Qed.

Lemma captureStream_spec tid resp tr r tr' :
  captureStream tid resp tr = (r, tr') →
  ∃ l, tr' = tr ++ l ∧
    match r with Ok a => answer_recorded tid resp a l | Err _ => EvClose (rs_body resp) ∈ l end.
Proof.
  unfold captureStream, responseHeaders, appendHTTPHeaders, mbind, eff_bind. rewrite SliceSplit_spec.
  unfold ApplyHeaders. destruct (env_ApplyHeaders tr _ wire.RuleTypeResponseHeader) as [mh fh] eqn:Eh.
  destruct (length fh =? 0)%nat eqn:El; apply streamParent_spec; try done.
  intros [_ Hn]. assert (fh = []) as ->; [|done]. by rewrite <-(f_equal snd Eh : _ = fh), Hn.
Qed.

(** The whole exchange on a bridge: the request recorded and sent, the answer
    recorded and relayed. *)
Definition answered (c : connid) (host tid : string) (req : HttpRequest) (tr : list event)
    (answer : ClientResponse) (tr' : list event) : Prop :=
  ∃ body body' headers' out resp tail,
    ReadAll (rq_Body req) = Ok body ∧
    tr' = tr ++ [EvPush (requestFlow tid (env_Now tr) (request_msg req headers' body'));
                 EvForward c (or_Method out) (or_URL out) (or_Header out) (or_Body out);
                 EvLog "info" "control request"] ++ tail ∧
    or_Body out = body' ∧
    or_Header out = fold_left header_Add (List.filter keep headers') [] ∧
    (rq_Method req ≠ EmptyString → or_Method out = rq_Method req) ∧
    or_URL out = ("https://" ++ host ++ rq_RequestURI req)%string ∧
    h2_RoundTrip (tr ++ [EvPush (requestFlow tid (env_Now tr) (request_msg req headers' body'))]) c out = Ok resp ∧
    (isStreamingMap (rq_Path req) body' && isStreamStatus (rs_StatusCode resp) = true ↔
       match answer with Streaming _ _ _ => True | Buffered _ _ _ => False end) ∧
    answer_recorded tid resp answer tail ∧
    (no_rules → body' = body ∧ headers' = pseudo4 req ++ flat_header (range_header tr (rq_Header req))).

(** A failed exchange leaves no response of the upstream open. *)
Definition unanswered (c : connid) (tr tr' : list event) : Prop :=
  ∃ evs, tr' = tr ++ evs ∧
    ((∀ me u h b, EvForward c me u h b ∉ evs) ∨
     (∃ e out l, evs = [e; EvForward c (or_Method out) (or_URL out) (or_Header out) (or_Body out)] ++ l ∧
        match h2_RoundTrip (tr ++ [e]) c out with
        | Ok resp => EvClose (rs_body resp) ∈ l
        | Err _ => True
        end)).

(** What follows the response of the upstream. *)
Lemma after_forward tid stream resp tr r tr' :
  (if stream : bool then captureStream tid resp
   else (out ← captureResponse tid resp; captureError "capture response" out)) tr = (r, tr') →
  ∃ l, tr' = tr ++ l ∧
    match r with
    | Ok a => answer_recorded tid resp a l ∧
        (stream = true ↔ match a with Streaming _ _ _ => True | Buffered _ _ _ => False end)
    | Err _ => EvClose (rs_body resp) ∈ l
    end.
Proof.
  destruct stream.
  - intros Hs. pose proof Hs as (l & -> & Hr)%captureStream_spec. exists l. split; [done|].
    destruct r as [a|e]; [|done]. split; [done|].
    assert (match a with Streaming _ _ _ => True | Buffered _ _ _ => False end) as Ha; [|by split].
    revert Hs. unfold captureStream, streamParent, responseHeaders, appendHTTPHeaders, mbind, eff_bind, ApplyHeaders.
    destruct (SliceSplit _ _) as [ps rg]. destruct (env_ApplyHeaders _ _ _) as [mh fh].
    unfold Now, PushFlow, captureError, Log, ConnClose, emit, mbind, eff_bind.
    destruct (_ =? _)%nat; destruct (env_PushFlow _ _) as [[id ok]|]; intros [= <- _]; done.
  - unfold mbind, eff_bind. destruct (captureResponse tid resp tr) as [o tr1] eqn:Ec.
    pose proof Ec as (l & -> & Hr)%captureResponse_spec. destruct o as [a|e]; cbn.
    + intros [= <- <-]. eexists. split; [done|]. split; [done|].
      destruct a; [by split|]. revert Ec. unfold captureResponse, clientResponse, mbind, eff_bind, ConnClose, emit.
      destruct (ReadAll _); [|done]. unfold responseHeaders, appendHTTPHeaders.
      destruct (apply_rules _ _ _ _ _) as [[b' h'] tr2]. unfold Now, ebind, mbind, eff_bind, PushFlow.
      by destruct (env_PushFlow _ _).
    + unfold Log, emit, mbind, eff_bind. intros [= <- <-]. rewrite <-app_assoc. eexists. split; [done|]. set_solver.
Qed.

Lemma captureError_Ok {A B} stage (a : A) (k : A → eff (result B)) tr :
  ebind (captureError stage (Ok a)) k tr = k a tr.
Proof. done. Qed.

Lemma captureError_Err {A B} stage (e : error) (k : A → eff (result B)) tr :
  ebind (captureError stage (Err e)) k tr = (Err e, tr ++ [EvLog "error" ("inner capture failed: " ++ stage)%string]).
Proof. done. Qed.

(** The two halves of the seam. *)
Lemma captureOutgoing_spec host tid req tr r tr1 :
  regular_header (rq_Header req) → captureOutgoing host tid req tr = (r, tr1) →
  match r with
  | Ok (body', out) => ∃ body headers',
      ReadAll (rq_Body req) = Ok body ∧
      tr1 = tr ++ [EvPush (requestFlow tid (env_Now tr) (request_msg req headers' body'))] ∧
      or_Body out = body' ∧
      or_Header out = fold_left header_Add (List.filter keep headers') [] ∧
      (rq_Method req ≠ EmptyString → or_Method out = rq_Method req) ∧
      or_URL out = ("https://" ++ host ++ rq_RequestURI req)%string ∧
      (no_rules → body' = body ∧ headers' = pseudo4 req ++ flat_header (range_header tr (rq_Header req)))
  | Err _ => ∃ evs, tr1 = tr ++ evs ∧ ∀ c me u h b, EvForward c me u h b ∉ evs
  end.
Proof.
  intros Hreg. unfold captureOutgoing.
  destruct (ReadAll (rq_Body req)) as [body|e] eqn:Eb.
  2: { intros [= <- <-]. exists []. rewrite app_nil_r. split; [done|]. intros. apply not_elem_of_nil. }
  unfold mbind at 1, eff_bind at 1. unfold requestHeaders, appendHTTPHeaders.
  fold (pseudo4 req). unfold mbind at 1, eff_bind at 1.
  destruct (captureRequest tid req _ body tr) as [r1 tr2] eqn:Er.
  apply (captureRequest_spec tid req tr) in Er as (body' & headers' & -> & Hr1 & Hh & Hn).
  set (push := EvPush _). destruct Hr1 as [->|[e ->]].
  2: { rewrite captureError_Err. intros [= <- <-]. eexists. rewrite <-app_assoc. split; [reflexivity|]. set_solver. }
  rewrite captureError_Ok. destruct (buildUpstreamRequest host headers' body') as [out|e] eqn:Eo.
  2: { rewrite captureError_Err. intros [= <- <-]. rewrite <-app_assoc. eexists. split; [reflexivity|]. set_solver. }
  rewrite captureError_Ok. intros [= <- <-].
  destruct (buildUpstreamRequest_spec _ _ _ _ Eo) as (Hb & Hhd & Hu & Hm).
  pose proof (upstream_request_line req tr headers' Hreg Hh ("GET", "/", [])%string) as Hline.
  rewrite Hline in Hu, Hm. exists body, headers'. split_and!; try done.
  - intros Hne. rewrite Hm. cbn. by rewrite bool_decide_false.
  - by intros [? ?]; apply Hn.
Qed.

Lemma captureIncoming_spec tid req body' resp tr r tr' :
  captureIncoming tid req body' (Ok resp) tr = (r, tr') →
  ∃ l, tr' = tr ++ EvLog "info" "control request" :: l ∧
    match r with
    | Ok a => answer_recorded tid resp a l ∧
        (isStreamingMap (rq_Path req) body' && isStreamStatus (rs_StatusCode resp) = true ↔
         match a with Streaming _ _ _ => True | Buffered _ _ _ => False end)
    | Err _ => EvClose (rs_body resp) ∈ l
    end.
Proof.
  unfold captureIncoming. rewrite captureError_Ok. unfold mbind at 1, eff_bind at 1, Log, emit.
  intros Ht. pose proof (after_forward tid _ resp _ r tr' Ht) as (l & -> & Hr). rewrite <-!app_assoc.
  by exists l.
Qed.

Lemma captureInner_spec c host tid req tr r tr' :
  regular_header (rq_Header req) →
  captureInner (Forward c) host tid req tr = (r, tr') →
  match r with Ok a => answered c host tid req tr a tr' | Err _ => unanswered c tr tr' end.
Proof.
  intros Hreg. unfold captureInner, ebind at 1, mbind at 1, eff_bind at 1.
  destruct (captureOutgoing host tid req tr) as [o tr1] eqn:Eo. apply captureOutgoing_spec in Eo; [|done].
  destruct o as [[body' out]|e].
  2: { destruct Eo as (evs & -> & Hev). intros [= <- <-]. exists evs. split; [done|]. left. intros. apply Hev. }
  destruct Eo as (body & headers' & Hb & -> & Hbody & Hhd & Hm & Hu & Hn).
  unfold mbind at 1, eff_bind at 1, Forward at 1. set (push := EvPush _).
  destruct (h2_RoundTrip (tr ++ [push]) c out) as [resp|e] eqn:Ef.
  - intros (l & -> & Hr)%captureIncoming_spec. rewrite <-!app_assoc. destruct r as [a|e].
    + destruct Hr as [Ha Hst]. by exists body, body', headers', out, resp, l.
    + eexists. split; [reflexivity|]. right. exists push, out. eexists. split; [reflexivity|]. rewrite Ef.
      by apply elem_of_cons; right.
  - unfold captureIncoming. rewrite captureError_Err. intros [= <- <-]. rewrite <-!app_assoc. eexists. split; [reflexivity|].
    right. exists push, out. eexists. split; [reflexivity|]. by rewrite Ef.
Qed.
End lemmas.

(** ** Properties *)

(** C5: What is captured is what is sent. For every rule set, an inner exchange
    that is answered did exactly this: recorded one request flow under the tunnel,
    forwarded the request that is built from the body and headers of that very
    flow (hop-by-hop and pseudo-headers left out, the others added in order under
    their canonical names), recorded one response flow and answered the client
    from that very flow, or for a successful streaming map opened a stream parent
    and handed the body to the map reader. Whatever the header rules do, the
    request line is the client's, on the tunnel's control host. Without rules the
    recorded and forwarded messages are the client's and the server's own. An
    exchange that fails records no forward, or closes the body of the response it
    obtained. When a rule fires, the one flow recorded is the mutated one: the
    README promises a pair of a captured and a mutated flow. *)
Theorem inner_exchange `{HTTPLaws} `{JSON} `{SlicesLaws} `{Reassembler} `{Env}
    (c : connid) (host tid : string) (req : HttpRequest) (tr : list event) :
  regular_header (rq_Header req) →
  let '(r, tr') := captureInner (Forward c) host tid req tr in
  match r with Ok a => answered c host tid req tr a tr' | Err _ => unanswered c tr tr' end.
Proof.
  intros Hreg. destruct (captureInner _ _ _ _ tr) as [r tr'] eqn:E. by apply captureInner_spec in E.
Qed.

Definition toy_req : HttpRequest :=
  mkHttpRequest "POST" "/machine/map" "/machine/map" "control" [("Connection"%string, ["close"%string]); ("x-a"%string, ["1"%string])]
    [([x7b], None); ([x7d], Some io_EOF)].

Lemma inner_exchange_witness :
  ∃ a tr', @captureInner toy_http toy_objects toy_slices env_capture toy_reassembler (@Forward toy_http 9%nat)
      "control" "t1" toy_req [] = (Ok a, tr') ∧
    EvForward 9%nat "POST" "https://control/machine/map" [("X-A"%string, ["1"%string])] [x7b; x7d] ∈ tr' ∧
    @answered toy_http toy_objects toy_reassembler env_capture 9%nat "control" "t1" toy_req [] a tr'.
Proof.
  assert (regular_header (rq_Header toy_req)) as Hr by (repeat constructor).
  pose proof (@inner_exchange toy_http toy_http_laws toy_objects toy_slices toy_slices_laws toy_reassembler env_capture
    9%nat "control" "t1" toy_req [] Hr) as H.
  destruct (captureInner _ _ _ _ _) as [r tr'] eqn:E. vm_compute in E. injection E as <- <-.
  eexists _, _. split; [reflexivity|]. split; [|exact H]. right. left.
Defined.
