(* ===== verification/KeySub.v ===== *)
(** * The /key substitution: [sidescale/noise/keysub.go], with [upstreamDial] and
    [fetchKeyBody] of [noise/tunnel.go]

    One substituter per control host learns the server's real key and serves the
    sidecar's own instead, through a responder registered with sectool or in the
    byte path. The map of substituters is a list in configuration order with
    distinct hosts. *)

From Stdlib Require Import Init.Byte Strings.Byte Lia ZArith Ascii String.
From stdpp Require Import base option list gmap sets strings.
From S2P Require Import Prelude GoStd External Instances Adapter NoiseConfig ExternalControl ControlInstances.
Open Scope Z_scope.
Open Scope go_scope.

Section keysub.
Context `{MachineKeys} `{HWKeys} `{!TailcfgJSON} `{JSON} `{Addr} `{URLParse} `{Core} `{CapVersion} `{HTTP}.

Record keySubstituter := mkKeysub {
  ks_controlHost : string;
  responderID : string;
  fetched : bool;
  realKey : MachinePublic;
  legacyKey : MachinePublic;
  subBody : bytes
}.

Definition newKeySubstituter (host : string) : keySubstituter :=
  mkKeysub host "" false MachinePublic_zero MachinePublic_zero [].

(** [substitutePublicKey]; the outer [None] is a panic: assigning into the nil map
    that a JSON null decodes to. *)
Definition substitutePublicKey (raw : bytes) (pub : MachinePublic) : option (result bytes) :=
  match unmarshal_obj raw with
  | Err e => Some (Err e)
  | Ok obj =>
      match marshal_string (MachinePublic_String pub) with
      | Err e => Some (Err e)
      | Ok v =>
          match obj with
          | None => None
          | Some obj => Some (marshal_obj (<["publicKey"%string := v]> obj))
          end
      end
  end.

(** ** Fetching the real key *)

Definition upstreamDial (c : ControlConfig) (controlHost : string) : string * Z * string :=
  let scheme := if bool_decide (UpstreamScheme c = UpstreamSchemeHTTP) then UpstreamSchemeHTTP
                else UpstreamSchemeHTTPS in
  let t := ResolveUpstream controlHost (default EmptyString (UpstreamOverrides c !! controlHost))
             (ControlHosts c) scheme in
  (Host t, Port t, Scheme t).

Definition keyURL (scheme authority : string) (version : Z) : string :=
  (scheme ++ "://" ++ authority ++ "/key?v=" ++ Itoa version)%string.

Definition fetchKeyBody (scheme authority : string) (version : Z) : eff (result bytes) :=
  λ tr, (match core_Fetch tr (keyURL scheme authority version) with
         | Err e => Err e
         | Ok None => Err (ErrNew "no /key response")
         | Ok (Some b) => Ok b
         end, tr ++ [EvInvokeAdapter (keyURL scheme authority version)]).

(** What the fetched body makes of a substituter; [None] is the panic. *)
Definition learned (ks : keySubstituter) (responder : MachinePublic) (raw : bytes)
    : option (result keySubstituter) :=
  match unmarshal_keyresp raw with
  | Err e => Some (Err (ErrWrap "parse /key response: %w" [] e))
  | Ok resp =>
      if bool_decide (PublicKey resp = MachinePublic_zero) then
        Some (Err (ErrNew "/key response missing publicKey"))
      else match substitutePublicKey raw responder with
      | None => None
      | Some (Err e) => Some (Err e)
      | Some (Ok sub) =>
          Some (Ok (mkKeysub (ks_controlHost ks) (responderID ks) true (PublicKey resp) (LegacyPublicKey resp) sub))
      end
  end.

(** Stands for the panic, which [substitutePublicKey_spec] shows is never met: a
    response without an object has no key, and is refused before. *)
Definition ErrPanic : error := ErrNew "panic: assignment to entry in nil map".

Definition ensureFetched (c : ControlConfig) (responder : MachinePublic) (ks : keySubstituter)
    : eff (result keySubstituter) :=
  if fetched ks then mret (Ok ks)
  else
    let '(dialHost, dialPort, scheme) := upstreamDial c (ks_controlHost ks) in
    raw ←? fetchKeyBody scheme (JoinHostPort dialHost (Itoa dialPort)) (CurrentCapabilityVersion `mod` 2 ^ 16);
    mret (default (Err ErrPanic) (learned ks responder raw)).

(** The cached values, fetched first if need be, with the substituter as it is then. *)
Definition cached {A} (pick : keySubstituter → A) (c : ControlConfig) (responder : MachinePublic)
    (ks : keySubstituter) : eff (result (A * keySubstituter)) :=
  ks ←? ensureFetched c responder ks; mret (Ok (pick ks, ks)).

Definition realServerKey := cached realKey.
Definition realLegacyServerKey := cached legacyKey.
Definition substitutedBody := cached subBody.

(** ** The responder *)

Definition responderLabel (ks : keySubstituter) : string := ("sidescale-keysub-" ++ ks_controlHost ks)%string.

Definition CoreInvoke (tool : string) (args : list (string * string)) : eff (result (string * bool)) :=
  λ tr, (core_Invoke tr tool args, tr ++ [EvCoreInvoke tool args]).

Definition respond_add_args (ks : keySubstituter) (body : bytes) : list (string * string) :=
  [("host", ks_controlHost ks); ("path", "/key"); ("method", "GET"); ("status_code", "200");
   ("headers", "Content-Type: application/json"); ("body", of_bytes body); ("label", responderLabel ks)]%string.

(** Enabling the core tools is best effort. *)
Definition initWorkflow : eff unit :=
  w ← CoreInvoke "workflow" [("task", "cli")]%string;
  match w with Err _ => Log "debug" "keysub: workflow init skipped" | Ok _ => mret tt end.

Definition registerResponder (ks : keySubstituter) (body : bytes) : eff (result keySubstituter) :=
  _ ← initWorkflow;
  _ ← CoreInvoke "proxy_respond_delete" [("id", responderLabel ks)]%string;
  res ← CoreInvoke "proxy_respond_add" (respond_add_args ks body);
  mret (match res with
        | Err e => Err e
        | Ok (content, true) => Err (ErrNew content)
        | Ok (_, false) =>
            Ok (mkKeysub (ks_controlHost ks) (responderLabel ks) (fetched ks) (realKey ks) (legacyKey ks) (subBody ks))
        end).

(** [ks.close] *)
Definition ks_close (ks : keySubstituter) : eff unit :=
  if bool_decide (responderID ks = EmptyString) then mret tt
  else _ ← CoreInvoke "proxy_respond_delete" [("id", responderID ks)]%string; mret tt.

(** ** [setupKeySubstitution] *)

(** The first loop: every host is fetched before anything is registered. *)
Fixpoint fetchHosts (c : ControlConfig) (responder : MachinePublic) (hosts : list string)
    (subs : list keySubstituter) : eff (list keySubstituter * option error) :=
  match hosts with
  | [] => mret (subs, None)
  | ch :: hosts =>
      let host := fst (addr_Parse ch "https") in
      if bool_decide (host ∈ map ks_controlHost subs) then fetchHosts c responder hosts subs
      else
        r ← ensureFetched c responder (newKeySubstituter host);
        match r with
        | Err e => mret (subs, Some (ErrWrap "%s: %w" [host] e))
        | Ok ks => fetchHosts c responder hosts (subs ++ [ks])
        end
  end.

(** The second loop, over the fetched substituters; [done] are the ones before. *)
Fixpoint registerAll (c : ControlConfig) (responder : MachinePublic) (done todo : list keySubstituter)
    : eff (list keySubstituter * option error) :=
  match todo with
  | [] => mret (done, None)
  | ks :: todo =>
      b ← substitutedBody c responder ks;
      match b with
      | Err e => mret (done ++ ks :: todo, Some e)
      | Ok (body, ks) =>
          r ← registerResponder ks body;
          match r with
          | Err e => mret (done ++ ks :: todo, Some (ErrWrap "register /key responder: %w" [] e))
          | Ok ks => registerAll c responder (done ++ [ks]) todo
          end
      end
  end.

Definition setupKeySubstitution (c : ControlConfig) (responder : MachinePublic)
    : eff (list keySubstituter * option error) :=
  if negb (bool_decide (KeyStrategy c = KeyStrategySubstitute)) then mret ([], None)
  else
    '(subs, err) ← fetchHosts c responder (ControlHosts c) [];
    match err with
    | Some e => mret (subs, Some e)
    | None =>
        if bool_decide (KeySubstitution c = KeySubResponder) then registerAll c responder [] subs
        else mret (subs, None)
    end.

(** [Handler.Close]; [l] lists the map of substituters in the order in which the
    range over it comes by, which Go leaves open. *)
Fixpoint closeKeysubs (l : list keySubstituter) : eff unit :=
  match l with
  | [] => mret tt
  | ks :: l => _ ← ks_close ks; closeKeysubs l
  end.

(** ** Using a substituter *)

Definition keysubFor (subs : list keySubstituter) (host : string) : option keySubstituter :=
  let parsed := fst (addr_Parse host "https") in
  List.find (λ ks, bool_decide (ks_controlHost ks = parsed)) subs.

(** [writeHTTPResponse] *)
Definition http_response (status : Z) (contentType : string) (body : bytes) : bytes :=
  to_bytes ("HTTP/1.1 " ++ Itoa status ++ " " ++ http_StatusText status ++ CRLF ++
            "Content-Type: " ++ contentType ++ CRLF ++
            "Content-Length: " ++ Itoa (len body) ++ CRLF ++
            "Connection: close" ++ CRLF ++ CRLF)%string.

Context `{Env}.

Definition writeHTTPResponse (c : connid) (status : Z) (contentType : string) (body : bytes) : eff unit :=
  _ ← ConnWrite c (http_response status contentType body);
  _ ← ConnWrite c body; mret tt.

(** [serveKey]: [req] is the method and path read off the connection. *)
Definition serveKey (c : ControlConfig) (responder : MachinePublic) (ks : keySubstituter)
    (conn : connid) (req : result (string * string)) : eff keySubstituter :=
  deferred (ConnClose conn)
    (match req with
     | Err e => _ ← Log "error" "tunnel failed: read /key request"; mret ks
     | Ok (method, path) =>
         if negb (bool_decide (method = "GET"%string)) || negb (HasPrefix path "/key") then
           _ ← Log "warn" "keysub: unexpected request on control claim";
           _ ← writeHTTPResponse conn 421 "text/plain" (to_bytes "unsupported on control claim");
           mret ks
         else
           r ← substitutedBody c responder ks;
           match r with
           | Err e =>
               _ ← Log "error" "tunnel failed: substitute /key";
               _ ← writeHTTPResponse conn 502 "text/plain" (to_bytes "key fetch failed");
               mret ks
           | Ok (body, ks) => _ ← writeHTTPResponse conn 200 "application/json" body; mret ks
           end
     end).
End keysub.

(** ** Lemmas *)

Section lemmas.
Context `{MachineKeys} `{HWKeys} `{!TailcfgJSON} `{JSON} `{Addr} `{URLParse} `{Core} `{CapVersion}.

Definition is_fetch (e : event) : Prop := match e with EvInvokeAdapter _ => True | _ => False end.
Definition is_core (e : event) : Prop := match e with EvCoreInvoke _ _ | EvLog _ _ => True | _ => False end.

(** What a fetched substituter holds. *)
Definition learned_from (responder : MachinePublic) (ks : keySubstituter) : Prop :=
  fetched ks = true ∧ ∃ raw resp,
    unmarshal_keyresp raw = Ok resp ∧ PublicKey resp ≠ MachinePublic_zero ∧
    realKey ks = PublicKey resp ∧ legacyKey ks = LegacyPublicKey resp ∧
    substitutePublicKey raw responder = Some (Ok (subBody ks)).

Lemma learned_spec ks responder raw ks' :
  learned ks responder raw = Some (Ok ks') →
  learned_from responder ks' ∧ ks_controlHost ks' = ks_controlHost ks ∧ responderID ks' = responderID ks.
Proof.
  unfold learned. destruct (unmarshal_keyresp raw) as [resp|] eqn:Er; [|done].
  case_bool_decide as Hz; [done|].
  destruct (substitutePublicKey raw responder) as [[sub|]|] eqn:Es; try done. intros [= <-].
  split; [|done]. split; [done|]. by exists raw, resp.
Qed.

Lemma ensureFetched_spec c responder ks tr r tr' :
  fetched ks = false → ensureFetched c responder ks tr = (r, tr') →
  (∃ url, tr' = tr ++ [EvInvokeAdapter url]) ∧
  (∀ ks', r = Ok ks' → learned_from responder ks' ∧ ks_controlHost ks' = ks_controlHost ks ∧
     responderID ks' = responderID ks).
Proof.
  intros Hf. unfold ensureFetched. rewrite Hf. destruct (upstreamDial c _) as [[dh dp] sch].
  unfold ebind, mbind, eff_bind, fetchKeyBody.
  destruct (core_Fetch tr _) as [[raw|]|]; intros [= <- <-]; (split; [by eexists|]); try done.
  intros ks' Hl. destruct (learned ks responder raw) as [[k|]|] eqn:El; simplify_eq/=.
  by apply learned_spec in El.
Qed.

(** The first loop. *)
Lemma fetchHosts_spec c responder hosts : ∀ subs tr subs' err tr',
  NoDup (map ks_controlHost subs) →
  Forall (λ ks, learned_from responder ks ∧ responderID ks = EmptyString) subs →
  fetchHosts c responder hosts subs tr = ((subs', err), tr') →
  NoDup (map ks_controlHost subs') ∧
  Forall (λ ks, learned_from responder ks ∧ responderID ks = EmptyString) subs' ∧
  (∃ evs, tr' = tr ++ evs ∧ Forall is_fetch evs) ∧
  map ks_controlHost subs ⊆ map ks_controlHost subs' ∧
  (err = None → ∀ h, h ∈ hosts → fst (addr_Parse h "https") ∈ map ks_controlHost subs').
Proof.
  induction hosts as [|ch hosts IH]; intros subs tr subs' err tr' Hnd Hall; cbn [fetchHosts].
  { intros [= <- <- <-]. split_and!; [done|done|by exists []; rewrite app_nil_r|done|]. set_solver. }
  case_bool_decide as Hin.
  { intros E. destruct (IH _ _ _ _ _ Hnd Hall E) as (Q1 & Q2 & Q3 & Q4 & Q5). split_and!; try done.
    intros He h [->|Hh]%elem_of_cons; [by apply Q4|by apply Q5]. }
  unfold mbind, eff_bind. destruct (ensureFetched _ _ _ tr) as [r tr1] eqn:Er.
  apply ensureFetched_spec in Er as [[url ->] Hok]; [|done]. destruct r as [ks|e].
  2: { intros [= <- <- <-]. split_and!; [done|done| |done|done].
       eexists [_]. split; [done|by repeat constructor]. }
  destruct (Hok _ eq_refl) as (Hl & Hh & Hr). cbn in Hh, Hr. intros E.
  assert (NoDup (map ks_controlHost (subs ++ [ks]))) as Hnd'.
  { rewrite map_app. cbn. apply NoDup_app. rewrite Hh. split_and!; [done| |apply NoDup_singleton]. set_solver. }
  assert (Forall (λ ks, learned_from responder ks ∧ responderID ks = EmptyString) (subs ++ [ks])) as Hall'.
  { apply Forall_app. split; [done|]. by apply Forall_singleton. }
  destruct (IH _ _ _ _ _ Hnd' Hall' E) as (Q1 & Q2 & (evs & -> & Hev) & Q4 & Q5).
  rewrite map_app in Q4. cbn in Q4. split_and!; [done|done| |set_solver|].
  - exists (EvInvokeAdapter url :: evs). rewrite <-app_assoc. split; [done|]. by constructor.
  - intros He h [->|Hin']%elem_of_cons; [|by apply Q5]. rewrite <-Hh. apply Q4. set_solver.
Qed.

(** The registrations that succeeded along a history. *)
Definition add_ok (tr : list event) (e : event) : list (list (string * string)) :=
  match e with
  | EvCoreInvoke tool args =>
      if bool_decide (tool = "proxy_respond_add"%string) then
        match core_Invoke tr tool args with Ok (_, false) => [args] | _ => [] end
      else []
  | _ => []
  end.

Fixpoint adds (tr evs : list event) : list (list (string * string)) :=
  match evs with
  | [] => []
  | e :: evs => add_ok tr e ++ adds (tr ++ [e]) evs
  end.

Lemma adds_app tr l1 l2 : adds tr (l1 ++ l2) = adds tr l1 ++ adds (tr ++ l1) l2.
Proof.
  revert tr. induction l1 as [|e l1 IH]; intros tr; cbn; [by rewrite app_nil_r|].
  by rewrite IH, <-!app_assoc.
Qed.

Lemma adds_none tr l : (∀ args, EvCoreInvoke "proxy_respond_add" args ∉ l) → adds tr l = [].
Proof.
  revert tr. induction l as [|e l IH]; intros tr Hl; [done|]. cbn. rewrite IH by set_solver. rewrite app_nil_r.
  destruct e; try done. cbn. case_bool_decide; [|done]. subst. set_solver.
Qed.

Lemma initWorkflow_spec tr :
  ∃ l, initWorkflow tr = (tt, tr ++ l) ∧ Forall is_core l ∧
    ∀ args, EvCoreInvoke "proxy_respond_add" args ∉ l.
Proof.
  unfold initWorkflow, mbind, eff_bind, CoreInvoke. destruct (core_Invoke tr _ _).
  - eexists [_]. split; [done|]. split; [by repeat constructor|]. set_solver.
  - eexists [_; _]. unfold Log, emit. rewrite <-app_assoc. split; [done|].
    split; [by repeat constructor|]. set_solver.
Qed.

Definition registered (ks : keySubstituter) : keySubstituter :=
  mkKeysub (ks_controlHost ks) (responderLabel ks) (fetched ks) (realKey ks) (legacyKey ks) (subBody ks).

Lemma registerResponder_spec ks body tr r tr' :
  registerResponder ks body tr = (r, tr') →
  ∃ evs, tr' = tr ++ evs ∧ Forall is_core evs ∧
    match r with
    | Ok ks' => ks' = registered ks ∧ adds tr evs = [respond_add_args ks body]
    | Err _ => adds tr evs = []
    end.
Proof.
  unfold registerResponder. unfold mbind at 1, eff_bind at 1.
  destruct (initWorkflow_spec tr) as (l & -> & Hc & Hna).
  unfold mbind, eff_bind, CoreInvoke. set (e2 := EvCoreInvoke "proxy_respond_delete" _).
  set (e3 := EvCoreInvoke "proxy_respond_add" _). intros E.
  assert (adds tr (l ++ [e2; e3]) = add_ok ((tr ++ l) ++ [e2]) e3) as Ha.
  { rewrite adds_app, adds_none by done. cbn. by rewrite !app_nil_r. }
  exists (l ++ [e2; e3]). rewrite Ha. unfold add_ok, e3. rewrite bool_decide_true by done.
  destruct (core_Invoke ((tr ++ l) ++ [e2]) "proxy_respond_add" _) as [[x b]|e];
    [destruct b|]; injection E as <- <-; rewrite <-!app_assoc; (split; [done|]);
    (split; [apply Forall_app; split; [done|by repeat constructor]|done]).
Qed.

Definition is_registered (ks : keySubstituter) : bool := negb (bool_decide (responderID ks = EmptyString)).

Lemma unregistered_filter l :
  Forall (λ ks, responderID ks = EmptyString) l → List.filter is_registered l = [].
Proof. induction 1 as [|ks l Hk _ IH]; [done|]. cbn. unfold is_registered at 1. by rewrite Hk. Qed.

Lemma substitutedBody_fetched c responder ks tr :
  fetched ks = true → substitutedBody c responder ks tr = (Ok (subBody ks, ks), tr).
Proof. intros Hf. unfold substitutedBody, cached, ensureFetched. by rewrite Hf. Qed.

(** The second loop: the substituters that carry a responder are the ones whose
    registration succeeded. *)
Lemma registerAll_spec c responder todo : ∀ dn tr subs err tr',
  Forall (λ ks, fetched ks = true ∧ responderID ks = EmptyString) todo →
  registerAll c responder dn todo tr = ((subs, err), tr') →
  ∃ evs new, tr' = tr ++ evs ∧ Forall is_core evs ∧ subs = dn ++ new ∧
    Forall2 (λ ks ks', ks' = ks ∨ ks' = registered ks) todo new ∧
    adds tr evs = map (λ ks, respond_add_args ks (subBody ks)) (List.filter is_registered new) ∧
    (err = None → new = map registered todo).
Proof.
  induction todo as [|ks todo IH]; intros dn tr subs err tr' Hid; cbn [registerAll].
  { intros [= <- <- <-]. exists [], []. rewrite !app_nil_r. by split_and!. }
  apply Forall_cons in Hid as [[Hft Hk] Hid]. unfold mbind, eff_bind. rewrite substitutedBody_fetched by done.
  destruct (registerResponder ks (subBody ks) tr) as [r tr1] eqn:Er.
  apply registerResponder_spec in Er as (evs & -> & Hc & Hr). destruct r as [ks'|e].
  - destruct Hr as [-> Ha]. intros E. destruct (IH _ _ _ _ _ Hid E) as (evs2 & new & -> & Hc2 & -> & Hf & Ha2 & Hn).
    exists (evs ++ evs2), (registered ks :: new). rewrite <-!app_assoc. split_and!; [done| |done| | |].
    + by apply Forall_app.
    + constructor; [by right|done].
    + rewrite adds_app, Ha, Ha2. done.
    + intros He. by rewrite Hn.
  - intros [= <- <- <-]. exists evs, (ks :: todo). split_and!; [done|done|done| | |done].
    + constructor; [by left|]. clear. induction todo; constructor; auto.
    + rewrite Hr. rewrite unregistered_filter; [done|]. constructor; [done|].
      eapply Forall_impl; [exact Hid|]. by intros ? [].
Qed.

(** Closing deletes the registered labels, in order. *)
Definition deletes (l : list keySubstituter) : list event :=
  map (λ ks, EvCoreInvoke "proxy_respond_delete" [("id"%string, responderID ks)]) (List.filter is_registered l).

Lemma closeKeysubs_spec l tr : closeKeysubs l tr = (tt, tr ++ deletes l).
Proof.
  unfold deletes. revert tr. induction l as [|ks l IH]; intros tr; cbn [closeKeysubs List.filter]; [by rewrite app_nil_r|].
  assert (ks_close ks tr = (tt, tr ++ if is_registered ks
    then [EvCoreInvoke "proxy_respond_delete" [("id"%string, responderID ks)]] else [])) as E.
  { unfold ks_close, is_registered. case_bool_decide; cbn; [by rewrite app_nil_r|done]. }
  unfold mbind, eff_bind. rewrite E, IH. destruct (is_registered ks); cbn; rewrite <-app_assoc; done.
Qed.

Lemma find_host subs host :
  host ∈ map ks_controlHost subs →
  ∃ ks, List.find (λ ks, bool_decide (ks_controlHost ks = host)) subs = Some ks ∧ ks ∈ subs ∧ ks_controlHost ks = host.
Proof.
  induction subs as [|ks subs IH]; [by intros ?%not_elem_of_nil|]. cbn.
  intros [->|Hin]%elem_of_cons.
  - rewrite bool_decide_true by done. exists ks. split_and!; [done|left|done].
  - case_bool_decide as E; [exists ks; split_and!; [done|left|done]|].
    destruct (IH Hin) as (k & Hk & Hs & Hh). exists k. split_and!; [done|by right|done].
Qed.

Lemma Forall2_hosts l l' :
  Forall2 (λ ks ks', ks' = ks ∨ ks' = registered ks) l l' → map ks_controlHost l' = map ks_controlHost l.
Proof. induction 1 as [|ks ks' l l' [->| ->] _ IH]; cbn; by rewrite ?IH. Qed.

Lemma deletes_perm l1 l2 : l1 ≡ₚ l2 → deletes l1 ≡ₚ deletes l2.
Proof.
  intros Hl. unfold deletes. apply Permutation_map.
  induction Hl as [|x l1 l2 _ IH|x y l|l1 l2 l3 _ IH1 _ IH2]; cbn [List.filter]; [done| | |by etransitivity].
  - destruct (is_registered x); [by constructor|done].
  - destruct (is_registered x), (is_registered y); by try constructor.
Qed.

Lemma closeKeysubs_visited visited subs tr :
  visited ≡ₚ subs → closeKeysubs visited tr = (tt, tr ++ deletes visited) ∧ deletes visited ≡ₚ deletes subs.
Proof. intros Hv. split; [apply closeKeysubs_spec|by apply deletes_perm]. Qed.

Lemma Forall2_learned responder l l' :
  Forall2 (λ ks ks', ks' = ks ∨ ks' = registered ks) l l' →
  Forall (learned_from responder) l → Forall (learned_from responder) l'.
Proof.
  induction 1 as [|ks ks' l l' [->| ->] _ IH]; intros Hl; apply Forall_cons in Hl as [Hk Hl] || done;
    constructor; auto.
Qed.
End lemmas.

(** ** Properties *)

(** C8: Setting up the /key substitution. Every real key is fetched before any
    responder is registered, so no fetch meets the sidecar's own answer; there is
    one substituter per parsed host, each with a learned key and a body made from
    the very response the key came from; when the setup succeeds, every configured
    host has one, registered in responder mode. On every outcome, failures half
    way included, the registrations sectool accepted are exactly those of the
    substituters kept with a responder id, and closing the handler deletes exactly
    those, each once, in whatever order it visits the map. *)
Theorem keysub_setup `{MachineKeys} `{HWKeys} `{!TailcfgJSON} `{JSON} `{Addr} `{URLParse} `{Core} `{CapVersion}
    (c : ControlConfig) (responder : MachinePublic) (tr : list event) :
  let '((subs, err), tr') := setupKeySubstitution c responder tr in
  (∃ fetches regs, tr' = tr ++ fetches ++ regs ∧ Forall is_fetch fetches ∧ Forall is_core regs ∧
     adds (tr ++ fetches) regs = map (λ ks, respond_add_args ks (subBody ks)) (List.filter is_registered subs)) ∧
  NoDup (map ks_controlHost subs) ∧ Forall (learned_from responder) subs ∧
  (err = None → KeyStrategy c = KeyStrategySubstitute → ∀ h, h ∈ ControlHosts c →
     ∃ ks, keysubFor subs h = Some ks ∧ ks_controlHost ks = fst (addr_Parse h "https") ∧
       (KeySubstitution c = KeySubResponder → responderID ks = responderLabel ks)) ∧
  (∀ visited tr2, visited ≡ₚ subs →
     closeKeysubs visited tr2 = (tt, tr2 ++ deletes visited) ∧ deletes visited ≡ₚ deletes subs).
Proof.
  unfold setupKeySubstitution. case_bool_decide as Hst; cbn [negb].
  2: { split_and!; [|constructor|constructor|done|exact (λ visited tr2, closeKeysubs_visited visited _ tr2)]. exists [], []. rewrite app_nil_r. done. }
  unfold mbind, eff_bind. destruct (fetchHosts _ _ _ _ tr) as [[subs err] tr1] eqn:Ef.
  apply fetchHosts_spec in Ef as (Hnd & Hall & (fetches & -> & Hfe) & _ & Hhosts); [|constructor|constructor].
  assert (Forall (λ ks, fetched ks = true ∧ responderID ks = EmptyString) subs) as Hfi.
  { eapply Forall_impl; [exact Hall|]. intros ks [[Hf _] Hk]. done. }
  apply Forall_and in Hall as [Hl Hid].
  assert (∃ regs, tr ++ fetches = tr ++ fetches ++ regs ∧ Forall is_fetch fetches ∧ Forall is_core regs ∧
    adds (tr ++ fetches) regs = map (λ ks, respond_add_args ks (subBody ks)) (List.filter is_registered subs)) as Hnone.
  { exists []. rewrite !app_nil_r. split_and!; [done|done|constructor|]. by rewrite unregistered_filter. }
  destruct err as [e|].
  { split_and!; [by exists fetches|done|done|done|exact (λ visited tr2, closeKeysubs_visited visited _ tr2)]. }
  case_bool_decide as Hmode.
  2: { split_and!; [by exists fetches|done|done| |exact (λ visited tr2, closeKeysubs_visited visited _ tr2)]. intros _ _ h Hh.
       destruct (find_host subs _ (Hhosts eq_refl h Hh)) as (ks & Hf & _ & Hk). by exists ks. }
  destruct (registerAll _ _ [] subs _) as [[subs' err] tr2] eqn:Er.
  apply registerAll_spec in Er as (regs & new & -> & Hc & -> & Hf2 & Ha & Hn); [|done]. cbn [app].
  pose proof (Forall2_hosts _ _ Hf2) as Hh2.
  split_and!; [|by rewrite Hh2|by eapply Forall2_learned| |exact (λ visited tr2, closeKeysubs_visited visited _ tr2)].
  { exists fetches, regs. by rewrite <-app_assoc. }
  intros He _ h Hh. specialize (Hhosts eq_refl h Hh). rewrite <-Hh2 in Hhosts.
  destruct (find_host new _ Hhosts) as (ks & Hfind & Hin & Hk). exists ks. split_and!; [done|done|]. intros _.
  rewrite (Hn He) in Hin. apply list_elem_of_fmap in Hin as (k0 & -> & _). done.
Qed.

(** The substituted body. Rewriting a /key response to the sidecar's key
    changes that field and no other: what the client parses has the sidecar's key
    under [publicKey] and the server's values, in their written form, under every
    other name. A response that is not a JSON object never gets this far: its key
    would be zero, which is refused before (so the assignment into a nil map
    cannot panic). *)
Theorem substitutePublicKey_spec `{MachineKeys} `{HWKeys} `{!TailcfgJSON} `{JSONLaws}
    (raw : bytes) (pub : MachinePublic) (ks : keySubstituter) :
  ascii_only (MachinePublic_String pub) = true →
  (∀ b resp, unmarshal_obj b = Ok None → unmarshal_keyresp b = Ok resp → PublicKey resp = MachinePublic_zero) →
  is_Some (learned ks pub raw) ∧
  (∀ out, substitutePublicKey raw pub = Some (Ok out) →
     ∃ obj obj', unmarshal_obj raw = Ok (Some obj) ∧ unmarshal_obj out = Ok (Some obj') ∧
       (unmarshal_any <$> obj' !! "publicKey"%string) = Some (Ok (JString (MachinePublic_String pub))) ∧
       (∀ k, k ≠ "publicKey"%string → obj' !! k = json_compact <$> obj !! k)).
Proof.
  intros Hascii Hnull. split.
  - unfold learned. destruct (unmarshal_keyresp raw) as [resp|] eqn:Er; [|by eexists].
    case_bool_decide as Hz; [by eexists|]. unfold substitutePublicKey.
    destruct (unmarshal_obj raw) as [[obj|]|] eqn:Eo; [| |by eexists].
    + destruct (marshal_string _) as [v|]; [|by eexists]. destruct (marshal_obj _); by eexists.
    + by destruct Hz; eapply Hnull.
  - intros out. unfold substitutePublicKey. destruct (unmarshal_obj raw) as [[obj|]|] eqn:Eo; try done.
    2: by destruct (marshal_string _).
    destruct (marshal_string _) as [v|] eqn:Ev; [|done]. intros [= Em].
    apply marshal_obj_spec in Em.
    2: { apply map_Forall_insert_2; [by apply json_key_ascii|]. by eapply unmarshal_obj_keys. }
    eexists obj, _. split_and!; [done|exact Em| |].
    + rewrite lookup_fmap, lookup_insert_eq. cbn. f_equal. by apply marshal_string_any.
    + intros k Hk. by rewrite lookup_fmap, lookup_insert_ne.
Qed.


Lemma substitutePublicKey_spec_witness :
  ∃ out obj', substitutePublicKey [x41; x42] (toy_key x03 : @MachinePublic toy_machines) = Some (Ok out) ∧
    unmarshal_obj out = Ok (Some obj').
Proof.
  destruct (@substitutePublicKey_spec toy_machines toy_hw toy_tailcfg toy_objects toy_objects_laws
    [x41; x42] (toy_key x03) (newKeySubstituter "c")) as [_ Hs].
  - vm_compute. reflexivity.
  - intros [|x b] resp; cbn; [discriminate|]. intros [=].
  - eexists. destruct (Hs _ eq_refl) as (obj & obj' & _ & Ho & _). exists obj'. split; [reflexivity|exact Ho].
Defined.
