(* ===== verification/NoiseTunnel.v ===== *)
(** * Noise tunnels: [sidescale/noise/tunnel.go], with [ServeStream] and
    [waitSetup] of [handler.go] and [Shutdown] of [shutdown.go]

    The pooled upstream connections are those of [UpstreamPool]: here a tunnel
    only sees the connection it was given, and its acquires and releases are
    events. What the pool answers, and whether a drain has begun, depends on the
    other goroutines: any function of the history ([NoiseEnv]). *)

From Stdlib Require Import Init.Byte Strings.Byte Lia ZArith Ascii String.
From stdpp Require Import base option list gmap sets strings.
From S2P Require Import Prelude GoStd External Instances Adapter NoiseConfig ExternalControl ControlInstances.
From S2P Require Import TsProto MapStream UpstreamPool Bindings NoiseCapture KeySub.
Open Scope Z_scope.
Open Scope go_scope.

Definition ts2021Path : string := "/ts2021".
Definition noiseProtocolName : string := "Noise_IK_25519_ChaChaPoly_BLAKE2s".
(** [controlhttpcommon]'s constants *)
Definition UpgradeProtocol : string := "tailscale-control-protocol".
Definition HandshakeHeaderName : string := "X-Tailscale-Handshake".

(** What a buffered reader delivers of a script. *)
Fixpoint breader_of (s : script) : breader :=
  match s with
  | [] => mkReader [] io_EOF
  | (b, Some e) :: _ => mkReader b e
  | (b, None) :: s => let r := breader_of s in mkReader (b ++ avail r) (rerr r)
  end.

Section tunnel.
Context `{MachineKeys} `{HWKeys} `{!TailcfgJSON} `{Signing} `{JSON} `{Addr} `{URLParse} `{Core} `{CapVersion}.
Context `{HTTP} `{!Slices} `{!ControlBase} `{EarlyNoiseMsg} `{Reassembler} `{Zstd} `{Bulk} `{Env} `{Network}.

(** ** State *)

Record earlyNoise := mkEarly { early_raw : bytes; early_msg : option External.EarlyNoise }.

Record upstreamConn := mkUpstreamConn {
  uc_id : nat;
  uc_streamID : string;
  uc_stream : connid;
  uc_inner : NoiseConn;
  uc_bridge : connid;
  uc_serverPub : MachinePublic;
  uc_serverLegacy : MachinePublic;
  uc_early : earlyNoise;
  uc_addr : string
}.

(** [client] is the decrypted client half, absent for a fresh tunnel. *)
Record activeTunnel := mkTunnel {
  at_up : upstreamConn;
  at_controlHost : string;
  at_serverPub : MachinePublic;
  at_serverLegacy : MachinePublic;
  at_machineKey : MachinePrivate;
  at_version : Z;
  at_session : string;
  at_flowID : string;
  at_client : option connid;
  at_closed : bool;
  at_healFailed : bool
}.

Record Handler := mkHandler {
  cfg : ControlConfig;
  name : string;
  controlHost : string;
  responderKey : MachinePrivate;
  machineKey : string → result MachinePrivate;
  regSigner : option RegisterSigner;
  hwSigner : option ECDSAPrivate;
  (** the substituters, once [Setup] has finished with its error, if any *)
  keysub : list keySubstituter;
  setupDone : option (option error)
}.

(** [NewHandler]: indexing no control hosts panics. *)
Definition NewHandler (c : ControlConfig) (name : string) (responderKey : MachinePrivate)
    (machineKey : string → result MachinePrivate) : option Handler :=
  match ControlHosts c with
  | [] => None
  | ch :: _ => Some (mkHandler c name (fst (addr_Parse ch "https")) responderKey machineKey None None [] None)
  end.

Definition SetBindingKeys (reg : option RegisterSigner) (hw : option ECDSAPrivate) (h : Handler) : Handler :=
  mkHandler (cfg h) (name h) (controlHost h) (responderKey h) (machineKey h) reg hw (keysub h) (setupDone h).

(** [Setup] publishes what was built, with its error. *)
Definition Setup (h : Handler) : eff Handler :=
  '(ks, err) ← setupKeySubstitution (cfg h) (MachinePublic_of (responderKey h));
  mret (mkHandler (cfg h) (name h) (controlHost h) (responderKey h) (machineKey h) (regSigner h) (hwSigner h)
          ks (Some err)).

Definition isControlHost (h : Handler) (host : string) : bool :=
  let parsed := fst (addr_Parse host "https") in
  existsb (λ ch, bool_decide (fst (addr_Parse ch "https") = parsed)) (ControlHosts (cfg h)).

(** What the other goroutines decide. *)
Class NoiseEnv := {
  (** [getOrCreateUpstream]: a pooled connection with a reference for the caller *)
  ne_acquire : list event → poolKey → result upstreamConn;
  ne_tryAcquire : list event → nat → bool;
  ne_draining : list event → bool;
  (** the value [freshSeq.Add(1)] returns *)
  ne_freshSeq : list event → Z;
  ne_getTunnel : list event → string → option activeTunnel;
  (** the registered tunnels, and whether a tunnel's [tornDown] closes within the
      drain's window *)
  ne_liveTunnels : list event → list activeTunnel;
  ne_tornDown : list event → activeTunnel → bool
}.

Context `{NoiseEnv}.

(** ** The pool, as a tunnel sees it *)

Definition getOrCreateUpstream (controlHost : string) (mk : MachinePrivate) (version : Z) (session : string)
    : eff (result upstreamConn) :=
  λ tr, match ne_acquire tr (mkPoolKey (MachinePublic_of mk) controlHost version session) with
        | Err e => (Err e, tr)
        | Ok u => (Ok u, tr ++ [EvAcquire (uc_id u)])
        end.

Definition releaseUpstream (u : upstreamConn) : eff unit := emit (EvRelease (uc_id u)).
Definition evictUpstream (u : upstreamConn) : eff unit := emit (EvEvict (uc_id u)).
Definition Draining : eff bool := λ tr, (ne_draining tr, tr).
Definition getTunnel (id : string) : eff (option activeTunnel) := λ tr, (ne_getTunnel tr id, tr).

Definition dedicatedPoolSession : eff string :=
  λ tr, (("dedicated-" ++ FormatUint (ne_freshSeq tr))%string, tr).

Definition poolSession (h : Handler) (clientKey : string) : string :=
  if bool_decide (UpstreamPoolMode (cfg h) = PoolModePerClient) then clientKey else EmptyString.

Definition freshPoolSession (h : Handler) : eff string :=
  if bool_decide (UpstreamPoolMode (cfg h) = PoolModePerClient) then dedicatedPoolSession else mret EmptyString.

Definition tunnelError (streamID stage : string) (e : error) : eff unit :=
  Log "error" ("tunnel failed: " ++ stage)%string.

(** A call that depends on the history. *)
Definition ask {A} (f : list event → A) : eff A := λ tr, (f tr, tr).

(** ** The handshakes of [tsproto/noise.go] *)

Definition Responder (conn : connid) (controlKey : MachinePrivate) (init : bytes) : eff (result NoiseConn) :=
  ask (λ tr, cb_Server tr conn controlKey init).

Record Initiation := mkInitiation { Header : bytes; cont : HandshakeContinuation }.

Definition Initiator (machineKey : MachinePrivate) (controlKey : MachinePublic) (version : Z)
    : eff (result Initiation) :=
  '(header, cont) ←? ask (λ tr, cb_ClientDeferred tr machineKey controlKey version);
  mret (Ok (mkInitiation header cont)).

(** Over a connection, the bytes buffered in front of it and what follows them. *)
Definition Complete (i : Initiation) (conn : connid) (buffered : bytes) (rest : script) : eff (result NoiseConn) :=
  ask (λ tr, cb_Continue tr (cont i) conn buffered rest).

(** ** The upstream half of [H2Bridge], whose [Forward] is in [NoiseCapture] *)

Definition NewH2Bridge (upstreamConn : connid) : eff (result connid) :=
  ask (λ tr, h2_NewClientConn tr upstreamConn).

Definition Usable (bridge : connid) : eff bool := ask (λ tr, h2_Usable tr bridge).

(** ** [openUpstream] *)

(** The substituters of a finished setup have their keys already. *)
Definition upstreamKey (h : Handler) (controlHost : string) (borrowed : MachinePublic)
    (get : ControlConfig → MachinePublic → keySubstituter → eff (result (MachinePublic * keySubstituter)))
    : eff (result MachinePublic) :=
  if bool_decide (KeyStrategy (cfg h) = KeyStrategyBorrow) then mret (Ok borrowed)
  else match keysubFor (keysub h) controlHost with
  | None => mret (Err (ErrFmt "no substitution state for host %q" [controlHost]))
  | Some ks =>
      r ← get (cfg h) (MachinePublic_of (responderKey h)) ks; mret (fst <$> r)
  end.

Definition upstreamServerKey (h : Handler) (controlHost : string) : eff (result MachinePublic) :=
  upstreamKey h controlHost (MachinePublic_of (responderKey h)) realServerKey.
Definition upstreamLegacyKey (h : Handler) (controlHost : string) : eff (result MachinePublic) :=
  upstreamKey h controlHost MachinePublic_zero realLegacyServerKey.

Definition buildUpgradeRequest (host : string) (initiation : bytes) : bytes := to_bytes
  ("POST " ++ ts2021Path ++ " HTTP/1.1" ++ CRLF ++
   "Host: " ++ host ++ CRLF ++
   "Upgrade: " ++ UpgradeProtocol ++ CRLF ++
   "Connection: upgrade" ++ CRLF ++
   HandshakeHeaderName ++ ": " ++ b64_encode initiation ++ CRLF ++
   "Content-Length: 0" ++ CRLF ++ CRLF)%string.

(** The inner connection and the early noise read off it. *)
Definition upstreamHandshake (c : connid) (input : script) (host : string) (mk : MachinePrivate)
    (serverPub : MachinePublic) (version : Z) : eff (result (NoiseConn * earlyNoise)) :=
  initiation ←? Initiator mk serverPub version;
  w ← ConnWrite c (buildUpgradeRequest host (Header initiation));
  match w with
  | Some e => mret (Err e)
  | None =>
      _ ← SetReadDeadline c true;
      '(code, status, buffered, rest) ←? mret (wrap "read upgrade response: %w" (http_ReadResponse input));
      if negb (code =? 101) then mret (Err (ErrFmt "upstream upgrade status %s" [status]))
      else
        inner ←? Complete initiation c buffered rest;
        let '(r, br) := ReadEarlyNoise (breader_of (nc_input inner)) in
        match r with
        | Err e => _ ← ConnClose (nc_conn inner); mret (Err (ErrWrap "read early noise: %w" [] e))
        | Ok early =>
            _ ← SetReadDeadline c false;
            mret (Ok (mkNoiseConn (nc_conn inner) (nc_Peer inner) (nc_HandshakeHash inner)
                        [(avail br, Some (rerr br))],
                      match early with
                      | Some (raw, msg) => mkEarly raw (Some msg)
                      | None => mkEarly [] None
                      end))
        end
  end.

Definition DialUpstream (host : string) (port : Z) (tls : bool) : eff (result (string * connid * script)) :=
  λ tr, (net_Dial tr host port tls, tr ++ [EvDial host port tls]).

(** [fresh] names the pool entry the connection is dialed for. *)
Definition openUpstream (h : Handler) (fresh : nat) (controlHost : string) (mk : MachinePrivate) (version : Z)
    : eff (result upstreamConn) :=
  k ← upstreamServerKey h controlHost;
  serverPub ←? mret (wrap "upstream key: %w" k);
  k ← upstreamLegacyKey h controlHost;
  serverLegacy ←? mret (wrap "upstream legacy key: %w" k);
  let '(dialHost, dialPort, scheme) := upstreamDial (cfg h) controlHost in
  d ← DialUpstream dialHost dialPort (bool_decide (scheme = UpstreamSchemeHTTPS));
  '(streamID, c, input) ←? mret (wrap "dial upstream: %w" d);
  r ← upstreamHandshake c input dialHost mk serverPub version;
  match r with
  | Err e => _ ← ConnClose c; mret (Err (ErrWrap "upstream handshake: %w" [] e))
  | Ok (inner, early) =>
      b ← NewH2Bridge (nc_conn inner);
      match b with
      | Err e =>
          _ ← ConnClose (nc_conn inner); _ ← ConnClose c;
          mret (Err (ErrWrap "upstream http2: %w" [] e))
      | Ok bridge =>
          mret (Ok (mkUpstreamConn fresh streamID c inner bridge serverPub serverLegacy early
                      (JoinHostPort dialHost (Itoa dialPort))))
      end
  end.

(** [upstreamConn.close] *)
Definition uc_close (u : upstreamConn) : eff unit :=
  _ ← ConnClose (uc_bridge u); _ ← ConnClose (nc_conn (uc_inner u)); ConnClose (uc_stream u).

(** ** The bound upstream of a tunnel *)

Definition rebind_up (u : upstreamConn) (t : activeTunnel) : activeTunnel :=
  mkTunnel u (at_controlHost t) (at_serverPub t) (at_serverLegacy t) (at_machineKey t) (at_version t)
    (at_session t) (at_flowID t) (at_client t) (at_closed t) false.

Definition heal_failed (t : activeTunnel) : activeTunnel :=
  mkTunnel (at_up t) (at_controlHost t) (at_serverPub t) (at_serverLegacy t) (at_machineKey t) (at_version t)
    (at_session t) (at_flowID t) (at_client t) (at_closed t) true.

Definition set_flowID (id : string) (t : activeTunnel) : activeTunnel :=
  mkTunnel (at_up t) (at_controlHost t) (at_serverPub t) (at_serverLegacy t) (at_machineKey t) (at_version t)
    (at_session t) id (at_client t) (at_closed t) (at_healFailed t).

(** [healUpstream] when no other goroutine heals or closes the tunnel meanwhile:
    the second check then finds the tunnel as the first one did. [TunnelConc] has
    the interleavings. *)
Definition healUpstream (t : activeTunnel) (dead : upstreamConn) : eff activeTunnel :=
  if at_closed t || negb (bool_decide (uc_id (at_up t) = uc_id dead)) then mret t
  else
    _ ← evictUpstream dead;
    r ← getOrCreateUpstream (at_controlHost t) (at_machineKey t) (at_version t) (at_session t);
    match r with
    | Err _ =>
        _ ← (if at_healFailed t then mret tt else Log "warn" "upstream heal dial failed");
        mret (heal_failed t)
    | Ok fresh =>
        if at_closed t || negb (bool_decide (uc_id (at_up t) = uc_id dead)) then
          _ ← releaseUpstream fresh; mret t
        else
          _ ← releaseUpstream dead;
          _ ← Log "info" "upstream healed";
          mret (rebind_up fresh t)
    end.

Definition forwardTunnel (t : activeTunnel) (req : OutRequest) : eff (result HttpResponse * activeTunnel) :=
  let up := at_up t in
  r ← Forward (uc_bridge up) req;
  match r with
  | Ok resp => mret (Ok resp, t)
  | Err e =>
      usable ← Usable (uc_bridge up);
      if usable : bool then mret (Err e, t)
      else t ← healUpstream t up; mret (Err e, t)
  end.

Definition closeTunnel (t : activeTunnel) : eff unit :=
  if at_closed t then mret tt else releaseUpstream (at_up t).

(** ** The tunnel envelope *)

Record envelopeInfo := mkEnvelopeInfo {
  parentFlowID : string;
  tunnelKey : string;
  clientAddr : string;
  upstreamAddr : string;
  version : Z;
  client : option NoiseConn;
  upstream : NoiseConn;
  serverPub : MachinePublic;
  env_machineKey : MachinePrivate;
  early : earlyNoise
}.

Definition envelopeHeaders (h : Handler) (i : envelopeInfo) : list wire.Header :=
  [hdr "X-TS-Noise-Protocol" noiseProtocolName;
   hdr "X-TS-Protocol-Version" (Itoa (version i));
   hdr "X-TS-Handshake-Hash-Server" (hex_EncodeToString (nc_HandshakeHash (upstream i)));
   hdr "X-TS-Client-Facing-Server-Pubkey" (MachinePublic_String (MachinePublic_of (responderKey h)));
   hdr "X-TS-Server-Facing-Server-Pubkey" (MachinePublic_String (serverPub i));
   hdr "X-TS-Sidecar-Machine-Pubkey" (MachinePublic_String (MachinePublic_of (env_machineKey i)));
   hdr "X-TS-Upstream-Addr" (upstreamAddr i)] ++
  match client i with
  | Some c =>
      [hdr "X-TS-Handshake-Hash-Client" (hex_EncodeToString (nc_HandshakeHash c));
       hdr "X-TS-Client-Machine-Pubkey" (MachinePublic_String (nc_Peer c));
       hdr "X-TS-Client-Addr" (clientAddr i)]
  | None => []
  end.

Definition envelopeBody (i : envelopeInfo) : bytes :=
  match early_msg (early i) with
  | Some msg => match marshal_en msg with Ok b => b | Err _ => [] end
  | None => []
  end.

Definition emitTunnelEnvelope (h : Handler) (i : envelopeInfo) : eff (result (string * bool)) :=
  now ← Now;
  PushFlow (wire.mkFlow tunnelProtocolTag DirBidirectional (parentFlowID i)
    (Some (wire.mkFlowMessage "TUNNEL" ("/" ++ name h ++ "/tunnel/" ++ tunnelKey i)%string "" 0
             (envelopeHeaders h i) (envelopeBody i) None None))
    None [] now None).

(** ** Towards the client *)

Definition clientEarlyNoise (h : Handler) (up : earlyNoise) : eff (result bytes) :=
  if bool_decide (EarlyNoise (cfg h) = EarlyNoiseSuppress) then mret (Ok [])
  else if bool_decide (EarlyNoise (cfg h) = EarlyNoiseReplace) then ask (λ tr, EncodeEarlyNoise (NewChallenge tr))
  else mret (Ok (early_raw up)).

Record StreamConn := mkStream {
  sc_conn : connid;
  StreamID : string;
  sc_Path : string;
  sc_Host : string;
  RequestHeaders : list wire.Header;
  RequestFlowID : string;
  PeerAddr : string;
  sc_input : script
}.

(** ** [ServeCapture]

    The server half of a tunnel takes its requests one after the other. [fuel] is
    the number of reads a copy to the client may take: [None] is a copy that still
    runs. *)

(** [w.Header().Add] over the response's header, then [w.WriteHeader]. *)
Definition writeHead (w : connid) (code : Z) (h : header) : eff unit :=
  λ tr, (tt, tr ++ [EvRespond w code (fold_left header_Add (flat_header (range_header tr h)) [])]).

(** [flushingCopy] from a buffer. *)
Fixpoint copyPieces (w : connid) (bs : list bytes) : eff unit :=
  match bs with
  | [] => mret tt
  | b :: bs => e ← ConnWrite w b; match e with Some _ => mret tt | None => copyPieces w bs end
  end.

Definition relay (fuel : nat) (w : connid) (a : ClientResponse) : eff (option unit) :=
  match a with
  | Buffered code h body => _ ← writeHead w code h; _ ← copyPieces w (pieces body); mret (Some tt)
  | Streaming code h r =>
      _ ← writeHead w code h;
      obind (flushingCopy fuel w r) (λ r, _ ← MapStream.Close r; mret (Some tt))
  end.

(** One inner request of a tunnel, and the tunnel after it; a failure is answered
    with a 502. *)
Definition serveInner (fuel : nat) (t : activeTunnel) (req : HttpRequest) (w : connid)
    : eff (option activeTunnel) :=
  o ← captureOutgoing (at_controlHost t) (at_flowID t) req;
  match o with
  | Err _ => _ ← writeHead w 502 []; mret (Some t)
  | Ok (fwdBody, out) =>
      '(r, t) ← forwardTunnel t out;
      a ← captureIncoming (at_flowID t) req fwdBody r;
      match a with
      | Err _ => _ ← writeHead w 502 []; mret (Some t)
      | Ok a => obind (relay fuel w a) (λ _, mret (Some t))
      end
  end.

Fixpoint ServeCapture (fuel : nat) (t : activeTunnel) (reqs : list (HttpRequest * connid))
    : eff (option activeTunnel) :=
  match reqs with
  | [] => mret (Some t)
  | (req, w) :: reqs => obind (serveInner fuel t req w) (λ t, ServeCapture fuel t reqs)
  end.

(** ** [runTunnel] *)

(** [if h.Draining() { return }] and what follows. *)
Definition tunnelServe (fuel : nat) (h : Handler) (sc : StreamConn) (inner : NoiseConn) (t : activeTunnel)
    : eff (option activeTunnel) :=
  draining ← Draining;
  if draining : bool then mret (Some t)
  else
    early ← clientEarlyNoise h (uc_early (at_up t));
    match early with
    | Err e => _ ← tunnelError (StreamID sc) "build early noise" e; mret (Some t)
    | Ok early =>
        w ← (if 0 <? len early then ConnWrite (nc_conn inner) early else mret None);
        match w with
        | Some e => _ ← tunnelError (StreamID sc) "forward early noise" e; mret (Some t)
        | None =>
            _ ← Log "info" "tunnel established";
            reqs ← ask (λ tr, h2_Requests tr (nc_conn inner));
            ServeCapture fuel t reqs
        end
    end.

Definition registerTunnel (id : string) : eff unit := emit (EvRegistered id).
Definition deregisterTunnel (t : activeTunnel) : eff unit := emit (EvTornDown (at_flowID t)).

(** What the deferred calls of a captured tunnel do, in their order. *)
Definition completeTunnel (t : activeTunnel) : eff unit :=
  _ ← CompleteFlow (at_flowID t); deregisterTunnel t.

(** From the envelope on: the tunnel to close. *)
Definition tunnelCaptured (fuel : nat) (h : Handler) (sc : StreamConn) (inner : NoiseConn) (t : activeTunnel)
    (env : result (string * bool)) : eff (option activeTunnel) :=
  match env with
  | Err e => _ ← tunnelError (StreamID sc) "tunnel envelope" e; mret (Some t)
  | Ok (tunnelID, captured) =>
      if captured : bool then
        let t := set_flowID tunnelID t in
        _ ← registerTunnel tunnelID;
        obind (tunnelServe fuel h sc inner t) (λ t, _ ← completeTunnel t; mret (Some t))
      else tunnelServe fuel h sc inner t
  end.

(** With an upstream reference held: [closeTunnel] returns it on every path. *)
Definition tunnelBound (fuel : nat) (h : Handler) (sc : StreamConn) (inner : NoiseConn) (controlHost : string)
    (mk : MachinePrivate) (version : Z) (u : upstreamConn) : eff (option unit) :=
  let t := mkTunnel u controlHost (uc_serverPub u) (uc_serverLegacy u) mk version (poolSession h (StreamID sc))
             "" (Some (nc_conn inner)) false false in
  env ← emitTunnelEnvelope h (mkEnvelopeInfo (RequestFlowID sc) (StreamID sc) (PeerAddr sc) (uc_addr u)
          version (Some inner) (uc_inner u) (uc_serverPub u) mk (uc_early u));
  obind (tunnelCaptured fuel h sc inner t env) (λ t, _ ← closeTunnel t; mret (Some tt)).

(** With the client's handshake done. *)
Definition tunnelHandshaken (fuel : nat) (h : Handler) (sc : StreamConn) (version : Z) (inner : NoiseConn)
    : eff (option unit) :=
  let host := if bool_decide (sc_Host sc = EmptyString) then controlHost h else sc_Host sc in
  match machineKey h (MachinePublic_String (nc_Peer inner)) with
  | Err e => _ ← tunnelError (StreamID sc) "machine identity" e; mret (Some tt)
  | Ok mk =>
      u ← getOrCreateUpstream host mk version (poolSession h (StreamID sc));
      match u with
      | Err e => _ ← tunnelError (StreamID sc) "open upstream" e; mret (Some tt)
      | Ok u => tunnelBound fuel h sc inner host mk version u
      end
  end.

Definition tunnelSession (fuel : nat) (h : Handler) (sc : StreamConn) (init : bytes) : eff (option unit) :=
  match InitiationVersion init with
  | Err e => _ ← tunnelError (StreamID sc) "read initiation version" e; mret (Some tt)
  | Ok version =>
      r ← Responder (sc_conn sc) (responderKey h) init;
      match r with
      | Err e => _ ← tunnelError (StreamID sc) "client responder handshake" e; mret (Some tt)
      | Ok inner => deferring (ConnClose (nc_conn inner)) (tunnelHandshaken fuel h sc version inner)
      end
  end.

Definition runTunnel (fuel : nat) (h : Handler) (sc : StreamConn) (init : bytes) : eff (option unit) :=
  deferring (ConnClose (sc_conn sc)) (tunnelSession fuel h sc init).

(** ** [openFreshTunnel]: no client half, and a cleanup for the caller

    The cleanup acts on the tunnel as it is then, healed or not. *)

Definition freshCleanup (captured : bool) (t : activeTunnel) : eff unit :=
  _ ← (if captured then completeTunnel t else mret tt); closeTunnel t.

Definition openFreshTunnel (h : Handler) (controlHost : string) (mk : MachinePrivate) (version : Z)
    (session : string) : eff (result (activeTunnel * bool)) :=
  u ←? getOrCreateUpstream controlHost mk version session;
  env ← emitTunnelEnvelope h (mkEnvelopeInfo "" (uc_streamID u) "" (uc_addr u) version None (uc_inner u)
          (uc_serverPub u) mk (uc_early u));
  match env with
  | Err e => _ ← releaseUpstream u; mret (Err (ErrWrap "tunnel envelope: %w" [] e))
  | Ok (tunnelID, captured) =>
      _ ← (if captured : bool then registerTunnel tunnelID else mret tt);
      mret (Ok (mkTunnel u controlHost (uc_serverPub u) (uc_serverLegacy u) mk version session tunnelID
                  None false false, captured))
  end.

(** ** [ServeStream] *)

(** [ctxErr] is the error of a context that ends before the setup does. *)
Definition waitSetup (h : Handler) (ctxErr : error) : option error :=
  if bool_decide (KeyStrategy (cfg h) = KeyStrategyBorrow) then None
  else default (Some ctxErr) (setupDone h).

Fixpoint handshakeInit (headers : list wire.Header) : result bytes :=
  match headers with
  | [] => Err (ErrNew ("missing " ++ HandshakeHeaderName ++ " header"))
  | hd :: headers =>
      if EqualFold (wire.Name hd) HandshakeHeaderName then
        let '(b, ok) := b64_decode (wire.Value hd) in
        if ok : bool then Ok b else Err (ErrNew "illegal base64 data")
      else handshakeInit headers
  end.

Definition closeStream (sc : StreamConn) : eff (option unit) := _ ← ConnClose (sc_conn sc); mret (Some tt).

Definition ServeStream (fuel : nat) (h : Handler) (ctxErr : error) (sc : StreamConn) : eff (option unit) :=
  draining ← Draining;
  if draining : bool then closeStream sc
  else if bool_decide (sc_Path sc = ts2021Path) then
    match waitSetup h ctxErr with
    | Some e => _ ← tunnelError (StreamID sc) "setup pending" e; closeStream sc
    | None =>
        match handshakeInit (RequestHeaders sc) with
        | Err e => _ ← Log "error" "ts2021: initiation header"; closeStream sc
        | Ok init => runTunnel fuel h sc init
        end
    end
  else if bool_decide (KeyStrategy (cfg h) = KeyStrategySubstitute) &&
          bool_decide (KeySubstitution (cfg h) = KeySubSidecarTLS) then
    match waitSetup h ctxErr with
    | Some e => _ ← tunnelError (StreamID sc) "setup pending" e; closeStream sc
    | None =>
        match keysubFor (keysub h) (sc_Host sc) with
        | None =>
            _ ← tunnelError (StreamID sc) "serve /key" (ErrFmt "no substitution state for host %q" [sc_Host sc]);
            closeStream sc
        | Some ks =>
            _ ← serveKey (cfg h) (MachinePublic_of (responderKey h)) ks (sc_conn sc)
                  (http_ReadRequestLine (sc_input sc));
            mret (Some tt)
        end
    end
  else closeStream sc.

(** ** [Shutdown]

    The pool is the state of [UpstreamPool], whose record of closed connections
    stands for the closes of [drainUpstreams]. *)

Definition closeTunnelNow (t : activeTunnel) : eff unit :=
  _ ← (match at_client t with Some c => ConnClose c | None => mret tt end);
  ConnClose (uc_bridge (at_up t)).

Fixpoint closeTunnels (l : list activeTunnel) : eff unit :=
  match l with
  | [] => mret tt
  | t :: l => _ ← closeTunnelNow t; closeTunnels l
  end.

(** The tunnels still open when the window closed. *)
Definition Shutdown (s : pool) : eff (Z * pool) :=
  let s := UpstreamPool.beginDrain s in
  live ← ask ne_liveTunnels;
  _ ← closeTunnels live;
  let s := drainUpstreams s in
  left ← ask (λ tr, len (List.filter (λ t, negb (ne_tornDown tr t)) live));
  mret (left, s).
End tunnel.
