(* ===== verification/NoiseInstances.v ===== *)
(** * A control surface for the witnesses: one pooled upstream, a handler that
    borrows its key, and a client stream *)

From Stdlib Require Import Init.Byte Strings.Byte Lia ZArith Ascii String.
From stdpp Require Import base option list gmap sets strings.
From S2P Require Import Prelude GoStd External Instances Adapter NoiseConfig ExternalControl ControlInstances.
From S2P Require Import TsProto MapStream UpstreamPool Bindings NoiseCapture KeySub NoiseTunnel.
Open Scope Z_scope.

Definition toy_mkey (b : Byte.byte) : @MachinePrivate toy_machines := toy_key b.
Definition toy_mpub (b : Byte.byte) : @MachinePublic toy_machines := toy_key b.

Definition toy_upstream : upstreamConn :=
  mkUpstreamConn 7 "s7" 70 (mkNoiseConn 40%nat (toy_mpub x0d) [] []) 41 (toy_mpub x0d) (toy_mpub x00)
    (mkEarly [] None) "c.example:443".

Definition toy_control : activeTunnel :=
  mkTunnel toy_upstream "c.example" (toy_mpub x0d) (toy_mpub x00) (toy_mkey x0e) 130 "" "t1" (Some 30%nat) false false.

#[export] Instance toy_noise_env : NoiseEnv := {|
  ne_acquire _ _ := Ok toy_upstream;
  ne_tryAcquire _ _ := true;
  ne_draining _ := false;
  ne_freshSeq _ := 1;
  ne_getTunnel _ id := if bool_decide (id = "t1"%string) then Some toy_control else None;
  ne_liveTunnels _ := [toy_control];
  ne_tornDown _ _ := true
|}.

Definition toy_config : ControlConfig :=
  mkControlConfig ["c.example"%string] ∅ KeyStrategyBorrow KeySubResponder "key" "" "" "" "shared" UpstreamSchemeAuto
    PoolModeShared EarlyNoiseForward.

Definition toy_noise : Handler :=
  mkHandler toy_config "sidescale" "c.example" (toy_mkey x0b) (λ _, Ok (toy_mkey x0e)) (Some (mkRegisterSigner (Some x21) [[x31]]))
    (Some x41) [] (Some None).

Definition toy_control_stream : StreamConn :=
  mkStream 20 "s1" ts2021Path "c.example" [wire.mkHeader HandshakeHeaderName "AII="] "f1" "198.51.100.7:9" [].
