(* ===== verification/NoiseTunnelSpec.v ===== *)
(** * The life of a Noise tunnel

    What a stream handed to [ServeStream] does on every path: which references on
    pooled upstreams it takes and returns, when it is registered, completed and
    deregistered, what every inner request is answered, and that it ends. *)

From Stdlib Require Import Init.Byte Strings.Byte Lia ZArith Ascii String.
From stdpp Require Import base option list gmap sets strings.
From S2P Require Import Prelude GoStd External Instances Adapter Trace NoiseConfig ExternalControl ControlInstances.
From S2P Require Import TsProto MapStream UpstreamPool Bindings NoiseCapture KeySub NoiseTunnel NoiseInstances.
Open Scope Z_scope.
Open Scope go_scope.

(** ** Events

    [inner_event]: neither a reference on an upstream, nor the registry, nor a
    response or a forward. *)

Definition inner_event (e : event) : Prop :=
  match e with
  | EvAcquire _ | EvRelease _ | EvRegistered _ | EvTornDown _ | EvRespond _ _ _ | EvForward _ _ _ _ _ => False
  | _ => True
  end.

(** The references on [u] that the events take, less those they return. *)
Fixpoint refs_of (u : nat) (evs : list event) : Z :=
  match evs with
  | [] => 0
  | EvAcquire v :: evs => (if decide (v = u) then 1 else 0) + refs_of u evs
  | EvRelease v :: evs => refs_of u evs - (if decide (v = u) then 1 else 0)
  | _ :: evs => refs_of u evs
  end.

(** Registrations and deregistrations, in order. *)
Definition registry (evs : list event) : list event :=
  List.filter (λ e, match e with EvRegistered _ | EvTornDown _ => true | _ => false end) evs.

(** The response writers that were answered, and the connections forwarded on. *)
Definition answers (evs : list event) : list connid :=
  omap (λ e, match e with EvRespond w _ _ => Some w | _ => None end) evs.
Definition forwards (evs : list event) : list connid :=
  omap (λ e, match e with EvForward c _ _ _ _ => Some c | _ => None end) evs.

Lemma refs_of_app u l1 l2 : refs_of u (l1 ++ l2) = refs_of u l1 + refs_of u l2.
Proof. induction l1 as [|[] l1 IH]; cbn [app refs_of]; lia. Qed.
Lemma registry_app l1 l2 : registry (l1 ++ l2) = registry l1 ++ registry l2.
Proof. apply List.filter_app. Qed.
Lemma answers_app l1 l2 : answers (l1 ++ l2) = answers l1 ++ answers l2.
Proof. apply omap_app. Qed.
Lemma forwards_app l1 l2 : forwards (l1 ++ l2) = forwards l1 ++ forwards l2.
Proof. apply omap_app. Qed.

Lemma inner_events evs :
  Forall inner_event evs → (∀ u, refs_of u evs = 0) ∧ registry evs = [] ∧ answers evs = [] ∧ forwards evs = [].
Proof. induction 1 as [|[] evs He _ (IH1 & IH2 & IH3 & IH4)]; try done; repeat split; try done; naive_solver. Qed.

(** ** Quiet computations *)

Section quiet.
Context `{Env}.
Lemma emits_Log l m : emits inner_event (Log l m). Proof. by apply emits_emit. Qed.
Lemma emits_PushFlow f : emits inner_event (PushFlow f). Proof. by apply emits_write. Qed.
Lemma emits_CompleteFlow i : emits inner_event (CompleteFlow i). Proof. by apply emits_emit. Qed.
Lemma emits_ApplyBody b rt : emits inner_event (ApplyBody b rt). Proof. apply emits_read. Qed.
Lemma emits_ApplyHeaders b rt : emits inner_event (ApplyHeaders b rt). Proof. apply emits_read. Qed.
Lemma emits_ConnWrite c b : emits inner_event (ConnWrite c b). Proof. by apply emits_write. Qed.
Lemma emits_ConnClose c : emits inner_event (ConnClose c). Proof. by apply emits_emit. Qed.
Lemma emits_Deadline c b : emits inner_event (SetReadDeadline c b). Proof. by apply emits_emit. Qed.
Lemma emits_Now : emits inner_event Now. Proof. apply emits_read. Qed.
End quiet.
#[export] Hint Resolve emits_Log emits_PushFlow emits_CompleteFlow emits_ApplyBody emits_ApplyHeaders
  emits_ConnWrite emits_ConnClose emits_Deadline emits_Now : emits.

Section capture.
Context `{HTTP} `{JSON} `{!Slices} `{Reassembler} `{Zstd} `{Env}.

Lemma emits_captureError {A} stage (r : result A) : emits inner_event (captureError stage r).
Proof. unfold captureError. solve_emits. Qed.
Lemma emits_appendHTTPHeaders out h : emits inner_event (appendHTTPHeaders out h).
Proof. apply emits_read. Qed.
#[local] Hint Resolve emits_captureError emits_appendHTTPHeaders : emits.
Lemma emits_apply_rules b h r1 r2 : emits inner_event (apply_rules b h r1 r2).
Proof. unfold apply_rules. solve_emits. Qed.
#[local] Hint Resolve emits_apply_rules : emits.
Lemma emits_responseHeaders resp : emits inner_event (responseHeaders resp).
Proof. unfold responseHeaders. solve_emits. Qed.
#[local] Hint Resolve emits_responseHeaders : emits.
Lemma emits_streamParent tid resp h : emits inner_event (streamParent tid resp h).
Proof. unfold streamParent. solve_emits. Qed.
#[local] Hint Resolve emits_streamParent : emits.

Lemma emits_captureOutgoing host tid req : emits inner_event (captureOutgoing host tid req).
Proof. unfold captureOutgoing, requestHeaders, captureRequest. solve_emits. Qed.

Lemma emits_captureIncoming tid req b r : emits inner_event (captureIncoming tid req b r).
Proof. unfold captureIncoming, captureStream, captureResponse. solve_emits. Qed.

Lemma emits_copyPieces w bs : emits inner_event (copyPieces w bs).
Proof. induction bs; cbn [copyPieces]; solve_emits. Qed.

Lemma emits_finish r : emits inner_event (MapStream.finish r).
Proof. unfold MapStream.finish. solve_emits. Qed.
#[local] Hint Resolve emits_finish : emits.

Lemma emits_Close r : emits inner_event (MapStream.Close r).
Proof. unfold MapStream.Close. solve_emits. Qed.

Lemma emits_processFrame p f : emits inner_event (processFrame p f).
Proof. unfold processFrame, push_chunk. solve_emits. Qed.
#[local] Hint Resolve emits_processFrame : emits.

Lemma emits_fill_once r : emits inner_event (fill_once r).
Proof. unfold fill_once, fail_read. solve_emits. Qed.

Lemma emits_Read k r : emits inner_event (MapStream.Read k r).
Proof.
  unfold MapStream.Read. assert (∀ n r, emits inner_event (fill n r)) as Hf; [|by solve_emits].
  intros n. induction n as [|n IH]; intros r1; cbn [fill]; pose proof (emits_fill_once r1); solve_emits.
Qed.

(** ** The copy to the client ends

    Every read that delivers consumes a frame of the stream, or a part of the
    frame at hand. *)

Definition remaining (r : mapStreamReader) : nat := length (buffered (MapStream.re r)) + length (script_bytes (MapStream.input r)).

Lemma split_cases buf fe :
  (∃ n, MapStream.split buf fe = (Z.of_nat n, true, fe) ∧ (0 < n ≤ length buf)%nat) ∨
  (∃ fe', MapStream.split buf fe = (0, false, fe')).
Proof.
  unfold MapStream.split, mapFramePrefixLen. destruct (Z.ltb_spec (len buf) 4); [eauto|].
  set (l := le_get _). destruct (_ <? l); [eauto|]. destruct (Z.ltb_spec (len buf) (4 + l)); [eauto|].
  assert (0 <= l) as Hl by apply le_get_bound.
  left. exists (Z.to_nat (4 + l)). split; [by rewrite Z2Nat.id by lia|lia].
Qed.

Context `{!ReassemblerLaws}.
#[local] Opaque copyBuf.

Lemma fill_once_remaining r tr o r' tr' :
  pending r = [] → fill_once r tr = ((o, r'), tr') →
  match o with
  | Some (Ok _) => (remaining r' < remaining r)%nat
  | Some (Err _) => True
  | None => pending r' = [] ∧ (remaining r' ≤ remaining r)%nat
  end.
Proof.
  intros Hp. unfold fill_once, remaining. rewrite Hp.
  destruct (split_cases (buffered (MapStream.re r)) (frameErr r)) as [(n & Hs & Hn)|(fe & Hs)].
  - destruct (Next_split _ _ _ _ _ Hs) as (x & -> & Hx). unfold mbind, eff_bind.
    destruct (processFrame _ _ tr) as [[out|e] tr1]; [|unfold fail_read, mbind, eff_bind; by destruct (MapStream.finish _ _) as [? ?]; intros [= <- <- <-]].
    intros [= <- <- <-]. cbn. rewrite Hx, length_drop, Nat2Z.id. unfold script_bytes. lia.
  - destruct (Next_none _ _ _ _ _ Hs) as (x & -> & Hx).
    assert (∀ e r2, fail_read e r2 tr = ((o, r'), tr') → ∃ e', o = Some (Err e')) as Hfail.
    { intros e r2. unfold fail_read, mbind, eff_bind. destruct (MapStream.finish _ _). intros [= <- <- <-]. eauto. }
    destruct fe as [e|]; [intros E; by destruct (Hfail _ _ E) as [? ->]|].
    change (MapStream.done (r_re x None r)) with (MapStream.done r).
    change (MapStream.input (r_re x None r)) with (MapStream.input r).
    destruct (MapStream.done r); [intros E; by destruct (Hfail _ _ E) as [? ->]|].
    assert (∀ b l, MapStream.input r = b :: l → ∀ d, let r2 := r_input (if 0 <? len (fst b) then Append x (fst b) else x) d l (r_re x None r) in
      pending r2 = [] ∧ (length (buffered (MapStream.re r2)) + length (script_bytes (MapStream.input r2))
        ≤ length (buffered (MapStream.re r)) + length (script_bytes (b :: l)))%nat) as Hwait.
    { intros [b e] l _ d. cbn -[Z.ltb]. split; [done|]. rewrite Append_if', Hx. unfold script_bytes. cbn.
      rewrite !length_app. lia. }
    destruct (MapStream.input r) as [|[b [e|]] l] eqn:Ei; cbn [fst] in Hwait.
    + intros [= <- <- <-]. cbn. by rewrite Hx.
    + case_bool_decide; [|intros E; by destruct (Hfail _ _ E) as [? ->]]. intros [= <- <- <-]. by apply (Hwait _ _ eq_refl).
    + intros [= <- <- <-]. by apply (Hwait _ _ eq_refl).
Qed.

Lemma fill_remaining n : ∀ r tr r' tr',
  pending r = [] → fill n r tr = ((Some (Ok tt), r'), tr') → (remaining r' < remaining r)%nat.
Proof.
  induction n as [|n IH]; intros r tr r' tr' Hp; [done|]. cbn [fill]. unfold mbind, eff_bind.
  destruct (fill_once r tr) as [[o r1] tr1] eqn:E. pose proof (fill_once_remaining _ _ _ _ _ Hp E) as Hr.
  destruct o as [[[]|e]|]; [by intros [= <- <-]|done|]. intros E2. apply IH in E2; [lia|apply Hr].
Qed.

(** One read: it fails, or it consumes something. *)
Lemma Read_consumes k r tr :
  (0 < k)%nat →
  ∃ o r' tr', MapStream.Read k r tr = ((Some o, r'), tr') ∧
    match o with
    | Err _ => True
    | Ok _ => (remaining r' < remaining r)%nat ∨
              (remaining r' = remaining r ∧ (length (pending r') < length (pending r))%nat)
    end.
Proof.
  intros Hk. destruct (pending r) as [|x b] eqn:Hp.
  - pose proof (Read_step k r tr) as Hr. destruct (MapStream.Read k r tr) as [[o r'] tr'] eqn:E.
    destruct Hr as [_ [o' ->]]. exists o', r', tr'. split; [done|]. destruct o' as [b|e]; [|done]. left.
    revert E. unfold MapStream.Read, mbind, eff_bind. destruct (fill _ r tr) as [[[[[]|e]|] r1] tr1] eqn:Ef; try done.
    intros [= <- <- <-]. by apply (fill_remaining _ _ _ _ _ Hp) in Ef.
  - eexists _, _, _. split; [apply Read_pending; by rewrite Hp|]. right. rewrite Hp. split; [done|].
    cbn [pending r_pending]. rewrite length_drop. simpl. lia.
Qed.

Lemma copy_ends w r tr : ends (λ evs _, Forall inner_event evs) (λ n, flushingCopy n w r) tr.
Proof.
  remember (remaining r) as m eqn:Hm. revert r tr Hm.
  induction (lt_wf m) as [m _ IHm]. intros r tr ->.
  remember (length (pending r)) as p eqn:Hp. revert r tr IHm Hp.
  induction (lt_wf p) as [p _ IHp]. intros r tr IHm ->.
  destruct (Read_consumes copyBuf r tr copyBuf_pos) as (o & r' & tr' & E & Ho).
  destruct (emits_Read copyBuf r tr) as (e1 & E1 & Q1). rewrite E in E1. cbn [snd] in E1. subst tr'.
  assert (∀ tr2, match o with Ok _ => ends (λ evs _, Forall inner_event evs) (λ n, flushingCopy n w r') tr2 | _ => True end) as Hrec.
  { intros tr2. destruct o; [|done]. destruct Ho as [Hlt|[Heq Hlt]]; [by eapply IHm|].
    eapply (IHp _ Hlt); [|done]. intros y Hy. rewrite Heq in Hy. by apply IHm. }
  destruct o as [b|e].
  2: { exists 1%nat, r', e1. split; [|done]. intros k. cbn [Nat.add flushingCopy]. unfold mbind, eff_bind. by rewrite E. }
  destruct (Z.ltb_spec 0 (len b)) as [Hb|Hb].
  - destruct (env_Write (tr ++ e1) w b) as [e|] eqn:Ew.
    + exists 1%nat, r', (e1 ++ [EvWrite w b]). split; [|apply Forall_app; split; [done|by repeat constructor]].
      intros k. cbn [Nat.add flushingCopy]. unfold mbind, eff_bind, ConnWrite. rewrite E.
      rewrite (proj2 (Z.ltb_lt _ _) Hb), Ew. by rewrite app_assoc.
    + destruct (Hrec ((tr ++ e1) ++ [EvWrite w b])) as (n & a & evs & En & Hf).
      exists (S n), a, (e1 ++ [EvWrite w b] ++ evs).
      split; [|apply Forall_app; split; [done|apply Forall_app; split; [by repeat constructor|done]]].
      intros k. cbn [Nat.add flushingCopy]. unfold mbind at 1, eff_bind at 1. rewrite E.
      rewrite (proj2 (Z.ltb_lt _ _) Hb). unfold mbind, eff_bind, ConnWrite. rewrite Ew, En. by rewrite !app_assoc.
  - destruct (Hrec (tr ++ e1)) as (n & a & evs & En & Hf).
    exists (S n), a, (e1 ++ evs). split; [|by apply Forall_app].
    intros k. cbn [Nat.add flushingCopy]. unfold mbind at 1, eff_bind at 1. rewrite E.
    destruct (Z.ltb_spec 0 (len b)); [lia|]. by rewrite En, app_assoc.
Qed.
End capture.
#[export] Hint Resolve emits_captureOutgoing emits_captureIncoming emits_copyPieces emits_Close : emits.

(** ** The bound upstream *)

Section serve.
Context `{MachineKeys} `{HWKeys} `{!TailcfgJSON} `{Signing} `{JSON} `{Addr} `{URLParse} `{Core} `{CapVersion}.
Context `{HTTP} `{!Slices} `{!ControlBase} `{EarlyNoiseMsg} `{ReassemblerLaws} `{Zstd} `{Bulk} `{Env} `{Network}.
Context `{!NoiseEnv}.

Definition holds (u : nat) (t : activeTunnel) : Z := if decide (uc_id (NoiseTunnel.at_up t) = u) then 1 else 0.

(** [t] with another upstream. *)
Definition bind_up (u : upstreamConn) (failed : bool) (t : activeTunnel) : activeTunnel :=
  mkTunnel u (at_controlHost t) (at_serverPub t) (at_serverLegacy t) (at_machineKey t) (at_version t)
    (at_session t) (at_flowID t) (at_client t) (NoiseTunnel.at_closed t) failed.

Definition same_tunnel (t t' : activeTunnel) : Prop := ∃ u f, t' = bind_up u f t.

Lemma same_tunnel_refl t : same_tunnel t t.
Proof. exists (at_up t), (at_healFailed t). by destruct t. Qed.
Lemma same_tunnel_trans t1 t2 t3 : same_tunnel t1 t2 → same_tunnel t2 t3 → same_tunnel t1 t3.
Proof. intros (u & f & ->) (v & g & ->). by exists v, g. Qed.

(** What serving a request does to a tunnel: it may be bound to another upstream,
    whose reference it then holds instead. *)
Record serve_step (t t' : activeTunnel) (evs : list event) : Prop := {
  ss_same : same_tunnel t t';
  ss_refs u : refs_of u evs = holds u t' - holds u t;
  ss_registry : registry evs = []
}.

Lemma serve_step_inner t evs : Forall inner_event evs → serve_step t t evs.
Proof.
  intros Q. destruct (inner_events evs Q) as (Q1 & Q2 & _). split; [apply same_tunnel_refl| |done].
  intros u. rewrite Q1. lia.
Qed.

Lemma serve_step_trans t1 t2 t3 e1 e2 :
  serve_step t1 t2 e1 → serve_step t2 t3 e2 → serve_step t1 t3 (e1 ++ e2).
Proof.
  intros [S1 R1 G1] [S2 R2 G2]. split; [by eapply same_tunnel_trans| |by rewrite registry_app, G1, G2].
  intros u. rewrite refs_of_app, R1, R2. lia.
Qed.

Lemma serve_step_closed t t' evs : serve_step t t' evs → NoiseTunnel.at_closed t' = NoiseTunnel.at_closed t.
Proof. by intros [(u & f & ->) _ _]. Qed.

(** What a request may do to the upstream its tunnel is bound to: nothing, unless
    the connection is no longer usable and the pool was asked for another. *)
Inductive after_request (t : activeTunnel) : activeTunnel → Prop :=
  | kept : after_request t t
  | healed tr tr2 u :
      h2_Usable tr (uc_bridge (at_up t)) = false →
      ne_acquire tr2 (mkPoolKey (MachinePublic_of (at_machineKey t)) (at_controlHost t) (at_version t) (at_session t)) = Ok u →
      after_request t (rebind_up u t)
  | wedged tr tr2 e :
      h2_Usable tr (uc_bridge (at_up t)) = false →
      ne_acquire tr2 (mkPoolKey (MachinePublic_of (at_machineKey t)) (at_controlHost t) (at_version t) (at_session t)) = Err e →
      after_request t (heal_failed t).

Lemma healUpstream_outcome t tr tr0 :
  h2_Usable tr0 (uc_bridge (at_up t)) = false →
  outcome (λ evs t', serve_step t t' evs ∧ answers evs = [] ∧ forwards evs = [] ∧ after_request t t')
    (healUpstream t (at_up t)) tr.
Proof.
  intros Hu. unfold healUpstream. rewrite bool_decide_true by done. cbn [orb negb].
  destruct (NoiseTunnel.at_closed t); cbn [orb].
  { apply out_ret. split; [by apply serve_step_inner|]. eauto using kept. }
  apply out_bind. apply out_emit. apply out_bind.
  unfold outcome at 1, getOrCreateUpstream. destruct (ne_acquire _ _) as [fresh|e] eqn:Ea.
  - eexists _, [_]. split; [reflexivity|]. do 2 (apply out_bind, out_emit). apply out_ret.
    split; [|by do 2 (split; [done|]); eapply healed]. split; [by exists fresh, false| |done]. intros u. cbn. unfold holds. cbn. lia.
  - eexists _, []. split; [by rewrite app_nil_r|]. apply out_bind.
    assert (∀ (m : eff unit), emits inner_event m → outcome (λ evs _, outcome (λ evs2 t',
      serve_step t t' ([EvEvict (uc_id (at_up t))] ++ [] ++ evs ++ evs2) ∧
      answers ([EvEvict (uc_id (at_up t))] ++ [] ++ evs ++ evs2) = [] ∧
      forwards ([EvEvict (uc_id (at_up t))] ++ [] ++ evs ++ evs2) = [] ∧ after_request t t') (mret (heal_failed t))
      (((tr ++ [EvEvict (uc_id (at_up t))]) ++ []) ++ evs)) m ((tr ++ [EvEvict (uc_id (at_up t))]) ++ [])) as Hlog.
    { intros m Hm. apply (out_weaken _ _ _ _ (out_emits _ m _ Hm)). intros evs [] Q. apply out_ret.
      rewrite app_nil_r. destruct (inner_events evs Q) as (Q1 & Q2 & Q3 & Q4). split; [|by do 2 (split; [done|]); eapply wedged].
      split; [by exists (at_up t), true| |done]. intros u. cbn. rewrite Q1. unfold holds. cbn. lia. }
    apply Hlog. destruct (at_healFailed t); auto with emits.
Qed.

Lemma forwardTunnel_outcome t req tr :
  outcome (λ evs x, serve_step t (snd x) evs ∧ answers evs = [] ∧ forwards evs = [uc_bridge (at_up t)] ∧
    after_request t (snd x))
    (forwardTunnel t req) tr.
Proof.
  unfold forwardTunnel. apply out_bind. unfold outcome at 1, Forward.
  eexists _, [_]. split; [reflexivity|]. set (ef := EvForward _ _ _ _ _).
  assert (serve_step t t [ef]) as Hf by (split; [apply same_tunnel_refl|intros u; cbn; lia|done]).
  destruct (h2_RoundTrip _ _ _) as [resp|e]; [by apply out_ret; eauto using kept|].
  apply out_bind, out_read. destruct (h2_Usable _ _) eqn:Hu; [by apply out_ret; eauto using kept|].
  apply out_bind. apply (out_weaken _ _ _ _ (healUpstream_outcome t _ _ Hu)).
  intros evs t' (Hs & Ha & Hw & Hr). apply out_ret. cbn [snd]. rewrite app_nil_r.
  split; [by apply (serve_step_trans t t t' [ef])|]. by rewrite !answers_app, !forwards_app, Ha, Hw.
Qed.

(** ** One request *)

(** One answer, at most one forward, on the connection bound when it began. *)
Definition served (t : activeTunnel) (w : connid) (evs : list event) (t' : activeTunnel) : Prop :=
  serve_step t t' evs ∧ answers evs = [w] ∧ (forwards evs = [] ∨ forwards evs = [uc_bridge (at_up t)]) ∧
  after_request t t'.

Lemma writeHead_outcome w code h tr :
  outcome (λ evs _, ∃ hd, evs = [EvRespond w code hd]) (writeHead w code h) tr.
Proof. eexists tt, [_]. split; [reflexivity|]. by eexists. Qed.

Lemma serve_step_respond t w code hd evs :
  Forall inner_event evs → serve_step t t (EvRespond w code hd :: evs).
Proof.
  intros Q. destruct (inner_events evs Q) as (Q1 & Q2 & _).
  split; [apply same_tunnel_refl| |done]. intros u. cbn. rewrite Q1. lia.
Qed.

Lemma relay_ends t w a tr :
  ends (λ evs _, serve_step t t evs ∧ answers evs = [w] ∧ forwards evs = []) (λ n, relay n w a) tr.
Proof.
  assert (∀ code hd evs, Forall inner_event evs →
    serve_step t t ([EvRespond w code hd] ++ evs) ∧ answers ([EvRespond w code hd] ++ evs) = [w] ∧
    forwards ([EvRespond w code hd] ++ evs) = []) as Hq.
  { intros code hd evs Q. split; [by apply serve_step_respond|]. destruct (inner_events evs Q) as (_ & _ & Q3 & Q4).
    by rewrite answers_app, forwards_app, Q3, Q4. }
  destruct a as [code h body|code h r]; cbn [relay].
  - apply (ends_bind _ _ (λ _ _, _ ← copyPieces w (pieces body); mret (Some tt))).
    apply (out_weaken _ _ _ _ (writeHead_outcome w code h tr)). intros evs [] [hd ->].
    apply (ends_bind _ _ (λ _ _, mret (Some tt))).
    apply (out_weaken _ _ _ _ (out_emits _ _ _ (emits_copyPieces w (pieces body)))). intros evs [] Q.
    apply ends_ret. rewrite app_nil_r. by apply Hq.
  - apply (ends_bind _ _ (λ n _, obind (flushingCopy n w r) _)).
    apply (out_weaken _ _ _ _ (writeHead_outcome w code h tr)). intros evs [] [hd ->].
    apply (ends_obind _ (λ n, flushingCopy n w r) (λ _ r, _ ← MapStream.Close r; mret (Some tt))).
    apply (ends_weaken _ _ _ _ (copy_ends w r _)). intros evs r' Q.
    apply (ends_bind _ _ (λ _ _, mret (Some tt))).
    apply (out_weaken _ _ _ _ (out_emits _ _ _ (emits_Close r'))). intros evs2 r2 Q2.
    apply ends_ret. rewrite app_nil_r. apply Hq. by apply Forall_app.
Qed.

Lemma serveInner_ends t req w tr : ends (served t w) (λ n, serveInner n t req w) tr.
Proof.
  apply (ends_bind _ _ (λ n o, match o with Err _ => _ | Ok (fwdBody, out) => _ end)).
  apply (out_weaken _ _ _ _ (out_emits _ _ _ (emits_captureOutgoing _ _ req))). intros e1 o Q1.
  pose proof (inner_events e1 Q1) as (_ & _ & A1 & F1).
  destruct o as [[fwdBody out]|e].
  - apply (ends_bind _ _ (λ n '(r, t), _)).
    apply (out_weaken _ _ _ _ (forwardTunnel_outcome t out _)). intros e2 [r t'] (S2 & A2 & F2 & N2). cbn [snd] in S2, N2.
    apply (ends_bind _ _ (λ n a, match a with Err _ => _ | Ok a => _ end)).
    apply (out_weaken _ _ _ _ (out_emits _ _ _ (emits_captureIncoming _ req fwdBody r))). intros e3 a Q3.
    pose proof (inner_events e3 Q3) as (_ & _ & A3 & F3).
    assert (∀ e4, serve_step t' t' e4 ∧ answers e4 = [w] ∧ forwards e4 = [] → served t w (e1 ++ e2 ++ e3 ++ e4) t') as Hserved.
    { intros e4 (S4 & A4 & F4). split; [|by rewrite !answers_app, !forwards_app, A1, A2, A3, A4, F1, F2, F3, F4; auto].
      eapply serve_step_trans; [by apply serve_step_inner|]. eapply serve_step_trans; [exact S2|].
      eapply serve_step_trans; [by apply serve_step_inner|exact S4]. }
    destruct a as [a|e].
    + apply (ends_obind _ (λ n, relay n w a) (λ _ _, mret (Some t'))).
      apply (ends_weaken _ _ _ _ (relay_ends t' w a _)). intros e4 [] Q4. apply ends_ret. rewrite app_nil_r. by apply Hserved.
    + apply (ends_bind _ _ (λ _ _, mret (Some t'))).
      apply (out_weaken _ _ _ _ (writeHead_outcome w 502 [] _)). intros e4 [] [hd ->]. apply ends_ret.
      rewrite app_nil_r. apply Hserved. split; [by apply serve_step_respond|done].
  - apply (ends_bind _ _ (λ _ _, mret (Some t))).
    apply (out_weaken _ _ _ _ (writeHead_outcome w 502 [] _)). intros e4 [] [hd ->]. apply ends_ret.
    rewrite app_nil_r. split; [|rewrite answers_app, forwards_app, A1, F1; eauto using kept].
    eapply serve_step_trans; [by apply serve_step_inner|by apply serve_step_respond].
Qed.

(** All of them, in order. *)
Lemma ServeCapture_ends reqs : ∀ t tr,
  ends (λ evs t', serve_step t t' evs ∧ answers evs = map snd reqs ∧ (length (forwards evs) ≤ length reqs)%nat) (λ n, ServeCapture n t reqs) tr.
Proof.
  induction reqs as [|[req w] reqs IH]; intros t tr; cbn [ServeCapture].
  - apply ends_ret. split; [by apply serve_step_inner|done].
  - apply (ends_obind _ (λ n, serveInner n t req w) (λ n t, ServeCapture n t reqs)).
    apply (ends_weaken _ _ _ _ (serveInner_ends t req w tr)). intros e1 t1 (S1 & A1 & F1 & _).
    apply (ends_weaken _ _ _ _ (IH t1 _)). intros e2 t2 (S2 & A2 & F2).
    split; [by eapply serve_step_trans|]. split; [by rewrite answers_app, A1, A2|].
    rewrite forwards_app, length_app. cbn [length]. destruct F1 as [-> | ->]; cbn [length]; lia.
Qed.

(** ** The tunnel *)

Lemma emits_tunnelError id st e : emits inner_event (NoiseTunnel.tunnelError id st e).
Proof. apply emits_Log. Qed.
Lemma emits_emitTunnelEnvelope h i : emits inner_event (NoiseTunnel.emitTunnelEnvelope h i).
Proof. unfold NoiseTunnel.emitTunnelEnvelope. solve_emits. Qed.
Lemma emits_clientEarlyNoise h e : emits inner_event (clientEarlyNoise h e).
Proof. unfold clientEarlyNoise, ask. solve_emits. Qed.
#[local] Hint Resolve emits_tunnelError emits_emitTunnelEnvelope emits_clientEarlyNoise : emits.

(** An outcome that only concerns the tunnel and its events. *)
Lemma ends_after {A B} (Q : list event → B → Prop) (m : eff A) (k : nat → A → eff (option B)) tr :
  emits inner_event m →
  (∀ e1 a, Forall inner_event e1 → ends (λ e2 b, Q (e1 ++ e2) b) (λ n, k n a) (tr ++ e1)) →
  ends Q (λ n, m ≫= k n) tr.
Proof.
  intros Hm Hk. apply ends_bind. apply (out_weaken _ _ _ _ (out_emits _ m tr Hm)). intros e1 a Q1. by apply Hk.
Qed.

Lemma serve_step_after t t' e1 e2 : Forall inner_event e1 → serve_step t t' e2 → serve_step t t' (e1 ++ e2).
Proof. intros Q1 S2. eapply serve_step_trans; [by apply serve_step_inner|exact S2]. Qed.

(** Logging a failure and keeping the tunnel. *)
Lemma ends_log_keep {A} (a : A) (P : list event → A → Prop) (m : eff unit) tr :
  emits inner_event m → (∀ e, Forall inner_event e → P e a) → ends P (λ _, _ ← m; mret (Some a)) tr.
Proof.
  intros Hm HP. apply (ends_after _ m (λ _ _, mret (Some a))); [done|]. intros e1 [] Q1. apply ends_ret.
  rewrite app_nil_r. by apply HP.
Qed.

Lemma tunnelServe_ends h sc inner t tr :
  ends (λ evs t', serve_step t t' evs) (λ n, tunnelServe n h sc inner t) tr.
Proof.
  apply (ends_after _ NoiseTunnel.Draining (λ n (b : bool), if b then _ else _)); [apply emits_read|].
  intros e1 [|] Q1; [apply ends_ret; apply serve_step_after; [done|by apply serve_step_inner]|].
  apply (ends_after _ _ (λ n r, match r with Err _ => _ | Ok _ => _ end)); [apply emits_clientEarlyNoise|].
  intros e2 [early|e] Q2.
  2: { apply ends_log_keep; [apply emits_tunnelError|]. intros e3 Q3. do 2 (apply serve_step_after; [done|]). by apply serve_step_inner. }
  apply (ends_after _ _ (λ n r, match r with Some _ => _ | None => _ end)); [solve_emits|].
  intros e3 [e|] Q3.
  1: { apply ends_log_keep; [apply emits_tunnelError|]. intros e4 Q4. do 3 (apply serve_step_after; [done|]). by apply serve_step_inner. }
  apply (ends_after _ _ (λ n _, reqs ← _; ServeCapture n t reqs)); [apply emits_Log|]. intros e4 [] Q4.
  apply (ends_after _ _ (λ n reqs, ServeCapture n t reqs)); [apply emits_read|]. intros e5 reqs Q5.
  apply (ends_weaken _ _ _ _ (ServeCapture_ends reqs t _)). intros e6 t' [S6 _].
  by do 5 (apply serve_step_after; [done|]).
Qed.

(** Registered and deregistered at most once, the envelope completed in between. *)
Definition envelope_done (evs tail : list event) : Prop :=
  registry evs = [] ∨
  ∃ id pre, registry evs = [EvRegistered id; EvTornDown id] ∧ evs = pre ++ [EvComplete id; EvTornDown id] ++ tail.

Lemma envelope_done_cons e1 evs tail :
  registry e1 = [] → envelope_done evs tail → envelope_done (e1 ++ evs) tail.
Proof.
  intros G1 [G|(id & pre & G & ->)]; [left; by rewrite registry_app, G1|].
  right. exists id, (e1 ++ pre). rewrite registry_app, G1, G. by rewrite <-app_assoc.
Qed.

Lemma envelope_done_snoc evs tail e2 :
  registry e2 = [] → envelope_done evs tail → envelope_done (evs ++ e2) (tail ++ e2).
Proof.
  intros G2 [G|(id & pre & G & ->)]; [left; by rewrite registry_app, G, G2|].
  right. exists id, pre. rewrite registry_app, G, G2. split; [done|]. by rewrite <-!app_assoc.
Qed.

Lemma tunnelCaptured_ends h sc inner t env tr :
  NoiseTunnel.at_closed t = false →
  ends (λ evs t', NoiseTunnel.at_closed t' = false ∧ (∀ u, refs_of u evs = holds u t' - holds u t) ∧ envelope_done evs [])
    (λ n, tunnelCaptured n h sc inner t env) tr.
Proof.
  intros Hc.
  assert (∀ evs t', serve_step t t' evs → NoiseTunnel.at_closed t' = false ∧
    (∀ u, refs_of u evs = holds u t' - holds u t) ∧ envelope_done evs []) as Hplain.
  { intros evs t' S. rewrite (serve_step_closed _ _ _ S). destruct S. by repeat split; [|..|left]. }
  destruct env as [[id [|]]|e]; cbn [tunnelCaptured].
  - apply (ends_bind _ (registerTunnel id) (λ n _, obind (tunnelServe n h sc inner (set_flowID id t)) _)).
    apply out_emit. apply (ends_obind _ (λ n, tunnelServe n h sc inner (set_flowID id t)) (λ _ t, _ ← completeTunnel t; mret (Some t))).
    apply (ends_weaken _ _ _ _ (tunnelServe_ends h sc inner (set_flowID id t) _)). intros e2 t' S2.
    pose proof (serve_step_closed _ _ _ S2) as Hc2. destruct S2 as [(v & f & ->) R2 G2].
    apply (ends_bind _ _ (λ _ _, mret (Some _))). apply out_bind, out_emit, out_emit, ends_ret.
    cbn [at_flowID bind_up set_flowID] in *. split; [done|]. split.
    + intros u. rewrite !refs_of_app, R2. cbn. unfold holds. cbn. lia.
    + right. exists id, (EvRegistered id :: e2). split; [|by rewrite app_nil_r].
      rewrite !registry_app, G2. done.
  - apply (ends_weaken _ _ _ _ (tunnelServe_ends h sc inner t _)). intros evs t' S. by apply Hplain.
  - apply ends_log_keep; [apply emits_tunnelError|]. intros evs Q. apply Hplain. by apply serve_step_inner.
Qed.

Definition balanced (evs : list event) : Prop := ∀ u, refs_of u evs = 0.

Lemma balanced_inner evs : Forall inner_event evs → balanced evs ∧ ∀ tail, envelope_done evs tail.
Proof. intros Q. destruct (inner_events evs Q) as (Q1 & Q2 & _). split; [done|]. intros tail. by left. Qed.

Lemma tunnelBound_ends h sc inner host mk version u tr :
  ends (λ evs _, (∀ v, refs_of v evs = - (if decide (uc_id u = v) then 1 else 0)) ∧
                 ∃ v, envelope_done evs [EvRelease v])
    (λ n, tunnelBound n h sc inner host mk version u) tr.
Proof.
  unfold tunnelBound. cbv zeta. set (t := mkTunnel _ _ _ _ _ _ _ _ _ _ _).
  apply (ends_after _ _ (λ n env, obind (tunnelCaptured n h sc inner t env) _)); [apply emits_emitTunnelEnvelope|].
  intros e1 env Q1. destruct (inner_events e1 Q1) as (R1 & G1 & _).
  apply (ends_obind _ (λ n, tunnelCaptured n h sc inner t env) (λ _ t, _ ← NoiseTunnel.closeTunnel t; mret (Some tt))).
  apply (ends_weaken _ _ _ _ (tunnelCaptured_ends h sc inner t env _ eq_refl)). intros e2 t' (Hc & R2 & D2).
  apply (ends_bind _ _ (λ _ _, mret (Some tt))). unfold NoiseTunnel.closeTunnel. rewrite Hc. apply out_emit, ends_ret.
  rewrite app_nil_r. split.
  - intros v. rewrite !refs_of_app, R1, R2. cbn. unfold holds. cbn [NoiseTunnel.at_up t]. lia.
  - exists (uc_id (at_up t')). apply envelope_done_cons; [done|]. by apply (envelope_done_snoc e2 []).
Qed.

Lemma tunnelHandshaken_ends h sc version inner tr :
  ends (λ evs _, balanced evs ∧ ∃ v, envelope_done evs [EvRelease v])
    (λ n, tunnelHandshaken n h sc version inner) tr.
Proof.
  assert (∀ evs, Forall inner_event evs → balanced evs ∧ ∃ v, envelope_done evs [EvRelease v]) as Hq.
  { intros evs Q. destruct (balanced_inner evs Q). split; [done|]. by exists 0%nat. }
  unfold tunnelHandshaken. cbv zeta. destruct (machineKey h _) as [mk|e].
  2: { apply ends_log_keep; [apply emits_tunnelError|]. by intros; apply Hq. }
  apply (ends_bind _ _ (λ n r, match r with Err _ => _ | Ok u => _ end)).
  unfold outcome, NoiseTunnel.getOrCreateUpstream. destruct (ne_acquire _ _) as [u|e].
  - eexists _, [_]. split; [reflexivity|]. apply (ends_weaken _ _ _ _ (tunnelBound_ends h sc inner _ mk version u _)).
    intros evs [] (R & v & D). split; [|exists v; by apply (envelope_done_cons [_])].
    intros w. rewrite refs_of_app, R. cbn. lia.
  - eexists _, []. split; [by rewrite app_nil_r|]. apply ends_log_keep; [apply emits_tunnelError|]. by intros; apply Hq.
Qed.

(** What a whole stream leaves behind. *)
Definition stream_over (conn : connid) (evs : list event) : Prop :=
  balanced evs ∧ (∃ pre, evs = pre ++ [EvClose conn]) ∧
  ∃ v inner, envelope_done evs [EvRelease v; EvClose inner; EvClose conn].

Lemma stream_over_inner conn evs : Forall inner_event evs → stream_over conn (evs ++ [EvClose conn]).
Proof.
  intros Q. destruct (balanced_inner (evs ++ [EvClose conn])) as [Hb Hd].
  { apply Forall_app. split; [done|by repeat constructor]. }
  split; [done|]. split; [by eexists|]. by exists 0%nat, 0%nat.
Qed.

Lemma stream_over_after conn e1 e2 : Forall inner_event e1 → stream_over conn e2 → stream_over conn (e1 ++ e2).
Proof.
  intros Q (Hb & (pre & Hp) & v & inner & Hd). destruct (inner_events e1 Q) as (R1 & G1 & _). split; [|split].
  - intros u. by rewrite refs_of_app, R1, Hb.
  - exists (e1 ++ pre). by rewrite Hp, app_assoc.
  - exists v, inner. by apply envelope_done_cons.
Qed.

Lemma runTunnel_ends h sc init tr :
  ends (λ evs _, stream_over (sc_conn sc) evs) (λ n, NoiseTunnel.runTunnel n h sc init) tr.
Proof.
  assert (∀ st e tr, ends (λ evs _, stream_over (sc_conn sc) (evs ++ [EvClose (sc_conn sc)]))
    (λ _, _ ← NoiseTunnel.tunnelError (StreamID sc) st e; mret (Some tt)) tr) as Hlog.
  { intros. apply ends_log_keep; [apply emits_tunnelError|]. intros. by apply stream_over_inner. }
  apply (ends_deferring _ (ConnClose (sc_conn sc)) (λ n, tunnelSession n h sc init)).
  apply (ends_weaken (λ evs _, stream_over (sc_conn sc) (evs ++ [EvClose (sc_conn sc)]))).
  2: { intros evs [] Ho. by apply out_emit. }
  unfold tunnelSession. destruct (InitiationVersion init) as [version|e]; [|apply Hlog].
  apply (ends_bind _ _ (λ n r, match r with Err _ => _ | Ok inner => _ end)). apply out_read.
  destruct (cb_Server _ _ _ _) as [inner|e]; [|apply Hlog].
  apply (ends_deferring _ (ConnClose (nc_conn inner)) (λ n, tunnelHandshaken n h sc version inner)).
  apply (ends_weaken _ _ _ _ (tunnelHandshaken_ends h sc version inner _)). intros evs [] (Hb & v & Hd).
  apply out_emit. cbn [app]. split; [|split].
  - intros u. rewrite !refs_of_app, Hb. done.
  - by eexists.
  - exists v, (nc_conn inner). apply (envelope_done_snoc (evs ++ _) [_; _]); [done|]. by apply (envelope_done_snoc evs [_]).
Qed.

Lemma emits_ensureFetched c responder ks : emits inner_event (ensureFetched c responder ks).
Proof. unfold ensureFetched, fetchKeyBody. solve_emits. Qed.
#[local] Hint Resolve emits_ensureFetched : emits.
Lemma emits_substitutedBody c responder ks : emits inner_event (substitutedBody c responder ks).
Proof. unfold substitutedBody, cached. solve_emits. Qed.
#[local] Hint Resolve emits_substitutedBody : emits.

Lemma serveKey_outcome c responder ks conn req tr :
  outcome (λ evs _, stream_over conn evs) (serveKey c responder ks conn req) tr.
Proof.
  unfold serveKey. apply out_deferred.
  eapply out_weaken; [apply (out_emits inner_event); unfold writeHTTPResponse; solve_emits|].
  intros evs ks' Q. apply out_emit. by apply stream_over_inner.
Qed.

Lemma ServeStream_ends h ctxErr sc tr :
  ends (λ evs _, stream_over (sc_conn sc) evs ∧ (ne_draining tr = true → evs = [EvClose (sc_conn sc)]))
    (λ n, NoiseTunnel.ServeStream n h ctxErr sc) tr.
Proof.
  unfold NoiseTunnel.ServeStream. apply (ends_bind _ _ (λ n (b : bool), if b then _ else _)). apply out_read.
  assert (∀ tr, ends (λ evs _, evs = [EvClose (sc_conn sc)]) (λ _, closeStream sc) tr) as Hclose.
  { intros tr1. apply (ends_bind _ _ (λ _ _, mret (Some tt))). apply out_emit. by apply ends_ret. }
  assert (∀ (m : eff unit) tr, emits inner_event m →
    ends (λ evs _, stream_over (sc_conn sc) evs) (λ _, _ ← m; closeStream sc) tr) as Hlog.
  { intros m tr1 Hm. apply (ends_after _ m (λ _ _, closeStream sc)); [done|]. intros e1 [] Q1.
    apply (ends_weaken _ _ _ _ (Hclose _)). intros evs [] ->. by apply stream_over_inner. }
  cbn [app]. rewrite app_nil_r. destruct (ne_draining tr) eqn:Hd.
  { apply (ends_weaken _ _ _ _ (Hclose _)). intros evs [] ->. split; [|done]. by apply (stream_over_inner _ []). }
  apply (ends_weaken (λ evs _, stream_over (sc_conn sc) evs)); [|by intros].
  case_bool_decide.
  - destruct (waitSetup h ctxErr); [apply Hlog, emits_tunnelError|].
    destruct (handshakeInit _) as [init|e]; [apply runTunnel_ends|apply Hlog, emits_Log].
  - destruct (_ && _).
    2: { apply (ends_weaken _ _ _ _ (Hclose _)). intros evs [] ->. by apply (stream_over_inner _ []). }
    destruct (waitSetup h ctxErr); [apply Hlog, emits_tunnelError|].
    destruct (keysubFor _ _) as [ks|]; [|apply Hlog, emits_tunnelError].
    apply (ends_bind _ _ (λ _ _, mret (Some tt))).
    eapply out_weaken; [apply serveKey_outcome|]. intros evs ks' Ho. apply ends_ret. by rewrite app_nil_r.
Qed.

(** ** Dialing *)

Definition closes (evs : list event) : list connid := omap (λ e, match e with EvClose c => Some c | _ => None end) evs.
Definition dials (evs : list event) : nat := length (List.filter (λ e, match e with EvDial _ _ _ => true | _ => false end) evs).

(** What a successful handshake was made of. *)
Definition handshaken (c : connid) (input : script) (host : string) (mk : MachinePrivate) (serverPub : MachinePublic)
    (version : Z) (tr evs : list event) (inner : NoiseConn) (early : NoiseTunnel.earlyNoise) : Prop :=
  ∃ initiation cont status buffered rest nc,
    cb_ClientDeferred tr mk serverPub version = Ok (initiation, cont) ∧
    http_ReadResponse input = Ok (101, status, buffered, rest) ∧
    cb_Continue (tr ++ [EvWrite c (NoiseTunnel.buildUpgradeRequest host initiation); EvDeadline c true]) cont c buffered rest = Ok nc ∧
    nc_conn inner = nc_conn nc ∧
    (∃ br, ReadEarlyNoise (breader_of (nc_input nc)) =
       (Ok (match early_msg early with Some m => Some (early_raw early, m) | None => None end), br) ∧
       nc_input inner = [(avail br, Some (rerr br))]) ∧
    evs = [EvWrite c (NoiseTunnel.buildUpgradeRequest host initiation); EvDeadline c true; EvDeadline c false].

Lemma upstreamHandshake_outcome c input host mk sp v tr :
  outcome (λ evs r, match r with
                    | Ok (inner, early) => handshaken c input host mk sp v tr evs inner early
                    | Err _ => True
                    end) (upstreamHandshake c input host mk sp v) tr.
Proof.
  apply out_ebind. unfold Initiator. apply out_ebind, out_read.
  destruct (cb_ClientDeferred _ _ _ _) as [[initiation cont]|e] eqn:E1; [|done]. apply out_ret.
  cbn [app Header]. rewrite !app_nil_r. apply out_bind. eexists _, [_]. split; [reflexivity|].
  destruct (env_Write _ _ _); [by apply out_ret|].
  apply out_bind, out_emit. apply out_ebind, out_ret. unfold wrap.
  destruct (http_ReadResponse input) as [[[[code status] buffered] rest]|e] eqn:E2; [|done].
  destruct (Z.eqb_spec code 101) as [->|]; cbn [negb]; [|by apply out_ret].
  apply out_ebind, out_read. cbn [app]. rewrite !app_nil_r, <-!app_assoc. cbn [app].
  destruct (cb_Continue _ _ _ _ _) as [inner|e] eqn:E3; [|done].
  destruct (ReadEarlyNoise _) as [[early|e] br] eqn:E4; [|by apply out_bind, out_emit, out_ret].
  apply out_bind, out_emit, out_ret.
  exists initiation, cont, status, buffered, rest, inner. do 4 (split; [done|]). split; [|done].
  exists br. split; [|done]. rewrite E4. by destruct early as [[raw msg]|].
Qed.

(** The keys a dial uses. *)
Definition dial_keys (h : NoiseTunnel.Handler) (host : string) (u : upstreamConn) : Prop :=
  if bool_decide (KeyStrategy (cfg h) = KeyStrategyBorrow) then
    uc_serverPub u = MachinePublic_of (responderKey h) ∧ uc_serverLegacy u = MachinePublic_zero
  else ∃ ks, keysubFor (keysub h) host = Some ks ∧
    (fetched ks = true → uc_serverPub u = realKey ks ∧ uc_serverLegacy u = legacyKey ks).

Definition dialed (h : NoiseTunnel.Handler) (host : string) (mk : MachinePrivate) (version : Z) (tr evs : list event)
    (r : result upstreamConn) : Prop :=
  match r with
  | Ok u => dial_keys h host u ∧ ∃ dh dp scheme pre post input,
      KeySub.upstreamDial (cfg h) host = (dh, dp, scheme) ∧ uc_addr u = JoinHostPort dh (Itoa dp) ∧
      evs = pre ++ EvDial dh dp (bool_decide (scheme = UpstreamSchemeHTTPS)) :: post ∧
      net_Dial (tr ++ pre) dh dp (bool_decide (scheme = UpstreamSchemeHTTPS)) = Ok (uc_streamID u, uc_stream u, input) ∧
      handshaken (uc_stream u) input dh mk (uc_serverPub u) version
        ((tr ++ pre) ++ [EvDial dh dp (bool_decide (scheme = UpstreamSchemeHTTPS))]) post (uc_inner u) (uc_early u)
  | Err _ => dials evs = 0%nat ∨
      ∃ dh dp tls pre post, evs = pre ++ EvDial dh dp tls :: post ∧ dials pre = 0%nat ∧
        match net_Dial (tr ++ pre) dh dp tls with
        | Err _ => post = []
        | Ok (_, c, _) => ∃ q, post = q ++ [EvClose c]
        end
  end.

Definition is_fetch' (e : event) : Prop := match e with EvInvokeAdapter _ => True | _ => False end.

Lemma fetches_no_dial evs : Forall is_fetch' evs → dials evs = 0%nat.
Proof. unfold dials. induction 1 as [|[] evs He _ IH]; done. Qed.

Lemma upstreamKey_outcome h host borrowed pick tr :
  outcome (λ evs r, Forall is_fetch' evs ∧ match r with
     | Err _ => True
     | Ok k => if bool_decide (KeyStrategy (cfg h) = KeyStrategyBorrow) then k = borrowed
               else ∃ ks, keysubFor (keysub h) host = Some ks ∧ (fetched ks = true → k = pick ks)
     end) (upstreamKey h host borrowed (cached pick)) tr.
Proof.
  unfold upstreamKey. case_bool_decide; [by apply out_ret|].
  destruct (keysubFor _ _) as [ks|]; [|by apply out_ret].
  assert (emits is_fetch' (ensureFetched (cfg h) (MachinePublic_of (responderKey h)) ks)) as He
    by (unfold ensureFetched, fetchKeyBody; solve_emits).
  unfold cached. apply out_bind, out_ebind. destruct (He tr) as (evs & E & Q).
  destruct (ensureFetched _ _ ks tr) as [r tr'] eqn:Ef. cbn [snd] in E. subst tr'.
  exists r, evs. split; [done|]. destruct r as [ks'|e]; [apply out_ret|]; apply out_ret; rewrite ?app_nil_r; (split; [done|]).
  2: done.
  exists ks. split; [done|]. intros Hf. revert Ef. unfold ensureFetched. rewrite Hf. by intros [= -> _].
Qed.

Lemma control_dial_outcome h fresh host mk version tr :
  outcome (dialed h host mk version tr) (NoiseTunnel.openUpstream h fresh host mk version) tr.
Proof.
  unfold NoiseTunnel.openUpstream. apply out_bind.
  apply (out_weaken _ _ _ _ (upstreamKey_outcome h host _ realKey tr)). intros e1 k1 [Q1 K1].
  apply out_ebind, out_ret. unfold wrap at 1. destruct k1 as [serverPub|e].
  2: { left. rewrite ?app_nil_r. by apply fetches_no_dial. }
  apply out_bind. apply (out_weaken _ _ _ _ (upstreamKey_outcome h host _ legacyKey _)). intros e2 k2 [Q2 K2].
  apply out_ebind, out_ret. unfold wrap at 1. rewrite ?app_nil_r, <-!app_assoc. cbn [app].
  assert (dials (e1 ++ e2) = 0%nat) as Hd by (apply fetches_no_dial; by apply Forall_app).
  destruct k2 as [serverLegacy|e]; [|left; by rewrite ?app_nil_r].
  destruct (KeySub.upstreamDial (cfg h) host) as [[dh dp] scheme] eqn:Eu. set (tls := bool_decide _).
  apply out_bind. unfold outcome at 1, NoiseTunnel.DialUpstream. eexists _, [_]. split; [reflexivity|].
  rewrite ?app_nil_r.
  apply out_ebind, out_ret. unfold wrap at 1. rewrite ?app_nil_r.
  destruct (net_Dial _ dh dp tls) as [[[sid c] input]|e] eqn:En.
  2: { right. exists dh, dp, tls, (e1 ++ e2), []. rewrite En. by rewrite <-!app_assoc. }
  assert (∀ q e evs, evs = e1 ++ e2 ++ [EvDial dh dp tls] ++ q ++ [EvClose c] → dialed h host mk version tr evs (Err e)) as Hfail.
  { intros q e evs ->. right. exists dh, dp, tls, (e1 ++ e2), (q ++ [EvClose c]). rewrite En, <-app_assoc. eauto. }
  apply out_bind. apply (out_weaken _ _ _ _ (upstreamHandshake_outcome c input dh mk serverPub version _)).
  intros e4 r Hh. rewrite ?app_nil_r. destruct r as [[inner early]|e].
  2: { apply out_bind, out_emit, out_ret. apply (Hfail e4). by rewrite ?app_nil_r, <-?app_assoc. }
  apply out_bind, out_read. destruct (h2_NewClientConn _ _) as [bridge|e].
  2: { do 2 apply out_bind, out_emit. apply out_ret. apply (Hfail (e4 ++ [EvClose (nc_conn inner)])).
       by rewrite ?app_nil_r, <-?app_assoc. }
  apply out_ret. rewrite ?app_nil_r. split.
  - unfold dial_keys. case_bool_decide; [done|]. destruct K1 as (ks & Ek & K1). destruct K2 as (ks2 & Ek2 & K2).
    exists ks. split; [done|]. rewrite Ek in Ek2. injection Ek2 as <-. auto.
  - exists dh, dp, scheme, (e1 ++ e2), e4, input. cbn [uc_addr uc_streamID uc_stream uc_serverPub uc_inner uc_early].
    do 2 (split; [done|]). split; [by rewrite <-app_assoc|]. split; [done|].
    revert Hh. by rewrite <-!app_assoc.
Qed.
End serve.

(** ** Properties *)

(** C3: the life of a stream handed to the control surface. Whatever the client,
    the upstream and the other goroutines do, serving it returns, and by then every
    reference on a pooled upstream that was taken has been returned (also across
    heals), the client's stream was closed, last of all, and the tunnel was
    registered at most once: if it was, its envelope flow was completed, then it was
    deregistered, then its upstream released, then the decrypted and the raw client
    connections closed. Once the drain has begun the stream is closed and nothing
    else is done. *)
Theorem control_stream_lifecycle `{MachineKeys} `{HWKeys} `{!TailcfgJSON} `{Signing} `{JSON} `{Addr} `{URLParse}
    `{Core} `{CapVersion} `{HTTP} `{!Slices} `{!ControlBase} `{EarlyNoiseMsg} `{ReassemblerLaws} `{Zstd} `{Bulk}
    `{Env} `{Network} `{!NoiseEnv}
    (h : NoiseTunnel.Handler) (ctxErr : error) (sc : NoiseTunnel.StreamConn) (tr : list event) :
  ∃ n evs, (∀ k, NoiseTunnel.ServeStream (n + k) h ctxErr sc tr = (Some tt, tr ++ evs)) ∧
    (∀ u, refs_of u evs = 0) ∧
    (∃ pre, evs = pre ++ [EvClose (sc_conn sc)]) ∧
    (registry evs = [] ∨ ∃ id u inner pre, registry evs = [EvRegistered id; EvTornDown id] ∧
       evs = pre ++ [EvComplete id; EvTornDown id; EvRelease u; EvClose inner; EvClose (sc_conn sc)]) ∧
    (ne_draining tr = true → evs = [EvClose (sc_conn sc)]).
Proof.
  destruct (ServeStream_ends h ctxErr sc tr) as (n & [] & evs & E & (Hb & Hc & v & inner & Hd) & Hdr).
  exists n, evs. do 3 (split; [done|]). split; [|done].
  destruct Hd as [Hd|(id & pre & Hr & He)]; [by left|]. right. by exists id, v, inner, pre.
Qed.

#[local] Instance toy_env : Env := env_capture.
#[local] Instance toy_net : Network := net_of (Ok ("s9"%string, 90%nat, [(to_bytes "HTTP/1.1 101", None)])).

Lemma control_stream_lifecycle_witness :
  (∃ n evs, (∀ k, NoiseTunnel.ServeStream (n + k) toy_noise (ErrNew "ctx") toy_control_stream [] = (Some tt, evs)) ∧
    (∀ u, refs_of u evs = 0) ∧ ∃ pre, evs = pre ++ [EvClose 20%nat]) ∧
  registry (snd (NoiseTunnel.ServeStream 9 toy_noise (ErrNew "ctx") toy_control_stream []))
    = [EvRegistered "flow-1"; EvTornDown "flow-1"] ∧
  answers (snd (NoiseTunnel.ServeStream 9 toy_noise (ErrNew "ctx") toy_control_stream [])) = [60%nat].
Proof.
  split; [|by vm_compute].
  destruct (control_stream_lifecycle toy_noise (ErrNew "ctx") toy_control_stream [])
    as (n & evs & E & Hb & Hc & _). by exists n, evs.
Defined.

(** C19: the requests inside a tunnel. Each one ends with exactly one answer on its
    own response writer, after at most one forward, on the connection the tunnel was
    bound to when the request began (a failed request is not retried). The tunnel
    stays on its upstream unless that connection is unusable; then it is bound to
    the one the pool gives for the tunnel's own identity, host, version and session,
    or stays on the dead one when the pool fails. The reference it holds moves with
    it. A client that sends several requests gets them answered in order. *)
Theorem control_requests_answered `{MachineKeys} `{HWKeys} `{!TailcfgJSON} `{Signing} `{JSON} `{Addr} `{URLParse}
    `{Core} `{CapVersion} `{HTTP} `{!Slices} `{!ControlBase} `{EarlyNoiseMsg} `{ReassemblerLaws} `{Zstd} `{Bulk}
    `{Env} `{Network} `{!NoiseEnv} (t : NoiseTunnel.activeTunnel) (tr : list event) :
  (∀ req w, ∃ n t' evs, (∀ k, serveInner (n + k) t req w tr = (Some t', tr ++ evs)) ∧
     answers evs = [w] ∧ (forwards evs = [] ∨ forwards evs = [uc_bridge (NoiseTunnel.at_up t)]) ∧
     after_request t t' ∧ (∀ u, refs_of u evs = holds u t' - holds u t)) ∧
  (∀ reqs, ∃ n t' evs, (∀ k, ServeCapture (n + k) t reqs tr = (Some t', tr ++ evs)) ∧
     answers evs = map snd reqs ∧ (length (forwards evs) ≤ length reqs)%nat ∧
     (∀ u, refs_of u evs = holds u t' - holds u t)).
Proof.
  split.
  - intros req w. destruct (serveInner_ends t req w tr) as (n & t' & evs & E & [_ R _] & A & F & N).
    by exists n, t', evs.
  - intros reqs. destruct (ServeCapture_ends reqs t tr) as (n & t' & evs & E & [_ R _] & A & F).
    by exists n, t', evs.
Qed.

Lemma control_requests_answered_witness :
  ∃ n t' evs, (∀ k, serveInner (n + k) toy_control toy_req 60 [] = (Some t', evs)) ∧ answers evs = [60%nat].
Proof.
  destruct (proj1 (control_requests_answered toy_control []) toy_req 60%nat) as (n & t' & evs & E & A & _).
  by exists n, t', evs.
Defined.

(** C20: dialing an upstream for a tunnel. On success the connection was dialed at
    the override or the control host itself, the upgrade request with the machine
    key's initiation for that host and version was written to it under a read
    deadline that is lifted afterwards, it answered 101, the upstream keys are the
    borrowed key or those learned for the host, and the early noise read off the
    connection is kept (what follows it is what the HTTP/2 client reads). On failure
    nothing is left open: no dial was made, or it failed and nothing followed, or
    the connection was closed last of all. *)
Theorem control_dial `{MachineKeys} `{HWKeys} `{!TailcfgJSON} `{Signing} `{JSON} `{Addr} `{URLParse}
    `{Core} `{CapVersion} `{HTTP} `{!ControlBase} `{EarlyNoiseMsg} `{Env} `{Network}
    (h : NoiseTunnel.Handler) (fresh : nat) (host : string) (mk : MachinePrivate) (version : Z) (tr : list event) :
  ∃ r evs, NoiseTunnel.openUpstream h fresh host mk version tr = (r, tr ++ evs) ∧ dialed h host mk version tr evs r.
Proof. exact (control_dial_outcome h fresh host mk version tr). Qed.
