(* ===== verification/NoiseReplay.v ===== *)
(** * Control sends: [sidescale/noise/replay.go]

    The tunnel a captured request is sent on, the bindings that are made again for
    it, and the flow that records the exchange. A streamed answer is drained by a
    goroutine: the send returns it as a [background]. *)

From Stdlib Require Import Init.Byte Strings.Byte Lia ZArith Ascii String.
From stdpp Require Import base option list gmap sets strings.
From S2P Require Import Prelude GoStd External Instances Adapter NoiseConfig ExternalControl ControlInstances.
From S2P Require Import TsProto MapStream UpstreamPool Bindings NoiseCapture KeySub NoiseTunnel.
Open Scope Z_scope.
Open Scope go_scope.

Definition registerEndpoint : string := "/machine/register".
Definition streamStrategyPerChunk : string := "per_chunk".
Definition streamStrategyCollapsed : string := "collapsed".
Definition nlBinding : string := "tailnet_lock_node_key_signature".
Definition nlReason : string := "unrebindable_no_tailnet_lock_key".
Definition annStrippedBindings : string := "stripped_bindings".

(** ** The request line and its pseudo-headers *)

Definition set_headers (hs : list wire.Header) (m : wire.FlowMessage) : wire.FlowMessage :=
  wire.mkFlowMessage (wire.Method m) (wire.Path m) (wire.Query m) (wire.StatusCode m) hs (wire.Body m)
    (wire.BodyRaw m) (wire.Codec m).
Definition set_path (path query : string) (m : wire.FlowMessage) : wire.FlowMessage :=
  wire.mkFlowMessage (wire.Method m) path query (wire.StatusCode m) (wire.Headers m) (wire.Body m)
    (wire.BodyRaw m) (wire.Codec m).
Definition set_body (b : bytes) (m : wire.FlowMessage) : wire.FlowMessage :=
  wire.mkFlowMessage (wire.Method m) (wire.Path m) (wire.Query m) (wire.StatusCode m) (wire.Headers m) b
    (wire.BodyRaw m) (wire.Codec m).

Definition is_hdr (name : string) (h : wire.Header) : bool := bool_decide (wire.Name h = name).

Definition normalizePathQuery (m : wire.FlowMessage) : wire.FlowMessage :=
  match List.find (is_hdr HdrPath) (wire.Headers m) with
  | None => m
  | Some h =>
      let '(path, query, ok) := Cut (wire.Value h) "?"%char in
      if ok then set_path path (if bool_decide (wire.Query m = EmptyString) then query else wire.Query m) m
      else m
  end.

(** The first header of that name, or a new one at the end. *)
Fixpoint put_header (name value : string) (hs : list wire.Header) : list wire.Header :=
  match hs with
  | [] => [hdr name value]
  | h :: hs => if is_hdr name h then hdr name value :: hs else h :: put_header name value hs
  end.

Definition setPseudoHeader (name value : string) (hs : list wire.Header) : list wire.Header :=
  if bool_decide (value = EmptyString) then hs else put_header name value hs.

Definition syncPseudoHeaders (m : wire.FlowMessage) : wire.FlowMessage :=
  let hs := setPseudoHeader HdrMethod (wire.Method m) (wire.Headers m) in
  if bool_decide (wire.Path m = EmptyString) then set_headers hs m
  else
    let path := (if bool_decide (wire.Query m = EmptyString) then wire.Path m
                 else wire.Path m ++ "?" ++ wire.Query m)%string in
    set_headers (setPseudoHeader HdrPath path hs) m.

Definition authorityHost `{Addr} (hs : list wire.Header) : string :=
  match List.find (is_hdr HdrAuthority) hs with
  | Some h => fst (addr_Parse (wire.Value h) "https")
  | None => EmptyString
  end.

(** ** What the source and the mutations say *)

Definition isStreamSource `{JSON} (f : wire.Flow) : bool :=
  bool_decide (wire.ProtocolTag f = streamProtocolTag) ||
  match wire.Request f with Some m => isStreamingMap (wire.Path m) (wire.Body m) | None => false end.

Definition mutationTouches (muts : list wire.Mutation) (fields : list string) : bool :=
  existsb (λ m, bool_decide (wire.Op m = "body"%string) ||
    existsb (λ f, bool_decide (wire.MName m = f) || HasPrefix (wire.MName m) (f ++ ".") ||
                  HasPrefix (wire.MName m) (f ++ "["))%string fields) muts.

Definition bodyVersion `{JSON} `{CapVersion} (body : bytes) : Z :=
  match probe_Version body with
  | Ok v => if 0 <? v then v `mod` 2 ^ 16 else CurrentCapabilityVersion `mod` 2 ^ 16
  | Err _ => CurrentCapabilityVersion `mod` 2 ^ 16
  end.

Abbreviation annotations := (list (string * wire.any)).

(** The new body and the annotation; no annotation is the empty list. *)
Definition stripNodeKeySignature `{JSON} (body : bytes) : result (bytes * annotations) :=
  match unmarshal_obj body with
  | Err e => Err e
  | Ok m =>
      match default ∅ m !! ("NodeKeySignature"%string) with
      | None => Ok (body, [])
      | Some raw =>
          match unmarshal_any raw with
          | Err e => Err e
          | Ok JNull | Ok (JString "") => Ok (body, [])
          | Ok _ =>
              match marshal_obj (delete "NodeKeySignature"%string (default ∅ m)) with
              | Err e => Err e
              | Ok out => Ok (out, ann_strip nlBinding ["NodeKeySignature"%string] nlReason)
              end
          end
      end
  end.

Definition stripAnnotations (strips : list annotations) : annotations :=
  match strips with
  | [] => []
  | [a] => a
  | _ => [(annStrippedBindings, wire.AnyRecords strips)]
  end.

(** [if a != nil { strips = append(strips, a) }] *)
Definition add_strip (strips : list annotations) (a : annotations) : list annotations :=
  match a with [] => strips | _ => strips ++ [a] end.

Section replay.
Context `{MachineKeys} `{HWKeys} `{!TailcfgJSON} `{Signing} `{JSON} `{Addr} `{URLParse} `{Core} `{CapVersion}.
Context `{HTTP} `{!Slices} `{!ControlBase} `{EarlyNoiseMsg} `{Reassembler} `{Zstd} `{Bulk} `{Mutations} `{Env}.
Context `{!NoiseEnv}.

(** ** The tunnel of a send *)

(** What returns it: the reference on a live tunnel's upstream, or the teardown
    of a fresh tunnel. *)
Inductive cleanup := Release (u : upstreamConn) | Teardown (captured : bool).

Definition run_cleanup (c : cleanup) (t : activeTunnel) : eff unit :=
  match c with
  | Release u => releaseUpstream u
  | Teardown captured => freshCleanup captured t
  end.

(** The release function is tied to the upstream of now. *)
Definition tryAcquireUpstream (u : upstreamConn) : eff bool :=
  λ tr, if ne_tryAcquire tr (uc_id u) then (true, tr ++ [EvAcquire (uc_id u)]) else (false, tr).

Definition openFresh (h : Handler) (host : string) (mk : MachinePrivate) (version : Z) (session : string)
    : eff (result (activeTunnel * cleanup * bool)) :=
  '(t, captured) ←? openFreshTunnel h host mk version session;
  mret (Ok (t, Teardown captured, true)).

(** The third component is [crossTunnel]. *)
Definition selectTunnel (h : Handler) (freshHost tunnelID endpoint : string) (version : Z)
    : eff (result (activeTunnel * cleanup * bool)) :=
  mk ← ask key_NewMachine;
  if bool_decide (endpoint = registerEndpoint) then
    session ← dedicatedPoolSession; openFresh h freshHost mk version session
  else
    let fresh := session ← freshPoolSession h; openFresh h freshHost mk version session in
    o ← getTunnel tunnelID;
    match o with
    | None => fresh
    | Some t =>
        ok ← tryAcquireUpstream (at_up t);
        if ok : bool then mret (Ok (t, Release (at_up t), false)) else fresh
    end.

Definition sendFailed {A} (op endpoint stage : string) (t : option activeTunnel) (reused : bool) (e : error)
    : eff (result A) :=
  _ ← Log "error" (op ++ " failed")%string;
  mret (Err (ErrWrap "%s %s (tunnel=%s reused=%v %s): %w"
    [op; endpoint; match t with Some t => at_flowID t | None => EmptyString end; FormatBool reused; stage] e)).

(** ** [rebind]: the annotations, whether a signature was made again, and the body *)

Definition rebindRegister (h : Handler) (t : activeTunnel) (crossTunnel : bool) (muts : list wire.Mutation)
    (strips : list annotations) (body : bytes) : eff (result (annotations * bool * bytes)) :=
  if crossTunnel || mutationTouches muts ["Timestamp"; "DeviceCert"; "Signature"; "SignatureType"]%string then
    now ← Now;
    res ←? ResignRegisterRequest body now ("https://" ++ at_controlHost t)%string (at_serverLegacy t)
             (MachinePublic_of (at_machineKey t)) (regSigner h);
    mret (Ok (stripAnnotations (add_strip strips (r_Annotations res)), true, r_Body res))
  else mret (Ok (stripAnnotations strips, false, body)).

Definition rebindMap (h : Handler) (crossTunnel : bool) (muts : list wire.Mutation) (body : bytes)
    : eff (result (annotations * bool * bytes)) :=
  '(ann, resigned, body) ←?
    (if mutationTouches muts ["NodeKey"; "HardwareAttestationKey"; "HardwareAttestationKeySignature";
                              "HardwareAttestationKeySignatureTimestamp"]%string then
       now ← Now;
       res ←? ResignHardwareAttestation body now (hwSigner h);
       mret (Ok (r_Annotations res, true, r_Body res))
     else mret (Ok ([], false, body)));
  if crossTunnel || mutationTouches muts ["MapSessionHandle"; "MapSessionSeq"]%string then
    res ←? mret (ResetMapSession body);
    mret (Ok (ann, resigned, r_Body res))
  else mret (Ok (ann, resigned, body)).

Definition rebind (h : Handler) (endpoint : string) (body : bytes) (t : activeTunnel) (crossTunnel : bool)
    (muts : list wire.Mutation) : eff (result (annotations * bool * bytes)) :=
  if bool_decide (endpoint = registerEndpoint) then
    if mutationTouches muts ["NodeKey"%string] then
      '(body, a) ←? mret (stripNodeKeySignature body);
      rebindRegister h t crossTunnel muts (add_strip [] a) body
    else rebindRegister h t crossTunnel muts [] body
  else if bool_decide (endpoint = mapEndpoint) then rebindMap h crossTunnel muts body
  else mret (Ok ([], false, body)).

(** ** [emitProduced] *)

(** The goroutine that drains a streamed answer: its reader and what it cleans up. *)
Record background := mkBackground {
  bg_reader : mapStreamReader;
  bg_cleanup : cleanup;
  bg_tunnel : activeTunnel
}.

Definition sendOut : Type := result wire.SidecarSendResult * option background.

Definition produced_ids (id : string) : list string := if bool_decide (id = EmptyString) then [] else [id].

Definition emitStream (resp : HttpResponse) (now : Z) (parentFlowID : string) (ann : annotations)
    (c : cleanup) (t : activeTunnel) : eff sendOut :=
  headers ← responseHeaders resp;
  let msg := response_msg (rs_StatusCode resp) headers [] in
  r ← PushFlow (wire.mkFlow streamProtocolTag DirServerToClient parentFlowID None (Some msg) ann now None);
  match r with
  | Err e => _ ← ConnClose (rs_body resp); _ ← run_cleanup c t; mret (Err e, None)
  | Ok (parentID, _) =>
      mret (Ok (wire.mkSendResult (produced_ids parentID) (Some msg)),
            Some (mkBackground (newMapStreamReader (rs_body resp) (rs_Body resp) parentID) c t))
  end.

Definition emitBuffered (req : wire.FlowMessage) (resp : HttpResponse) (now : Z) (parentFlowID : string)
    (ann : annotations) : eff (result wire.SidecarSendResult) :=
  _ ← ConnClose (rs_body resp);
  match ReadAll (rs_Body resp) with
  | Err e => mret (Err e)
  | Ok body =>
      headers ← responseHeaders resp;
      let respMsg := response_msg (rs_StatusCode resp) headers body in
      '(id, _) ←? PushFlow (wire.mkFlow controlProtocolTag DirClientToServer parentFlowID
        (Some (wire.mkFlowMessage (wire.Method req) (wire.Path req) (wire.Query req) 0 (wire.Headers req) (wire.Body req)
                 None None)) (Some respMsg) ann now (Some now));
      mret (Ok (wire.mkSendResult (produced_ids id) (Some respMsg)))
  end.

Definition emitProduced (req : wire.FlowMessage) (resp : HttpResponse) (parentFlowID : string)
    (ann : annotations) (c : cleanup) (t : activeTunnel) : eff sendOut :=
  now ← Now;
  if bool_decide (wire.Path req = mapEndpoint) && isStreamingMap (wire.Path req) (wire.Body req) &&
     isStreamStatus (rs_StatusCode resp)
  then emitStream resp now parentFlowID ann c t
  else
    r ← deferred (run_cleanup c t) (emitBuffered req resp now parentFlowID ann);
    mret (r, None).

(** [io.Copy] to [io.Discard], whose buffer has 8 KiB: the error, if any. *)
Definition discardBuf : nat := Z.to_nat 8192.

Fixpoint discardCopy (fuel : nat) (r : mapStreamReader) : eff (option (option error * mapStreamReader)) :=
  match fuel with
  | O => mret None
  | S fuel =>
      '(o, r) ← MapStream.Read discardBuf r;
      match o with
      | None => mret None
      | Some (Err e) => mret (Some (if bool_decide (e = io_EOF) then None else Some e, r))
      | Some (Ok _) => discardCopy fuel r
      end
  end.

Definition drainStream (fuel : nat) (bg : background) : eff (option unit) :=
  obind (discardCopy fuel (bg_reader bg))
    (λ '(err, r),
      _ ← (match err with Some _ => Log "error" "stream capture failed" | None => mret tt end);
      _ ← MapStream.Close r;
      _ ← run_cleanup (bg_cleanup bg) (bg_tunnel bg);
      mret (Some tt)).

(** ** [replay] *)

(** From a request that is ready to its flow. The tunnel is cleaned up on the
    error paths, as it is after the forward: it may have been healed. *)
Definition sendReady (op endpoint : string) (req : wire.FlowMessage) (parentFlowID : string) (ann : annotations)
    (t : activeTunnel) (c : cleanup) (reused : bool) : eff sendOut :=
  let req := syncPseudoHeaders req in
  match buildUpstreamRequest (at_controlHost t) (wire.Headers req) (wire.Body req) with
  | Err e =>
      r ← sendFailed op endpoint "build upstream request" (Some t) reused e; _ ← run_cleanup c t; mret (r, None)
  | Ok out =>
      '(r, t) ← forwardTunnel t out;
      match r with
      | Err e =>
          r ← sendFailed op endpoint "forward upstream" (Some t) reused e; _ ← run_cleanup c t; mret (r, None)
      | Ok resp =>
          _ ← Log "info" (op ++ " sent")%string;
          emitProduced req resp parentFlowID ann c t
      end
  end.

Definition fail_send (e : error) : eff sendOut := mret (Err e, None).

(** The sent message: a clone of the captured request with its mutations. *)
Definition replayMessage (p : wire.SidecarSendParams) : result (wire.Flow * wire.FlowMessage) :=
  match wire.sp_Flow p with
  | None => Err (ErrNew "replay: source flow has no request to replay")
  | Some src =>
      match wire.Request src with
      | None => Err (ErrNew "replay: source flow has no request to replay")
      | Some req =>
          if negb (bool_decide (wire.sp_StreamStrategy p ∈ [EmptyString; streamStrategyPerChunk; streamStrategyCollapsed])) then
            Err (ErrFmt "replay: unknown stream_strategy %q" [wire.sp_StreamStrategy p])
          else if isStreamSource src && bool_decide (wire.sp_StreamStrategy p = streamStrategyCollapsed) then
            Err (ErrNew "replay: collapsed stream_strategy is not supported for map.stream")
          else match ApplyMutations (normalizePathQuery req) (wire.sp_Mutations p) with
               | Err e => Err e
               | Ok req => Ok (src, req)
               end
      end
  end.

Definition replay (h : Handler) (p : wire.SidecarSendParams) : eff sendOut :=
  match replayMessage p with
  | Err e => fail_send e
  | Ok (src, req) =>
      let endpoint := wire.Path req in
      let host := authorityHost (wire.Headers req) in
      let freshHost := if bool_decide (host = EmptyString) then controlHost h else host in
      s ← selectTunnel h freshHost (wire.ParentFlowID src) endpoint (bodyVersion (wire.Body req));
      match s with
      | Err e => r ← sendFailed "replay" endpoint "select tunnel" None false e; mret (r, None)
      | Ok (t, c, crossTunnel) =>
          b ← rebind h endpoint (wire.Body req) t crossTunnel (wire.sp_Mutations p);
          match b with
          | Err e =>
              r ← sendFailed "replay" endpoint "rebind" (Some t) (negb crossTunnel) e;
              _ ← run_cleanup c t; mret (r, None)
          | Ok (strip, _, body) =>
              sendReady "replay" endpoint (set_body body req) (wire.sp_FlowID p) strip t c (negb crossTunnel)
          end
      end
  end.
End replay.
Arguments background {_ _ _}.
Arguments sendOut {_ _ _}.
Arguments cleanup {_ _}.
