(* ===== verification/NoiseInject.v ===== *)
(** * Control injection: [sidescale/noise/injection.go] and [OnSidecarSend]

    A request originated from an injection payload, into a fresh tunnel or, when
    asked to, into a live one. *)

From Stdlib Require Import Init.Byte Strings.Byte Lia ZArith Ascii String.
From stdpp Require Import base option list gmap sets strings.
From S2P Require Import Prelude GoStd External Instances Adapter NoiseConfig ExternalControl ControlInstances.
From S2P Require Import TsProto MapStream UpstreamPool Bindings NoiseCapture KeySub NoiseTunnel NoiseReplay.
Open Scope Z_scope.
Open Scope go_scope.

Definition InjectToolName : string := "tailscale_inject".

(** [Headers] is a map: its entries, in the order ranging over it visits them. *)
Record injectionRequest := mkInjection {
  TunnelID : string;
  ControlHost : string;
  Endpoint : string;
  ij_Method : string;
  ij_Headers : list (string * string);
  ij_Body : bytes;
  Stream : bool;
  AsMachine : string;
  AsVersion : Z;
  ReuseTunnel : bool;
  ij_Mutations : list wire.Mutation
}.

(** [json.Unmarshal] into an [injectionRequest]. *)
Class InjectionJSON := { unmarshal_injection : bytes → result injectionRequest }.

Definition with_body (b : bytes) (ir : injectionRequest) : injectionRequest :=
  mkInjection (TunnelID ir) (ControlHost ir) (Endpoint ir) (ij_Method ir) (ij_Headers ir) b (Stream ir)
    (AsMachine ir) (AsVersion ir) (ReuseTunnel ir) (ij_Mutations ir).

(** [None] is a panic: the body [null] decodes to a nil map, which is assigned to. *)
Definition ensureStreamFlag `{JSON} (body : bytes) : option (result bytes) :=
  match unmarshal_obj body with
  | Err e => Some (Err (ErrWrap "inject: stream requires a JSON object body: %w" [] e))
  | Ok None => None
  | Ok (Some m) => Some (marshal_obj (<["Stream"%string := to_bytes "true"]> m))
  end.

Definition injectionHeaders (method path authority : string) (hs : list (string * string)) : list wire.Header :=
  [hdr HdrMethod method; hdr HdrPath path; hdr HdrAuthority authority; hdr HdrScheme "https"] ++
  map (λ kv, hdr (fst kv) (snd kv)) hs.

Definition inject_method (ir : injectionRequest) : string :=
  if bool_decide (ij_Method ir = EmptyString) then "POST"%string else ij_Method ir.

Section inject.
Context `{MachineKeys} `{HWKeys} `{!TailcfgJSON} `{Signing} `{JSON} `{Addr} `{URLParse} `{Core} `{CapVersion}.
Context `{HTTP} `{!Slices} `{!ControlBase} `{EarlyNoiseMsg} `{Reassembler} `{Zstd} `{Bulk} `{Mutations} `{Env}.
Context `{!NoiseEnv} `{InjectionJSON}.

Definition parseInjection (raw : bytes) : result injectionRequest :=
  if (length raw =? 0)%nat then Err (ErrNew "inject: empty injection payload")
  else match unmarshal_injection raw with
       | Err e => Err (ErrWrap "inject: parse payload: %w" [] e)
       | Ok ir => Ok ir
       end.

Definition injectionMachineKey (asMachine : string) : eff (result MachinePrivate) :=
  if bool_decide (asMachine = EmptyString) then mk ← ask key_NewMachine; mret (Ok mk)
  else mret (match MachinePrivate_UnmarshalText asMachine with
             | Err e => Err (ErrWrap "inject: parse as_machine: %w" [] e)
             | Ok k => Ok k
             end).

(** The host of a fresh tunnel, and the request with its stream flag; [None] is a
    panic. *)
Definition injectHost (h : Handler) (ir : injectionRequest) : result string :=
  if (bool_decide (Endpoint ir = EmptyString)) then Err (ErrNew "inject: endpoint required")
  else if (length (ij_Body ir) =? 0)%nat then Err (ErrNew "inject: body required")
  else if bool_decide (ControlHost ir = EmptyString) then Ok (controlHost h)
  else
    let host := fst (addr_Parse (ControlHost ir) "https") in
    if isControlHost h host then Ok host
    else Err (ErrFmt "inject: control_host %q is not a configured control host" [ControlHost ir]).

Definition injectFlagged (ir : injectionRequest) : option (result injectionRequest) :=
  if Stream ir && bool_decide (Endpoint ir = mapEndpoint) then
    match ensureStreamFlag (ij_Body ir) with
    | None => None
    | Some (Err e) => Some (Err e)
    | Some (Ok b) => Some (Ok (with_body b ir))
    end
  else Some (Ok ir).

(** The live tunnel, if the request opts in and its identity matches. *)
Definition liveTunnel (ir : injectionRequest) (mk : MachinePrivate) : eff (option (activeTunnel * cleanup)) :=
  if ReuseTunnel ir && negb (bool_decide (TunnelID ir = EmptyString)) then
    o ← getTunnel (TunnelID ir);
    match o with
    | None => mret None
    | Some t =>
        if bool_decide (AsMachine ir = EmptyString) ||
           bool_decide (MachinePublic_of mk = MachinePublic_of (at_machineKey t)) then
          ok ← tryAcquireUpstream (at_up t);
          if ok : bool then
            _ ← Log "warn" "inject riding live tunnel; client map may pause";
            mret (Some (t, Release (at_up t)))
          else mret None
        else mret None
    end
  else mret None.

(** The tunnel, its cleanup, and whether a live client is disturbed. *)
Definition injectTunnel (h : Handler) (ir : injectionRequest) (freshHost : string) (mk : MachinePrivate)
    : eff (result (activeTunnel * cleanup * bool)) :=
  o ← liveTunnel ir mk;
  match o with
  | Some (t, c) => mret (Ok (t, c, true))
  | None =>
      let version := if AsVersion ir =? 0 then bodyVersion (ij_Body ir) else AsVersion ir in
      session ← freshPoolSession h;
      r ← openFreshTunnel h freshHost mk version session;
      match r with
      | Err e => sendFailed "inject" (Endpoint ir) "open tunnel" None false e
      | Ok (t, captured) => mret (Ok (t, Teardown captured, false))
      end
  end.

Definition injectMessage (ir : injectionRequest) (t : activeTunnel) : result wire.FlowMessage :=
  ApplyMutations
    (normalizePathQuery (wire.mkFlowMessage (inject_method ir) (Endpoint ir) "" 0
       (injectionHeaders (inject_method ir) (Endpoint ir) (at_controlHost t) (ij_Headers ir)) (ij_Body ir) None None))
    (ij_Mutations ir).

Definition inject_ann (disturbsLive : bool) : annotations :=
  (AnnInjected, wire.AnyBool true) :: (if disturbsLive then [(AnnDisturbsLiveNode, wire.AnyBool true)] else []).

Definition injectSend (ir : injectionRequest) (t : activeTunnel) (c : cleanup) (live : bool) : eff sendOut :=
  match injectMessage ir t with
  | Err e =>
      r ← sendFailed "inject" (Endpoint ir) "apply mutations" (Some t) live e; _ ← run_cleanup c t; mret (r, None)
  | Ok msg => sendReady "inject" (Endpoint ir) msg "" (inject_ann live) t c live
  end.

(** The outcome and whether it rode a live tunnel; [None] is a panic. *)
Definition injectObject (h : Handler) (ir : injectionRequest) : option (eff (sendOut * bool)) :=
  match injectHost h ir with
  | Err e => Some (r ← fail_send e; mret (r, false))
  | Ok freshHost =>
      match injectFlagged ir with
      | None => None
      | Some (Err e) => Some (r ← fail_send e; mret (r, false))
      | Some (Ok ir) => Some (
          k ← injectionMachineKey (AsMachine ir);
          match k with
          | Err e => r ← fail_send e; mret (r, false)
          | Ok mk =>
              s ← injectTunnel h ir freshHost mk;
              match s with
              | Err e => r ← fail_send e; mret (r, false)
              | Ok (t, c, live) => r ← injectSend ir t c live; mret (r, live)
              end
          end)
      end
  end.

Definition inject (h : Handler) (p : wire.SidecarSendParams) : option (eff sendOut) :=
  let payload := if (length (wire.sp_Payload p) =? 0)%nat then wire.sp_Target p else wire.sp_Payload p in
  match parseInjection payload with
  | Err e => Some (fail_send e)
  | Ok ir =>
      match injectObject h ir with
      | None => None
      | Some m => Some ('(r, _) ← m; mret r)
      end
  end.

Definition OnSidecarSend (h : Handler) (ctxErr : error) (p : wire.SidecarSendParams) : option (eff sendOut) :=
  match waitSetup h ctxErr with
  | Some e => Some (fail_send e)
  | None =>
      match wire.sp_Flow p with
      | None => if bool_decide (wire.sp_FlowID p = EmptyString) then inject h p else Some (replay h p)
      | Some _ => Some (replay h p)
      end
  end.

(** ** The tool *)

(** [strings.ToUpper], exact on ASCII: the methods [http.NewRequest] accepts. *)
Fixpoint ToUpper (s : string) : string :=
  match s with
  | EmptyString => EmptyString
  | String a s => String (if (97 <=? char_Z a) && (char_Z a <=? 122) then byte_char (char_Z a - 32) else a) (ToUpper s)
  end.

Definition injectSummary (ir : injectionRequest) (ids : list string) (reused : bool) : string :=
  let target := (if reused then "live tunnel " ++ TunnelID ir
                 else if bool_decide (ControlHost ir = EmptyString) then "a fresh tunnel"
                 else "a fresh tunnel to " ++ ControlHost ir)%string in
  ("Injected " ++ ToUpper (inject_method ir) ++ " " ++ Endpoint ir ++ " into " ++ target ++
   "; produced flow(s): " ++ String.concat ", " ids)%string.

(** The JSON object of a tool's result: an error text, or a summary and the ids. *)
Inductive toolResult :=
  | ToolError (e : error)
  | ToolSummary (summary : string) (new_flow_ids : list string).

Definition OnInvokeTool (h : Handler) (ctxErr : error) (name : string) (arguments : bytes)
    : option (eff (result toolResult * option background)) :=
  if negb (bool_decide (name = InjectToolName)) then
    Some (mret (Err (ErrFmt "invoke_tool: unknown tool %q" [name]), None))
  else match waitSetup h ctxErr with
  | Some e => Some (mret (Ok (ToolError e), None))
  | None =>
      match parseInjection arguments with
      | Err e => Some (mret (Ok (ToolError e), None))
      | Ok ir =>
          match injectObject h ir with
          | None => None
          | Some m => Some (
              '((res, bg), reused) ← m;
              mret (Ok (match res with
                        | Err e => ToolError e
                        | Ok r => ToolSummary (injectSummary ir (wire.NewFlowIDs r) reused) (wire.NewFlowIDs r)
                        end), bg))
          end
      end
  end.
End inject.
