(* ===== verification/NoiseSendSpec.v ===== *)
(** * What control sends do

    The references and envelopes of a send on every path (also across a heal and
    the background drain of a streamed answer), the fidelity of an unedited replay,
    and the bindings a replay makes again. *)

From Stdlib Require Import Init.Byte Strings.Byte Lia ZArith Ascii String.
From stdpp Require Import base option list gmap sets strings.
From S2P Require Import Prelude GoStd External Instances Adapter Trace NoiseConfig ExternalControl ControlInstances.
From S2P Require Import TsProto MapStream UpstreamPool Bindings NoiseCapture KeySub NoiseTunnel NoiseInstances NoiseTunnelSpec.
From S2P Require Import NoiseReplay NoiseInject.
Open Scope Z_scope.
Open Scope go_scope.

Section send.
Context `{MachineKeys} `{HWKeys} `{!TailcfgJSON} `{Signing} `{JSON} `{Addr} `{URLParse} `{Core} `{CapVersion}.
Context `{HTTP} `{!Slices} `{!ControlBase} `{EarlyNoiseMsg} `{ReassemblerLaws} `{Zstd} `{Bulk} `{Mutations} `{Env}.
Context `{!NoiseEnv} `{InjectionJSON}.

(** ** A selected tunnel

    What a send owes while it holds [t], to be cleaned up by [c]: a fresh tunnel is
    its own; of a live one it only holds the reference it acquired, and the tunnel's
    own reference has moved with its heals. *)
Definition owes (c : cleanup) (t : activeTunnel) (evs : list event) : Prop :=
  match c with
  | Teardown captured =>
      NoiseTunnel.at_closed t = false ∧ (∀ v, refs_of v evs = holds v t) ∧
      registry evs = if captured then [EvRegistered (at_flowID t)] else []
  | Release u =>
      registry evs = [] ∧ ∃ t0 tr0 id, ne_getTunnel tr0 id = Some t0 ∧ rtc after_request t0 t ∧
      ∀ v, refs_of v evs = (if decide (uc_id u = v) then 1 else 0) + (holds v t - holds v t0)
  end.

(** A send that is over: nothing of its own is left, its envelope flow was
    completed and deregistered if it was registered; a live tunnel it rode may have
    been healed, which moved that tunnel's own reference. *)
Inductive settled (evs : list event) : Prop :=
  | settled_own :
      balanced evs →
      (registry evs = [] ∨ ∃ id u pre, registry evs = [EvRegistered id; EvTornDown id] ∧
         evs = pre ++ [EvComplete id; EvTornDown id; EvRelease u]) → settled evs
  | settled_live t0 t tr0 id :
      ne_getTunnel tr0 id = Some t0 → rtc after_request t0 t → registry evs = [] →
      (∀ v, refs_of v evs = holds v t - holds v t0) → settled evs.

Lemma settled_inner evs : Forall inner_event evs → settled evs.
Proof. intros Q. destruct (inner_events evs Q) as (R & G & _). apply settled_own; [done|by left]. Qed.

Lemma owes_after c t e1 e2 : owes c t e1 → Forall inner_event e2 → owes c t (e1 ++ e2).
Proof.
  intros Ho Q. destruct (inner_events e2 Q) as (R & G & _). destruct c as [u|captured]; cbn [owes] in *.
  - destruct Ho as (G1 & t0 & tr0 & id & Hg & Ht & R1). split; [by rewrite registry_app, G1, G|].
    exists t0, tr0, id. split; [done|]. split; [done|]. intros v. rewrite refs_of_app, R1, R. lia.
  - destruct Ho as (Hc & R1 & G1). split; [done|]. split; [|by rewrite registry_app, G1, G, app_nil_r].
    intros v. rewrite refs_of_app, R1, R. lia.
Qed.

Lemma owes_forward c t t' e1 e2 : owes c t e1 → serve_step t t' e2 → after_request t t' → owes c t' (e1 ++ e2).
Proof.
  intros Ho [Hs R G] Hn. destruct c as [u|captured]; cbn [owes] in *.
  - destruct Ho as (G1 & t0 & tr0 & id & Hg & Ht & R1). split; [by rewrite registry_app, G1, G|].
    exists t0, tr0, id. split; [done|]. split; [by eapply rtc_r|]. intros v. rewrite refs_of_app, R1, R. lia.
  - destruct Ho as (Hc & R1 & G1). destruct Hs as (u & f & ->). split; [done|].
    split; [|by rewrite registry_app, G1, G, app_nil_r]. intros v. rewrite refs_of_app, R1, R. lia.
Qed.

Lemma run_cleanup_outcome c t e1 tr :
  owes c t e1 → outcome (λ e2 _, settled (e1 ++ e2) ∧ forwards e2 = [] ∧ answers e2 = []) (run_cleanup c t) tr.
Proof.
  destruct c as [u|captured]; cbn [owes run_cleanup].
  - intros (G & t0 & tr0 & id & Hg & Ht & R). apply out_emit. split; [|done].
    apply (settled_live _ t0 t tr0 id); [done|done|by rewrite registry_app, G|].
    intros v. rewrite refs_of_app, R. cbn. lia.
  - intros (Hc & R & G). unfold NoiseTunnel.freshCleanup, NoiseTunnel.closeTunnel. rewrite Hc. destruct captured.
    + do 2 apply out_bind. apply out_emit. apply out_emit. apply out_emit. split; [|done].
      apply settled_own.
      * intros v. rewrite !refs_of_app, R. unfold holds. cbn. lia.
      * right. exists (at_flowID t), (uc_id (at_up t)), e1. split; [by rewrite registry_app, G|done].
    + apply out_bind, out_ret, out_emit. split; [|done]. apply settled_own.
      * intros v. rewrite !refs_of_app, R. unfold holds. cbn. lia.
      * left. by rewrite !registry_app, G.
Qed.

(** ** The rest of a send *)

(** [n] forwards at most, and no answer to any client. *)
Definition traffic (n : nat) (evs : list event) : Prop := (length (forwards evs) ≤ n)%nat ∧ answers evs = [].

Lemma traffic_inner n e1 e2 : traffic n e1 → Forall inner_event e2 → traffic n (e1 ++ e2).
Proof.
  intros [F A] Q. destruct (inner_events e2 Q) as (_ & _ & A2 & F2). unfold traffic.
  by rewrite forwards_app, answers_app, F2, A2, app_nil_r, A.
Qed.

(** A send has returned: it is over, or a background goroutine holds the tunnel. *)
Definition returned (evs : list event) (out : sendOut) : Prop :=
  traffic 1 evs ∧
  match snd out with
  | None => settled evs
  | Some bg => owes (bg_cleanup bg) (bg_tunnel bg) evs ∧ ∃ res, fst out = Ok res
  end.

Lemma finish_send e1 c t (m : eff (result wire.SidecarSendResult)) tr :
  traffic 1 e1 → owes c t e1 → emits inner_event m →
  outcome (λ evs out, returned (e1 ++ evs) out) (r ← m; _ ← run_cleanup c t; mret (r, None)) tr.
Proof.
  intros Ht Ho Hm. apply out_bind. apply (out_weaken _ _ _ _ (out_emits _ _ _ Hm)). intros e2 r' Q.
  apply out_bind. apply (out_weaken _ _ _ _ (run_cleanup_outcome c t (e1 ++ e2) _ (owes_after _ _ _ _ Ho Q))).
  intros e3 [] (Hs & F & A). apply out_ret. rewrite app_nil_r, app_assoc. split; [|done].
  destruct (traffic_inner _ _ _ Ht Q) as [F1 A1]. unfold traffic. by rewrite forwards_app, answers_app, F, A, app_nil_r, A1.
Qed.

Lemma emits_sendFailed {A} op ep st t (r : bool) e : emits inner_event (sendFailed (A:=A) op ep st t r e).
Proof. unfold sendFailed. solve_emits. Qed.

Lemma emits_responseHeaders' resp : emits inner_event (responseHeaders resp).
Proof. unfold responseHeaders, appendHTTPHeaders. solve_emits. Qed.
#[local] Hint Resolve emits_responseHeaders' : emits.

Lemma finish_deferred e1 c t (m : eff (result wire.SidecarSendResult)) tr :
  traffic 1 e1 → owes c t e1 → emits inner_event m →
  outcome (λ evs out, returned (e1 ++ evs) out) (r ← deferred (run_cleanup c t) m; mret (r, None)) tr.
Proof.
  intros Ht Ho Hm. pose proof (finish_send e1 c t m tr Ht Ho Hm) as Hf.
  destruct Hf as (out & evs & E & Hr). exists out, evs. split; [|done]. rewrite <-E.
  unfold mbind, eff_bind, deferred. destruct (m tr) as [a tr1]. by destruct (run_cleanup c t tr1) as [[] tr2].
Qed.

Lemma emitProduced_outcome req resp parent ann c t e1 tr :
  traffic 1 e1 → owes c t e1 →
  outcome (λ evs out, returned (e1 ++ evs) out) (NoiseReplay.emitProduced req resp parent ann c t) tr.
Proof.
  intros Ht Ho. unfold NoiseReplay.emitProduced. apply out_bind, out_read. cbn [app].
  destruct (_ && _).
  2: { rewrite app_nil_r. apply finish_deferred; [done|done|]. unfold emitBuffered. solve_emits. }
  unfold emitStream. apply out_bind.
  apply (out_weaken _ _ _ _ (out_emits _ _ _ (emits_responseHeaders' resp))). intros e2 headers Q2.
  apply out_bind. eexists _, [_]. split; [reflexivity|].
  pose proof (owes_after c t e1 e2 Ho Q2) as Ho2. pose proof (traffic_inner 1 e1 e2 Ht Q2) as Ht2.
  set (flow := wire.mkFlow _ _ _ _ _ _ _ _). destruct (env_PushFlow _ flow) as [[id ok]|e].
  - apply out_ret. assert (Forall inner_event [EvPush flow]) as Q3 by by repeat constructor.
    rewrite ?app_nil_r, app_assoc. split; [by apply traffic_inner|]. cbn [snd fst bg_cleanup bg_tunnel].
    split; [by apply owes_after|by eexists].
  - pose proof (finish_send (e1 ++ e2 ++ [EvPush flow]) c t
      (_ ← ConnClose (rs_body resp); mret (Err e)) ((tr ++ e2) ++ [EvPush flow])) as Hf.
    destruct Hf as (out & evs & E & Hr).
    + rewrite app_assoc. apply traffic_inner; [done|by repeat constructor].
    + rewrite app_assoc. apply owes_after; [done|by repeat constructor].
    + solve_emits.
    + exists out, evs. rewrite <-!app_assoc in Hr. split; [|done]. rewrite app_nil_r in *. rewrite <-E. done.
Qed.

Lemma sendReady_outcome op endpoint req parent ann t c (reused : bool) e1 tr :
  traffic 0 e1 → owes c t e1 →
  outcome (λ evs out, returned (e1 ++ evs) out) (sendReady op endpoint req parent ann t c reused) tr.
Proof.
  intros Ht Ho. assert (traffic 1 e1) as Ht1 by (destruct Ht; split; [lia|done]).
  unfold sendReady. cbv zeta. destruct (buildUpstreamRequest _ _ _) as [out|e].
  2: { apply finish_send; [done|done|apply emits_sendFailed]. }
  apply out_bind. apply (out_weaken _ _ _ _ (forwardTunnel_outcome t out tr)). intros e2 [r t'] (S & A & F & N).
  cbn [snd] in *. pose proof (owes_forward c t t' e1 e2 Ho S N) as Ho2.
  assert (traffic 1 (e1 ++ e2)) as Ht2.
  { destruct Ht as [F1 A1]. unfold traffic. rewrite forwards_app, answers_app, F, A, A1, length_app. cbn. by split; [lia|]. }
  destruct r as [resp|e].
  - apply out_bind, out_emit.
    eapply out_weaken; [apply (emitProduced_outcome _ _ _ _ c t' ((e1 ++ e2) ++ [EvLog "info" (op ++ " sent")%string]))|].
    + apply traffic_inner; [done|by repeat constructor].
    + apply owes_after; [done|by repeat constructor].
    + intros evs out2. cbv beta. by rewrite <-!app_assoc.
  - eapply out_weaken; [apply (finish_send (e1 ++ e2) c t'); [done|done|apply emits_sendFailed]|].
    intros evs out2. cbv beta. by rewrite <-!app_assoc.
Qed.

(** ** Selecting a tunnel *)

(** Nothing is held and nothing was registered. *)
Definition idle (evs : list event) : Prop := balanced evs ∧ registry evs = [].

Definition selected {A} (evs : list event) (r : result (activeTunnel * cleanup * A)) : Prop :=
  traffic 0 evs ∧ match r with Ok (t, c, _) => owes c t evs | Err _ => idle evs end.

Lemma openFreshTunnel_outcome h host mk version session tr :
  outcome (λ evs r, traffic 0 evs ∧ match r with
    | Ok (t, captured) => owes (Teardown captured) t evs ∧ at_controlHost t = host ∧ at_machineKey t = mk ∧
                          at_client t = None
    | Err _ => idle evs end)
    (openFreshTunnel h host mk version session) tr.
Proof.
  unfold openFreshTunnel. apply out_ebind. unfold NoiseTunnel.getOrCreateUpstream, outcome at 1.
  destruct (ne_acquire _ _) as [u|e].
  2: { eexists _, []. split; [by rewrite app_nil_r|]. split; [done|by split]. }
  eexists _, [_]. split; [reflexivity|]. apply out_bind.
  eapply out_weaken; [apply out_emits, emits_emitTunnelEnvelope|]. intros e2 env Q.
  destruct (inner_events e2 Q) as (R & G & A & F).
  destruct env as [[id captured]|e].
  - apply out_bind. destruct captured; [apply out_emit|apply out_ret]; apply out_ret;
      rewrite ?app_nil_r; unfold traffic; rewrite !forwards_app, !answers_app, F, A;
      (split; [done|]; split; [|done]; split; [done|]; split;
       [intros v; rewrite !refs_of_app, R; unfold holds; cbn; lia|by rewrite !registry_app, G]).
  - apply out_bind, out_emit, out_ret. rewrite ?app_nil_r. unfold traffic.
    rewrite !forwards_app, !answers_app, F, A. split; [done|]. split.
    + intros v. rewrite !refs_of_app, R. cbn. lia.
    + by rewrite !registry_app, G.
Qed.

Lemma openFresh_outcome h host mk version session tr :
  outcome selected (openFresh h host mk version session) tr.
Proof.
  apply out_ebind. eapply out_weaken; [apply openFreshTunnel_outcome|].
  intros evs [[t captured]|e] [Ht Ho]; [|done]. apply out_ret. rewrite app_nil_r. split; [done|]. apply Ho.
Qed.

Lemma acquired_live id t tr0 : ne_getTunnel tr0 id = Some t → owes (Release (at_up t)) t [EvAcquire (uc_id (at_up t))].
Proof. intros Hg. split; [done|]. exists t, tr0, id. do 2 (split; [done|]). intros v. cbn. lia. Qed.

Lemma selectTunnel_outcome h host id endpoint version tr :
  outcome selected (selectTunnel h host id endpoint version) tr.
Proof.
  unfold selectTunnel. apply out_bind, out_read. cbn [app]. rewrite app_nil_r.
  assert (∀ (m : eff string) mk tr, (∀ tr, snd (m tr) = tr) →
    outcome selected (session ← m; openFresh h host mk version session) tr) as Hfresh.
  { intros m mk tr1 Hm. apply out_bind, out_pure; [done|]. apply openFresh_outcome. }
  assert (∀ tr, snd (freshPoolSession h tr) = tr) as Hs by (intros; unfold freshPoolSession; by case_bool_decide).
  case_bool_decide; [by apply Hfresh|].
  apply out_bind. unfold NoiseTunnel.getTunnel. apply out_read. cbn [app]. rewrite app_nil_r.
  destruct (ne_getTunnel tr id) as [t|] eqn:Hg; [|by apply Hfresh].
  apply out_bind. unfold tryAcquireUpstream, outcome at 1. destruct (ne_tryAcquire _ _).
  - eexists _, [_]. split; [reflexivity|]. apply out_ret. split; [done|]. by eapply acquired_live.
  - eexists _, []. split; [by rewrite app_nil_r|]. by apply Hfresh.
Qed.

(** ** The background drain *)

Lemma discardBuf_pos : (0 < discardBuf)%nat.
Proof. unfold discardBuf. lia. Qed.
#[local] Opaque discardBuf.

Lemma discardCopy_ends r tr : ends (λ evs _, Forall inner_event evs) (λ n, discardCopy n r) tr.
Proof.
  remember (remaining r) as m eqn:Hm. revert r tr Hm.
  induction (lt_wf m) as [m _ IHm]. intros r tr ->.
  remember (length (pending r)) as p eqn:Hp. revert r tr IHm Hp.
  induction (lt_wf p) as [p _ IHp]. intros r tr IHm ->.
  destruct (Read_consumes discardBuf r tr discardBuf_pos) as (o & r' & tr' & E & Ho).
  destruct (emits_Read discardBuf r tr) as (e1 & E1 & Q1). rewrite E in E1. cbn [snd] in E1. subst tr'.
  destruct o as [b|e].
  2: { eexists 1%nat, _, e1. split; [|done]. intros k. cbn [Nat.add discardCopy]. unfold mbind, eff_bind. by rewrite E. }
  assert (ends (λ evs _, Forall inner_event evs) (λ n, discardCopy n r') (tr ++ e1)) as (n & a & evs & En & Hf).
  { destruct Ho as [Hlt|[Heq Hlt]]; [by eapply IHm|]. eapply (IHp _ Hlt); [|done].
    intros y Hy. rewrite Heq in Hy. by apply IHm. }
  exists (S n), a, (e1 ++ evs). split; [|by apply Forall_app].
  intros k. cbn [Nat.add discardCopy]. unfold mbind at 1, eff_bind at 1. rewrite E. by rewrite En, app_assoc.
Qed.

Lemma drainStream_ends bg e1 tr :
  owes (bg_cleanup bg) (bg_tunnel bg) e1 →
  ends (λ evs _, settled (e1 ++ evs) ∧ forwards evs = [] ∧ answers evs = []) (λ n, drainStream n bg) tr.
Proof.
  intros Ho. unfold drainStream.
  apply (ends_obind _ (λ n, discardCopy n (bg_reader bg)) (λ _ '(err, r), _)).
  apply (ends_weaken _ _ _ _ (discardCopy_ends (bg_reader bg) tr)). intros e2 [err r] Q2.
  apply (ends_after _ _ (λ _ _, _ ← MapStream.Close r; _ ← run_cleanup (bg_cleanup bg) (bg_tunnel bg); mret (Some tt))).
  { destruct err; auto with emits. }
  intros e3 [] Q3. apply (ends_after _ _ (λ _ _, _ ← run_cleanup (bg_cleanup bg) (bg_tunnel bg); mret (Some tt))); [apply emits_Close|].
  intros e4 r4 Q4. apply (ends_bind _ _ (λ _ _, mret (Some tt))).
  assert (owes (bg_cleanup bg) (bg_tunnel bg) (e1 ++ e2 ++ e3 ++ e4)) as Ho4.
  { apply owes_after; [done|]. by repeat (apply Forall_app; split). }
  eapply out_weaken; [apply (run_cleanup_outcome _ _ _ _ Ho4)|]. intros e5 [] (Hs & F & A). apply ends_ret.
  rewrite app_nil_r, !forwards_app, !answers_app, F, A. rewrite <-!app_assoc in Hs. split; [done|].
  destruct (inner_events e2 Q2) as (_ & _ & -> & ->), (inner_events e3 Q3) as (_ & _ & -> & ->),
    (inner_events e4 Q4) as (_ & _ & -> & ->). done.
Qed.

Lemma traffic_weaken evs : traffic 0 evs → traffic 1 evs.
Proof. intros [F A]. by split; [lia|]. Qed.

(** ** Replay and injection *)

Lemma emits_rebind h endpoint body t cross muts : emits inner_event (rebind h endpoint body t cross muts).
Proof.
  unfold rebind, rebindRegister, rebindMap, ResignRegisterRequest, ResignHardwareAttestation, SignPSS, SignASN1.
  solve_emits.
Qed.

Lemma returned_fail evs e : Forall inner_event evs → returned evs (Err e, None).
Proof. intros Q. split; [apply (traffic_inner 1 [] evs); [by split; [cbn; lia|]|done]|by apply settled_inner]. Qed.

Lemma returned_idle e1 e2 e : traffic 0 e1 → idle e1 → Forall inner_event e2 → returned (e1 ++ e2) (Err e, None).
Proof.
  intros Ht [Hb G] Q. destruct (inner_events e2 Q) as (R2 & G2 & _).
  split; [apply traffic_inner; [|done]; destruct Ht; split; [lia|done]|].
  apply settled_own; [intros v; by rewrite refs_of_app, Hb, R2|left; by rewrite registry_app, G, G2].
Qed.

(** A failure that is logged and returned. *)
Lemma fail_outcome op ep st t (reused : bool) e e1 tr :
  traffic 0 e1 → idle e1 →
  outcome (λ evs out, returned (e1 ++ evs) out) (r ← sendFailed op ep st t reused e; mret (r, None) : eff sendOut) tr.
Proof.
  intros Ht Hi. apply out_bind. eexists _, [_]. split; [reflexivity|]. apply out_ret.
  rewrite app_nil_r. apply returned_idle; [done|done|by repeat constructor].
Qed.

Lemma control_replay_outcome h p tr : outcome returned (NoiseReplay.replay h p) tr.
Proof.
  unfold NoiseReplay.replay. destruct (replayMessage p) as [[src req]|e]; [|by apply out_ret, (returned_fail [])].
  cbv zeta. apply out_bind. eapply out_weaken; [apply selectTunnel_outcome|]. intros e1 [[[t c] cross]|e] [Ht Ho].
  2: { by apply fail_outcome. }
  apply out_bind. eapply out_weaken; [apply out_emits, emits_rebind|]. intros e2 b Q2.
  assert (∀ n, traffic n e1 → traffic n (e1 ++ e2)) as Ht2 by (intros; by apply traffic_inner).
  destruct b as [[[strip resigned] body]|e].
  - eapply out_weaken; [apply (sendReady_outcome _ _ _ _ _ t c _ (e1 ++ e2)); [by apply Ht2|by apply owes_after]|].
    intros evs out. cbv beta. by rewrite <-app_assoc.
  - eapply out_weaken; [apply (finish_send (e1 ++ e2) c t); [|by apply owes_after|apply emits_sendFailed]|].
    + apply Ht2. destruct Ht. by split; [lia|].
    + intros evs out. cbv beta. by rewrite <-app_assoc.
Qed.

Lemma liveTunnel_outcome ir mk tr :
  outcome (λ evs o, traffic 0 evs ∧ match o with Some (t, c) => owes c t evs | None => evs = [] end) (liveTunnel ir mk) tr.
Proof.
  unfold liveTunnel. destruct (_ && _); [|by apply out_ret].
  apply out_bind. unfold NoiseTunnel.getTunnel. apply out_read. cbn [app].
  destruct (ne_getTunnel tr _) as [t|] eqn:Hg; [|by apply out_ret].
  destruct (_ || _); [|by apply out_ret].
  apply out_bind. unfold tryAcquireUpstream, outcome at 1. destruct (ne_tryAcquire _ _).
  - eexists _, [_]. split; [reflexivity|]. apply out_bind, out_emit, out_ret. split; [done|].
    apply (owes_after _ _ [_] [_]); [by eapply acquired_live|by repeat constructor].
  - eexists _, []. split; [by rewrite !app_nil_r|]. by apply out_ret.
Qed.

Lemma injectTunnel_outcome h ir host mk tr : outcome selected (injectTunnel h ir host mk) tr.
Proof.
  unfold injectTunnel. apply out_bind. eapply out_weaken; [apply liveTunnel_outcome|].
  intros e1 [[t c]|] [Ht Ho]; [apply out_ret; by rewrite app_nil_r|]. subst e1. cbv zeta.
  apply out_bind, out_pure; [unfold freshPoolSession; by case_bool_decide|].
  cbn [app]. apply out_bind. eapply out_weaken; [apply openFreshTunnel_outcome|].
  intros evs [[t captured]|e] [Ht2 Ho].
  - apply out_ret. rewrite app_nil_r. split; [done|apply Ho].
  - eexists _, [_]. split; [reflexivity|]. split; [apply traffic_inner; [done|by repeat constructor]|].
    destruct Ho as [Hb G]. split; [|by rewrite registry_app, G]. intros v. by rewrite refs_of_app, Hb.
Qed.

Lemma injectObject_outcome h ir m tr :
  injectObject h ir = Some m → outcome (λ evs x, returned evs (fst x)) m tr.
Proof.
  assert (∀ e tr, outcome (λ evs x, returned evs (fst x)) (r ← fail_send e; mret (r, false)) tr) as Hfail.
  { intros e tr1. apply out_bind, out_ret, out_ret. by apply (returned_fail []). }
  unfold injectObject. destruct (injectHost h ir) as [host|e]; [|by intros [= <-]].
  destruct (injectFlagged ir) as [[ir'|e]|]; [|by intros [= <-]|done]. intros [= <-].
  apply out_bind.
  assert (∀ k tr, outcome (λ evs x, returned evs (fst x)) (match k with
    | Err e => r ← fail_send e; mret (r, false)
    | Ok mk => s ← injectTunnel h ir' host mk;
        match s with
        | Err e => r ← fail_send e; mret (r, false)
        | Ok (t, c, live) => r ← injectSend ir' t c live; mret (r, live)
        end end) tr) as Hk.
  { intros [mk|e] tr1; [|apply Hfail]. apply out_bind. eapply out_weaken; [apply injectTunnel_outcome|].
    intros e1 [[[t c] live]|e] [Ht Ho].
    - apply out_bind. unfold injectSend. destruct (injectMessage ir' t) as [msg|e].
      + eapply out_weaken; [by apply (sendReady_outcome _ _ _ _ _ t c _ e1)|]. intros e2 out Hr. apply out_ret.
        by rewrite app_nil_r.
      + eapply out_weaken; [by apply (finish_send e1 c t); [apply traffic_weaken| |apply emits_sendFailed]|].
        intros e2 out Hr. apply out_ret. by rewrite app_nil_r.
    - apply out_bind, out_ret, out_ret. cbn [fst app]. apply (returned_idle e1 []); [done|done|constructor]. }
  apply out_pure; [unfold injectionMachineKey; by case_bool_decide|]. apply Hk.
Qed.

(** A send with the background goroutine it leaves, run to its end. *)
Definition settle (m : eff sendOut) (fuel : nat) : eff (option (result wire.SidecarSendResult)) :=
  '(r, bg) ← m;
  match bg with
  | None => mret (Some r)
  | Some bg => obind (drainStream fuel bg) (λ _, mret (Some r))
  end.

Lemma settle_ends m tr :
  outcome returned m tr → ends (λ evs _, settled evs ∧ traffic 1 evs) (settle m) tr.
Proof.
  intros Hm. apply (ends_bind _ m (λ n '(r, bg), _)). apply (out_weaken _ _ _ _ Hm).
  intros e1 [r [bg|]] [Ht Hs]; cbn [snd fst] in *; [|by apply ends_ret; rewrite app_nil_r].
  apply (ends_obind _ (λ n, drainStream n bg) (λ _ _, mret (Some r))).
  apply (ends_weaken _ _ _ _ (drainStream_ends bg e1 _ (proj1 Hs))). intros e2 [] (He & F & A). apply ends_ret.
  rewrite app_nil_r. split; [done|]. destruct Ht as [F1 A1]. unfold traffic.
  by rewrite forwards_app, answers_app, F, A, app_nil_r, A1.
Qed.

(** The injection that panics: a streaming map request whose body is [null]. *)
Definition null_stream (h : NoiseTunnel.Handler) (ctxErr : error) (p : wire.SidecarSendParams) : Prop :=
  waitSetup h ctxErr = None ∧ wire.sp_Flow p = None ∧ wire.sp_FlowID p = EmptyString ∧
  ∃ ir, parseInjection (if (length (wire.sp_Payload p) =? 0)%nat then wire.sp_Target p else wire.sp_Payload p) = Ok ir ∧
    is_Some (match injectHost h ir with Ok x => Some x | Err _ => None end) ∧
    Stream ir = true ∧ Endpoint ir = mapEndpoint ∧ unmarshal_obj (ij_Body ir) = Ok None.

Lemma injectObject_panics h ir :
  injectObject h ir = None →
  is_Some (match injectHost h ir with Ok x => Some x | Err _ => None end) ∧
  Stream ir = true ∧ Endpoint ir = mapEndpoint ∧ unmarshal_obj (ij_Body ir) = Ok None.
Proof.
  unfold injectObject, injectFlagged, ensureStreamFlag. destruct (injectHost h ir) as [host|]; [|done].
  destruct (Stream ir); cbn [andb]; [|done]. case_bool_decide as E; [|done].
  destruct (unmarshal_obj (ij_Body ir)) as [[m|]|]; [|by eauto|done]. by destruct (marshal_obj _).
Qed.

Lemma control_send_outcome h ctxErr p tr :
  match NoiseInject.OnSidecarSend h ctxErr p with
  | Some m => outcome returned m tr
  | None => null_stream h ctxErr p
  end.
Proof.
  unfold NoiseInject.OnSidecarSend, null_stream. destruct (waitSetup h ctxErr) as [e|] eqn:Ew; [by apply out_ret, (returned_fail [])|].
  destruct (wire.sp_Flow p) as [f|] eqn:Ef; [apply control_replay_outcome|].
  case_bool_decide as Ei; [|apply control_replay_outcome]. unfold NoiseInject.inject. cbv zeta.
  destruct (parseInjection _) as [ir|e]; [|by apply out_ret, (returned_fail [])].
  destruct (injectObject h ir) as [m|] eqn:Eo.
  - apply out_bind. eapply out_weaken; [by eapply injectObject_outcome|]. intros evs [out live] Hr.
    apply out_ret. by rewrite app_nil_r.
  - do 3 (split; [done|]). exists ir. split; [done|]. by apply injectObject_panics.
Qed.

(** ** An unedited replay *)

(** The request line a captured request is replayed with is the captured one: a
    target without a query is its decoded path, and a query is not empty. *)
Definition line_kept (req : HttpRequest) : Prop :=
  rq_Method req ≠ EmptyString ∧
  match Cut (rq_RequestURI req) "?"%char with
  | (path, query, true) => path ≠ EmptyString ∧ query ≠ EmptyString
  | (_, _, false) => rq_Path req = rq_RequestURI req
  end.

(** The path a replay sees. *)
Definition replay_path (req : HttpRequest) : string :=
  match Cut (rq_RequestURI req) "?"%char with
  | (path, _, true) => path
  | (_, _, false) => rq_Path req
  end.

Lemma Cut_join s c x y : Cut s c = (x, y, true) → s = (x ++ String c y)%string.
Proof.
  revert x. induction s as [|a s IH]; intros x; cbn; [done|].
  destruct (Ascii.eqb_spec a c) as [->|]; [by intros [= <- <-]|].
  destruct (Cut s c) as [[x' y'] ok]. intros [= <- <- ->]. cbn. by rewrite (IH x').
Qed.

Lemma find_path req l : List.find (is_hdr HdrPath) (pseudo4 req ++ l) = Some (hdr HdrPath (rq_RequestURI req)).
Proof. reflexivity. Qed.

(** Writing back the captured request line changes nothing. *)
Lemma put_method req l : put_header HdrMethod (rq_Method req) (pseudo4 req ++ l) = pseudo4 req ++ l.
Proof. reflexivity. Qed.
Lemma put_path req l : put_header HdrPath (rq_RequestURI req) (pseudo4 req ++ l) = pseudo4 req ++ l.
Proof. reflexivity. Qed.

Lemma sync_unedited req l body :
  line_kept req →
  let m := normalizePathQuery (request_msg req (pseudo4 req ++ l) body) in
  wire.Headers (syncPseudoHeaders m) = pseudo4 req ++ l ∧ wire.Body (syncPseudoHeaders m) = body ∧
  wire.Path m = replay_path req ∧ wire.Body m = body.
Proof.
  intros [Hm Hl]. cbv zeta. unfold normalizePathQuery, replay_path.
  change (wire.Headers (request_msg _ _ _)) with (pseudo4 req ++ l). rewrite find_path. cbn [wire.Value].
  destruct (Cut (rq_RequestURI req) "?"%char) as [[path query] [|]] eqn:Ec; unfold syncPseudoHeaders, setPseudoHeader, set_headers, set_path;
    cbn [wire.Method wire.Path wire.Query wire.Headers wire.Body wire.StatusCode wire.BodyRaw wire.Codec request_msg];
    rewrite (bool_decide_false _ Hm), put_method.
  - destruct Hl as [Hp Hq]. change (bool_decide ((EmptyString : string) = EmptyString)) with true; cbn iota.
    rewrite (bool_decide_false _ Hp), (bool_decide_false _ Hq). apply Cut_join in Ec. cbn [String.append].
    rewrite bool_decide_false by (by destruct path).
    split_and!; try done. cbn [wire.Headers]. change ("?" ++ query)%string with (String "?"%char query).
    rewrite <-Ec. apply put_path.
  - split_and!; try done; rewrite Hl; case_bool_decide as E; try done.
    change (bool_decide ((EmptyString : string) = EmptyString)) with true; cbn iota. rewrite (bool_decide_false _ E). apply put_path.
Qed.

Context `{!SlicesLaws} `{!HTTPLaws} `{!MutationsLaws}.

Lemma captureOutgoing_build host tid req tr body out tr1 :
  no_rules → captureOutgoing host tid req tr = (Ok (body, out), tr1) →
  ∃ l, buildUpstreamRequest host (pseudo4 req ++ l) body = Ok out ∧
    tr1 = tr ++ [EvPush (requestFlow tid (env_Now tr) (request_msg req (pseudo4 req ++ l) body))].
Proof.
  intros [Hb Hh]. unfold captureOutgoing. destruct (ReadAll (rq_Body req)) as [b|e]; [|done].
  unfold mbind at 1, eff_bind at 1. unfold requestHeaders, appendHTTPHeaders. fold (pseudo4 req).
  unfold mbind at 1, eff_bind at 1.
  destruct (captureRequest tid req _ b tr) as [r1 tr2] eqn:Er.
  apply (captureRequest_spec tid req tr) in Er as (body' & headers' & -> & Hr1 & _ & Hn).
  destruct (Hn Hb Hh) as [-> ->]. destruct Hr1 as [->|[e ->]]; [|by rewrite captureError_Err].
  rewrite captureError_Ok. destruct (buildUpstreamRequest host _ b) as [o|e] eqn:Eo; [|by rewrite captureError_Err].
  rewrite captureError_Ok. intros [= <- <- <-]. by eexists.
Qed.

Lemma grows_emitProduced req resp parent ann c t : emits (λ _, True) (NoiseReplay.emitProduced req resp parent ann c t).
Proof.
  unfold NoiseReplay.emitProduced, emitStream, emitBuffered, run_cleanup, NoiseTunnel.freshCleanup, completeTunnel, NoiseTunnel.closeTunnel,
    responseHeaders, appendHTTPHeaders, Log, PushFlow, CompleteFlow, ConnClose, Now, NoiseTunnel.releaseUpstream, NoiseTunnel.deregisterTunnel.
  solve_emits.
Qed.

Lemma forwardTunnel_first t out tr :
  ∃ x evs, forwardTunnel t out tr =
    (x, tr ++ EvForward (uc_bridge (at_up t)) (or_Method out) (or_URL out) (or_Header out) (or_Body out) :: evs).
Proof.
  unfold forwardTunnel, Forward, mbind, eff_bind. set (ef := EvForward _ _ _ _ _).
  destruct (h2_RoundTrip _ _ _) as [resp|e]; [by eexists _, []|]. unfold Usable, ask.
  destruct (h2_Usable _ _) eqn:Hu; [by eexists _, []|].
  destruct (healUpstream_outcome t (tr ++ [ef]) _ Hu) as (t' & evs & E & _). unfold eff in E. rewrite E.
  eexists _, evs. by rewrite <-app_assoc.
Qed.

(** What a ready request puts on the wire first. *)
Lemma sendReady_forwards op endpoint req parent ann t c (reused : bool) out tr :
  buildUpstreamRequest (at_controlHost t) (wire.Headers (syncPseudoHeaders req)) (wire.Body (syncPseudoHeaders req)) = Ok out →
  ∃ evs, snd (sendReady op endpoint req parent ann t c reused tr) =
    tr ++ EvForward (uc_bridge (at_up t)) (or_Method out) (or_URL out) (or_Header out) (or_Body out) :: evs.
Proof.
  intros Hb. unfold sendReady. cbv zeta. rewrite Hb. unfold mbind at 1, eff_bind at 1.
  destruct (forwardTunnel_first t out tr) as ([r t'] & e1 & ->). set (ef := EvForward _ _ _ _ _).
  match goal with |- context [snd (?m (tr ++ ef :: e1))] => assert (emits (λ _, True) m) as Hg end.
  { pose proof (λ a b d e f g, grows_emitProduced a b d e f g) as Hp.
    unfold sendFailed, run_cleanup, NoiseTunnel.freshCleanup, completeTunnel, NoiseTunnel.closeTunnel, Log, CompleteFlow,
      NoiseTunnel.releaseUpstream, NoiseTunnel.deregisterTunnel. destruct r; solve_emits. }
  destruct (Hg (tr ++ ef :: e1)) as (evs & E & _). exists (e1 ++ evs). by rewrite E, <-app_assoc.
Qed.

Lemma set_body_same m : set_body (wire.Body m) m = m.
Proof. by destruct m. Qed.

Lemma selectTunnel_live h host id endpoint version t tr :
  endpoint ≠ registerEndpoint → ne_getTunnel tr id = Some t → ne_tryAcquire tr (uc_id (at_up t)) = true →
  selectTunnel h host id endpoint version tr = (Ok (t, Release (at_up t), false), tr ++ [EvAcquire (uc_id (at_up t))]).
Proof.
  intros Hr Hg Ha. unfold selectTunnel, ask, mbind, eff_bind. rewrite bool_decide_false by done.
  unfold NoiseTunnel.getTunnel, tryAcquireUpstream. by rewrite Hg, Ha.
Qed.

(** On a live tunnel, without mutations, nothing is bound again. *)
Lemma rebind_unedited h endpoint body t tr :
  endpoint ≠ registerEndpoint → rebind h endpoint body t false [] tr = (Ok ([], false, body), tr).
Proof. intros Hr. unfold rebind. rewrite bool_decide_false by done. by case_bool_decide. Qed.
End send.

(** ** Register replays *)

Section register.
Context `{MachineKeys} `{HWKeys} `{!TailcfgJSON} `{SigningLaws} `{JSON} `{Addr} `{URLParse} `{Core} `{CapVersion}.
Context `{HTTP} `{!Slices} `{!ControlBase} `{EarlyNoiseMsg} `{Bulk} `{Env} `{!NoiseEnv}.

Lemma rebindRegister_verifies h t muts strips body tr ann resigned body' tr' k chain :
  regSigner h = Some (mkRegisterSigner (Some k) chain) →
  rebindRegister h t true muts strips body tr = (Ok (ann, resigned, body'), tr') →
  ann = stripAnnotations strips ∧ resigned = true ∧
  ∃ req req', unmarshal_rr body = Ok req ∧ marshal_rr req' = Ok body' ∧ rr_rest req' = rr_rest req ∧
    register_verifies k ("https://" ++ at_controlHost t) (at_serverLegacy t) (MachinePublic_of (at_machineKey t)) req'.
Proof.
  intros Hs. unfold rebindRegister. cbn [orb]. unfold mbind at 1, eff_bind at 1. unfold Now, ebind, mbind, eff_bind. rewrite Hs.
  destruct (ResignRegisterRequest _ _ _ _ _ _ tr) as [[res|e] tr1] eqn:E; [|done]. intros [= <- <- <- <-].
  pose proof (f_equal fst E) as E1. apply resign_register_inv in E1 as (req & req' & Hu & Hm & Ha & Hr & _ & _ & _ & Hv).
  rewrite Ha. split; [done|]. split; [done|]. by exists req, req'.
Qed.

Lemma rebind_register h body t muts tr ann resigned body' tr' k chain :
  regSigner h = Some (mkRegisterSigner (Some k) chain) →
  rebind h registerEndpoint body t true muts tr = (Ok (ann, resigned, body'), tr') →
  resigned = true ∧
  ∃ req', marshal_rr req' = Ok body' ∧
    register_verifies k ("https://" ++ at_controlHost t) (at_serverLegacy t) (MachinePublic_of (at_machineKey t)) req'.
Proof.
  intros Hs. unfold rebind. rewrite bool_decide_true by done. destruct (mutationTouches muts _).
  - unfold ebind, mbind, eff_bind. cbn [mret eff_ret]. destruct (stripNodeKeySignature body) as [[b a]|e]; [|done].
    intros E. apply (rebindRegister_verifies _ _ _ _ _ _ _ _ _ _ k chain Hs) in E as (_ & Hr & req & req' & _ & Hm & _ & Hv). eauto.
  - intros E. apply (rebindRegister_verifies _ _ _ _ _ _ _ _ _ _ k chain Hs) in E as (_ & Hr & req & req' & _ & Hm & _ & Hv). eauto.
Qed.

Lemma selectTunnel_register h host id version tr t c cross tr' :
  selectTunnel h host id registerEndpoint version tr = (Ok (t, c, cross), tr') →
  cross = true ∧ (∃ captured, c = Teardown captured) ∧ at_controlHost t = host ∧ at_machineKey t = key_NewMachine tr ∧
  at_client t = None ∧ at_session t = ("dedicated-" ++ FormatUint (ne_freshSeq tr))%string.
Proof.
  unfold selectTunnel, ask. unfold mbind at 1, eff_bind at 1. rewrite bool_decide_true by done.
  unfold dedicatedPoolSession, openFresh, openFreshTunnel, NoiseTunnel.getOrCreateUpstream, ebind, mbind, eff_bind.
  destruct (ne_acquire _ _) as [u|e]; [|done].
  destruct (NoiseTunnel.emitTunnelEnvelope _ _ _) as [[[tid captured]|e] tr1]; [|done].
  destruct captured; intros [= <- <- <- _]; split_and!; eauto.
Qed.
End register.

(** ** Properties *)

(** C4: the life of a control send (replay or injection). Whatever sectool, the
    upstream and the other goroutines do, the send returns, with the goroutine
    that drains a streamed answer ending too, and then: a fresh tunnel's reference
    on its upstream has been returned and, if its envelope was captured, the
    envelope was completed before the tunnel was deregistered; of a live tunnel
    that was ridden only its own reference remains, which has moved if the send
    healed it. At most one request goes upstream, and no client is answered. The
    only send that does not return is a streaming map injection with the body
    [null], which panics. *)
Theorem control_send_lifecycle `{MachineKeys} `{HWKeys} `{!TailcfgJSON} `{Signing} `{JSON} `{Addr} `{URLParse}
    `{Core} `{CapVersion} `{HTTP} `{!Slices} `{!ControlBase} `{EarlyNoiseMsg} `{ReassemblerLaws} `{Zstd} `{Bulk}
    `{Mutations} `{Env} `{!NoiseEnv} `{InjectionJSON}
    (h : NoiseTunnel.Handler) (ctxErr : error) (p : wire.SidecarSendParams) (tr : list event) :
  match NoiseInject.OnSidecarSend h ctxErr p with
  | Some m => ∃ n r evs, (∀ k, settle m (n + k) tr = (Some r, tr ++ evs)) ∧ settled evs ∧
      (length (forwards evs) ≤ 1)%nat ∧ answers evs = []
  | None => null_stream h ctxErr p
  end.
Proof.
  pose proof (control_send_outcome h ctxErr p tr) as Ho. destruct (NoiseInject.OnSidecarSend h ctxErr p) as [m|]; [|done].
  destruct (settle_ends m tr Ho) as (n & r & evs & E & Hs & Hf & Ha). by exists n, r, evs.
Qed.

(** C6: replaying a captured control request unchanged sends it unchanged. When no
    rule fired at the capture, the tunnel is still live and nothing is mutated, the
    first thing the replay puts on the wire is the same method, URL, header and
    body that the capture forwarded, on the same tunnel's connection. This needs the
    request line to survive: a target without a query has to be its decoded path
    (see the findings), and a query must not be empty. *)
Theorem replay_verbatim `{MachineKeys} `{HWKeys} `{!TailcfgJSON} `{Signing} `{JSON} `{Addr} `{URLParse}
    `{Core} `{CapVersion} `{HTTPLaws} `{SlicesLaws} `{!ControlBase} `{EarlyNoiseMsg} `{Reassembler} `{Zstd} `{Bulk}
    `{MutationsLaws} `{Env} `{!NoiseEnv} `{InjectionJSON}
    (h : NoiseTunnel.Handler) (ctxErr : error) (p : wire.SidecarSendParams) (f : wire.Flow) (req : HttpRequest)
    (t : NoiseTunnel.activeTunnel) (body : bytes) (out : OutRequest) (tr0 tr : list event) :
  no_rules → line_kept req → replay_path req ≠ registerEndpoint →
  captureOutgoing (at_controlHost t) (at_flowID t) req tr0 = (Ok (body, out), tr0 ++ [EvPush f]) →
  waitSetup h ctxErr = None → wire.sp_Flow p = Some f → wire.sp_Mutations p = [] → wire.sp_StreamStrategy p = EmptyString →
  ne_getTunnel tr (at_flowID t) = Some t → ne_tryAcquire tr (uc_id (at_up t)) = true →
  ∃ m evs, NoiseInject.OnSidecarSend h ctxErr p = Some m ∧
    snd (m tr) = tr ++ EvAcquire (uc_id (at_up t)) ::
      EvForward (uc_bridge (at_up t)) (or_Method out) (or_URL out) (or_Header out) (or_Body out) :: evs.
Proof.
  intros Hn Hl Hr Hc Hw Hf Hm Hs Hg Ha. unfold NoiseInject.OnSidecarSend. rewrite Hw, Hf.
  apply captureOutgoing_build in Hc as (l & Hb & [= ->]%app_inv_head); [|done].
  destruct (sync_unedited req l body Hl) as (Hsh & Hsb & Hp & Hbody).
  unfold NoiseReplay.replay, replayMessage. rewrite Hf, Hm, Hs. cbn [wire.Request requestFlow].
  rewrite bool_decide_true by set_solver. cbn [negb]. rewrite andb_false_r, ApplyMutations_nil.
  set (m := normalizePathQuery _) in *. rewrite Hp, Hbody.
  set (tr1 := tr ++ [EvAcquire (uc_id (at_up t))]).
  destruct (sendReady_forwards "replay" (replay_path req) (set_body (wire.Body m) m) (wire.sp_FlowID p) [] t
    (Release (at_up t)) true out tr1) as (evs & E); [by rewrite set_body_same, Hsh, Hsb|].
  eexists _, evs. split; [reflexivity|].
  replace (tr ++ _ :: _ :: evs) with (tr1 ++ EvForward (uc_bridge (at_up t)) (or_Method out) (or_URL out) (or_Header out) (or_Body out) :: evs)
    by (unfold tr1; by rewrite <-app_assoc).
  rewrite <-E. unfold mbind at 1, eff_bind at 1. cbn [wire.ParentFlowID requestFlow].
  rewrite (selectTunnel_live _ _ _ _ _ t) by done. fold tr1. unfold mbind at 1, eff_bind at 1.
  rewrite rebind_unedited by done. by rewrite <-Hbody.
Qed.

(** C18: replaying a register request. It always opens a fresh tunnel, in a
    dedicated upstream session, for a new machine key and the host of the source;
    with an operator certificate configured the body it sends carries a signature
    that the server's check accepts for exactly that tunnel: its URL, the upstream's
    legacy key and the tunnel's machine key, whatever was mutated. *)
Theorem register_replay_rebound `{MachineKeys} `{HWKeys} `{!TailcfgJSON} `{SigningLaws} `{JSON} `{Addr} `{URLParse}
    `{Core} `{CapVersion} `{HTTP} `{!Slices} `{!ControlBase} `{EarlyNoiseMsg} `{Bulk} `{Env} `{!NoiseEnv}
    (h : NoiseTunnel.Handler) (host id : string) (version : Z) (body : bytes) (muts : list wire.Mutation)
    (k : RSAPrivate) (chain : list bytes) (tr tr1 : list event) (t : NoiseTunnel.activeTunnel) (c : cleanup) (cross : bool) :
  regSigner h = Some (mkRegisterSigner (Some k) chain) →
  selectTunnel h host id registerEndpoint version tr = (Ok (t, c, cross), tr1) →
  (∃ captured, c = Teardown captured) ∧ cross = true ∧ at_client t = None ∧
  at_session t = ("dedicated-" ++ FormatUint (ne_freshSeq tr))%string ∧
  at_controlHost t = host ∧ at_machineKey t = key_NewMachine tr ∧
  ∀ tr2 ann resigned body' tr3,
    rebind h registerEndpoint body t cross muts tr2 = (Ok (ann, resigned, body'), tr3) →
    resigned = true ∧ ∃ req', marshal_rr req' = Ok body' ∧
      register_verifies k ("https://" ++ host) (at_serverLegacy t) (MachinePublic_of (key_NewMachine tr)) req'.
Proof.
  intros Hk Hs. apply selectTunnel_register in Hs as (-> & Hc & Hh & Hm & Hcl & Hse).
  split_and!; try done. intros tr2 ann resigned body' tr3 E. rewrite <-Hh, <-Hm. by eapply rebind_register.
Qed.

(** ** Witnesses *)

#[local] Instance toy_env : Env := env_capture.
#[local] Instance toy_injection : InjectionJSON := {| unmarshal_injection b := Ok (mkInjection "" "" "/machine/map" "" [] b true "" 0 false []) |}.

Definition toy_captured : wire.Flow := requestFlow "t1" 0 (request_msg toy_req (pseudo4 toy_req ++ flat_header (rq_Header toy_req)) [x7b; x7d]).
Definition toy_send (f : option wire.Flow) (payload : bytes) : wire.SidecarSendParams :=
  wire.mkSendParams f (match f with Some _ => "f1" | None => "" end)%string [] payload [] "".

Lemma control_send_lifecycle_witness :
  match NoiseInject.OnSidecarSend toy_noise (ErrNew "ctx") (toy_send (Some toy_captured) []) with
  | Some m => ∃ n r evs, (∀ k, settle m (n + k) [] = (Some r, evs)) ∧ settled evs
  | None => False
  end.
Proof.
  pose proof (control_send_lifecycle toy_noise (ErrNew "ctx") (toy_send (Some toy_captured) []) []) as Hl.
  destruct (NoiseInject.OnSidecarSend _ _ _) as [m|].
  - destruct Hl as (n & r & evs & E & Hs & _). by exists n, r, evs.
  - by destruct Hl as (_ & [=] & _).
Defined.

Definition toy_out : OutRequest :=
  mkOutRequest "POST" "https://c.example/machine/map" [("X-A"%string, ["1"%string])] [x7b; x7d].

Lemma replay_verbatim_witness :
  ∃ m evs, NoiseInject.OnSidecarSend toy_noise (ErrNew "ctx") (toy_send (Some toy_captured) []) = Some m ∧
    snd (m []) = [] ++ EvAcquire (uc_id (at_up toy_control)) ::
      EvForward (uc_bridge (at_up toy_control)) (or_Method toy_out) (or_URL toy_out) (or_Header toy_out) (or_Body toy_out) :: evs.
Proof.
  refine (replay_verbatim toy_noise (ErrNew "ctx") (toy_send (Some toy_captured) []) toy_captured toy_req toy_control
    [x7b; x7d] toy_out [] [] _ _ _ _ _ _ _ _ _ _); [by split|by split|by vm_compute|by vm_compute|done..].
Defined.

Definition toy_fresh : NoiseTunnel.activeTunnel :=
  mkTunnel toy_upstream "c.example" (toy_mpub x0d) (toy_mpub x00) (toy_mkey x0e) 130 "dedicated-1" "flow-1" None false false.

Definition toy_select : result (NoiseTunnel.activeTunnel * cleanup * bool) * list event :=
  selectTunnel toy_noise "c.example" "t1" registerEndpoint 130 [].
Definition toy_rebound : result (annotations * bool * bytes) * list event :=
  rebind toy_noise registerEndpoint [x01] toy_fresh true [] [].

Lemma toy_selected : fst toy_select = Ok (toy_fresh, Teardown true, true).
Proof. reflexivity. Qed.
Lemma toy_rebinds : match fst toy_rebound with Ok _ => true | Err _ => false end = true.
Proof. reflexivity. Qed.

Lemma register_replay_rebound_witness :
  ∃ req', @marshal_rr toy_hw toy_machines toy_tailcfg req' = Ok (match fst toy_rebound with Ok (_, b) => b | Err _ => [] end) ∧
    register_verifies x21 "https://c.example" (toy_mpub x00) (MachinePublic_of (toy_mkey x0e)) req'.
Proof.
  destruct (register_replay_rebound toy_noise "c.example" "t1" 130 [x01] [] x21 [[x31]] [] (snd toy_select) toy_fresh
    (Teardown true) true eq_refl (eq_trans (surjective_pairing toy_select) (f_equal (λ x, (x, snd toy_select)) toy_selected)))
    as (_ & _ & _ & _ & _ & _ & Hv).
  pose proof toy_rebinds as Ht. specialize (Hv []). fold toy_rebound in Hv.
  destruct toy_rebound as [[[[ann resigned] body']|e] tr3]; [|done].
  destruct (Hv _ _ _ _ eq_refl) as (_ & req' & Hm & Hr). by exists req'.
Defined.
