(* ===== verification/Config.v ===== *)
(** * Configuration and startup: [sidescale/config.go], [run] of [main.go]

    Loading a configuration file, and what [run] does before it serves: the key
    material and the instance id, over the file system of [Persist]. *)

From Stdlib Require Import Init.Byte Strings.Byte Lia ZArith Ascii String.
From stdpp Require Import base option list fin_maps gmap sets strings.
From S2P Require Import Prelude GoStd External Instances Adapter Persist NoiseConfig ExternalControl ControlInstances Bindings.
From S2P Require DerpConfig.
Open Scope Z_scope.

Definition defaultName : string := "sidescale".

Record SectoolConfig := mkSectool { Socket : string }.

(** Both surfaces are pointers: [Control] is set by [applyDefaults], an absent
    [Derp] leaves that surface out. *)
Record Config := mkConfig {
  Name : string;
  Sectool : SectoolConfig;
  Control : option ControlConfig;
  Derp : option DerpConfig.DerpConfig
}.

(** [Config{}] *)
Definition config_zero : Config := mkConfig "" (mkSectool "") None None.

(** [encoding/json]: a decoder's first strict [Decode] into a [Config], with the
    input behind the value, and the error of a second [Decode] of a raw value. *)
Class ConfigJSON := {
  Decode_config : bytes → result (Config * bytes);
  Decode_raw : bytes → option error
}.

Definition applyDefaults (c : Config) : Config :=
  mkConfig (DerpConfig.or_default (Name c) defaultName) (Sectool c)
    (Some (NoiseConfig.ApplyDefaults (default control_zero (Control c))))
    (DerpConfig.ApplyDefaults <$> Derp c).

Section load.
Context `{Addr} `{ConfigJSON} `{OS}.

(** [None] is a panic: [Control.Validate] on a nil pointer. *)
Definition validate (c : Config) : option (option error) :=
  match Control c with
  | None => None
  | Some cc =>
      match NoiseConfig.Validate cc with
      | Some e => Some (Some e)
      | None =>
          Some (match Derp c with
                | Some dc => DerpConfig.Validate dc
                | None => None
                end)
      end
  end.

(** The second [Decode] must report the end of the input. *)
Definition at_EOF (rest : bytes) : bool :=
  match Decode_raw rest with Some e => errors_Is e io_EOF | None => false end.

Definition parseConfig (path : string) (data : bytes) : result Config :=
  match Decode_config data with
  | Err e => Err (ErrWrap "sidescale: parse config %s: %w" [path] e)
  | Ok (cfg, rest) =>
      if negb (at_EOF rest) then
        Err (ErrFmt "sidescale: parse config %s: unexpected content after JSON object" [path])
      else Ok cfg
  end.

Definition readConfig (path : string) : fsM (result Config) :=
  if negb (bool_decide (path = EmptyString)) then
    data ← ReadFile path;
    mret (match data with
          | Err e => Err (ErrWrap "sidescale: read config %s: %w" [path] e)
          | Ok data => parseConfig path data
          end)
  else mret (Ok config_zero).

Definition LoadConfig (path : string) : fsM (option (result Config)) :=
  r ← readConfig path;
  mret (match r with
        | Err e => Some (Err e)
        | Ok cfg =>
            let cfg := applyDefaults cfg in
            match validate cfg with
            | None => None
            | Some (Some e) => Some (Err e)
            | Some None => Some (Ok cfg)
            end
        end).
End load.

(** ** Startup: [run] up to [serveForever] *)

Section run.
Context `{Addr} `{ConfigJSON} `{OS} `{MachineKeys} `{NodeKeys} `{Signing} `{!X509}.
Context `{!PrivKey MachinePrivate} `{!PrivKey NodePrivate}.

(** [derpSrv] is the zero key and [derpNode] nil without a DERP surface. *)
Record keyMaterial := mkKeyMaterial {
  responder : MachinePrivate;
  machine : provider (K := MachinePrivate);
  regSigner : option RegisterSigner;
  hwSigner : option ECDSAPrivate;
  derpSrv : NodePrivate;
  derpNode : option (provider (K := NodePrivate))
}.

(** What [serveForever] is called with. *)
Record startup := mkStartup {
  st_cfg : Config;
  st_socket : string;
  st_km : keyMaterial;
  st_instanceID : string
}.

(** What startup draws from its surroundings: directory listings, fresh keys, the
    home directory, a fresh id, [config.DefaultSidecarSocket()]. *)
Record surroundings := mkSurroundings {
  readDir : string → result (list (string * bool));
  newMachines : nat → MachinePrivate;
  newResponder : MachinePrivate;
  newNodes : nat → NodePrivate;
  newServer : NodePrivate;
  home : result string;
  uuid : result string;
  DefaultSidecarSocket : string
}.
Variable env : surroundings.

(** The sequence of fallible steps: [if err != nil { return err }]. *)
Definition fbind {A B} (m : fsM (result A)) (k : A → fsM (result B)) : fsM (result B) :=
  r ← m; match r with Ok a => k a | Err e => mret (Err e) end.

(** The keys of the control surface. *)
Definition controlKeys (cc : ControlConfig) : fsM (result keyMaterial) :=
  fbind (ProvisionResponderKey (KeyStrategy cc) (NoiseKeypairPath cc) (newResponder env)) (λ rk,
  fbind (NewMachineKeyProvider (readDir env) cc (newMachines env)) (λ mk,
  fbind (LoadBindingKeys cc) (λ '(reg, hw),
  mret (Ok (mkKeyMaterial rk mk reg hw NodePrivate_zero None))))).

(** The keys of the DERP surface. *)
Definition derpKeys (dc : option DerpConfig.DerpConfig) (km : keyMaterial) : fsM (result keyMaterial) :=
  match dc with
  | None => mret (Ok km)
  | Some dc =>
      fbind (DerpConfig.ProvisionServerNodeKey_cfg dc (newServer env)) (λ srv,
      fbind (DerpConfig.NewNodeKeyProvider (readDir env) dc (newNodes env)) (λ np,
      mret (Ok (mkKeyMaterial (responder km) (machine km) (regSigner km) (hwSigner km) srv (Some np)))))
  end.

(** The first of override, configuration and default that is set. *)
Definition chooseSocket (override : string) (c : Config) : string :=
  DerpConfig.or_default (DerpConfig.or_default override (Socket (Sectool c))) (DefaultSidecarSocket env).

Definition provision (override : string) (c : Config) (cc : ControlConfig) : fsM (result startup) :=
  fbind (controlKeys cc) (λ km,
  fbind (derpKeys (Derp c) km) (λ km,
  fbind (stableInstanceID (home env) (uuid env) (Name c)) (λ id,
  mret (Ok (mkStartup c (chooseSocket override c) km id))))).

Definition run (configPath socketOverride : string) : fsM (option (result startup)) :=
  r ← LoadConfig configPath;
  match r with
  | None => mret None
  | Some (Err e) => mret (Some (Err e))
  | Some (Ok cfg) =>
      match Control cfg with
      | None => mret None
      | Some cc => s ← provision socketOverride cfg cc; mret (Some s)
      end
  end.
End run.
Arguments mkKeyMaterial {_ _ _}.
Arguments mkStartup {_ _ _}.
Arguments mkSurroundings {_ _}.

(** ** Lemmas: what validation establishes *)

Record derp_ok (c : DerpConfig.DerpConfig) : Prop := {
  dok_hosts : DerpConfig.DerpHosts c ≠ [];
  dok_key : DerpConfig.ServerKey c = DerpConfig.ServerKeySubstitute ∨
    (DerpConfig.ServerKey c = DerpConfig.ServerKeyBorrow ∧ DerpConfig.ServerKeypairPath c ≠ EmptyString);
  dok_mode : DerpConfig.RelayMode c = DerpConfig.RelayModeRelay ∨
    DerpConfig.RelayMode c = DerpConfig.RelayModeTerminate;
  dok_policy : DerpConfig.DupPolicy c ∈ [DerpConfig.DupPolicyLastWriter; DerpConfig.DupPolicyDisableFighters];
  dok_identity : DerpConfig.RelayMode c = DerpConfig.RelayModeRelay → ValidIdentity (DerpConfig.NodeIdentity c) = true
}.

Lemma derp_Validate_ok c : DerpConfig.Validate c = None ↔ derp_ok c.
Proof.
  unfold DerpConfig.Validate. split.
  - guard_case E1. guard_case E2. guard_case E3. guard_case E4. guard_case E5. guard_case E6. intros _.
    apply Nat.eqb_neq in E1. apply Contains_str_true in E2, E4, E5.
    rewrite andb_false_iff, !bool_decide_eq_false in E3.
    rewrite andb_false_iff, !negb_false_iff, bool_decide_eq_true in E6.
    split; [by intros E; rewrite E in E1|set_solver|set_solver|done|].
    intros Hr. destruct E6 as [Ht|]; [by rewrite Hr in Ht|done].
  - intros [Hh Hk Hm Hp Hi].
    assert ((length (DerpConfig.DerpHosts c) =? 0)%nat = false) as ->.
    { apply Nat.eqb_neq. by destruct (DerpConfig.DerpHosts c). }
    rewrite (proj2 (Contains_str_true _ (DerpConfig.ServerKey c))) by (destruct Hk as [->|[-> _]]; set_solver).
    rewrite (proj2 (Contains_str_true _ (DerpConfig.RelayMode c))) by (destruct Hm as [->| ->]; set_solver).
    rewrite (proj2 (Contains_str_true _ (DerpConfig.DupPolicy c))) by done.
    assert (bool_decide (DerpConfig.ServerKey c = DerpConfig.ServerKeyBorrow) &&
      bool_decide (DerpConfig.ServerKeypairPath c = EmptyString) = false) as ->.
    { rewrite andb_false_iff, !bool_decide_eq_false. destruct Hk as [->|[_ ?]]; [by left|by right]. }
    destruct Hm as [E|E]; rewrite E; [by rewrite (Hi E)|done].
Qed.

(** A configuration that startup may rely on. *)
Record config_ok `{Addr} (c : Config) (cc : ControlConfig) : Prop := {
  cok_name : Name c ≠ EmptyString;
  cok_control : Control c = Some cc;
  cok_valid : control_ok cc;
  cok_hosts : ControlHosts cc ≠ [];
  cok_derp dc : Derp c = Some dc → derp_ok dc
}.

Lemma or_default_nonempty s d : d ≠ EmptyString → DerpConfig.or_default s d ≠ EmptyString.
Proof. unfold DerpConfig.or_default. by case_bool_decide. Qed.

Lemma validate_defaults `{Addr} c0 :
  ∃ r, validate (applyDefaults c0) = Some r ∧ (r = None ↔ ∃ cc, config_ok (applyDefaults c0) cc).
Proof.
  unfold validate. cbn -[NoiseConfig.Validate DerpConfig.Validate NoiseConfig.ApplyDefaults DerpConfig.ApplyDefaults].
  set (cc := NoiseConfig.ApplyDefaults _).
  destruct (NoiseConfig.Validate cc) as [e|] eqn:Ev.
  { exists (Some e). split; [done|]. split; [done|]. intros [cc' [_ Ec Hv _ _]]. cbn in Ec.
    injection Ec as <-. apply Validate_ok in Hv. change (NoiseConfig.Validate cc = None) in Hv. congruence. }
  eexists. split; [done|]. apply Validate_ok in Ev. split.
  - intros Hd. exists cc. split; [by apply or_default_nonempty|done|done| |].
    + unfold cc, NoiseConfig.ApplyDefaults. cbn. by destruct (ControlHosts _).
    + intros dc E. apply derp_Validate_ok. cbn in E. by rewrite E in Hd.
  - intros [cc' [_ _ _ _ Hd]]. cbn in Hd. destruct (DerpConfig.ApplyDefaults <$> Derp c0) as [dc|]; [|done].
    apply derp_Validate_ok. by apply Hd.
Qed.

(** What a path denotes: the defaults alone, or the one document of the file. *)
Definition config_source `{ConfigJSON} (path : string) (fs : FS) (c0 : Config) : Prop :=
  (path = EmptyString ∧ c0 = config_zero) ∨
  (path ≠ EmptyString ∧ ∃ data rest, files fs !! path = Some data ∧
     Decode_config data = Ok (c0, rest) ∧ at_EOF rest = true).

Lemma parseConfig_ok `{ConfigJSON} path data c0 :
  parseConfig path data = Ok c0 ↔ ∃ rest, Decode_config data = Ok (c0, rest) ∧ at_EOF rest = true.
Proof.
  unfold parseConfig. destruct (Decode_config data) as [[c rest]|e].
  - destruct (at_EOF rest) eqn:E; cbn; split.
    + intros [= ->]. by exists rest.
    + by intros (? & [= -> ->] & _).
    + done.
    + intros (? & [= -> ->] & ?). congruence.
  - split; [done|]. by intros (? & ? & _).
Qed.

Lemma readConfig_spec `{ConfigJSON} `{OS} path fs :
  let '(r, fs') := readConfig path fs in
  files fs' = files fs ∧ (∀ c0, r = Ok c0 → config_source path fs c0) ∧
  (os_fault (calls fs) = None → ∀ c0, config_source path fs c0 → r = Ok c0).
Proof.
  unfold readConfig. case_bool_decide as Hp; cbn [negb].
  { split_and!; [done| |].
    - intros c0 [= <-]. by left.
    - intros _ c0 [[_ ->]|[? _]]; done. }
  unfold mbind, fs_bind, ReadFile, syscall, mret, fs_ret.
  destruct (os_fault (calls fs)) eqn:Ef; cbn; [split_and!; done|].
  destruct (files fs !! path) as [data|] eqn:Ed; cbn.
  - split_and!; [done| |].
    + intros c0 (rest & Hd & He)%parseConfig_ok. right. split; [done|]. by exists data, rest.
    + intros _ c0 [[? _]|(_ & d & rest & E & Hd & He)]; [done|]. apply parseConfig_ok. exists rest. by simplify_eq.
  - split_and!; [done|done|]. intros _ c0 [[? _]|(_ & d & rest & E & _)]; congruence.
Qed.

(** *** Startup fails for an input or output reason, not for a setting *)

(** The errors that name an unknown value of a setting. *)
Definition invalid_setting (e : error) : bool :=
  match e with ErrFmt f _ => HasPrefix f "sidescale: invalid " | _ => false end.

Definition fine {A} (r : result A) : Prop :=
  match r with Ok _ => True | Err e => invalid_setting e = false end.

Definition settled {A} (m : fsM (result A)) : Prop :=
  ∀ fs e, fst (m fs) = Err e → invalid_setting e = false.

Lemma settled_ok {A} (a : A) : settled (mret (Ok a)).
Proof. by intros fs e. Qed.

Lemma settled_err {A} e : invalid_setting e = false → settled (mret (Err e : result A)).
Proof. by intros He fs e' [= <-]. Qed.

Lemma settled_fbind {A B} (m : fsM (result A)) (k : A → fsM (result B)) :
  settled m → (∀ a, settled (k a)) → settled (fbind m k).
Proof.
  intros Hm Hk fs e. unfold fbind, mbind, fs_bind. specialize (Hm fs).
  destruct (m fs) as [[a|e'] fs1]; [apply Hk|]. cbn in *. by intros [= <-]; apply Hm.
Qed.

(** A call whose error is handed on as it is. *)
Lemma settled_pass {A B} (m : fsM (result A)) (k : result A → fsM (result B)) :
  settled m → (∀ a, settled (k (Ok a))) → (∀ e, k (Err e) = mret (Err e)) → settled (m ≫= k).
Proof.
  intros Hm Hk He fs e. unfold mbind, fs_bind. specialize (Hm fs).
  destruct (m fs) as [[a|e'] fs1]; [apply Hk|]. rewrite He. cbn in *. by intros [= <-]; apply Hm.
Qed.

(** A call whose result is only wrapped or parsed afterwards. *)
Lemma settled_bind {A B} (m : fsM A) (k : A → fsM (result B)) :
  (∀ a, settled (k a)) → settled (m ≫= k).
Proof. intros Hk fs e. unfold mbind, fs_bind. destruct (m fs) as [a fs1]. apply Hk. Qed.

Lemma settled_mret {A} (r : result A) :
  fine r → settled (mret r).
Proof. destruct r; [intros _; apply settled_ok|apply settled_err]. Qed.

Create HintDb settled.
#[export] Hint Resolve settled_ok settled_err settled_fbind : settled.
Ltac settle := repeat first [apply settled_mret | apply settled_bind; intros ? | progress cbn beta iota |
  match goal with |- settled (match ?x with _ => _ end) => destruct x end |
  match goal with |- fine (match ?x with _ => _ end) => destruct x eqn:? end |
  match goal with |- settled (if ?x then _ else _) => destruct x end];
  eauto with settled; try done.

Section startup_errors.
Context `{OS} {K : Type} `{PrivKey K}.

(** [MarshalText] is the only error that reaches the caller as it is. *)
Hypothesis marshal_settled : ∀ (k : K) e, MarshalText k = Err e → invalid_setting e = false.

Lemma settled_Load path label : settled (Load (K := K) path label).
Proof. unfold Load. settle. Qed.

Lemma settled_LoadOrCreate path label (k : K) : settled (LoadOrCreate path label k).
Proof.
  unfold LoadOrCreate. apply settled_bind. intros [[]|e]; [apply settled_Load|].
  destruct (negb _); [by apply settled_err|]. destruct (MarshalText k) as [t|e'] eqn:Em; [settle|].
  apply settled_err. by eapply marshal_settled.
Qed.

Lemma settled_provisionKey strategy path label setting (k : K) :
  strategy = "substitute"%string ∨ strategy = "borrow"%string →
  settled (provisionKey strategy path label setting k).
Proof.
  intros Hs. unfold provisionKey. destruct Hs as [->| ->].
  - rewrite (bool_decide_true (_ = _)) by done.
    case_bool_decide; [apply settled_ok|apply settled_LoadOrCreate].
  - rewrite (bool_decide_false (_ = _)), bool_decide_true by done. apply settled_Load.
Qed.

Lemma settled_loadEntries dir label es : settled (loadEntries (K := K) dir label es).
Proof.
  induction es as [|[name [|]] es IH]; cbn [loadEntries]; [apply settled_ok|done|].
  apply settled_pass; [apply settled_Load| |done]. intros k.
  apply settled_pass; [done|intros; apply settled_ok|done].
Qed.

Lemma settled_NewProvider readDir identity idLabel label (newKey : nat → K) :
  ValidIdentity identity = true ∨ identity = EmptyString →
  settled (NewProvider readDir identity idLabel label newKey).
Proof.
  intros Hv. unfold NewProvider. unfold ValidIdentity in Hv.
  destruct (bool_decide (identity = EmptyString)) eqn:E0; [apply settled_ok|].
  destruct (bool_decide (identity = IdentityShared)); [apply settled_ok|].
  destruct (bool_decide (identity = IdentityPerClient)); [apply settled_ok|].
  destruct (HasPrefix identity identityPoolPrefix).
  - apply settled_pass; [|intros; apply settled_ok|done]. unfold loadPoolKeys.
    destruct (readDir _) as [es|e]; [|by apply settled_err].
    apply settled_pass; [apply settled_loadEntries| |done]. intros [|k ks]; by apply settled_mret.
  - destruct (HasPrefix identity identityPathPrefix).
    + apply settled_pass; [apply settled_Load|intros; apply settled_ok|done].
    + apply bool_decide_eq_false in E0. by destruct Hv.
Qed.
End startup_errors.

Lemma fine_parseCertChain `{Signing} `{!X509} b : fine (default (Err (ErrNew "fuel")) (parseCertChain b)).
Proof. unfold parseCertChain. by destruct (certs _ _) as [[|]|]. Qed.

Lemma fine_parseRSAPrivateKey `{Signing} `{!X509} b : fine (parseRSAPrivateKey b).
Proof.
  unfold parseRSAPrivateKey. destruct (pem_Decode b) as [[[t k] r]|]; [|done].
  destruct (x509_PKCS1 k); [done|]. by destruct (x509_PKCS8 k) as [[]|].
Qed.

Lemma fine_parseECPrivateKey `{Signing} `{!X509} b : fine (parseECPrivateKey b).
Proof.
  unfold parseECPrivateKey, mbind, result_bind. destruct (pem_Decode b) as [[[t k] r]|]; [|done].
  destruct (x509_EC k); [by destruct (negb _)|]. destruct (x509_PKCS8 k) as [[]|]; try done. by destruct (negb _).
Qed.

Lemma settled_LoadBindingKeys `{Signing} `{!X509} `{OS} cc : settled (LoadBindingKeys cc).
Proof.
  assert (settled (loadSigner cc)) as Hs.
  { unfold loadSigner. destruct (_ && _); [|apply settled_ok]. apply settled_bind. intros [b|e]; [|by apply settled_err].
    pose proof (fine_parseRSAPrivateKey b) as Hr. destruct (parseRSAPrivateKey b); [|by apply settled_err].
    apply settled_bind. intros [c|e]; apply settled_mret; [|done].
    pose proof (fine_parseCertChain c) as Hc. by destruct (default _ _). }
  assert (settled (loadHWKey cc)) as Hk.
  { unfold loadHWKey. destruct (negb _); [|apply settled_ok]. apply settled_bind. intros [b|e]; apply settled_mret; [|done].
    pose proof (fine_parseECPrivateKey b) as Hc. by destruct (parseECPrivateKey b). }
  unfold LoadBindingKeys. apply settled_pass; [done| |done]. intros signer.
  apply settled_pass; [done|intros; apply settled_ok|done].
Qed.

Lemma settled_stableInstanceID `{OS} home uuid name : settled (stableInstanceID home uuid name).
Proof. unfold stableInstanceID, loadOrCreateInstanceID. settle. Qed.

Lemma LoadConfig_run `{Addr} `{ConfigJSON} `{OS} path fs :
  let '(r, fs') := LoadConfig path fs in
  files fs' = files fs ∧
  match r with
  | None => False
  | Some (Ok c) => (∃ c0, config_source path fs c0 ∧ c = applyDefaults c0) ∧ ∃ cc, config_ok c cc
  | Some (Err _) => os_fault (calls fs) = None →
      ¬ ∃ c0 cc, config_source path fs c0 ∧ config_ok (applyDefaults c0) cc
  end.
Proof.
  unfold LoadConfig, mbind, fs_bind. pose proof (readConfig_spec path fs) as Hr.
  destruct (readConfig path fs) as [[c0|e] fs1]; destruct Hr as (Hfs & Hok & Hiff); cbn -[validate applyDefaults].
  - split; [done|]. destruct (validate_defaults c0) as (r & -> & Hv). destruct r as [e|].
    + intros Hnf (c1 & cc & Hs & Hc). specialize (Hiff Hnf _ Hs). injection Hiff as ->.
      by discriminate (proj2 Hv (ex_intro _ cc Hc)).
    + split; [|by apply Hv]. exists c0. split; [by apply Hok|done].
  - split; [done|]. intros Hnf (c1 & cc & Hs & _). by discriminate (Hiff Hnf _ Hs).
Qed.

Section startup_lemmas.
Context `{Addr} `{ConfigJSON} `{OS} `{MachineKeys} `{NodeKeys} `{Signing} `{!X509}.
Context `{!PrivKey MachinePrivate} `{!PrivKey NodePrivate}.

Lemma fbind_ok {A B} (m : fsM (result A)) (k : A → fsM (result B)) fs b fs2 :
  fbind m k fs = (Ok b, fs2) → ∃ a fs1, m fs = (Ok a, fs1) ∧ k a fs1 = (Ok b, fs2).
Proof. unfold fbind, mbind, fs_bind. destruct (m fs) as [[a|e] fs1]; [|done]. by exists a, fs1. Qed.

(** The keys a surface's step adds. *)
Lemma derpKeys_ok env dc km fs km' fs' :
  derpKeys env dc km fs = (Ok km', fs') →
  responder km' = responder km ∧ machine km' = machine km ∧ regSigner km' = regSigner km ∧ hwSigner km' = hwSigner km ∧
  (dc = None → derpSrv km' = derpSrv km ∧ derpNode km' = derpNode km) ∧
  (∀ c, dc = Some c → is_Some (derpNode km')).
Proof.
  destruct dc as [c|]; cbn -[DerpConfig.ProvisionServerNodeKey_cfg DerpConfig.NewNodeKeyProvider].
  - intros (srv & fs1 & _ & (np & fs2 & _ & [= <- <-])%fbind_ok)%fbind_ok. cbn. naive_solver.
  - intros [= <- <-]. naive_solver.
Qed.

Lemma controlKeys_ok env cc fs km fs' :
  controlKeys env cc fs = (Ok km, fs') → derpSrv km = NodePrivate_zero ∧ derpNode km = None.
Proof.
  intros (rk & fs1 & _ & (mk & fs2 & _ & ([reg hw] & fs3 & _ & [= <- <-])%fbind_ok)%fbind_ok)%fbind_ok. done.
Qed.

Lemma provision_ok env override c cc fs s fs' :
  provision env override c cc fs = (Ok s, fs') →
  st_cfg s = c ∧ st_socket s = chooseSocket env override c ∧
  (is_Some (derpNode (st_km s)) ↔ is_Some (Derp c)) ∧
  (Derp c = None → derpSrv (st_km s) = NodePrivate_zero).
Proof.
  intros (km & fs1 & Hc & (km' & fs2 & Hd & (id & fs3 & _ & [= <- <-])%fbind_ok)%fbind_ok)%fbind_ok. cbn.
  apply controlKeys_ok in Hc as [Hs Hn]. apply derpKeys_ok in Hd as (_ & _ & _ & _ & Hnone & Hsome).
  split_and!; [done|done| |].
  - destruct (Derp c) as [dc|]; [naive_solver|]. destruct (Hnone eq_refl) as [_ ->]. by rewrite Hn.
  - intros E. destruct (Hnone E) as [-> _]. done.
Qed.

Hypothesis machine_text : ∀ (k : MachinePrivate) e, MarshalText k = Err e → invalid_setting e = false.
Hypothesis node_text : ∀ (k : NodePrivate) e, MarshalText k = Err e → invalid_setting e = false.

Lemma controlKeys_settled env cc : control_ok cc → settled (controlKeys env cc).
Proof.
  intros Hc. unfold controlKeys. apply settled_fbind.
  { apply settled_provisionKey; [done|]. destruct (ok_strategy _ Hc) as [|[]]; auto. }
  intros rk. apply settled_fbind; [apply settled_NewProvider; left; apply Hc|].
  intros mk. apply settled_fbind; [apply settled_LoadBindingKeys|]. intros [reg hw]. apply settled_ok.
Qed.

Lemma derpKeys_settled env dc km :
  derp_ok dc → ValidIdentity (DerpConfig.NodeIdentity dc) = true → settled (derpKeys env (Some dc) km).
Proof.
  intros Hd Hv. cbn. apply settled_fbind.
  { apply settled_provisionKey; [done|]. destruct (dok_key _ Hd) as [|[]]; auto. }
  intros srv. apply settled_fbind; [by apply settled_NewProvider; left|]. intros np. apply settled_ok.
Qed.

Lemma provision_settled env override c cc :
  config_ok c cc → (∀ dc, Derp c = Some dc → ValidIdentity (DerpConfig.NodeIdentity dc) = true) →
  settled (provision env override c cc).
Proof.
  intros Hok Hv. unfold provision. apply settled_fbind; [apply controlKeys_settled, Hok|]. intros km.
  apply settled_fbind.
  { destruct (Derp c) as [dc|] eqn:Ed; [|apply settled_ok].
    apply derpKeys_settled; [by eapply cok_derp|by apply Hv]. }
  intros km'. apply settled_fbind; [apply settled_stableInstanceID|]. intros id. apply settled_ok.
Qed.

(** Startup never panics, and what it starts with is valid. *)
Lemma run_ok env configPath override fs :
  ∃ r, fst (run env configPath override fs) = Some r ∧
    ∀ s, r = Ok s → ∃ cc, config_ok (st_cfg s) cc.
Proof.
  unfold run, mbind, fs_bind. pose proof (LoadConfig_run configPath fs) as Hl.
  destruct (LoadConfig configPath fs) as [[[c|e]|] fs1]; destruct Hl as [_ Hl]; [| |done].
  2: { by exists (Err e). }
  destruct Hl as [_ [cc Hc]]. rewrite (cok_control _ _ Hc).
  destruct (provision env override c cc fs1) as [[s|e] fs2] eqn:Ep; cbn; eexists; (split; [done|]); [|done].
  intros ? [= <-]. apply provision_ok in Ep as (-> & _). by exists cc.
Qed.
End startup_lemmas.

(** ** Properties *)

(** C40: Loading a configuration. Loading never panics and writes nothing; what
    it returns is the defaults laid over the built-in configuration (no path) or
    over the one document the file holds, with nothing behind it, and has passed
    the validation of both surfaces; and it refuses nothing else: a readable file
    with one document whose values are valid is loaded. *)
Theorem LoadConfig_spec `{Addr} `{ConfigJSON} `{OS} (path : string) (fs : FS) :
  let '(r, fs') := LoadConfig path fs in
  files fs' = files fs ∧ r ≠ None ∧
  (∀ c, r = Some (Ok c) →
     (∃ c0, config_source path fs c0 ∧ c = applyDefaults c0) ∧ ∃ cc, config_ok c cc) ∧
  (os_fault (calls fs) = None → ∀ c0 cc,
     config_source path fs c0 → config_ok (applyDefaults c0) cc → ∃ c, r = Some (Ok c)).
Proof.
  pose proof (LoadConfig_run path fs) as Hr. destruct (LoadConfig path fs) as [r fs'].
  destruct Hr as [Hfs Hr]. split; [done|]. destruct r as [[c|e]|]; [| |done].
  - split_and!; [done|by intros ? [= <-]|by eexists].
  - split_and!; [done|done|]. intros Hnf c0 cc Hs Hc. destruct (Hr Hnf). by exists c0, cc.
Qed.

(** Startup of a configured process. Startup never panics; when it
    succeeds, the configuration is valid, the socket is the first of the override,
    the configured one and the default that is set, and the DERP keys are there
    exactly when the surface is configured. When it fails with an invalid setting,
    loading the configuration reported it: a configuration that loaded can only
    fail for what the files hold, except for the [node_identity] of a terminate
    relay, which is validated too late. *)
Theorem startup_outcome `{Addr} `{ConfigJSON} `{OS} `{MachineKeys} `{NodeKeys} `{Signing} `{!X509}
    `{!PrivKey MachinePrivate} `{!PrivKey NodePrivate}
    (env : surroundings) (configPath override : string) (fs : FS) :
  (∀ (k : MachinePrivate) e, MarshalText k = Err e → invalid_setting e = false) →
  (∀ (k : NodePrivate) e, MarshalText k = Err e → invalid_setting e = false) →
  ∃ r, fst (run env configPath override fs) = Some r ∧
    match r with
    | Ok s =>
        (∃ cc, config_ok (st_cfg s) cc) ∧ st_socket s = chooseSocket env override (st_cfg s) ∧
        (is_Some (derpNode (st_km s)) ↔ is_Some (Derp (st_cfg s)))
    | Err e =>
        invalid_setting e = true →
        fst (LoadConfig configPath fs) = Some (Err e) ∨
        ∃ c dc, fst (LoadConfig configPath fs) = Some (Ok c) ∧ Derp c = Some dc ∧
          DerpConfig.RelayMode dc = DerpConfig.RelayModeTerminate ∧
          ValidIdentity (DerpConfig.NodeIdentity dc) = false
    end.
Proof.
  intros Hm Hn. unfold run, mbind, fs_bind. pose proof (LoadConfig_run configPath fs) as Hl.
  destruct (LoadConfig configPath fs) as [[[c|e]|] fs1]; destruct Hl as [_ Hl]; [| |done].
  2: { exists (Err e). split; [done|]. by left. }
  destruct Hl as [_ [cc Hc]]. rewrite (cok_control _ _ Hc).
  destruct (provision env override c cc fs1) as [[s|e] fs2] eqn:Ep; cbn; eexists; (split; [done|]).
  - apply provision_ok in Ep as (-> & Hs & Hk & _). by split_and!; [exists cc| |].
  - intros He. right.
    destruct (Derp c) as [dc|] eqn:Ed.
    2: { pose proof (provision_settled Hm Hn env override c cc Hc ltac:(congruence) fs1 e) as Hs.
         rewrite Ep in Hs. specialize (Hs eq_refl). congruence. }
    destruct (ValidIdentity (DerpConfig.NodeIdentity dc)) eqn:Ev.
    { pose proof (provision_settled Hm Hn env override c cc Hc ltac:(naive_solver) fs1 e) as Hs.
      rewrite Ep in Hs. specialize (Hs eq_refl). congruence. }
    exists c, dc. split_and!; [done|done| |done]. pose proof (cok_derp _ _ Hc _ Ed) as Hd.
    destruct (dok_mode _ Hd) as [Hr|]; [|done]. pose proof (dok_identity _ Hd Hr). congruence.
Qed.

(** *** Witnesses *)

#[local] Instance toy_config_json (c : Config) : ConfigJSON := {|
  Decode_config _ := Ok (c, []);
  Decode_raw b := match b with [] => Some io_EOF | _ => None end
|}.

Definition toy_key_text : PrivKey key32 := {|
  MarshalText k := Ok (`k);
  UnmarshalText b := Ok (key32_of b)
|}.

Definition toy_surroundings : @surroundings toy_machines toy_keys := {|
  readDir _ := Ok [];
  newMachines _ := toy_key x01;
  newResponder := toy_key x02;
  newNodes _ := toy_key x03;
  newServer := toy_key x04;
  home := Ok "/home"%string;
  uuid := Ok "id"%string;
  DefaultSidecarSocket := "/sock"%string
|}.

(** A terminate relay with an unknown node identity. *)
Definition terminate_config : Config :=
  mkConfig "" (mkSectool "") None (Some (DerpConfig.mkDerpConfig ["derp.test"%string] ∅ "" "" "bogus"
    DerpConfig.RelayModeTerminate "" "" [])).

Definition fs_with_config : FS := mkFS {["/c"%string := to_bytes "{}"]} 0.

Lemma terminate_config_ok : ∃ cc, @config_ok toy_addr (applyDefaults terminate_config) cc.
Proof.
  destruct (@validate_defaults toy_addr terminate_config) as (r & Hv & Hr). apply Hr.
  assert (@validate toy_addr (applyDefaults terminate_config) = Some None) as E by reflexivity. congruence.
Qed.

Lemma LoadConfig_spec_witness :
  ∃ c, fst (@LoadConfig toy_addr (toy_config_json terminate_config) (os_failing_at 99) "/c" fs_with_config)
    = Some (Ok c).
Proof.
  pose proof (@LoadConfig_spec toy_addr (toy_config_json terminate_config) (os_failing_at 99) "/c" fs_with_config) as Hs.
  destruct (@LoadConfig toy_addr (toy_config_json terminate_config) (os_failing_at 99) "/c" fs_with_config) as [r fs'].
  destruct Hs as (_ & _ & _ & Hs). destruct terminate_config_ok as [cc Hc]. cbn. eapply Hs; [reflexivity| |exact Hc].
  right. split; [done|]. eexists _, []. split_and!; reflexivity.
Defined.

(** The configuration above loads, and only startup refuses its identity. *)
Lemma terminate_identity_refused_late :
  (∃ c, fst (@LoadConfig toy_addr (toy_config_json terminate_config) (os_failing_at 99) "/c" fs_with_config)
    = Some (Ok c)) ∧
  fst (@run toy_addr (toy_config_json terminate_config) (os_failing_at 99) toy_machines toy_keys toy_signing toy_x509
    toy_key_text toy_key_text toy_surroundings "/c" "" fs_with_config) =
    Some (Err (ErrFmt "sidescale: invalid %s %q" ["derp node_identity"; "bogus"]%string)).
Proof. split; [eexists|]; reflexivity. Qed.

Lemma startup_outcome_witness :
  ∃ r, fst (@run toy_addr (toy_config_json terminate_config) (os_failing_at 99) toy_machines toy_keys toy_signing toy_x509
    toy_key_text toy_key_text toy_surroundings "/c" "" fs_with_config) = Some r.
Proof.
  destruct (@startup_outcome toy_addr (toy_config_json terminate_config) (os_failing_at 99) toy_machines toy_keys
    toy_signing toy_x509 toy_key_text toy_key_text toy_surroundings "/c" "" fs_with_config) as (r & Hr & _);
    [done|done|by exists r].
Defined.
