(* ===== verification/Registration.v ===== *)
(** * Registration and stream routing: [sidescale/registration.go], [dispatch.go]

    The claims a process registers with sectool, and the dispatcher that hands
    every accepted stream, send, tool call and shutdown to a surface. The surfaces
    are the handlers of [NoiseTunnel] and [DerpTunnel]. *)

From Stdlib Require Import Init.Byte Strings.Byte Lia ZArith Ascii String.
From stdpp Require Import base option list fin_maps fin_sets gmap sets strings.
From S2P Require Import Prelude GoStd External Instances Adapter NoiseConfig ExternalControl Config.
From S2P Require DerpConfig DerpCapture DerpInject MapStream NoiseCapture NoiseInject.
Open Scope Z_scope.
Open Scope go_scope.

(** ** The payload: the fields of [sidecar/wire] that sidescale fills *)

(** The two JSON schemas, [injectionTargetSchema] and [derp.InjectionTargetSchema]. *)
Inductive schema := ControlSchema | DerpSchema.

Record UpgradeClaim := mkUpgradeClaim {
  HostPattern : string;
  PathPattern : string;
  UpgradeSignal : string;
  MethodSet : list string
}.

(** [Cert] holds the DNS names of a certificate request. *)
Record TLSClaim := mkTLSClaim { Terminate : bool; SNIMatch : string; Cert : option (list string) }.

Record EarlyClaim := mkEarlyClaim { PortRange : Z * Z; HostMatch : string; TLS : option TLSClaim }.

Record Capabilities := mkCapabilities {
  InjectionTargets : list schema;
  UpgradeClaims : list UpgradeClaim;
  EarlyClaims : list EarlyClaim
}.

Record MCPTool := mkTool { ToolName : string; Description : string; InputSchema : schema }.

Record Registration := mkRegistration {
  reg_Name : string;
  reg_Protocols : list string;
  reg_Capabilities : Capabilities;
  reg_MCPTools : list MCPTool;
  reg_InstanceID : string;
  reg_Resume : bool
}.

Definition injectToolDescription : string :=
  "Originate a Tailscale control-plane request (register/map/custom endpoint) into a fresh Noise tunnel with a distinct identity (does not disturb live clients) and capture the response. Set reuse_tunnel with tunnel_id to ride a live client's tunnel instead (disturbs that client's map session). A streaming response (map with stream:true) returns the stream parent flow id; read the chunk children via flow_get/proxy_poll.".

Definition derpInjectToolDescription : string :=
  "Originate a DERP frame into an active tunnel (or, under relay mode, a fresh one) and capture it. Most useful for server->client frames a malicious relay could send (RECV_PACKET, PEER_GONE, PEER_PRESENT, HEALTH, RESTARTING, PONG).".

Definition mitmProtocols : list string :=
  [NoiseCapture.tunnelProtocolTag; NoiseCapture.controlProtocolTag; MapStream.streamProtocolTag].
Definition derpProtocols : list string := [DerpCapture.tunnelProtocolTag; DerpCapture.frameProtocolTag].

(** ** [buildRegistration] *)

Section registration.
Context `{Addr}.

Definition ts2021_claim (host : string) : UpgradeClaim :=
  mkUpgradeClaim host "/ts2021" "http_101" ["POST"%string].

Definition derp_claim (host : string) : UpgradeClaim :=
  mkUpgradeClaim host "/derp" "http_101" ["GET"%string].

Definition tls_claim (host : string) (port : Z) (cert : option (list string)) : EarlyClaim :=
  mkEarlyClaim (port, port) host (Some (mkTLSClaim true host cert)).

(** The control strategy that serves /key in the byte path. *)
Definition sidecar_tls (cc : ControlConfig) : bool :=
  bool_decide (KeyStrategy cc = KeyStrategySubstitute) && bool_decide (KeySubstitution cc = KeySubSidecarTLS).

(** The loop over the control hosts, with the hosts already [seen]. *)
Fixpoint controlClaims (cc : ControlConfig) (hosts : list string) (seen : gset string) (caps : Capabilities)
    : Capabilities :=
  match hosts with
  | [] => caps
  | ch :: hosts =>
      let '(host, clientPort) := addr_Parse ch "https" in
      if bool_decide (host = EmptyString) then controlClaims cc hosts seen caps
      else if bool_decide (host ∈ seen) then controlClaims cc hosts seen caps
      else
        let early := if sidecar_tls cc then EarlyClaims caps ++ [tls_claim host clientPort None]
                     else EarlyClaims caps in
        controlClaims cc hosts ({[host]} ∪ seen)
          (mkCapabilities (InjectionTargets caps) (UpgradeClaims caps ++ [ts2021_claim host]) early)
  end.

(** The certificate asked for by a terminate claim. *)
Definition certSpec (dc : DerpConfig.DerpConfig) : option (list string) :=
  if (0 <? len (DerpConfig.CertNameSANs dc)) then Some (DerpConfig.CertNameSANs dc) else None.

Fixpoint derpClaims (dc : DerpConfig.DerpConfig) (hosts : list string) (caps : Capabilities) : Capabilities :=
  match hosts with
  | [] => caps
  | h :: hosts =>
      let '(host, port) := addr_Parse h "https" in
      derpClaims dc hosts
        (if bool_decide (DerpConfig.RelayMode dc = DerpConfig.RelayModeTerminate) then
           mkCapabilities (InjectionTargets caps) (UpgradeClaims caps)
             (EarlyClaims caps ++ [tls_claim host port (certSpec dc)])
         else mkCapabilities (InjectionTargets caps) (UpgradeClaims caps ++ [derp_claim host]) (EarlyClaims caps))
  end.

Definition addDerpClaims (dc : DerpConfig.DerpConfig) (caps : Capabilities) : Capabilities :=
  derpClaims dc (DerpConfig.DerpHosts dc) caps.

Definition add_target (s : schema) (caps : Capabilities) : Capabilities :=
  mkCapabilities (InjectionTargets caps ++ [s]) (UpgradeClaims caps) (EarlyClaims caps).

(** [None] is a panic: a nil [cfg.Control]. *)
Definition buildRegistration (c : Config) (instanceID : string) : option Registration :=
  match Control c with
  | None => None
  | Some cc =>
      let caps := controlClaims cc (ControlHosts cc) ∅ (mkCapabilities [ControlSchema] [] []) in
      let tools := [mkTool NoiseInject.InjectToolName injectToolDescription ControlSchema] in
      Some (match Derp c with
            | Some dc =>
                mkRegistration (Name c) (mitmProtocols ++ derpProtocols)
                  (add_target DerpSchema (addDerpClaims dc caps))
                  (tools ++ [mkTool DerpInject.InjectToolName derpInjectToolDescription DerpSchema])
                  instanceID true
            | None => mkRegistration (Name c) mitmProtocols caps tools instanceID true
            end)
  end.
End registration.

(** ** [routeOpen] *)

Inductive surface := SurfaceNoise | SurfaceDerp.

Definition ts2021Path : string := "/ts2021".
Definition derpPath : string := "/derp".

Section route.
Context `{Addr}.

(** What the dispatcher keeps of the configuration: [hasDerp] is [d.derp != nil],
    which holds when the configuration has the surface. *)
Record routes := mkRoutes {
  rt_control : ControlConfig;
  rt_derp : option DerpConfig.DerpConfig;
  controlHosts : gset string;
  derpHosts : gset string
}.

Definition hostSet (hosts : list string) : gset string :=
  list_to_set (map (λ h, fst (addr_Parse h "https")) hosts).

Definition newRoutes (c : Config) : option routes :=
  match Control c with
  | None => None
  | Some cc =>
      Some (mkRoutes cc (Derp c) (hostSet (ControlHosts cc))
              (match Derp c with Some dc => hostSet (DerpConfig.DerpHosts dc) | None => ∅ end))
  end.

Definition terminates (d : routes) : bool :=
  match rt_derp d with
  | Some dc => bool_decide (DerpConfig.RelayMode dc = DerpConfig.RelayModeTerminate)
  | None => false
  end.

(** The path and the host of [wire.StreamOpenParams]. *)
Definition routeOpen (d : routes) (path host : string) : option surface :=
  if bool_decide (path = ts2021Path) then Some SurfaceNoise
  else if bool_decide (path = derpPath) && bool_decide (is_Some (rt_derp d)) then Some SurfaceDerp
  else if bool_decide (path = EmptyString) then
    let host := fst (addr_Parse host "https") in
    if terminates d && bool_decide (host ∈ derpHosts d) then Some SurfaceDerp
    else if sidecar_tls (rt_control d) && bool_decide (host ∈ controlHosts d) then Some SurfaceNoise
    else None
  else None.
End route.

(** ** Lemmas: the claims of each surface *)

Section claims.
Context `{Addr}.

(** The host of a configured or announced address, in lower case. *)
Definition host_of (ch : string) : string := fst (addr_Parse ch "https").

(** An early claim for [host] on the port of one of the configured spellings. *)
Definition claims_host (hosts : list string) (cert : option (list string)) (host : string) (e : EarlyClaim) : Prop :=
  ∃ ch, ch ∈ hosts ∧ addr_Parse ch "https" = (host, snd (addr_Parse ch "https")) ∧
    e = tls_claim host (snd (addr_Parse ch "https")) cert.

Lemma claims_host_cons x hosts cert h e : claims_host hosts cert h e → claims_host (x :: hosts) cert h e.
Proof. intros (ch & Hc & Hp). exists ch. split; [by right|done]. Qed.

Lemma hostSet_cons ch hosts : hostSet (ch :: hosts) = {[host_of ch]} ∪ hostSet hosts.
Proof. done. Qed.

Lemma elem_of_hostSet h hosts : h ∈ hostSet hosts ↔ ∃ ch, ch ∈ hosts ∧ host_of ch = h.
Proof. unfold hostSet. rewrite elem_of_list_to_set, list_elem_of_fmap. naive_solver. Qed.

(** One claim per distinct, non-empty host that has not been seen. *)
Lemma controlClaims_spec cc hosts : ∀ seen caps,
  ∃ hs es, controlClaims cc hosts seen caps =
      mkCapabilities (InjectionTargets caps) (UpgradeClaims caps ++ map ts2021_claim hs) (EarlyClaims caps ++ es) ∧
    NoDup hs ∧ (∀ h, h ∈ hs ↔ h ∈ hostSet hosts ∧ h ≠ EmptyString ∧ h ∉ seen) ∧
    (if sidecar_tls cc then Forall2 (claims_host hosts None) hs es else es = []).
Proof.
  induction hosts as [|ch hosts IH]; intros seen [tg up ea]; cbn [controlClaims].
  { exists [], []. rewrite !app_nil_r. split_and!; [done|constructor| |by destruct (sidecar_tls cc)].
    intros h. unfold hostSet. cbn. set_solver. }
  assert (addr_Parse ch "https" = (host_of ch, snd (addr_Parse ch "https"))) as Ep by apply surjective_pairing.
  destruct (addr_Parse ch "https") as [host port] eqn:Ech. cbn [snd] in Ep.
  assert (host_of ch = host) as Eh by (unfold host_of; by rewrite Ech). rewrite hostSet_cons, Eh.
  case_bool_decide as He; [|case_bool_decide as Hs].
  1, 2: destruct (IH seen (mkCapabilities tg up ea)) as (hs & es & -> & Hnd & Hin & Hes); exists hs, es;
    (split_and!; [done|done| |destruct (sidecar_tls cc); [eapply Forall2_impl; [done|]; by apply claims_host_cons|done]]);
    intros h; rewrite Hin; set_solver.
  cbn [InjectionTargets UpgradeClaims EarlyClaims]. set (ea' := if sidecar_tls cc then _ else _).
  destruct (IH ({[host]} ∪ seen) (mkCapabilities tg (up ++ [ts2021_claim host]) ea')) as (hs & es & -> & Hnd & Hin & Hes).
  cbn [InjectionTargets UpgradeClaims EarlyClaims].
  exists (host :: hs), ((if sidecar_tls cc then [tls_claim host port None] else []) ++ es). split_and!.
  - unfold ea'. destruct (sidecar_tls cc); cbn; by rewrite <-?app_assoc.
  - constructor; [|done]. rewrite Hin. set_solver.
  - intros h. rewrite elem_of_cons, Hin. destruct (decide (h = host)) as [->|]; set_solver.
  - destruct (sidecar_tls cc); [|done]. cbn. constructor.
    + exists ch. rewrite Ech. split_and!; [by left|done|done].
    + eapply Forall2_impl; [done|]. by apply claims_host_cons.
Qed.

Lemma derpClaims_spec dc hosts : ∀ caps,
  derpClaims dc hosts caps =
    if bool_decide (DerpConfig.RelayMode dc = DerpConfig.RelayModeTerminate)
    then mkCapabilities (InjectionTargets caps) (UpgradeClaims caps)
      (EarlyClaims caps ++ map (λ h, tls_claim (host_of h) (snd (addr_Parse h "https")) (certSpec dc)) hosts)
    else mkCapabilities (InjectionTargets caps) (UpgradeClaims caps ++ map (λ h, derp_claim (host_of h)) hosts)
      (EarlyClaims caps).
Proof.
  induction hosts as [|h hosts IH]; intros [tg up ea]; cbn [derpClaims map].
  { rewrite !app_nil_r. by case_bool_decide. }
  destruct (addr_Parse h "https") as [host port] eqn:Eh.
  assert (host_of h = host) as -> by (unfold host_of; by rewrite Eh). rewrite IH.
  case_bool_decide; cbn; rewrite <-app_assoc; done.
Qed.
End claims.

(** The DERP claims of a configuration. *)
Definition derp_upgrades `{Addr} (odc : option DerpConfig.DerpConfig) : list UpgradeClaim :=
  match odc with
  | Some dc => if bool_decide (DerpConfig.RelayMode dc = DerpConfig.RelayModeTerminate) then []
               else map (λ h, derp_claim (host_of h)) (DerpConfig.DerpHosts dc)
  | None => []
  end.

Definition derp_earlies `{Addr} (odc : option DerpConfig.DerpConfig) : list EarlyClaim :=
  match odc with
  | Some dc => if bool_decide (DerpConfig.RelayMode dc = DerpConfig.RelayModeTerminate)
               then map (λ h, tls_claim (host_of h) (snd (addr_Parse h "https")) (certSpec dc)) (DerpConfig.DerpHosts dc)
               else []
  | None => []
  end.

Lemma buildRegistration_claims `{Addr} c cc id :
  config_ok c cc →
  ∃ r hs es, buildRegistration c id = Some r ∧
    UpgradeClaims (reg_Capabilities r) = map ts2021_claim hs ++ derp_upgrades (Derp c) ∧
    EarlyClaims (reg_Capabilities r) = es ++ derp_earlies (Derp c) ∧
    NoDup hs ∧ (∀ h, h ∈ hs ↔ h ∈ hostSet (ControlHosts cc)) ∧
    (if sidecar_tls cc then Forall2 (claims_host (ControlHosts cc) None) hs es else es = []).
Proof.
  intros Hc. unfold buildRegistration. rewrite (cok_control _ _ Hc).
  destruct (controlClaims_spec cc (ControlHosts cc) ∅ (mkCapabilities [ControlSchema] [] [])) as (hs & es & -> & Hnd & Hin & Hes).
  cbn [InjectionTargets UpgradeClaims EarlyClaims app].
  eexists _, hs, es. split; [done|].
  assert (∀ h, h ∈ hs ↔ h ∈ hostSet (ControlHosts cc)) as Hin'.
  { intros h. rewrite Hin. split; [tauto|]. intros Hh. split_and!; [done| |set_solver].
    apply elem_of_hostSet in Hh as (ch & Hch & <-). pose proof (ok_hosts _ (cok_valid _ _ Hc)) as Hf.
    rewrite Forall_forall in Hf. by apply Hf. }
  unfold derp_upgrades, derp_earlies. destruct (Derp c) as [dc|]; cbn -[addDerpClaims].
  - unfold addDerpClaims. rewrite derpClaims_spec. case_bool_decide; cbn; rewrite ?app_nil_r; by split_and!.
  - rewrite !app_nil_r. by split_and!.
Qed.

Lemma routeOpen_ts2021 `{Addr} d host : routeOpen d ts2021Path host = Some SurfaceNoise.
Proof. done. Qed.

Lemma routeOpen_derp `{Addr} d host :
  routeOpen d derpPath host = if bool_decide (is_Some (rt_derp d)) then Some SurfaceDerp else None.
Proof. unfold routeOpen. rewrite bool_decide_false by done. by case_bool_decide. Qed.

Lemma routeOpen_early `{Addr} d host :
  routeOpen d EmptyString host =
    if terminates d && bool_decide (host_of host ∈ derpHosts d) then Some SurfaceDerp
    else if sidecar_tls (rt_control d) && bool_decide (host_of host ∈ controlHosts d) then Some SurfaceNoise
    else None.
Proof. unfold routeOpen. rewrite bool_decide_false by done. by rewrite (bool_decide_false (_ = derpPath)). Qed.

(** What [routeOpen] does with a path. *)
Lemma routeOpen_path `{Addr} d path host :
  path ≠ EmptyString →
  is_Some (routeOpen d path host) ↔ path = ts2021Path ∨ path = derpPath ∧ is_Some (rt_derp d).
Proof.
  intros Hne. unfold routeOpen. rewrite (bool_decide_false (path = EmptyString)) by done.
  case_bool_decide as Ht; [split; [by left|done]|]. rewrite <-bool_decide_and.
  case_bool_decide as Hd; [split; [by right|done]|].
  split; [by intros [? [=]]|by intros [?|?]].
Qed.

(** The upgrade claims cover the paths of the surfaces, [/derp] in relay mode only. *)
Lemma ts2021_paths `{Addr} c cc hs :
  config_ok c cc → (∀ h, h ∈ hs ↔ h ∈ hostSet (ControlHosts cc)) →
  ∀ path, path ∈ map PathPattern (map ts2021_claim hs) ↔ path = ts2021Path.
Proof.
  intros Hc Hin path. rewrite map_map. change (λ x, PathPattern _) with (λ _ : string, ts2021Path).
  rewrite list_elem_of_fmap. split; [by intros (? & -> & _)|]. intros ->.
  destruct (ControlHosts cc) as [|ch chs] eqn:Ech; [by destruct (cok_hosts _ _ Hc)|].
  exists (host_of ch). split; [done|]. apply Hin, elem_of_hostSet. exists ch. split; [left|done].
Qed.

Lemma derp_paths `{Addr} c cc :
  config_ok c cc → ∀ d path, rt_derp d = Derp c →
  path ∈ map PathPattern (derp_upgrades (Derp c)) ∨ path = derpPath ∧ terminates d = true ↔
  path = derpPath ∧ is_Some (rt_derp d).
Proof.
  intros Hc d path Hd. unfold terminates, derp_upgrades. rewrite Hd. destruct (Derp c) as [dc|] eqn:Edc.
  2: { split; [intros [?%not_elem_of_nil|[_ [=]]]; done|by intros [_ [? [=]]]]. }
  case_bool_decide as Hm.
  { split; [intros [?%not_elem_of_nil|[-> _]]; [done|by eauto]|]. intros [-> _]. by right. }
  rewrite map_map, list_elem_of_fmap. change (λ x, PathPattern _) with (λ _ : string, derpPath). split.
  - intros [(? & -> & _)|[_ [=]]]. by eauto.
  - intros [-> _]. left. pose proof (dok_hosts _ (cok_derp _ _ Hc _ Edc)) as Hne.
    destruct (DerpConfig.DerpHosts dc) as [|h hs]; [done|]. exists h. split; [done|left].
Qed.

Lemma derp_earlies_hosts `{Addr} odc h :
  h ∈ map HostMatch (derp_earlies odc) ↔
  ∃ dc, odc = Some dc ∧ DerpConfig.RelayMode dc = DerpConfig.RelayModeTerminate ∧ h ∈ hostSet (DerpConfig.DerpHosts dc).
Proof.
  unfold derp_earlies. destruct odc as [dc|]; [|split; [by intros ?%not_elem_of_nil|by intros (? & ? & _)]].
  case_bool_decide; [|split; [by intros ?%not_elem_of_nil|by intros (? & [= <-] & ? & _)]].
  rewrite map_map. change (λ x, HostMatch _) with (λ x, host_of x). split.
  - intros Hh. exists dc. unfold hostSet. by rewrite elem_of_list_to_set.
  - intros (? & [= <-] & _ & Hh). unfold hostSet in Hh. by rewrite elem_of_list_to_set in Hh.
Qed.

Lemma control_earlies_hosts `{Addr} hosts hs es :
  Forall2 (claims_host hosts None) hs es → map HostMatch es = hs.
Proof. induction 1 as [|h e hs es (ch & _ & _ & ->) _ IH]; cbn; by rewrite ?IH. Qed.

Lemma early_claim_tls `{Addr} cc hs es odc e :
  (if sidecar_tls cc then Forall2 (claims_host (ControlHosts cc) None) hs es else es = []) →
  e ∈ es ++ derp_earlies odc → ∃ port cert, e = tls_claim (HostMatch e) port cert.
Proof.
  intros Hes [He|He]%elem_of_app.
  - destruct (sidecar_tls cc); [|subst; by apply not_elem_of_nil in He].
    apply list_elem_of_lookup in He as [i Hi]. apply Forall2_lookup_r with (i := i) (y := e) in Hes; [|done].
    destruct Hes as (h & _ & ch & _ & _ & ->). by eexists _, _.
  - unfold derp_earlies in He. destruct odc as [dc|]; [|by apply not_elem_of_nil in He].
    case_bool_decide; [|by apply not_elem_of_nil in He].
    apply list_elem_of_fmap in He as (ch & -> & _). by eexists _, _.
Qed.

(** ** Properties *)

(** C11: Registration and dispatcher agree, for a validated configuration. A stream
    with a path is routed exactly when an upgrade claim was registered for that
    path, or the path is [/derp] and the relay terminates (no upgrade claim is made
    then); it goes to the surface of its path, whatever its host, so that an
    unclaimed host is not turned away although the comment of [routeOpen] says that
    it returns nil when no surface claims the stream. A pathless stream is routed
    exactly when an early claim was registered for its host, to DERP if the relay
    terminates that host and to the control surface otherwise. Every configured
    host has its claim, the control hosts one each however they are spelled, and
    every early claim asks sectool to terminate TLS for the very host it matches. *)
Theorem registration_routes `{Addr} (c : Config) (cc : ControlConfig) (instanceID : string) :
  config_ok c cc →
  ∃ r d, buildRegistration c instanceID = Some r ∧ newRoutes c = Some d ∧
    (∀ cl host, cl ∈ UpgradeClaims (reg_Capabilities r) →
       routeOpen d (PathPattern cl) host =
         Some (if bool_decide (PathPattern cl = ts2021Path) then SurfaceNoise else SurfaceDerp)) ∧
    (∀ path host, path ≠ EmptyString →
       (is_Some (routeOpen d path host) ↔
          path ∈ map PathPattern (UpgradeClaims (reg_Capabilities r)) ∨ path = derpPath ∧ terminates d = true)) ∧
    (∀ host, routeOpen d EmptyString host =
       if bool_decide (host_of host ∈ map HostMatch (EarlyClaims (reg_Capabilities r)))
       then Some (if terminates d && bool_decide (host_of host ∈ derpHosts d) then SurfaceDerp else SurfaceNoise)
       else None) ∧
    (∃ hs, UpgradeClaims (reg_Capabilities r) = map ts2021_claim hs ++ derp_upgrades (Derp c) ∧
       NoDup hs ∧ ∀ h, h ∈ hs ↔ h ∈ map host_of (ControlHosts cc)) ∧
    (∀ e, e ∈ EarlyClaims (reg_Capabilities r) → ∃ port cert, e = tls_claim (HostMatch e) port cert).
Proof.
  intros Hc. destruct (buildRegistration_claims c cc instanceID Hc) as (r & hs & es & Hr & Hup & Hea & Hnd & Hin & Hes).
  unfold newRoutes. rewrite (cok_control _ _ Hc). eexists r, _. split; [done|]. split; [done|].
  set (d := mkRoutes _ _ _ _). split_and!.
  - intros cl host. rewrite Hup. intros [(h & -> & _)%list_elem_of_fmap|Hd]%elem_of_app; [done|].
    unfold derp_upgrades in Hd. destruct (Derp c) as [dc|] eqn:Ed; [|by apply not_elem_of_nil in Hd].
    case_bool_decide; [by apply not_elem_of_nil in Hd|]. apply list_elem_of_fmap in Hd as (h & -> & _).
    cbn [PathPattern derp_claim]. change "/derp"%string with derpPath. rewrite routeOpen_derp. cbn [rt_derp d].
    by rewrite bool_decide_true.
  - intros path host Hne. rewrite Hup, map_app, elem_of_app. pose proof (routeOpen_path d path host Hne).
    pose proof (ts2021_paths c cc hs Hc Hin path). pose proof (derp_paths c cc Hc d path eq_refl). tauto.
  - intros host. rewrite routeOpen_early, Hea, map_app.
    assert (terminates d && bool_decide (host_of host ∈ derpHosts d) =
      bool_decide (host_of host ∈ map HostMatch (derp_earlies (Derp c)))) as Ht.
    { unfold terminates, d. cbn [rt_derp derpHosts].
      destruct (Derp c) as [dc|] eqn:Ed; [|symmetry; apply bool_decide_false; by intros (? & ? & _)%derp_earlies_hosts].
      rewrite <-bool_decide_and. apply bool_decide_ext. rewrite derp_earlies_hosts. naive_solver. }
    assert (sidecar_tls (rt_control d) && bool_decide (host_of host ∈ controlHosts d) =
      bool_decide (host_of host ∈ map HostMatch es)) as Hs.
    { cbn [rt_control controlHosts d]. destruct (sidecar_tls cc); cbn [andb].
      - rewrite (control_earlies_hosts _ _ _ Hes). apply bool_decide_ext. by rewrite Hin.
      - subst es. done. }
    rewrite Ht, Hs. rewrite (bool_decide_ext (_ ∈ _ ++ _) _ (elem_of_app _ _ _)), bool_decide_or.
    destruct (bool_decide (_ ∈ map _ es)), (bool_decide (_ ∈ map _ (derp_earlies _))); done.
  - exists hs. split_and!; [done|done|]. intros h. rewrite Hin, elem_of_hostSet, list_elem_of_fmap. naive_solver.
  - intros e. rewrite Hea. by apply early_claim_tls with (cc := cc) (hs := hs).
Qed.

(** A terminate relay and a sidecar-terminated control host. *)
Definition routed_config : Config :=
  mkConfig "" (mkSectool "")
    (Some (mkControlConfig ["c.example"%string] ∅ "" KeySubSidecarTLS "" "" "" "" "" "" "" ""))
    (Derp terminate_config).

Lemma routed_config_ok : ∃ cc, @config_ok toy_addr (applyDefaults routed_config) cc.
Proof.
  destruct (@validate_defaults toy_addr routed_config) as (r & Hv & Hr). apply Hr.
  assert (@validate toy_addr (applyDefaults routed_config) = Some None) as E by reflexivity. congruence.
Qed.

Lemma registration_routes_witness :
  ∃ r d, @buildRegistration toy_addr (applyDefaults routed_config) "id" = Some r ∧
    @newRoutes toy_addr (applyDefaults routed_config) = Some d ∧
    @routeOpen toy_addr d ts2021Path "c.example" = Some SurfaceNoise ∧
    @routeOpen toy_addr d EmptyString "derp.test" = Some SurfaceDerp ∧
    @routeOpen toy_addr d EmptyString "c.example" = Some SurfaceNoise ∧
    is_Some (@routeOpen toy_addr d derpPath "unclaimed.test").
Proof.
  destruct routed_config_ok as [cc Hc].
  destruct (@registration_routes toy_addr (applyDefaults routed_config) cc "id" Hc)
    as (r & d & Hr & Hd & Hup & Hpath & Hea & _). exists r, d. split; [done|]. split; [done|]. split_and!.
  - etransitivity; [apply (Hup (ts2021_claim "c.example"))|done]. injection Hr as <-. left.
  - rewrite Hea. injection Hr as <-. injection Hd as <-. reflexivity.
  - rewrite Hea. injection Hr as <-. injection Hd as <-. reflexivity.
  - apply Hpath; [done|]. right. injection Hd as <-. by split.
Defined.
