(* ===== verification/Dispatch.v ===== *)
(** * The dispatcher: [sidescale/dispatch.go] and the wiring of [serveSession]

    One handler per surface behind the routes of [Registration]: streams, sends,
    tool calls, and the shutdown that drains both. Accepted streams are served one
    after the other; what the goroutines of other streams do is behind the oracles
    of the surfaces. *)

From Stdlib Require Import Init.Byte Strings.Byte Lia ZArith Ascii String.
From stdpp Require Import base option list fin_maps gmap sets strings.
From S2P Require Import Prelude GoStd External Instances Adapter NoiseConfig ExternalControl Config Registration.
From S2P Require Import ControlInstances MapStream KeySub UpstreamPool UpstreamPoolSpec NoiseInstances.
From S2P Require DerpConfig DerpRelay DerpTunnel DerpSessionSpec DerpDrainSpec DerpReplay DerpInject NoiseTunnel NoiseReplay NoiseInject.
Open Scope Z_scope.
Open Scope go_scope.

Section dispatch.
Context `{MachineKeys} `{HWKeys} `{!TailcfgJSON} `{Signing} `{JSON} `{Addr} `{URLParse} `{Core} `{CapVersion}.
Context `{HTTP} `{!Slices} `{!ControlBase} `{EarlyNoiseMsg} `{Reassembler} `{Zstd} `{Bulk} `{Mutations} `{Env}.
Context `{Network} `{!NoiseTunnel.NoiseEnv} `{!NoiseInject.InjectionJSON}.
Context `{NodeKeys} `{DerpJSON} `{Disco} `{!Rand} `{DerpInject.InjectJSON}.

(** [derp] is nil when the process is control-only. *)
Record dispatcher := mkDispatcher {
  d_routes : routes;
  d_noise : NoiseTunnel.Handler;
  d_derp : option DerpTunnel.Handler
}.

Definition newDispatcher (c : Config) (nh : NoiseTunnel.Handler) (dh : option DerpTunnel.Handler)
    : option dispatcher :=
  match newRoutes c with Some r => Some (mkDispatcher r nh dh) | None => None end.

(** The handlers of a session, as [serveSession] builds them; the key functions
    are the closures of the key material. *)
Definition sessionHandlers (c : Config) (responder : MachinePrivate)
    (machine : string → result MachinePrivate) (reg : option Bindings.RegisterSigner) (hw : option ECDSAPrivate)
    (derpSrv : NodePrivate) (derpNode : string → result NodePrivate)
    : option (NoiseTunnel.Handler * option DerpTunnel.Handler) :=
  match Control c with
  | None => None
  | Some cc =>
      match NoiseTunnel.NewHandler cc (Name c) responder machine with
      | None => None
      | Some nh =>
          Some (NoiseTunnel.SetBindingKeys reg hw nh,
                match Derp c with
                | Some dc => Some (DerpTunnel.mkHandler dc (Name c) derpSrv derpNode)
                | None => None
                end)
      end
  end.

(** The state of a session: the pool of the control surface, the DERP handler's. *)
Record session := mkSession { ss_pool : pool; ss_derp : DerpTunnel.hstate }.

(** ** [acceptLoop]: one accepted stream *)

Record accepted := mkAccepted {
  ac_conn : connid;
  ac_StreamID : string;
  ac_Path : string;
  ac_Host : string;
  ac_RequestHeaders : list wire.Header;
  ac_RequestFlowID : string;
  ac_PeerAddr : string;
  ac_input : script
}.

Definition noise_stream (s : accepted) : NoiseTunnel.StreamConn :=
  NoiseTunnel.mkStream (ac_conn s) (ac_StreamID s) (ac_Path s) (ac_Host s) (ac_RequestHeaders s)
    (ac_RequestFlowID s) (ac_PeerAddr s) (ac_input s).

Definition derp_stream (s : accepted) : DerpTunnel.StreamConn :=
  DerpTunnel.mkStreamConn (ac_conn s) (ac_StreamID s) (ac_Path s) (ac_Host s) (ac_RequestFlowID s)
    (ac_PeerAddr s) (ac_input s).

Definition acceptStream (fuel : nat) (d : dispatcher) (ctxErr : error) (s : accepted) (st : session)
    : eff (option session) :=
  match routeOpen (d_routes d) (ac_Path s) (ac_Host s), d_derp d with
  | Some SurfaceNoise, _ =>
      obind (NoiseTunnel.ServeStream fuel (d_noise d) ctxErr (noise_stream s)) (λ _, mret (Some st))
  | Some SurfaceDerp, Some dh =>
      dst ← DerpTunnel.ServeStream dh (derp_stream s) (ss_derp st);
      mret (Some (mkSession (ss_pool st) dst))
  | _, _ => _ ← ConnClose (ac_conn s); mret (Some st)
  end.

(** The loop ends with the accept error; [None] is out of fuel. *)
Fixpoint acceptLoop (fuel : nat) (d : dispatcher) (ctxErr : error) (streams : list accepted) (st : session)
    : eff (option session) :=
  match streams with
  | [] => mret (Some st)
  | s :: streams => obind (acceptStream fuel d ctxErr s st) (acceptLoop fuel d ctxErr streams)
  end.

(** ** Sends and tools *)

Definition derpShapedSend (p : wire.SidecarSendParams) : bool :=
  let raw := if (length (wire.sp_Payload p) =? 0)%nat then wire.sp_Target p else wire.sp_Payload p in
  if (length raw =? 0)%nat then false
  else match probe_frame raw with Ok f => negb (bool_decide (f = EmptyString)) | Err _ => false end.

(** Whether the DERP surface takes the send. *)
Definition derpSend (p : wire.SidecarSendParams) : bool :=
  match wire.sp_Flow p with
  | Some f => HasPrefix (wire.ProtocolTag f) "tailscale.derp."
  | None => bool_decide (wire.sp_FlowID p = EmptyString) && derpShapedSend p
  end.

Definition not_inlined (p : wire.SidecarSendParams) : bool :=
  bool_decide (wire.sp_Flow p = None) && negb (bool_decide (wire.sp_FlowID p = EmptyString)).

Definition OnSidecarSend (d : dispatcher) (ctxErr : error) (p : wire.SidecarSendParams) (st : session)
    : option (eff NoiseReplay.sendOut) :=
  if not_inlined p then
    Some (NoiseReplay.fail_send
      (ErrFmt "sidecar_send: source flow %q not inlined; re-issue the replay" [wire.sp_FlowID p]))
  else
    match d_derp d with
    | Some dh =>
        if derpSend p then
          Some (r ← DerpInject.OnSidecarSend dh (ss_derp st) p; mret (r, None))
        else NoiseInject.OnSidecarSend (d_noise d) ctxErr p
    | None => NoiseInject.OnSidecarSend (d_noise d) ctxErr p
    end.

(** The result of a tool of either surface. *)
Inductive toolResult := ControlTool (r : NoiseInject.toolResult) | DerpTool (r : DerpInject.toolResult).

Definition tool_of {A} (f : A → toolResult) (r : result A) : result toolResult :=
  match r with Ok a => Ok (f a) | Err e => Err e end.

Definition OnInvokeTool (d : dispatcher) (ctxErr : error) (name : string) (arguments : bytes) (st : session)
    : option (eff (result toolResult * option NoiseReplay.background)) :=
  if bool_decide (name = NoiseInject.InjectToolName) then
    match NoiseInject.OnInvokeTool (d_noise d) ctxErr name arguments with
    | None => None
    | Some m => Some ('(r, bg) ← m; mret (tool_of ControlTool r, bg))
    end
  else
    match d_derp d with
    | Some dh =>
        if bool_decide (name = DerpInject.InjectToolName) then
          Some (r ← DerpInject.OnInvokeTool dh (ss_derp st) name arguments; mret (tool_of DerpTool r, None))
        else Some (mret (Err (ErrFmt "invoke_tool: unknown tool %q" [name]), None))
    | None => Some (mret (Err (ErrFmt "invoke_tool: unknown tool %q" [name]), None))
    end.

(** ** The end of a session *)

(** [visit] is the order of the range over the map of substituters. *)
Definition OnClose (visit : list keySubstituter → list keySubstituter) (d : dispatcher) : eff unit :=
  closeKeysubs (visit (NoiseTunnel.keysub (d_noise d))).

(** Both drains run concurrently; either may take its steps first. *)
Definition drains (derp : bool) (inTime : DerpTunnel.activeTunnel → bool) (st : session) : eff (Z * session) :=
  if derp then
    first ← NoiseTunnel.ask net_sched;
    if first : bool then
      '(l1, p) ← NoiseTunnel.Shutdown (ss_pool st);
      '(l2, s) ← DerpTunnel.Shutdown inTime (ss_derp st); mret (l1 + l2, mkSession p s)
    else
      '(l2, s) ← DerpTunnel.Shutdown inTime (ss_derp st);
      '(l1, p) ← NoiseTunnel.Shutdown (ss_pool st); mret (l1 + l2, mkSession p s)
  else
    '(l1, p) ← NoiseTunnel.Shutdown (ss_pool st); mret (l1, mkSession p (ss_derp st)).

Definition OnShutdown (d : dispatcher) (inTime : DerpTunnel.activeTunnel → bool) (st : session) : eff session :=
  _ ← Log "info" "sidescale shutdown requested";
  '(remaining, st) ← drains (bool_decide (is_Some (d_derp d))) inTime st;
  _ ← (if (0 <? remaining) then Log "warn" "drain window expired with tunnels open"
       else Log "info" "sidescale drained");
  mret st.
End dispatch.



(** ** Lemmas *)

Section lemmas.
Context `{MachineKeys} `{HWKeys} `{!TailcfgJSON} `{Signing} `{JSON} `{Addr} `{URLParse} `{Core} `{CapVersion}.
Context `{HTTP} `{!Slices} `{!ControlBase} `{EarlyNoiseMsg} `{Reassembler} `{Zstd} `{Bulk} `{Mutations} `{Env}.
Context `{Network} `{!NoiseTunnel.NoiseEnv} `{!NoiseInject.InjectionJSON}.
Context `{NodeKeys} `{DerpJSON} `{Disco} `{!Rand} `{DerpInject.InjectJSON}.

(** After a setup in [sidecar_tls] mode every configured host has a fetched
    substituter. *)
Lemma setup_sidecar_tls cc responder tr subs tr' :
  sidecar_tls cc = true → setupKeySubstitution cc responder tr = ((subs, None), tr') →
  ∀ host, host_of host ∈ hostSet (ControlHosts cc) →
    ∃ ks, keysubFor subs host = Some ks ∧ ks_controlHost ks = host_of host ∧ learned_from responder ks.
Proof.
  unfold sidecar_tls. intros [Hst Hsub]%andb_true_iff. apply bool_decide_eq_true in Hst, Hsub.
  unfold setupKeySubstitution. rewrite Hst, Hsub, bool_decide_true by done. cbn [negb]. unfold mbind, eff_bind.
  destruct (fetchHosts _ _ _ _ tr) as [[ss [e|]] tr1] eqn:Ef; [done|].
  rewrite bool_decide_false by done. intros [= <- <-] host Hh.
  apply fetchHosts_spec in Ef as (_ & Hall & _ & _ & Hhosts); [|constructor|constructor].
  apply elem_of_hostSet in Hh as (ch & Hch & Hp). specialize (Hhosts eq_refl ch Hch).
  change (fst (addr_Parse ch "https")) with (host_of ch) in Hhosts. rewrite Hp in Hhosts.
  destruct (find_host ss _ Hhosts) as (ks & Hf & Hin & Hk). exists ks. split_and!; [exact Hf|done|].
  rewrite Forall_forall in Hall. by destruct (Hall ks Hin).
Qed.

(** The reply to a /key request by a fetched substituter. *)
Lemma serveKey_reply cc responder ks conn path tr :
  fetched ks = true → HasPrefix path "/key" = true →
  snd (serveKey cc responder ks conn (Ok ("GET"%string, path)) tr) =
    tr ++ [EvWrite conn (http_response 200 "application/json" (subBody ks)); EvWrite conn (subBody ks); EvClose conn].
Proof.
  intros Hf Hp. unfold serveKey, deferred. rewrite (bool_decide_true _) by done. rewrite Hp. cbn [negb orb].
  unfold mbind, eff_bind. rewrite substitutedBody_fetched by done. unfold writeHTTPResponse.
  unfold mbind, eff_bind, ConnWrite, ConnClose, emit, mret, eff_ret. cbn [snd]. by rewrite <-!app_assoc.
Qed.

(** What the handlers of a session share with its configuration. *)
Lemma sessionHandlers_ok c cc responder machine reg hw srv node nh dh :
  config_ok c cc → sessionHandlers c responder machine reg hw srv node = Some (nh, dh) →
  NoiseTunnel.cfg nh = cc ∧ NoiseTunnel.responderKey nh = responder ∧
  NoiseTunnel.setupDone nh = None ∧ DerpTunnel.cfg <$> dh = Derp c.
Proof.
  intros Hc. unfold sessionHandlers. rewrite (cok_control _ _ Hc). unfold NoiseTunnel.NewHandler.
  destruct (ControlHosts cc); [done|]. intros [= <- <-]. by destruct (Derp c).
Qed.

Lemma sessionHandlers_total c cc responder machine reg hw srv node :
  config_ok c cc → is_Some (sessionHandlers c responder machine reg hw srv node).
Proof.
  intros Hc. unfold sessionHandlers. rewrite (cok_control _ _ Hc). unfold NoiseTunnel.NewHandler.
  pose proof (cok_hosts _ _ Hc). by destruct (ControlHosts cc).
Qed.

Lemma Setup_ok h tr h' tr' :
  NoiseTunnel.Setup h tr = (h', tr') → NoiseTunnel.setupDone h' = Some None →
  NoiseTunnel.cfg h' = NoiseTunnel.cfg h ∧ NoiseTunnel.responderKey h' = NoiseTunnel.responderKey h ∧
  setupKeySubstitution (NoiseTunnel.cfg h) (MachinePublic_of (NoiseTunnel.responderKey h)) tr
    = ((NoiseTunnel.keysub h', None), tr').
Proof.
  unfold NoiseTunnel.Setup, mbind, eff_bind. destruct (setupKeySubstitution _ _ tr) as [[ks err] tr1].
  intros [= <- <-]. cbn. by intros [= ->].
Qed.

(** A pathless stream of a host the control surface claimed. *)
Lemma noise_early_stream fuel h ctxErr sc tr ks :
  NoiseTunnel.ne_draining tr = false → NoiseTunnel.sc_Path sc = EmptyString →
  sidecar_tls (NoiseTunnel.cfg h) = true → NoiseTunnel.setupDone h = Some None →
  keysubFor (NoiseTunnel.keysub h) (NoiseTunnel.sc_Host sc) = Some ks →
  NoiseTunnel.ServeStream fuel h ctxErr sc tr =
    let '(_, tr') := serveKey (NoiseTunnel.cfg h) (MachinePublic_of (NoiseTunnel.responderKey h)) ks
      (NoiseTunnel.sc_conn sc) (http_ReadRequestLine (NoiseTunnel.sc_input sc)) tr in (Some tt, tr').
Proof.
  intros Hd Hp Hs Hdone Hk. unfold NoiseTunnel.ServeStream, mbind, eff_bind, NoiseTunnel.Draining. rewrite Hd, Hp.
  rewrite bool_decide_false by done. pose proof Hs as [Hst _]%andb_true_iff. unfold sidecar_tls in Hs. rewrite Hs.
  unfold NoiseTunnel.waitSetup. apply bool_decide_eq_true in Hst. rewrite Hst, Hdone.
  rewrite (bool_decide_false (_ = KeyStrategyBorrow)) by done. cbn [default from_option]. rewrite Hk.
  cbv [id]. by destruct (serveKey _ _ _ _ _ tr).
Qed.

Lemma closeTunnels_run l tr :
  ∃ evs, NoiseTunnel.closeTunnels l tr = (tt, tr ++ evs) ∧
    ∀ t, t ∈ l → EvClose (NoiseTunnel.uc_bridge (NoiseTunnel.at_up t)) ∈ evs ∧
      ∀ c, NoiseTunnel.at_client t = Some c → EvClose c ∈ evs.
Proof.
  revert tr. induction l as [|t l IH]; intros tr; cbn [NoiseTunnel.closeTunnels].
  { exists []. rewrite app_nil_r. split; [done|]. by intros t ?%not_elem_of_nil. }
  assert (∃ e1, NoiseTunnel.closeTunnelNow t tr = (tt, tr ++ e1) ∧
    EvClose (NoiseTunnel.uc_bridge (NoiseTunnel.at_up t)) ∈ e1 ∧
    ∀ c, NoiseTunnel.at_client t = Some c → EvClose c ∈ e1) as (e1 & He1 & Hb & Hc).
  { unfold NoiseTunnel.closeTunnelNow, mbind, eff_bind, ConnClose, emit.
    destruct (NoiseTunnel.at_client t) as [c|]; eexists; rewrite <-?app_assoc; (split; [done|]); set_solver. }
  unfold mbind, eff_bind. rewrite He1. destruct (IH (tr ++ e1)) as (e2 & -> & Hall).
  exists (e1 ++ e2). rewrite <-app_assoc. split; [done|].
  setoid_rewrite elem_of_app. intros t' [->|Ht]%elem_of_cons; [by eauto|].
  destruct (Hall t' Ht) as [Hb' Hc']. by eauto.
Qed.

(** The drain of the control surface, begun at history [tr]. *)
Definition noise_drained (p : pool) (tr : list event) (l : Z) (p' : pool) (evs : list event) : Prop :=
  p' = drainUpstreams (beginDrain p) ∧
  (∀ t, t ∈ NoiseTunnel.ne_liveTunnels tr →
     EvClose (NoiseTunnel.uc_bridge (NoiseTunnel.at_up t)) ∈ evs ∧
     ∀ c, NoiseTunnel.at_client t = Some c → EvClose c ∈ evs) ∧
  l = len (List.filter (λ t, negb (NoiseTunnel.ne_tornDown (tr ++ evs) t)) (NoiseTunnel.ne_liveTunnels tr)).

Lemma noise_Shutdown_run p tr :
  ∃ l p' evs, NoiseTunnel.Shutdown p tr = ((l, p'), tr ++ evs) ∧ noise_drained p tr l p' evs.
Proof.
  unfold NoiseTunnel.Shutdown, mbind, eff_bind, NoiseTunnel.ask.
  destruct (closeTunnels_run (NoiseTunnel.ne_liveTunnels tr) tr) as (evs & -> & Hall).
  eexists _, _, evs. split; [done|]. by split_and!.
Qed.

Lemma derp_Shutdown_run inTime st tr :
  ∃ l s' evs, DerpTunnel.Shutdown inTime st tr = ((l, s'), tr ++ evs) ∧ DerpTunnel.Draining s' = true ∧
    (∀ t c, t ∈ DerpTunnel.liveTunnels (DerpTunnel.reg st) → c ∈ DerpTunnel.at_forceClose t → EvClose c ∈ evs) ∧
    l = len (List.filter (λ t, negb (inTime t)) (DerpTunnel.liveTunnels (DerpTunnel.reg st))).
Proof.
  rewrite DerpDrainSpec.Shutdown_run. eexists _, _, _. split; [done|]. split_and!; [done| |done].
  intros t c Ht Hc. apply list_elem_of_fmap. exists c. split; [done|]. apply elem_of_app. left.
  rewrite list_elem_of_In, List.in_concat. exists (DerpTunnel.at_forceClose t).
  split; [apply List.in_map|]; by apply list_elem_of_In.
Qed.

Lemma some_left {A} (f : A → bool) l : (0 <? len (List.filter f l)) = existsb f l.
Proof. induction l as [|x l IH]; [done|]. cbn. destruct (f x); [|done]. cbn [orb]. apply Z.ltb_lt. cbn. lia. Qed.

Lemma drained_empty `{!BulkLaws} p :
  rtc pool_step pool0 p →
  let p' := drainUpstreams (beginDrain p) in
  upstreams p' = ∅ ∧ draining p' = true ∧ rtc pool_step pool0 p'.
Proof.
  intros Hr. assert (rtc pool_step pool0 (beginDrain p)) as Hb by (eapply rtc_r; [done|apply step_begin_drain]).
  destruct (drainUpstreams_inv (beginDrain p) (proj1 (reachable_full_inv _ Hb))) as (_ & _ & _ & Hd & _ & He).
  split_and!; [done|done|]. by eapply rtc_r, step_drain.
Qed.

(** What both drains leave behind, whichever goes first. *)
Lemma drains_run derp inTime st tr :
  ∃ l1 l2 st' evs pre mid suf, drains derp inTime st tr = ((l1 + l2, st'), tr ++ evs) ∧ evs = pre ++ mid ++ suf ∧
    noise_drained (ss_pool st) (tr ++ pre) l1 (ss_pool st') mid ∧
    if derp then
      DerpTunnel.Draining (ss_derp st') = true ∧
      (∀ t c, t ∈ DerpTunnel.liveTunnels (DerpTunnel.reg (ss_derp st)) → c ∈ DerpTunnel.at_forceClose t → EvClose c ∈ evs) ∧
      l2 = len (List.filter (λ t, negb (inTime t)) (DerpTunnel.liveTunnels (DerpTunnel.reg (ss_derp st))))
    else l2 = 0.
Proof.
  unfold drains. destruct derp; unfold mbind, eff_bind, NoiseTunnel.ask.
  2: { destruct (noise_Shutdown_run (ss_pool st) tr) as (l & p' & evs & -> & Hn).
       exists l, 0. eexists _, evs, [], evs, []. rewrite Z.add_0_r, !app_nil_r. by split_and!. }
  destruct (net_sched tr).
  - destruct (noise_Shutdown_run (ss_pool st) tr) as (l1 & p' & e1 & -> & Hn).
    destruct (derp_Shutdown_run inTime (ss_derp st) (tr ++ e1)) as (l2 & s' & e2 & -> & Hd & Hc & Hl).
    exists l1, l2. eexists _, (e1 ++ e2), [], e1, e2. rewrite <-app_assoc, app_nil_r. split_and!; try done.
    intros t c Ht Hin. apply elem_of_app. right. by eapply Hc.
  - destruct (derp_Shutdown_run inTime (ss_derp st) tr) as (l2 & s' & e2 & -> & Hd & Hc & Hl).
    destruct (noise_Shutdown_run (ss_pool st) (tr ++ e2)) as (l1 & p' & e1 & -> & Hn).
    exists l1, l2. eexists _, (e2 ++ e1), e2, e1, []. rewrite <-app_assoc, app_nil_r. split_and!; try done.
    intros t c Ht Hin. apply elem_of_app. left. by eapply Hc.
Qed.
End lemmas.

(** ** Properties *)

(** C9: Claimed streams are served. In a session built from a validated
    configuration whose setup succeeded, a pathless stream is either of no claimed
    host, and then only closed; or of a terminated DERP host, and then runs the
    synthetic relay; or of a control host, and then meets the substituter of that
    very host, never the missing-state error: a GET of /key is answered with the
    body made from the key the setup learned. *)
Theorem claimed_stream_served `{MachineKeys} `{HWKeys} `{!TailcfgJSON} `{Signing} `{JSON} `{Addr} `{URLParse}
    `{Core} `{CapVersion} `{HTTP} `{!Slices} `{!ControlBase} `{EarlyNoiseMsg} `{Reassembler} `{Zstd} `{Bulk}
    `{Env} `{Network} `{!NoiseTunnel.NoiseEnv} `{NodeKeys} `{DerpJSON} `{Disco} `{!Rand}
    (c : Config) (cc : ControlConfig) responder machine reg hw srv node (h0 h : NoiseTunnel.Handler)
    (dh : option DerpTunnel.Handler) (tr0 tr1 tr : list event) (d : dispatcher) (fuel : nat) (ctxErr : error)
    (s : accepted) (st : session) :
  config_ok c cc → sessionHandlers c responder machine reg hw srv node = Some (h0, dh) →
  NoiseTunnel.Setup h0 tr0 = (h, tr1) → NoiseTunnel.setupDone h = Some None →
  newDispatcher c h dh = Some d →
  NoiseTunnel.ne_draining tr = false → DerpTunnel.Draining (ss_derp st) = false → ac_Path s = EmptyString →
  match routeOpen (d_routes d) EmptyString (ac_Host s) with
  | None => acceptStream fuel d ctxErr s st tr = (Some st, tr ++ [EvClose (ac_conn s)])
  | Some SurfaceDerp =>
      ∃ dh', d_derp d = Some dh' ∧ ∀ r, DerpTunnel.relay (ss_derp st) = Some r →
        acceptStream fuel d ctxErr s st tr =
          let '(r', tr') := DerpTunnel.runTerminate dh' (derp_stream s) r tr in
          (Some (mkSession (ss_pool st) (DerpTunnel.mkHstate (DerpTunnel.reg (ss_derp st)) (Some r'))), tr')
  | Some SurfaceNoise =>
      ∃ ks, ks_controlHost ks = host_of (ac_Host s) ∧ learned_from (MachinePublic_of responder) ks ∧
        acceptStream fuel d ctxErr s st tr =
          (Some st, snd (serveKey cc (MachinePublic_of responder) ks (ac_conn s) (http_ReadRequestLine (ac_input s)) tr)) ∧
        (∀ path, http_ReadRequestLine (ac_input s) = Ok ("GET"%string, path) → HasPrefix path "/key" = true →
           snd (acceptStream fuel d ctxErr s st tr) =
             tr ++ [EvWrite (ac_conn s) (http_response 200 "application/json" (subBody ks));
                    EvWrite (ac_conn s) (subBody ks); EvClose (ac_conn s)])
  end.
Proof.
  intros Hc Hh Hset Hdone Hd Hndr Hddr Hp.
  destruct (sessionHandlers_ok _ _ _ _ _ _ _ _ _ _ Hc Hh) as (Hcfg & Hrk & _ & Hdh).
  destruct (Setup_ok _ _ _ _ Hset Hdone) as (Hcfg' & Hrk' & Hks). rewrite Hcfg in Hcfg', Hks. rewrite Hrk in Hrk', Hks.
  unfold newDispatcher, newRoutes in Hd. rewrite (cok_control _ _ Hc) in Hd. injection Hd as <-.
  cbn [d_routes d_derp]. unfold acceptStream. rewrite Hp. cbn [d_routes d_noise d_derp]. rewrite routeOpen_early.
  cbn [rt_control rt_derp derpHosts controlHosts].
  destruct (terminates _ && _) eqn:Et.
  - unfold terminates in Et. cbn [rt_derp] in Et. destruct (Derp c) as [dc|]; [|done].
    destruct dh as [dh|]; [|done]. cbn in Hdh. injection Hdh as Hdc. exists dh. split; [done|]. intros r Hr.
    apply andb_true_iff in Et as [Hm%bool_decide_eq_true _].
    unfold mbind, eff_bind, DerpTunnel.ServeStream. rewrite Hddr. cbn [derp_stream DerpTunnel.sc_Path]. rewrite Hp, Hr.
    rewrite (bool_decide_false (_ = DerpTunnel.derpPath)) by done. rewrite Hdc, Hm, !bool_decide_true by done.
    cbn [andb]. unfold mbind, eff_bind. by destruct (DerpTunnel.runTerminate _ _ _ tr).
  - destruct (sidecar_tls cc && _) eqn:En; [|done]. apply andb_true_iff in En as [Hs Hin%bool_decide_eq_true].
    destruct (setup_sidecar_tls _ _ _ _ _ Hs Hks _ Hin) as (ks & Hk & Hkh & Hl). exists ks. split; [done|]. split; [done|].
    assert (obind (NoiseTunnel.ServeStream fuel h ctxErr (noise_stream s)) (λ _, mret (Some st)) tr =
      (Some st, snd (serveKey cc (MachinePublic_of responder) ks (ac_conn s) (http_ReadRequestLine (ac_input s)) tr))) as E.
    { unfold obind, mbind, eff_bind. rewrite (noise_early_stream fuel h ctxErr (noise_stream s) tr ks); try done; [|by rewrite Hcfg'].
      rewrite Hcfg', Hrk'. cbn [noise_stream NoiseTunnel.sc_conn NoiseTunnel.sc_input].
      by destruct (serveKey _ _ _ _ _ tr). }
    rewrite E. split; [done|]. intros path Hrq Hpre. cbn [snd]. rewrite Hrq. apply serveKey_reply; [apply Hl|done].
Qed.

(** C10: The drain of a session. Whichever surface goes first, a shutdown
    request closes both halves of every live control tunnel and every connection
    of every live DERP tunnel, leaves the pool draining and empty, in a state its
    interleaved steps can reach, and the DERP surface refusing streams; it reports
    a warning exactly when a tunnel of either surface outlived the window. *)
Theorem shutdown_drains `{MachineKeys} `{Signing} `{BulkLaws} `{Env} `{Network} `{!NoiseTunnel.NoiseEnv} `{NodeKeys}
    (d : dispatcher) (inTime : DerpTunnel.activeTunnel → bool) (st : session) (tr : list event) :
  rtc pool_step pool0 (ss_pool st) →
  let live_derp := if bool_decide (is_Some (d_derp d))
                   then DerpTunnel.liveTunnels (DerpTunnel.reg (ss_derp st)) else [] in
  ∃ st' body level msg tr1 tr2,
    OnShutdown d inTime st tr =
      (st', tr ++ EvLog "info" "sidescale shutdown requested" :: body ++ [EvLog level msg]) ∧
    (∀ t, t ∈ NoiseTunnel.ne_liveTunnels tr1 →
       EvClose (NoiseTunnel.uc_bridge (NoiseTunnel.at_up t)) ∈ body ∧
       ∀ c, NoiseTunnel.at_client t = Some c → EvClose c ∈ body) ∧
    (∀ t c, t ∈ live_derp → c ∈ DerpTunnel.at_forceClose t → EvClose c ∈ body) ∧
    (upstreams (ss_pool st') = ∅ ∧ draining (ss_pool st') = true ∧ rtc pool_step pool0 (ss_pool st')) ∧
    (is_Some (d_derp d) → DerpTunnel.Draining (ss_derp st') = true) ∧
    level = (if existsb (λ t, negb (NoiseTunnel.ne_tornDown tr2 t)) (NoiseTunnel.ne_liveTunnels tr1) ||
                existsb (λ t, negb (inTime t)) live_derp then "warn" else "info")%string ∧
    (tr ++ [EvLog "info" "sidescale shutdown requested"]) `prefix_of` tr1 ∧ tr1 `prefix_of` tr2 ∧
    tr2 `prefix_of` (tr ++ EvLog "info" "sidescale shutdown requested" :: body).
Proof.
  intros Hr. cbv zeta. unfold OnShutdown, mbind, eff_bind, Log, emit. set (e0 := EvLog "info" _).
  destruct (drains_run (bool_decide (is_Some (d_derp d))) inTime st (tr ++ [e0]))
    as (l1 & l2 & st' & evs & pre & mid & suf & -> & -> & (Hp & Hc & Hl) & Hd).
  set (derp := if bool_decide _ then DerpTunnel.liveTunnels _ else []).
  assert ((0 <? l1 + l2) = existsb (λ t, negb (NoiseTunnel.ne_tornDown (((tr ++ [e0]) ++ pre) ++ mid) t))
    (NoiseTunnel.ne_liveTunnels ((tr ++ [e0]) ++ pre)) || existsb (λ t, negb (inTime t)) derp) as Hw.
  { rewrite <-!some_left, Hl. unfold derp. destruct (bool_decide _).
    - destruct Hd as (_ & _ & ->). apply eq_true_iff_eq. rewrite orb_true_iff, !Z.ltb_lt. lia.
    - rewrite Hd. cbn. by rewrite Z.add_0_r, orb_false_r. }
  exists st', (pre ++ mid ++ suf), (if 0 <? l1 + l2 then "warn"%string else "info"%string),
    (if 0 <? l1 + l2 then "drain window expired with tunnels open"%string else "sidescale drained"%string),
    ((tr ++ [e0]) ++ pre), (((tr ++ [e0]) ++ pre) ++ mid).
  split_and!.
  - destruct (0 <? l1 + l2); unfold mret, eff_ret; by rewrite <-!app_assoc.
  - intros t Ht. destruct (Hc t Ht) as [Q1 Q2]. split; [|intros c Hcl; specialize (Q2 c Hcl)]; rewrite !elem_of_app; auto.
  - unfold derp. destruct (bool_decide _); [|by intros t c ?%not_elem_of_nil]. by destruct Hd as (_ & Hd & _).
  - rewrite Hp. by apply drained_empty.
  - rewrite Hp. by apply drained_empty.
  - rewrite Hp. by apply drained_empty.
  - intros Hs. rewrite bool_decide_true in Hd by done. by destruct Hd.
  - by rewrite Hw.
  - by eexists.
  - by eexists.
  - exists suf. rewrite <-!app_assoc. done.
Qed.

(** *** Witnesses: the session of a terminate relay and a [sidecar_tls] host *)

#[local] Instance toy_env : Env := env_capture.
#[local] Instance toy_net : Network := net_of (Err (ErrNew "")).

Definition toy_server : @NodePrivate toy_keys := toy_key x0a.
Definition toy_nodes (_ : string) : result (@NodePrivate toy_keys) := Err (ErrNew "").
Definition toy_machine (_ : string) : result (@MachinePrivate toy_machines) := Ok (toy_mkey x0e).

Definition toy_handlers : option (NoiseTunnel.Handler * option DerpTunnel.Handler) :=
  sessionHandlers (applyDefaults routed_config) (toy_mkey x0b) toy_machine None None toy_server toy_nodes.

Definition toy_setup : NoiseTunnel.Handler * list event :=
  NoiseTunnel.Setup (match toy_handlers with Some (h, _) => h | None => toy_noise end) [].

Definition toy_key_request : accepted := mkAccepted 5 "s1" "" "c.example" [] "f1" "198.51.100.7:9" [].

Definition toy_session : session := mkSession pool0 (DerpTunnel.mkHstate DerpTunnel.registry0 None).

Lemma toy_setup_done : NoiseTunnel.setupDone (fst toy_setup) = Some None.
Proof. vm_compute. reflexivity. Qed.

Lemma claimed_stream_served_witness :
  ∃ d ks, newDispatcher (applyDefaults routed_config) (fst toy_setup)
      (match toy_handlers with Some (_, dh) => dh | None => None end) = Some d ∧
    snd (acceptStream 9 d (ErrNew "ctx") toy_key_request toy_session []) =
      [EvWrite 5%nat (http_response 200 "application/json" (subBody ks)); EvWrite 5%nat (subBody ks); EvClose 5%nat].
Proof.
  destruct routed_config_ok as [cc Hc].
  pose proof toy_setup_done as Hdone. unfold toy_setup in *.
  destruct toy_handlers as [[h0 dh]|] eqn:Eh; [|discriminate Eh].
  destruct (NoiseTunnel.Setup h0 []) as [h tr1] eqn:Es. cbn [fst] in *.
  destruct (newDispatcher (applyDefaults routed_config) h dh) as [d|] eqn:Ed; [|discriminate Ed]. exists d.
  pose proof (claimed_stream_served (applyDefaults routed_config) cc (toy_mkey x0b) toy_machine None None toy_server
    toy_nodes h0 h dh [] tr1 [] d 9 (ErrNew "ctx") toy_key_request toy_session Hc Eh Es Hdone Ed
    eq_refl eq_refl eq_refl) as Hk.
  injection Ed as <-. destruct Hk as (ks & _ & _ & _ & Hk). exists ks. split; [reflexivity|].
  by apply (Hk "/key"%string).
Defined.

Lemma shutdown_drains_witness :
  let t := @DerpTunnel.mkActiveTunnel toy_keys "t1" (toy_key x01) [1%nat; 100%nat] 1%nat None EmptyString
    (toy_key x02) (toy_key x03) false "derp.example" in
  let st := mkSession pool0 (DerpTunnel.mkHstate (DerpTunnel.registerTunnel "t1" t DerpTunnel.registry0) None) in
  let d := mkDispatcher (mkRoutes control_zero None ∅ ∅) toy_noise (Some DerpSessionSpec.toy_handler) in
  EvClose 100%nat ∈ snd (OnShutdown d (λ _, true) st []).
Proof.
  intros t st d. destruct (shutdown_drains d (λ _, true) st [])
    as (st' & body & lv & msg & tr1 & tr2 & Hrun & _ & Hc & _); [apply rtc_refl|].
  rewrite Hrun. cbn [snd app]. rewrite elem_of_cons, elem_of_app. right. left.
  apply (Hc t); [vm_compute; left|vm_compute; right; left].
Defined.
