(* ===== verification/Reconnect.v ===== *)
(** * The reconnect loop: [serveForever] and [serveSession] of [main.go]

    One attempt dials sectool and serves a session; between attempts the loop
    waits with a growing delay and gives up once an outage has lasted too long.
    What the dial answers, when a signal arrives and how a connection is served
    are functions of the history; times are nanoseconds. *)

From Stdlib Require Import Init.Byte Strings.Byte Lia ZArith Ascii String.
From stdpp Require Import base option list fin_maps gmap sets strings.
From S2P Require Import Prelude GoStd External Instances Adapter NoiseConfig ExternalControl Config Registration Trace.
From S2P Require Import ControlInstances MapStream KeySub UpstreamPool NoiseInstances.
From S2P Require NoiseTunnel.
Open Scope Z_scope.
Open Scope go_scope.

Definition time_Second : Z := 10 ^ 9.
Definition time_Minute : Z := 60 * time_Second.

Definition reconnectInitial : Z := time_Second.
Definition reconnectMax : Z := 30 * time_Second.
Definition reconnectStable : Z := 10 * time_Second.
Definition reconnectWindow : Z := 5 * time_Minute.

Definition errRemoteDrop : error := ErrNew "transport closed".
Definition errSessionSetup : error := ErrNew "session setup failed".

(** The connection to sectool and the signal context. *)
Class Sectool := {
  (** [sidecar.Dial(ctx, socket, reg)] *)
  sc_Dial : list event → string → Registration → option error;
  (** [ctx.Err() != nil] *)
  sc_ctxDone : list event → bool;
  (** [conn.Serve]: everything that happens while it runs, and its error *)
  sc_Serve : list event → option error * list event
}.

Section reconnect.
Context `{MachineKeys} `{HWKeys} `{!TailcfgJSON} `{Signing} `{JSON} `{Addr} `{URLParse} `{Core} `{CapVersion}.
Context `{Env} `{Sectool}.

(** ** [serveSession]

    Both causes of the setup error are wrapped; the one that is tested is kept. *)
Definition serveSession (nh : NoiseTunnel.Handler) : eff (Z * option error) :=
  deferred (emit EvConnClose)
    (_ ← Log "info" "sidescale registered";
     h ← NoiseTunnel.Setup nh;
     match default None (NoiseTunnel.setupDone h) with
     | Some e => mret (0, Some (ErrWrap "%w: %w" [] errSessionSetup))
     | None =>
         started ← Now;
         err ← sc_Serve;
         now ← Now;
         mret (now - started, err)
     end).

(** ** [serveForever] *)

(** [backoff] and [outage], the variables the loop and [reconnectWait] share; no
    outage is the zero time. *)
Record pacing := mkPacing { backoff : Z; outage : option Z }.

(** The wait of an attempt: go on, or return. *)
Inductive verdict := Retry (p : pacing) | Return (err : option error).

(** [false] means that the signal won. *)
Definition sleepBackoff (d : Z) : eff bool :=
  _ ← emit (EvSleep d); NoiseTunnel.ask (λ tr, negb (sc_ctxDone tr)).

Definition reconnectWait (cause : error) (p : pacing) : eff verdict :=
  now ← Now;
  let start := default now (outage p) in
  now ← Now;
  if reconnectWindow <? now - start then
    mret (Return (Some (ErrWrap "sidescale: no healthy sectool session for over %s: %w" ["5m0s"%string] cause)))
  else
    _ ← Log "stderr" "sidescale: reconnect";
    ok ← sleepBackoff (backoff p);
    mret (if ok : bool then Retry (mkPacing (Z.min (backoff p * 2) reconnectMax) (Some start))
          else Return None).

(** The signal context has ended. *)
Definition stopped : eff verdict := _ ← Log "stderr" "sidescale stopped"; mret (Return None).

(** The end of a session; [first] is [attempt == 0]. *)
Definition afterSession (first : bool) (served : Z) (err : option error) (p : pacing) : eff verdict :=
  done ← NoiseTunnel.ask sc_ctxDone;
  if done : bool then stopped
  else match err with
  | Some e =>
      if negb first && errors_Is e errSessionSetup then reconnectWait e p
      else mret (Return (Some e))
  | None =>
      let p := if reconnectStable <=? served then mkPacing reconnectInitial None else p in
      reconnectWait (ErrWrap "%w after %s" [] errRemoteDrop) p
  end.

Definition attempt (socket : string) (reg : Registration) (nh : NoiseTunnel.Handler) (first : bool) (p : pacing)
    : eff verdict :=
  dialed ← NoiseTunnel.ask (λ tr, sc_Dial tr socket reg);
  match dialed with
  | Some e =>
      done ← NoiseTunnel.ask sc_ctxDone;
      if done : bool then stopped
      else if first then mret (Return (Some (ErrWrap "sidescale: dial sectool at %s: %w" [socket] e)))
      else reconnectWait (ErrWrap "dial %s: %w" [socket] e) p
  | None =>
      '(served, err) ← serveSession nh;
      afterSession first served err p
  end.

(** [None] is out of fuel. *)
Fixpoint attempts (fuel : nat) (socket : string) (reg : Registration) (nh : NoiseTunnel.Handler) (first : bool)
    (p : pacing) : eff (option (option error)) :=
  match fuel with
  | O => mret None
  | S fuel =>
      v ← attempt socket reg nh first p;
      match v with
      | Return err => mret (Some err)
      | Retry p => attempts fuel socket reg nh false p
      end
  end.

Definition serveForever (fuel : nat) (socket : string) (reg : Registration) (nh : NoiseTunnel.Handler)
    : eff (option (option error)) :=
  attempts fuel socket reg nh true (mkPacing reconnectInitial None).
End reconnect.

(** ** Lemmas *)

(** The waits of a history. *)
Definition sleeps (evs : list event) : list Z :=
  omap (λ e, match e with EvSleep d => Some d | _ => None end) evs.

Definition awake (e : event) : Prop := match e with EvSleep _ => False | _ => True end.

Lemma sleeps_awake evs : Forall awake evs → sleeps evs = [].
Proof. induction 1 as [|e evs He _ IH]; [done|]. by destruct e. Qed.

Lemma sleeps_app l1 l2 : sleeps (l1 ++ l2) = sleeps l1 ++ sleeps l2.
Proof. apply omap_app. Qed.

(** Serving a connection does not run the reconnect loop, and a context that has
    ended stays so; and a clock that at least counts the waits. *)
Class SectoolLaws `{Sectool} : Prop := {
  serve_awake : emits awake sc_Serve;
  ctxDone_stays tr evs : sc_ctxDone tr = true → sc_ctxDone (tr ++ evs) = true
}.

Definition clock_law `{Env} : Prop :=
  ∀ tr evs, env_Now tr + foldr Z.add 0 (sleeps evs) ≤ env_Now (tr ++ evs).

Section lemmas.
Context `{MachineKeys} `{HWKeys} `{!TailcfgJSON} `{Signing} `{JSON} `{Addr} `{URLParse} `{Core} `{CapVersion}.
Context `{Env} `{SectoolLaws}.

Lemma ensureFetched_awake cc responder ks : emits awake (ensureFetched cc responder ks).
Proof. unfold ensureFetched, fetchKeyBody. solve_emits. Qed.

Lemma fetchHosts_awake cc responder hosts subs : emits awake (fetchHosts cc responder hosts subs).
Proof.
  revert subs. induction hosts as [|ch hosts IH]; intros subs; cbn [fetchHosts]; [apply emits_ret|].
  case_bool_decide; [apply IH|]. apply emits_bind; [apply ensureFetched_awake|solve_emits; apply IH].
Qed.

Lemma registerAll_awake cc responder dn todo : emits awake (registerAll cc responder dn todo).
Proof.
  revert dn. induction todo as [|ks todo IH]; intros dn; cbn [registerAll]; [apply emits_ret|].
  pose proof ensureFetched_awake. unfold substitutedBody, cached, registerResponder, initWorkflow, CoreInvoke, Log. solve_emits.
Qed.

Lemma Setup_awake nh : emits awake (NoiseTunnel.Setup nh).
Proof.
  unfold NoiseTunnel.Setup, setupKeySubstitution.
  pose proof fetchHosts_awake. pose proof registerAll_awake. solve_emits.
Qed.

Lemma serveSession_awake nh : emits awake (serveSession nh).
Proof.
  unfold serveSession, Log, Now. pose proof Setup_awake. pose proof serve_awake. solve_emits.
Qed.

(** How a wait ends, on the pacing [q] it started from. *)
Definition waited (q : pacing) (tr evs : list event) (v : verdict) : Prop :=
  match v with
  | Retry p =>
      ∃ pre start, evs = pre ++ [EvLog "stderr" "sidescale: reconnect"; EvSleep (backoff q)] ∧ Forall awake pre ∧
        p = mkPacing (Z.min (backoff q * 2) reconnectMax) (Some start) ∧
        start = default (env_Now (tr ++ pre)) (outage q) ∧ env_Now (tr ++ pre) - start ≤ reconnectWindow
  | Return None => sc_ctxDone (tr ++ evs) = true ∧ (sleeps evs = [] ∨ sleeps evs = [backoff q])
  | Return (Some _) => sleeps evs = []
  end.

Lemma waited_after q tr pre evs v :
  Forall awake pre → waited q (tr ++ pre) evs v → waited q tr (pre ++ evs) v.
Proof.
  intros Hp. unfold waited. destruct v as [p|[e|]].
  - intros (pre2 & start & -> & Hp2 & -> & Hs & Hw). exists (pre ++ pre2), start. rewrite <-app_assoc in Hs, Hw.
    rewrite <-app_assoc. split_and!; try done. by apply Forall_app.
  - intros E. by rewrite sleeps_app, E, sleeps_awake.
  - rewrite <-app_assoc, sleeps_app, (sleeps_awake pre) by done. done.
Qed.

Lemma reconnectWait_spec cause q tr : outcome (waited q tr) (reconnectWait cause q) tr.
Proof.
  unfold reconnectWait. apply out_bind, out_read, out_bind, out_read. rewrite !app_nil_r. cbv zeta.
  set (start := default _ _). destruct (Z.ltb_spec reconnectWindow (env_Now tr - start)) as [_|Hw].
  { by apply out_ret. }
  apply out_bind, out_emit, out_bind. unfold sleepBackoff. apply out_bind, out_emit.
  apply (out_read (λ _ _, _)), out_ret. cbn [app]. rewrite <-!app_assoc. cbn [app].
  destruct (sc_ctxDone _) eqn:Ed; cbn [negb].
  - split; [exact Ed|by right].
  - exists [], start. rewrite app_nil_r. split_and!; [done|constructor|done|done|lia].
Qed.

(** A session of at least the stable duration. *)
Definition healthy (nh : NoiseTunnel.Handler) : Prop :=
  ∃ tr, reconnectStable ≤ fst (fst (serveSession nh tr)).

(** One attempt waits at the current pacing, or at a fresh one after a healthy
    session. *)
Lemma attempt_spec socket reg nh first p tr :
  outcome (λ evs v, ∃ q, (q = p ∨ (q = mkPacing reconnectInitial None ∧ healthy nh)) ∧ waited q tr evs v)
    (attempt socket reg nh first p) tr.
Proof.
  assert (∀ cause pre q, Forall awake pre → (q = p ∨ (q = mkPacing reconnectInitial None ∧ healthy nh)) →
    outcome (λ evs v, ∃ q, (q = p ∨ (q = mkPacing reconnectInitial None ∧ healthy nh)) ∧ waited q tr (pre ++ evs) v)
      (reconnectWait cause q) (tr ++ pre)) as Hwait.
  { intros cause pre q Hpre Hq. apply (out_weaken _ _ _ _ (reconnectWait_spec cause q (tr ++ pre))).
    intros evs v Hw. exists q. split; [done|]. by apply waited_after. }
  assert (∀ pre, Forall awake pre → sc_ctxDone (tr ++ pre) = true →
    outcome (λ evs v, ∃ q, (q = p ∨ (q = mkPacing reconnectInitial None ∧ healthy nh)) ∧ waited q tr (pre ++ evs) v)
      stopped (tr ++ pre)) as Hstop.
  { intros pre Hpre Hd. unfold stopped, Log. apply out_bind, out_emit, out_ret. exists p. split; [by left|]. cbn.
    rewrite app_assoc. split; [by apply ctxDone_stays|]. left.
    rewrite sleeps_app, sleeps_awake; done. }
  unfold attempt. apply out_bind, out_read. rewrite app_nil_r. destruct (sc_Dial tr socket reg) as [e|].
  - apply out_bind, out_read. rewrite app_nil_r. destruct (sc_ctxDone tr) eqn:Ed.
    { specialize (Hstop [] ltac:(constructor)). rewrite app_nil_r in Hstop. by apply Hstop. }
    destruct first; [apply out_ret; exists p; by split; [left|]|].
    specialize (Hwait (ErrWrap "dial %s: %w" [socket] e) [] p). rewrite app_nil_r in Hwait.
    apply Hwait; [constructor|by left].
  - apply out_bind. destruct (out_emits awake (serveSession nh) tr (serveSession_awake nh)) as ([served err] & pre & Es & Hpre).
    exists (served, err), pre. split; [done|]. unfold afterSession. apply out_bind, out_read. rewrite !app_nil_r.
    destruct (sc_ctxDone (tr ++ pre)) eqn:Ed.
    { by apply Hstop. }
    destruct err as [e|].
    + destruct (_ && _); [apply Hwait; [done|by left]|]. apply out_ret. exists p. split; [by left|].
      rewrite !app_nil_r. cbn. by apply sleeps_awake.
    + destruct (Z.leb_spec reconnectStable served); apply Hwait; try done; [right|by left].
      split; [done|]. exists tr. by rewrite Es.
Qed.

(** *** The loop *)

Definition in_bounds (d : Z) : Prop := reconnectInitial ≤ d ≤ reconnectMax.

Lemma attempts_any socket reg nh fuel : ∀ first p tr,
  in_bounds (backoff p) →
  outcome (λ evs o, Forall in_bounds (sleeps evs) ∧ (o = Some None → sc_ctxDone (tr ++ evs) = true))
    (attempts fuel socket reg nh first p) tr.
Proof.
  induction fuel as [|fuel IH]; intros first p tr Hp; cbn [attempts]; [apply out_ret; by split; [constructor|]|].
  apply out_bind, (out_weaken _ _ _ _ (attempt_spec socket reg nh first p tr)). intros evs v (q & Hq & Hw).
  assert (in_bounds (backoff q)) as Hb.
  { destruct Hq as [->|[-> _]]; [done|]. unfold in_bounds, reconnectInitial, reconnectMax, time_Second. cbn. lia. }
  destruct v as [p'|[e|]].
  - destruct Hw as (pre & start & -> & Hpre & -> & _). eapply out_weaken; [apply IH|].
    { unfold in_bounds, reconnectInitial, reconnectMax, time_Second in *. cbn in *. lia. }
    intros evs2 o [Hs Ho]. rewrite !sleeps_app, (sleeps_awake pre) by done. split; [|by rewrite app_assoc].
    cbn. by constructor.
  - apply out_ret. cbn in Hw. rewrite app_nil_r, Hw. by split; [constructor|].
  - apply out_ret. rewrite app_nil_r. destruct Hw as [Hd Hs]. split; [|done].
    destruct Hs as [-> | ->]; [apply Forall_nil_2|by apply Forall_singleton].
Qed.

(** The delay of the [k]-th wait of an outage, and the time the first [k] take. *)
Definition delay (k : nat) : Z := Z.min (2 ^ Z.of_nat k * time_Second) reconnectMax.
Fixpoint total (k : nat) : Z := match k with O => 0 | S k => total k + delay k end.

Lemma delay_S k : delay (S k) = Z.min (delay k * 2) reconnectMax.
Proof.
  unfold delay, reconnectMax, time_Second. rewrite Nat2Z.inj_succ, Z.pow_succ_r by lia.
  assert (0 < 2 ^ Z.of_nat k) by (apply Z.pow_pos_nonneg; lia). lia.
Qed.

(** After [k] waits of one outage. *)
Definition outage_for (k : nat) (p : pacing) (tr : list event) : Prop :=
  backoff p = delay k ∧
  ((k = 0%nat ∧ outage p = None) ∨ ∃ start, outage p = Some start ∧ start + total k ≤ env_Now tr).

Lemma attempt_dead socket reg nh first p tr k :
  (∀ tr, sc_ctxDone tr = false) → clock_law → ¬ healthy nh → outage_for k p tr →
  outcome (λ evs v, match v with
    | Retry p => sleeps evs = [delay k] ∧ total k ≤ reconnectWindow ∧ outage_for (S k) p (tr ++ evs)
    | Return (Some _) => sleeps evs = []
    | Return None => False
    end) (attempt socket reg nh first p) tr.
Proof.
  intros Hlive Hclock Hdead [Hb Ho]. apply (out_weaken _ _ _ _ (attempt_spec socket reg nh first p tr)).
  intros evs v (q & [->|[_ ?]] & Hw); [|done].
  destruct v as [p'|[e|]]; [|done|destruct Hw as [Hd _]; by rewrite Hlive in Hd].
  destruct Hw as (pre & start & -> & Hpre & -> & Hs & Hw). rewrite Hb in *.
  split; [by rewrite sleeps_app, (sleeps_awake pre)|].
  pose proof (Hclock tr pre) as Hc1. rewrite (sleeps_awake pre) in Hc1 by done. cbn in Hc1.
  pose proof (Hclock (tr ++ pre) [EvLog "stderr" "sidescale: reconnect"; EvSleep (delay k)]) as Hc2.
  cbn in Hc2. rewrite <-app_assoc in Hc2.
  assert (start + total k ≤ env_Now (tr ++ pre)) as Ht.
  { destruct Ho as [[-> E]|(st & E & Ht)]; rewrite E in Hs; cbn in Hs; subst start; cbn; lia. }
  split; [lia|]. split; [by rewrite delay_S|]. right. exists start. split; [done|]. cbn [total]. lia.
Qed.

Lemma attempts_dead socket reg nh : 
  (∀ tr, sc_ctxDone tr = false) → clock_law → ¬ healthy nh →
  ∀ n k first p tr fuel, (k + n = 14)%nat → (n < fuel)%nat → outage_for k p tr →
  outcome (λ evs o, ∃ e m, o = Some (Some e) ∧ sleeps evs = map delay (seq k m) ∧ (m ≤ n)%nat)
    (attempts fuel socket reg nh first p) tr.
Proof.
  intros Hlive Hclock Hdead. induction n as [|n IH]; intros k first p tr [|fuel] Hk Hf Ho; [lia| |lia|]; cbn [attempts];
    apply out_bind, (out_weaken _ _ _ _ (attempt_dead socket reg nh first p tr k Hlive Hclock Hdead Ho));
    intros evs [p'|[e|]] Hv; try done.
  - destruct Hv as (_ & Ht & _). assert (k = 14%nat) as -> by lia. by vm_compute in Ht.
  - apply out_ret. exists e, 0%nat. by rewrite app_nil_r, Hv.
  - destruct Hv as (Hs & _ & Ho'). eapply out_weaken; [apply (IH (S k)); [lia|lia|done]|].
    intros evs2 o (e & m & -> & Hs2 & Hm). exists e, (S m). split; [done|].
    split; [|lia]. rewrite sleeps_app, Hs, Hs2. done.
  - apply out_ret. exists e, 0%nat. rewrite app_nil_r, Hv. split_and!; [done|done|lia].
Qed.
End lemmas.

(** ** Properties *)

(** C12: Reconnecting. However the dials, the sessions and the signal fall, every
    wait is between one and thirty seconds, and the loop ends without an error only
    on a signal. A dead host (no healthy session, no signal) never keeps the
    process: within fifteen attempts it returns an error, after waits of 1, 2, 4,
    8, 16 and then 30 seconds, fourteen of them at most. *)
Theorem reconnect_gives_up `{MachineKeys} `{HWKeys} `{!TailcfgJSON} `{Signing} `{JSON} `{Addr} `{URLParse} `{Core}
    `{CapVersion} `{Env} `{SectoolLaws} (socket : string) (reg : Registration) (nh : NoiseTunnel.Handler)
    (tr : list event) :
  (∀ fuel, ∃ o evs, serveForever fuel socket reg nh tr = (o, tr ++ evs) ∧
     Forall (λ d, time_Second ≤ d ≤ 30 * time_Second) (sleeps evs) ∧
     (o = Some None → sc_ctxDone (tr ++ evs) = true)) ∧
  ((∀ tr, sc_ctxDone tr = false) → clock_law → ¬ healthy nh →
   ∀ fuel, (15 ≤ fuel)%nat →
   ∃ e evs m, serveForever fuel socket reg nh tr = (Some (Some e), tr ++ evs) ∧
     sleeps evs = map delay (seq 0 m) ∧ (m ≤ 14)%nat).
Proof.
  split.
  - intros fuel. destruct (attempts_any socket reg nh fuel true (mkPacing reconnectInitial None) tr) as (o & evs & E & Hs & Ho).
    { unfold in_bounds, reconnectInitial, reconnectMax, time_Second. cbn. lia. }
    exists o, evs. by split_and!.
  - intros Hlive Hclock Hdead fuel Hf.
    destruct (attempts_dead socket reg nh Hlive Hclock Hdead 14 0 true (mkPacing reconnectInitial None) tr fuel)
      as (o & evs & E & e & m & -> & Hs & Hm); [lia|lia|by split; [|left]|].
    exists e, evs, m. by split_and!.
Qed.

(** *** Witness: a host that accepts every dial and drops it at once *)

Definition counting_env : Env := {|
  env_PushFlow := @env_PushFlow env_capture;
  env_ApplyBody := @env_ApplyBody env_capture;
  env_ApplyHeaders := @env_ApplyHeaders env_capture;
  env_Write := @env_Write env_capture;
  env_Now tr := foldr Z.add 0 (sleeps tr)
|}.

Lemma counting_clock : @clock_law counting_env.
Proof.
  intros tr evs. cbn. rewrite sleeps_app, foldr_app.
  induction (sleeps tr) as [|d l IH]; cbn; [lia|]. lia.
Qed.

#[local] Instance dropping_host : Sectool := {|
  sc_Dial _ _ _ := None;
  sc_ctxDone _ := false;
  sc_Serve tr := (None, tr)
|}.

#[local] Instance dropping_host_laws : SectoolLaws.
Proof. split; [|done]. intros tr. exists []. by rewrite app_nil_r. Qed.

#[local] Instance toy_clock : Env := counting_env.

Lemma dropping_host_dead : ¬ healthy toy_noise.
Proof.
  intros [tr Hh]. revert Hh. unfold serveSession, deferred, Log, Now, emit, mbind, eff_bind, mret, eff_ret.
  destruct (NoiseTunnel.Setup toy_noise _) as [h tr1]. destruct (default None _); cbn.
  - unfold reconnectStable, time_Second. lia.
  - rewrite Z.sub_diag. unfold reconnectStable, time_Second. lia.
Qed.

Lemma reconnect_gives_up_witness :
  ∃ e evs, serveForever 15 "/sock" (mkRegistration "s" [] (mkCapabilities [] [] []) [] "id" true) toy_noise []
    = (Some (Some e), evs).
Proof.
  destruct (reconnect_gives_up "/sock" (mkRegistration "s" [] (mkCapabilities [] [] []) [] "id" true) toy_noise [])
    as [_ Hd].
  destruct (Hd (λ _, eq_refl) counting_clock dropping_host_dead 15%nat (le_n 15)) as (e & evs & m & E & _).
  by exists e, evs.
Defined.
