(* ===== verification/Main.v ===== *)
(** * The process: [main] of [main.go]

    From the command line to the exit status: the flags as package [flag] reads
    them, startup ([Config.run]), the registration and the handlers of a session,
    and the reconnect loop ([Reconnect.serveForever]). *)

From Stdlib Require Import Init.Byte Strings.Byte Lia ZArith Ascii String.
From stdpp Require Import base option list fin_maps gmap sets strings.
From S2P Require Import Prelude GoStd External Instances Adapter Persist NoiseConfig ExternalControl Config Registration.
From S2P Require Import Trace ControlInstances MapStream KeySub UpstreamPool NoiseInstances Reconnect.
From S2P Require Dispatch NoiseTunnel.
Open Scope Z_scope.
Open Scope go_scope.

(** ** [flag.Parse] with the two string flags *)

Inductive parsed := Flags (configPath socketOverride : string) | Help | BadUsage (msg : string).

(** [name=value], cut at the first equals sign. *)
Fixpoint cut_eq (s : string) : string * option string :=
  match s with
  | EmptyString => (EmptyString, None)
  | String a s =>
      if Ascii.eqb a "=" then (EmptyString, Some s)
      else let '(name, v) := cut_eq s in (String a name, v)
  end.

(** What is behind one or two minus signs: [None] ends the flags. *)
Definition flag_name (s : string) : option string :=
  match s with
  | String "-" (String "-" EmptyString) => None
  | String "-" (String "-" s) => Some s
  | String "-" (String a s) => Some (String a s)
  | _ => None
  end.

Definition bad_name (name : string) : bool :=
  match name with EmptyString => true | String a _ => Ascii.eqb a "-" || Ascii.eqb a "=" end.

Definition set_flag (name value config socket : string) : string * string :=
  if bool_decide (name = "config"%string) then (value, socket) else (config, value).

Fixpoint parseFlags (args : list string) (config socket : string) : parsed :=
  match args with
  | [] => Flags config socket
  | s :: args =>
      match flag_name s with
      | None => Flags config socket
      | Some text =>
          if bad_name text then BadUsage ("bad flag syntax: " ++ s)%string
          else
            let '(name, value) := cut_eq text in
            if negb (bool_decide (name ∈ ["config"; "sidecar-socket"]%string)) then
              if bool_decide (name ∈ ["help"; "h"]%string) then Help
              else BadUsage ("flag provided but not defined: -" ++ name)%string
            else match value, args with
            | Some v, _ => let '(config, socket) := set_flag name v config socket in parseFlags args config socket
            | None, v :: args => let '(config, socket) := set_flag name v config socket in parseFlags args config socket
            | None, [] => BadUsage ("flag needs an argument: -" ++ name)%string
            end
      end
  end.

(** ** [main] *)

(** [Running] is out of fuel; Go's runtime exits with 2 on a panic. *)
Inductive exit := Exited (code : Z) | Panicked | Running.

Section main.
Context `{Addr} `{ConfigJSON} `{OS} `{MachineKeys} `{NodeKeys} `{Signing} `{!X509}.
Context `{!PrivKey MachinePrivate} `{!PrivKey NodePrivate}.
Context `{HWKeys} `{!TailcfgJSON} `{JSON} `{URLParse} `{Core} `{CapVersion} `{Env} `{Sectool}.
Variable env : surroundings.
(** the key providers of the key material, as the functions they are called as *)
Variable machine_fn : provider (K := MachinePrivate) → string → result MachinePrivate.
Variable node_fn : option (provider (K := NodePrivate)) → string → result NodePrivate.

(** The handlers [serveSession] builds for every session. *)
Definition handlers (s : startup) : option (NoiseTunnel.Handler * option DerpTunnel.Handler) :=
  Dispatch.sessionHandlers (st_cfg s) (responder (st_km s)) (machine_fn (machine (st_km s)))
    (regSigner (st_km s)) (hwSigner (st_km s)) (derpSrv (st_km s)) (node_fn (derpNode (st_km s))).

(** From a finished startup on. *)
Definition serve (fuel : nat) (s : startup) (tr : list event) : exit * list event :=
  match buildRegistration (st_cfg s) (st_instanceID s), handlers s with
  | Some reg, Some (nh, _) =>
      let '(o, tr) := serveForever fuel (st_socket s) reg nh tr in
      match o with
      | None => (Running, tr)
      | Some None => (Exited 0, tr)
      | Some (Some e) => (Exited 1, tr ++ [EvLog "stderr" "sidescale: %v"])
      end
  | _, _ => (Panicked, tr)
  end.

Definition main (fuel : nat) (args : list string) (fs : FS) (tr : list event) : exit * FS * list event :=
  match parseFlags args EmptyString EmptyString with
  | Help => (Exited 0, fs, tr)
  | BadUsage msg => (Exited 2, fs, tr ++ [EvLog "stderr" msg])
  | Flags configPath socketOverride =>
      let '(r, fs) := run env configPath socketOverride fs in
      match r with
      | None => (Panicked, fs, tr)
      | Some (Err e) => (Exited 1, fs, tr ++ [EvLog "stderr" "sidescale: %v"])
      | Some (Ok s) => let '(x, tr) := serve fuel s tr in (x, fs, tr)
      end
  end.
End main.

(** ** Lemmas *)

(** The spellings the flag package accepts for one flag. *)
Inductive spelling := OneArg (dashes : bool) | TwoArgs (dashes : bool).

Definition dash (d : bool) : string := if d then "--" else "-".

Definition spell (sp : spelling) (name value : string) : list string :=
  match sp with
  | OneArg d => [(dash d ++ name ++ "=" ++ value)%string]
  | TwoArgs d => [(dash d ++ name)%string; value]
  end.

Lemma parse_config sp v args config socket :
  parseFlags (spell sp "config" v ++ args) config socket = parseFlags args v socket.
Proof. by destruct sp as [[]|[]]. Qed.

Lemma parse_socket sp v args config socket :
  parseFlags (spell sp "sidecar-socket" v ++ args) config socket = parseFlags args config v.
Proof. by destruct sp as [[]|[]]. Qed.

Section lemmas.
Context `{Addr} `{ConfigJSON} `{OS} `{MachineKeys} `{NodeKeys} `{Signing} `{!X509}.
Context `{!PrivKey MachinePrivate} `{!PrivKey NodePrivate}.
Context `{HWKeys} `{!TailcfgJSON} `{JSON} `{URLParse} `{Core} `{CapVersion} `{Env} `{SectoolLaws}.
Context (env : surroundings) (machine_fn : provider (K := MachinePrivate) → string → result MachinePrivate).
Context (node_fn : option (provider (K := NodePrivate)) → string → result NodePrivate).

(** A started process has a registration and handlers. *)
Lemma serve_ready s cc :
  config_ok (st_cfg s) cc →
  ∃ reg nh dh, buildRegistration (st_cfg s) (st_instanceID s) = Some reg ∧
    handlers machine_fn node_fn s = Some (nh, dh).
Proof.
  intros Hc. unfold buildRegistration, handlers, Dispatch.sessionHandlers, NoiseTunnel.NewHandler.
  rewrite (cok_control _ _ Hc). destruct (ControlHosts cc) as [|h l] eqn:E; [by destruct (cok_hosts _ _ Hc)|].
  eexists _, _, _. split; reflexivity.
Qed.

Lemma serve_exit s cc fuel tr :
  config_ok (st_cfg s) cc →
  let '(x, tr') := serve machine_fn node_fn fuel s tr in
  (x = Exited 0 ∧ sc_ctxDone tr' = true) ∨ x = Exited 1 ∨ x = Running.
Proof.
  intros Hc. destruct (serve_ready s cc Hc) as (reg & nh & dh & Hr & Hh). unfold serve. rewrite Hr, Hh.
  destruct (attempts_any (st_socket s) reg nh fuel true (mkPacing reconnectInitial None) tr) as (o & evs & E & _ & Ho).
  { unfold in_bounds, reconnectInitial, reconnectMax, time_Second. cbn. lia. }
  unfold serveForever. rewrite E. destruct o as [[e|]|]; [by right; left| |by right; right].
  left. split; [done|by apply Ho].
Qed.

(** On a host that is never healthy the process ends by itself. *)
Lemma serve_dead s cc fuel tr :
  config_ok (st_cfg s) cc → (∀ tr, sc_ctxDone tr = false) → clock_law →
  (∀ nh dh, handlers machine_fn node_fn s = Some (nh, dh) → ¬ healthy nh) → (15 ≤ fuel)%nat →
  fst (serve machine_fn node_fn fuel s tr) = Exited 1.
Proof.
  intros Hc Hlive Hclock Hdead Hf. destruct (serve_ready s cc Hc) as (reg & nh & dh & Hr & Hh).
  unfold serve. rewrite Hr, Hh.
  destruct (attempts_dead (st_socket s) reg nh Hlive Hclock (Hdead _ _ Hh) 14 0 true (mkPacing reconnectInitial None) tr fuel)
    as (o & evs & E & e & m & -> & _); [lia|lia|by split; [|left]|].
  unfold serveForever. by rewrite E.
Qed.
End lemmas.

(** ** Properties *)

(** C39: The exit status. The flags are taken in any of their spellings and the last
    one wins. The process never panics on its way into the loop; it exits with 2
    exactly on a bad command line, before anything is read; with 0 only after
    -help or a signal; and with 1 when the configuration, the keys or the instance
    id fail, in which case it never dials, or when the loop fails. With a host that
    is never healthy and no signal it does not run for ever. *)
Theorem process_exit `{Addr} `{ConfigJSON} `{OS} `{MachineKeys} `{NodeKeys} `{Signing} `{!X509}
    `{!PrivKey MachinePrivate} `{!PrivKey NodePrivate} `{HWKeys} `{!TailcfgJSON} `{JSON} `{URLParse} `{Core}
    `{CapVersion} `{Env} `{SectoolLaws} (env : surroundings)
    (machine_fn : provider (K := MachinePrivate) → string → result MachinePrivate)
    (node_fn : option (provider (K := NodePrivate)) → string → result NodePrivate)
    (fuel : nat) (args : list string) (fs : FS) (tr : list event) :
  (∀ sp1 sp2 c s c0 s0, parseFlags (spell sp1 "config" c ++ spell sp2 "sidecar-socket" s ++ args) c0 s0
     = parseFlags args c s) ∧
  let '(x, fs', tr') := main env machine_fn node_fn fuel args fs tr in
  x ≠ Panicked ∧
  (x = Exited 2 ↔ ∃ msg, parseFlags args "" "" = BadUsage msg) ∧
  (x = Exited 2 → fs' = fs ∧ ∃ msg, tr' = tr ++ [EvLog "stderr" msg]) ∧
  (x = Exited 0 → (parseFlags args "" "" = Help ∧ fs' = fs ∧ tr' = tr) ∨ sc_ctxDone tr' = true) ∧
  (∀ c s e, parseFlags args "" "" = Flags c s → fst (run env c s fs) = Some (Err e) →
     x = Exited 1 ∧ tr' = tr ++ [EvLog "stderr" "sidescale: %v"]) ∧
  ((∀ tr, sc_ctxDone tr = false) → clock_law → (∀ s nh dh, handlers machine_fn node_fn s = Some (nh, dh) → ¬ healthy nh) →
   (15 ≤ fuel)%nat → x = Exited 1 ∨ parseFlags args "" "" = Help ∨ x = Exited 2).
Proof.
  split; [intros; by rewrite parse_config, parse_socket|]. unfold main.
  destruct (parseFlags args "" "") as [c s| |msg] eqn:Ep.
  2: { split_and!; try done; [by split; [|intros [? ?]]|by left|by right; left]. }
  2: { split_and!; try done; [by split; [exists msg|]|by intros _; split; [|exists msg]|by right; right]. }
  destruct (run_ok env c s fs) as (r & Hr & Hok). destruct (run env c s fs) as [o fs1] eqn:Er. cbn in Hr. subst o.
  destruct r as [st|e].
  2: { split_and!; try done; [by split; [|intros [? ?]]|by left]. }
  destruct (Hok st eq_refl) as [cc Hcc]. pose proof (serve_exit machine_fn node_fn st cc fuel tr Hcc) as Hx.
  pose proof (serve_dead machine_fn node_fn st cc fuel tr Hcc) as Hd.
  destruct (serve machine_fn node_fn fuel st tr) as [x tr']. cbn in Hd. split_and!.
  - by destruct Hx as [[-> _]|[-> | ->]].
  - split; [|by intros [? ?]]. by destruct Hx as [[-> _]|[-> | ->]].
  - by destruct Hx as [[-> _]|[-> | ->]].
  - intros ->. right. by destruct Hx as [[_ ?]|[|]].
  - intros c' s' e [= <- <-]. by rewrite Er.
  - intros Hl Hc Hh Hf. left. apply Hd; [done..| |done]. by apply Hh.
Qed.

(** *** Witness: a configuration whose node identity only startup refuses *)

#[local] Existing Instance dropping_host.
#[local] Existing Instance dropping_host_laws.

Definition toy_process (args : list string) : exit * FS * list event :=
  @main toy_addr (toy_config_json terminate_config) (os_failing_at 99) toy_machines toy_keys toy_signing toy_x509
    toy_key_text toy_key_text toy_hw toy_tailcfg toy_objects toy_url toy_core toy_capver counting_env dropping_host
    toy_surroundings (λ _ _, Err (ErrNew "")) (λ _ _, Err (ErrNew "")) 15 args fs_with_config [].

Lemma process_exit_witness : fst (fst (toy_process ["--config=/c"; "-sidecar-socket"; "/s"])) = Exited 1.
Proof.
  unfold toy_process.
  destruct (@process_exit toy_addr (toy_config_json terminate_config) (os_failing_at 99) toy_machines toy_keys toy_signing
    toy_x509 toy_key_text toy_key_text toy_hw toy_tailcfg toy_objects toy_url toy_core toy_capver counting_env
    dropping_host dropping_host_laws toy_surroundings (λ _ _, Err (ErrNew "")) (λ _ _, Err (ErrNew "")) 15
    ["--config=/c"; "-sidecar-socket"; "/s"]%string fs_with_config []) as [_ Hx].
  destruct (main _ _ _ _ _ _ _) as [[x fs'] tr']. destruct Hx as (_ & _ & _ & _ & Hf & _).
  eapply (Hf "/c"%string "/s"%string); reflexivity.
Defined.
